(* ===== verification/_CoqProject ===== *)
-Q . S2P
Prelude.v
Endian.v
ByteBuffer.v
BufferSpec.v
HttpMessage.v
HttpReply.v
HttpParser.v
HttpParserSpec.v
HttpParserTyping.v
Channel.v
Poller.v
EventLoop.v
EventLoopSpec.v
Time.v
TimerQueue.v
TimerQueueSpec.v
TcpConnection.v
TcpConnectionSpec.v
ConnectionTheorems.v
ThreadPool.v
HttpService.v
ExampleServer.v
HttpServiceSpec.v
SocketsOps.v
InetAddress.v
Connector.v
ConnectorSpec.v
Acceptor.v
EventLoopThread.v
TcpServer.v
TcpServerSpec.v
LogLine.v
LogLineSpec.v
SpinLock.v
LogBuffer.v
RingQueue.v
LogBufferQueue.v
LogQueueSpec.v
LogFile.v
Logger.v
ReadSmallFile.v
HttpServerStart.v
TcpClient.v
TcpClientSpec.v
ConnectionFrame.v
ConnectionLife.v
ConnectionRefs.v
ConnectionOwner.v
ConnectionEvents.v
HttpSession.v
HttpSessionSpec.v
HttpClients.v
ExampleSpec.v
TcpService.v
TcpServiceSpec.v
TcpClientService.v
TcpClientServiceSpec.v
EchoServer.v
EchoClient.v
Echo.v
EchoSpec.v
FormerTime.v
FormerLog.v
FormerLogFile.v
SmallServers.v
TestPrograms.v
LineTests.v
FormerSame.v
QueueTest.v
TimerTest.v
