(* ===== verification/Prelude.v ===== *)
(** * FakeMuduo / libfm: a verification library

    libfm is a C++17 network library in the manner of muduo: one event loop per thread over epoll, TCP servers and
    clients with callbacks, an HTTP server on top, and an asynchronous logger.  The files here translate
    its classes into definitions, member function by member function, and prove what they promise to each other and to
    their users.  Names are those of the sources; the comment in front of a definition names the file
    and lines under src/ that it translates.

    ** Conventions

    An operation is a function from the state of its component to [result]: the new state, or the fault - a
    failed [assert] (the default build keeps assertions), an access out of bounds or to a freed object, an exception, a
    call in the wrong thread, a [LOG_FATAL].  That no fault happens is always a theorem.  Memory that outlives a
    call (channels, timers, connections, log blocks) is a finite map from addresses.  Threads are
    interleaved at their accesses to shared state, by step relations or by sequences of actions ([perform], [step]) over
    which invariants are proved by induction.  System calls and the C library's formatting are section
    variables; hypotheses on them state documented behaviour, and each property that has one is applied to a
    concrete function by its witness.  Integers are [Z] with wrap-around written out where the code relies on
    the width (buffer indices, byte order, time stamps, log lines).

    ** The parts and their files

    Foundations.  [Prelude]: faults and the result monad, loops over lists ([foldM]), machine integers, bytes, slices
    of arrays, decimal numbers, C strings, [snprintf].  [Endian] (Endian.h): object representation for either byte
    order.  [Time] (TimeStamp, SystemClock).

    Buffers.  [ByteBuffer] (Buffer.h, net/Buffer.cpp) is the vector with its two indices; [BufferSpec] proves that it is a
    queue of bytes - every operation refines the operation on the list of readable bytes - and the round trip of
    integers in network order.

    The reactor.  [Channel], [Poller] (Epoller) and [EventLoop] translate the classes of that name; the class [HasLoop] is what a
    component that lives on a loop provides, so that TimerQueue, TcpConnection and Connector reuse the loop's operations
    and lemmas.  [EventLoopSpec]: the kernel's interest set is always that of the registered channels, functors run
    once and in order, no wake-up is lost.  [TimerQueue], [TimerQueueSpec]: timers on a heap with
    explicit [delete]; no timer is used after it is freed, and the timerfd is armed for the earliest.

    TCP.  [TcpConnection] with [TcpConnectionSpec] and [ConnectionTheorems]: the state machine of a connection, its output
    buffer and the functors of other threads; the bytes written to the socket and those still buffered are what was
    sent, in order.  [ConnectionEvents]: an event of a connection with one user, split into the connection's part and the
    callback; [ConnectionFrame]: what the operations leave alone; [ConnectionLife]: how far a connection is, as
    its owner has to know it; [ConnectionRefs]: the references that keep it alive, and who may still use it once it is closed.  [SocketsOps], [InetAddress]: addresses and their texts.  [Connector] and [ConnectorSpec]: attempts,
    retries and what becomes of each socket.  [Acceptor].  [EventLoopThread]: the loop thread's start and
    join, and the pool's round robin.  [TcpServer], [TcpServerSpec]: the server's connections across loops, each as far as the server
    knows it; [TcpService], [TcpServiceSpec]: the server with the objects of [TcpConnection] in their place, a refinement.  [TcpClient],
    [TcpClientSpec]: the client on top of the connector; [TcpClientService], [TcpClientServiceSpec]: the client with the objects of its
    connections, a refinement.

    HTTP.  [HttpMessage], [HttpReply], [HttpParser] (HttpContext), with [HttpParserSpec]: parsing what has been rendered gives
    it back, and the result does not depend on how the bytes arrive; [HttpParserTyping]: what holds of every parsed request.
    [HttpService] (the callbacks of HttpServer), [HttpServiceSpec]: from the bytes of a request to those of the response.
    [HttpSession], [HttpSessionSpec]: a connection of the server from its start, as a function on what it reads; [HttpClients]: what
    clients get that wait for their answers, and those that do not.  [ExampleServer], [ReadSmallFile]: the example's callback and its
    files; [HttpServerStart]: the server's object and the example's [main]; [ExampleSpec]: what the example serves.
    [ThreadPool].

    The echo examples.  [EchoServer], [EchoClient]: their callbacks; [Echo] connects the two, and [EchoSpec] proves what goes
    round between them.

    Logging.  [LogLine], [LogLineSpec]: lines encoded into and printed from a byte buffer.  [SpinLock]: the lock, why a
    section under it may be taken for one step, and the standard logger.  [LogBuffer], [RingQueue],
    [LogBufferQueue], [LogQueueSpec]: the multi-producer queue.  [LogFile]: rolling files.  [Logger]: the
    loggers and the [LOG_...] statements.  The consumer of the queue is as fine as its producers: a step is one access to what they
    share.

    Tests and the former version.  [SmallServers]: the echo server of the tests and the servers of the former examples; [TestPrograms], [LineTests],
    [QueueTest] and [TimerTest]: what the tests print.  Of the version under docs/oldfiles, which is not built, there is
    the base library: [FormerTime] (Timestamp, SystemClock), [FormerLog] (LogStream, Logging), [FormerLogFile] (AppendFile, LogFile), and
    [FormerSame], what has not changed since.

    ** What the theorems show

    Refinement and round trips: [buffer_refines_queue], [ring_is_queue], [sections_atomic], [network_ints_roundtrip], [parse_render],
    [logline_roundtrip], [address_roundtrip], [http_session_refines], [service_refines],
    [client_service_refines].  Invariants over all histories: [connection_stream], [connection_safe],
    [references_safe], [epoll_in_sync], [timers_safe], [timerfd_armed], [connector_sockets], [server_safe], [client_safe],
    [log_queue_fifo], [std_lines_whole], [log_file_bounded].  From the bytes of one end to those of the other:
    [echo_server_echoes], [string_echo_echoes], [datetime_told], [echo_conversation], [waiting_client_answered],
    [example_site_served].  The type of what the parser
    returns: [parsed_request_typed].  Functional behaviour: [sendInLoop_cases], [handleEvent_order],
    [handleRead_turn], [doPendingFunctors_once], [http_request_served], [handleRead_accepts], [round_robin].  Progress and
    termination: [output_drains], [async_logger_drains], [parseRequest_returns], [destructor_joins], [no_lost_wakeup].
    And what the code does where it does not do what it means to: [readFd_overflow], [toString_fraction],
    [pool_never_executes], [recycled_block_replays], [block_freed_in_use], [roll_keeps_or_loses], [destroyed_client_faults],
    [remove_after_destructor], [send_then_shutdown_loses], [late_functor_dangles], [stopRead_after_destroyed], [start_again_aborts],
    [pipelined_request_waits] and others.  What the former version did otherwise: [former_time_printed], [former_line] and [line_runs_on] against
    [logline_roundtrip], [former_file_complete] and [short_write_repeats] against [roll_keeps_or_loses].  What the tests print and
    what they do not: [logline_test_prints], [logfile_test_prints], [thread_test_prints], [timestamp_test_prints], [queue_test_prints], [timer_test_prints],
    [stdlogger_test_prints], [asynclogger_test_prints], [queue_test_misses].

    ** Bounds and fuel

    The parser's loop takes fuel: a round that goes on consumes a line, so one more than the bytes in the
    buffer is enough, except for a malformed request line, on which the code loops for ever
    ([parseRequest_returns] says exactly when it returns).  [LogLine.stringify_values] reads at least one byte a
    round, [ReadSmallFile.read_loop] too; their fuel is the number of bytes.  [dec] is given as many rounds as the number has
    bits.  The log queue's block size is a parameter, with every positive size covered; the server theorem bounds the
    connection counter by that of an [int], and addresses by the 45 characters of the longest IPv6 text.

    ** Not modelled

    Wrappers that only make a system call and log (they are the system call parameters of their callers); weak memory orders (the
    atomics are sequentially consistent here); the [main] functions of the echo examples, which construct objects and enter the
    loop; in [TcpService] and [TcpClientService], uses of a connection behind its [connectDestroyed] by somebody who still holds a reference
    ([ConnectionRefs] has them for one connection); the test of timers for other times than those of one run; of the former version its network part, of which only headers are left.  [LOG_...] statements inside the
    other components are left out except [LOG_FATAL], which is taken to abort: [fatal_aborts_only_std]
    says when that is so. *)
From stdpp Require Import base list gmap strings numbers.
From Stdlib Require Import ZArith Lia.
From Stdlib Require Import Strings.Byte.
#[local] Open Scope Z_scope.

(** ** Faults and the result monad

    The sources abort on a failed [assert] (the default build type of
    CMakeLists.txt is Debug, which keeps assertions), raise an exception, or
    run into undefined behaviour.  Each of these is a value here, so "the
    operation does not fault" is a theorem and never an assumption. *)
Inductive fault :=
  | AssertFailed          (** [assert(...)] evaluated to false *)
  | OutOfBounds           (** an access outside the object it is made in *)
  | UseAfterFree          (** a dereference or [delete] of a freed object *)
  | NullDeref             (** a call or dereference through a null value *)
  | LengthError           (** [std::length_error] / [std::bad_alloc] *)
  | NotInLoopThread       (** [EventLoop::assertInLoopThread] failed *)
  | FatalLog.             (** a [LOG_FATAL] statement, which aborts *)

Inductive result (A : Type) :=
  | Ok (a : A)
  | Fault (f : fault).
Arguments Ok {A} a.
Arguments Fault {A} f.

#[export] Instance fault_eq_dec : EqDecision fault.
Proof. solve_decision. Defined.
#[export] Instance result_eq_dec `{EqDecision A} : EqDecision (result A).
Proof. solve_decision. Defined.

#[export] Instance result_ret : MRet result := @Ok.
#[export] Instance result_bind : MBind result :=
  fun _ _ k c => match c with Ok a => k a | Fault f => Fault f end.
#[export] Instance result_fmap : FMap result :=
  fun _ _ f c => match c with Ok a => Ok (f a) | Fault f => Fault f end.

(** [assert(b)], and more generally a check whose failure is the fault [f]. *)
Definition ensure (f : fault) (b : bool) : result unit :=
  if b then Ok tt else Fault f.

Declare Scope fm_scope.
Delimit Scope fm_scope with fm.
Notation "'assert!' b ; k" := (mbind (fun _ : unit => k) (ensure AssertFailed b))
  (at level 100, b at level 99, k at level 200, right associativity) : fm_scope.
Notation "'check!' f b ; k" := (mbind (fun _ : unit => k) (ensure f b))
  (at level 100, f at level 0, b at level 99, k at level 200, right associativity) : fm_scope.

Section ResultLemmas.
Context {A B : Type}.

Lemma bind_Ok (a : A) (k : A → result B) : mbind k (Ok a) = k a.
Proof. reflexivity. Qed.

Lemma bind_Ok_inv (c : result A) (k : A → result B) (b : B) :
  mbind k c = Ok b → ∃ a, c = Ok a ∧ k a = Ok b.
Proof. destruct c as [a|f]; [by eauto | discriminate]. Qed.

Lemma bind_assoc {C : Type} (c : result A) (k : A → result B) (h : B → result C) :
  mbind h (mbind k c) = mbind (fun a => mbind h (k a)) c.
Proof. by destruct c. Qed.
End ResultLemmas.

Lemma ensure_true f b : b = true → ensure f b = Ok tt.
Proof. by intros ->. Qed.

Lemma ensure_Ok_inv f b u : ensure f b = Ok u → b = true.
Proof. by destruct b. Qed.

(** Left fold of a faulting operation, in the order of the list (the range-for
    loops of the sources). *)
Fixpoint foldM {S A : Type} (step : A → S → result S) (l : list A) (s : S) : result S :=
  match l with
  | [] => Ok s
  | a :: l => s' ← step a s; foldM step l s'
  end.

Lemma foldM_app {S A : Type} (step : A → S → result S) l1 l2 s :
  foldM step (l1 ++ l2) s = (s' ← foldM step l1 s; foldM step l2 s').
Proof.
  revert s. induction l1 as [|a l1 IH]; intros s; [done|]. simpl.
  destruct (step a s) as [s'|f]; simpl; [apply IH | done].
Qed.

(** An invariant that every step establishes without a fault is one of the fold. *)
Lemma foldM_inv {S A : Type} (P : S → Prop) (step : A → S → result S) l s :
  P s → (∀ a s, a ∈ l → P s → ∃ s', step a s = Ok s' ∧ P s') →
  ∃ s', foldM step l s = Ok s' ∧ P s'.
Proof.
  revert s. induction l as [|a l IH]; intros s Hs Hstep; [by exists s|]. simpl.
  destruct (Hstep a s) as (s' & -> & Hs'); [by left | done |]. simpl.
  apply IH; [done|]. intros a' s'' Hin. apply Hstep. by right.
Qed.

(** A predicate every successful step keeps is kept by a successful fold. *)
Lemma foldM_pres {S A : Type} (P : S → Prop) (step : A → S → result S) l s s' :
  (∀ a s s', P s → step a s = Ok s' → P s') → P s → foldM step l s = Ok s' → P s'.
Proof.
  intros Hstep. revert s. induction l as [|a l IH]; intros s Hs; simpl; [by intros [= <-]|].
  intros (s1 & Hs1 & Hrest)%bind_Ok_inv. eauto.
Qed.

(** A result that is fine: a value with the property, or an allocation that failed. *)
Definition fine {A} (P : A → Prop) (r : result A) : Prop :=
  match r with Ok a => P a | Fault f => f = LengthError end.

Lemma fine_bind {A B} (P : A → Prop) (Q : B → Prop) (r : result A) (k : A → result B) :
  fine P r → (∀ a, P a → fine Q (k a)) → fine Q (mbind k r).
Proof. destruct r; simpl; auto. Qed.

Lemma fine_impl {A} (P Q : A → Prop) (r : result A) : fine P r → (∀ a, P a → Q a) → fine Q r.
Proof. destruct r; simpl; auto. Qed.

Lemma fine_foldM {S A} (P : S → Prop) (step : A → S → result S) l s :
  P s → (∀ a s, a ∈ l → P s → fine P (step a s)) → fine P (foldM step l s).
Proof.
  revert s. induction l as [|a l IH]; intros s Hs Hstep; simpl; [done|].
  eapply fine_bind; [apply Hstep; [by left | done]|]. intros s' Hs'. apply IH; [done|].
  intros a' s'' Hin. apply Hstep. by right.
Qed.

(** ** Tactics of the development *)

(** Take a hypothesis [c = Ok _] apart along its binds and checks. *)
Ltac inv_ok :=
  repeat match goal with
    | H : mbind _ _ = Ok _ |- _ =>
        let a := fresh "a" in let Ha := fresh "Hc" in
        apply bind_Ok_inv in H as (a & Ha & H)
    | H : ensure _ _ = Ok _ |- _ => apply ensure_Ok_inv in H
    | H : Ok _ = Ok _ |- _ => injection H as H; subst
    | H : mret _ = Ok _ |- _ => injection H as H; subst
    | H : Fault _ = Ok _ |- _ => discriminate H
    end.

(** Discharge the checks of the goal one by one: [ensure _ b] becomes [Ok tt]
    once [b = true] is proved by the given tactic. *)
Ltac pass_check tac :=
  rewrite ensure_true; [rewrite bind_Ok | tac].

(** Booleans comparisons of [Z] to propositions, everywhere. *)
Ltac zbool :=
  repeat match goal with
    | H : (_ <? _) = true |- _ => apply Z.ltb_lt in H
    | H : (_ <? _) = false |- _ => apply Z.ltb_ge in H
    | H : (_ <=? _) = true |- _ => apply Z.leb_le in H
    | H : (_ <=? _) = false |- _ => apply Z.leb_gt in H
    | H : (_ =? _) = true |- _ => apply Z.eqb_eq in H
    | H : (_ =? _) = false |- _ => apply Z.eqb_neq in H
    | H : andb _ _ = true |- _ => apply andb_true_iff in H as [??]
    | H : negb _ = true |- _ => apply negb_true_iff in H
    | H : negb _ = false |- _ => apply negb_false_iff in H
    end.

Create HintDb fm.
Create Rewrite HintDb fm.

(** ** Machine integers

    A [size_t] is a [Z]; the operations whose wrap-around the sources can reach
    write it out. *)
Definition two64 : Z := 18446744073709551616.
Definition sub64 (a b : Z) : Z := (a - b) mod two64.
Definition add64 (a b : Z) : Z := (a + b) mod two64.

Lemma sub64_small a b : 0 ≤ b ≤ a → a < two64 → sub64 a b = a - b.
Proof. intros. unfold sub64. apply Z.mod_small. unfold two64 in *. lia. Qed.

Lemma add64_small a b : 0 ≤ a → 0 ≤ b → a + b < two64 → add64 a b = a + b.
Proof. intros. unfold add64. apply Z.mod_small. lia. Qed.

(** Conversion to a [bits]-bit unsigned and to a two's complement signed type. *)
Definition to_unsigned (bits z : Z) : Z := z mod 2 ^ bits.
Definition to_signed (bits z : Z) : Z :=
  let m := z mod 2 ^ bits in
  if m <? 2 ^ (bits - 1) then m else m - 2 ^ bits.

Lemma to_signed_id bits z :
  0 < bits → - 2 ^ (bits - 1) ≤ z < 2 ^ (bits - 1) → to_signed bits z = z.
Proof.
  intros Hb Hz. unfold to_signed.
  assert (Hp : 2 ^ bits = 2 * 2 ^ (bits - 1)).
  { rewrite <- Z.pow_succ_r by lia. f_equal. lia. }
  assert (0 < 2 ^ (bits - 1)) by (apply Z.pow_pos_nonneg; lia).
  destruct (Z.leb_spec 0 z) as [Hpos|Hneg].
  - rewrite Z.mod_small by lia. destruct (Z.ltb_spec z (2 ^ (bits - 1))); lia.
  - assert (Hm : z mod 2 ^ bits = z + 2 ^ bits).
    { symmetry. apply (Z.mod_unique_pos z (2 ^ bits) (-1)); lia. }
    rewrite Hm. destruct (Z.ltb_spec (z + 2 ^ bits) (2 ^ (bits - 1))); lia.
Qed.

Lemma to_signed_mod bits z : 0 ≤ bits → to_signed bits (z mod 2 ^ bits) = to_signed bits z.
Proof.
  intros. unfold to_signed. rewrite Z.mod_mod; [done|].
  pose proof (Z.pow_pos_nonneg 2 bits). lia.
Qed.

Lemma to_signed_unsigned bits z :
  0 ≤ bits → to_signed bits z mod 2 ^ bits = z mod 2 ^ bits.
Proof.
  intros Hb. pose proof (Z.pow_pos_nonneg 2 bits ltac:(lia) Hb).
  unfold to_signed. destruct (_ <? _).
  - apply Z.mod_mod. lia.
  - rewrite Zminus_mod, Z_mod_same_full, Z.sub_0_r, !Z.mod_mod by lia. done.
Qed.

(** ** Bytes *)
#[export] Instance byte_eq_dec : EqDecision byte := Byte.byte_eq_dec.
#[export] Program Instance byte_countable : Countable byte :=
  inj_countable Byte.to_N Byte.of_N _.
Next Obligation. intros b. apply Byte.of_to_N. Qed.

Definition byte_val (b : byte) : Z := Z.of_N (Byte.to_N b).
Definition byte_of (z : Z) : byte := default x00 (Byte.of_N (Z.to_N (z mod 256))).

Lemma byte_val_range b : 0 ≤ byte_val b < 256.
Proof. unfold byte_val. pose proof (Byte.to_N_bounded b). lia. Qed.

Lemma byte_val_of z : byte_val (byte_of z) = z mod 256.
Proof.
  unfold byte_val, byte_of. pose proof (Z.mod_pos_bound z 256 ltac:(lia)).
  destruct (Byte.of_N (Z.to_N (z mod 256))) as [b|] eqn:E; simpl.
  - apply Byte.to_of_N in E. rewrite E. lia.
  - apply Byte.of_N_None_iff in E. lia.
Qed.

Lemma byte_of_val b : byte_of (byte_val b) = b.
Proof.
  unfold byte_of. rewrite Z.mod_small by apply byte_val_range.
  unfold byte_val. by rewrite N2Z.id, Byte.of_to_N.
Qed.

Lemma byte_of_mod z : byte_of (z mod 256) = byte_of z.
Proof. unfold byte_of. by rewrite Z.mod_mod by lia. Qed.

(** String literals of the sources as byte lists. *)
Definition bytes (s : string) : list byte := String.list_byte_of_string s.
Arguments bytes s%_string.
Definition CR : byte := x0d.
Definition LF : byte := x0a.

(** ** Lists indexed by [Z] *)
Definition zlen {A} (l : list A) : Z := Z.of_nat (length l).
Definition ztake {A} (n : Z) (l : list A) : list A := take (Z.to_nat n) l.
Definition zdrop {A} (n : Z) (l : list A) : list A := drop (Z.to_nat n) l.
(** The subrange [[i, j)] of an array. *)
Definition zslice {A} (i j : Z) (l : list A) : list A := ztake (j - i) (zdrop i l).
(** [std::copy(d, d + len, begin + i)] into an array. *)
Definition zwrite {A} (i : Z) (d l : list A) : list A :=
  ztake i l ++ d ++ zdrop (i + zlen d) l.

Lemma zlen_nonneg {A} (l : list A) : 0 ≤ zlen l.
Proof. unfold zlen. lia. Qed.
Lemma zlen_nil {A} : zlen (@nil A) = 0.
Proof. done. Qed.
Lemma zlen_cons {A} (a : A) l : zlen (a :: l) = 1 + zlen l.
Proof. unfold zlen. simpl. lia. Qed.
Lemma zlen_app {A} (l1 l2 : list A) : zlen (l1 ++ l2) = zlen l1 + zlen l2.
Proof. unfold zlen. rewrite length_app. lia. Qed.
Lemma zlen_ztake {A} n (l : list A) : 0 ≤ n ≤ zlen l → zlen (ztake n l) = n.
Proof. unfold zlen, ztake. intros. rewrite length_take. lia. Qed.
Lemma zlen_zdrop {A} n (l : list A) : 0 ≤ n ≤ zlen l → zlen (zdrop n l) = zlen l - n.
Proof. unfold zlen, zdrop. intros. rewrite length_drop. lia. Qed.
Lemma zlen_zslice {A} i j (l : list A) :
  0 ≤ i ≤ j → j ≤ zlen l → zlen (zslice i j l) = j - i.
Proof. intros. unfold zslice. rewrite zlen_ztake; [done|]. rewrite zlen_zdrop; lia. Qed.
Lemma zlen_zwrite {A} i (d l : list A) :
  0 ≤ i → i + zlen d ≤ zlen l → zlen (zwrite i d l) = zlen l.
Proof.
  intros. pose proof (zlen_nonneg d). unfold zwrite.
  rewrite !zlen_app, zlen_ztake, zlen_zdrop; lia.
Qed.
#[export] Hint Rewrite @zlen_app @zlen_nil @zlen_cons : fm.
#[export] Hint Resolve zlen_nonneg : fm.

Lemma ztake_app_ge {A} n (l1 l2 : list A) :
  zlen l1 ≤ n → ztake n (l1 ++ l2) = l1 ++ ztake (n - zlen l1) l2.
Proof.
  unfold zlen, ztake. intros. rewrite take_app_ge by lia. do 2 f_equal. lia.
Qed.
Lemma ztake_app_le {A} n (l1 l2 : list A) :
  n ≤ zlen l1 → ztake n (l1 ++ l2) = ztake n l1.
Proof. unfold zlen, ztake. intros. apply take_app_le. lia. Qed.
Lemma zdrop_app_ge {A} n (l1 l2 : list A) :
  zlen l1 ≤ n → zdrop n (l1 ++ l2) = zdrop (n - zlen l1) l2.
Proof. unfold zlen, zdrop. intros. rewrite drop_app_ge by lia. f_equal. lia. Qed.
Lemma zdrop_app_le {A} n (l1 l2 : list A) :
  n ≤ zlen l1 → zdrop n (l1 ++ l2) = zdrop n l1 ++ l2.
Proof. unfold zlen, zdrop. intros. apply drop_app_le. lia. Qed.
Lemma ztake_all {A} n (l : list A) : zlen l ≤ n → ztake n l = l.
Proof. unfold zlen, ztake. intros. apply take_ge. lia. Qed.
Lemma ztake_0 {A} n (l : list A) : n ≤ 0 → ztake n l = [].
Proof. unfold ztake. intros. by replace (Z.to_nat n) with 0%nat by lia. Qed.
Lemma zdrop_0 {A} n (l : list A) : n ≤ 0 → zdrop n l = l.
Proof. unfold zdrop. intros. by replace (Z.to_nat n) with 0%nat by lia. Qed.
Lemma zdrop_all {A} n (l : list A) : zlen l ≤ n → zdrop n l = [].
Proof. unfold zlen, zdrop. intros. apply drop_ge. lia. Qed.
Lemma ztake_zdrop {A} n (l : list A) : ztake n l ++ zdrop n l = l.
Proof. apply take_drop. Qed.
Lemma zdrop_zdrop {A} a b (l : list A) :
  0 ≤ a → 0 ≤ b → zdrop a (zdrop b l) = zdrop (a + b) l.
Proof. unfold zdrop. intros. rewrite drop_drop. f_equal. lia. Qed.
Lemma ztake_ztake {A} a b (l : list A) : ztake a (ztake b l) = ztake (a `min` b) l.
Proof. unfold ztake. rewrite take_take. f_equal. lia. Qed.
Lemma zdrop_ztake {A} a b (l : list A) :
  0 ≤ a → zdrop a (ztake b l) = ztake (b - a) (zdrop a l).
Proof.
  unfold zdrop, ztake. intros.
  destruct (Z.leb_spec a b).
  - rewrite skipn_firstn_comm. f_equal. lia.
  - rewrite drop_ge by (rewrite length_take; lia).
    by replace (Z.to_nat (b - a)) with 0%nat by lia.
Qed.

(** Slices split at any intermediate point. *)
Lemma zslice_split {A} i j k (l : list A) :
  0 ≤ i ≤ j → j ≤ k → zslice i k l = zslice i j l ++ zslice j k l.
Proof.
  intros. unfold zslice.
  replace (zdrop j l) with (zdrop (j - i) (zdrop i l))
    by (rewrite zdrop_zdrop by lia; f_equal; lia).
  rewrite <- (ztake_zdrop (j - i) (ztake (k - i) (zdrop i l))).
  rewrite ztake_ztake, zdrop_ztake by lia. f_equal; f_equal; lia.
Qed.

(** Writing an array: the slices before, at and across the written range. *)
Lemma zslice_zwrite_before {A} i j k (d l : list A) :
  0 ≤ i ≤ j → j ≤ k → k ≤ zlen l → zslice i j (zwrite k d l) = zslice i j l.
Proof.
  intros. unfold zslice, zwrite.
  rewrite zdrop_app_le by (rewrite zlen_ztake; lia).
  rewrite zdrop_ztake by lia.
  rewrite ztake_app_le by (rewrite zlen_ztake; [lia|]; rewrite zlen_zdrop; lia).
  rewrite ztake_ztake. f_equal. lia.
Qed.

Lemma zslice_zwrite_at {A} k (d l : list A) :
  0 ≤ k → k ≤ zlen l → zslice k (k + zlen d) (zwrite k d l) = d.
Proof.
  intros. unfold zslice, zwrite.
  rewrite zdrop_app_ge by (rewrite zlen_ztake; lia).
  rewrite zlen_ztake by lia. rewrite zdrop_0 by lia.
  rewrite ztake_app_ge by lia. rewrite ztake_0 by lia. apply app_nil_r.
Qed.

Lemma zslice_zwrite_app {A} i k (d l : list A) :
  0 ≤ i ≤ k → k ≤ zlen l →
  zslice i (k + zlen d) (zwrite k d l) = zslice i k l ++ d.
Proof.
  intros. pose proof (zlen_nonneg d).
  rewrite (zslice_split i k (k + zlen d)) by lia.
  by rewrite zslice_zwrite_before, zslice_zwrite_at by lia.
Qed.

Lemma zslice_zwrite_after {A} i j k (d l : list A) :
  0 ≤ k → k + zlen d ≤ i → k ≤ zlen l → zslice i j (zwrite k d l) = zslice i j l.
Proof.
  intros. pose proof (zlen_nonneg d). unfold zslice, zwrite. f_equal.
  rewrite zdrop_app_ge by (rewrite zlen_ztake; lia).
  rewrite zlen_ztake by lia.
  rewrite zdrop_app_ge by lia. rewrite zdrop_zdrop by lia. f_equal. lia.
Qed.

Lemma zslice_app_l {A} i j (l1 l2 : list A) :
  0 ≤ i ≤ j → j ≤ zlen l1 → zslice i j (l1 ++ l2) = zslice i j l1.
Proof.
  intros. unfold zslice. rewrite zdrop_app_le by lia.
  apply ztake_app_le. rewrite zlen_zdrop; lia.
Qed.

Lemma zslice_nil {A} i j (l : list A) : j ≤ i → zslice i j l = [].
Proof. intros. unfold zslice. apply ztake_0. lia. Qed.

Lemma zdrop_zslice {A} n i j (l : list A) :
  0 ≤ n → 0 ≤ i → zdrop n (zslice i j l) = zslice (i + n) j l.
Proof.
  intros. unfold zslice. rewrite zdrop_ztake, zdrop_zdrop by lia.
  f_equal; [lia|]. f_equal. lia.
Qed.

Lemma ztake_zslice {A} n i j (l : list A) :
  n ≤ j - i → ztake n (zslice i j l) = zslice i (i + n) l.
Proof. intros. unfold zslice. rewrite ztake_ztake. f_equal. lia. Qed.

(** ** The standard library's searches

    [std::find] and [std::search] return the position of the first match, or the
    end of the range; [memchr] returns null when there is none. *)
Fixpoint std_find (c : byte) (l : list byte) : Z :=
  match l with
  | [] => 0
  | b :: l => if decide (b = c) then 0 else 1 + std_find c l
  end.

Fixpoint std_search (pat l : list byte) : Z :=
  if decide (pat `prefix_of` l) then 0
  else match l with
       | [] => 0
       | _ :: l => 1 + std_search pat l
       end.

Definition memchr (c : byte) (l : list byte) : option Z :=
  if std_find c l =? zlen l then None else Some (std_find c l).

Lemma std_find_range c l : 0 ≤ std_find c l ≤ zlen l.
Proof.
  induction l as [|b l IH]; simpl; [done|].
  rewrite zlen_cons. case_decide; pose proof (zlen_nonneg l); lia.
Qed.

(** The match is the first one: nothing before it equals [c]. *)
Lemma std_find_before c l : c ∉ ztake (std_find c l) l.
Proof.
  induction l as [|b l IH]; simpl; [by apply not_elem_of_nil|].
  case_decide; [by apply not_elem_of_nil|].
  pose proof (std_find_range c l).
  unfold ztake in *. replace (Z.to_nat (1 + std_find c l)) with (S (Z.to_nat (std_find c l))) by lia.
  simpl. rewrite not_elem_of_cons. by split.
Qed.

Lemma std_find_match c l :
  std_find c l < zlen l → ∃ l', zdrop (std_find c l) l = c :: l'.
Proof.
  induction l as [|b l IH]; simpl; [intros H; unfold zlen in H; simpl in H; lia|].
  rewrite zlen_cons. case_decide as Hb.
  - subst. intros _. by exists l.
  - intros Hlt. pose proof (std_find_range c l).
    destruct IH as [l' Hl']; [lia|]. exists l'. rewrite <- Hl'.
    unfold zdrop. by replace (Z.to_nat (1 + std_find c l)) with (S (Z.to_nat (std_find c l))) by lia.
Qed.

Lemma std_find_app_match c l1 l2 :
  c ∉ l1 → std_find c (l1 ++ c :: l2) = zlen l1.
Proof.
  induction l1 as [|b l1 IH]; intros Hn; simpl.
  - by rewrite decide_True.
  - rewrite zlen_cons, decide_False by set_solver. rewrite IH by set_solver. done.
Qed.

Lemma std_find_none c l : c ∉ l → std_find c l = zlen l.
Proof.
  induction l as [|b l IH]; intros Hn; simpl; [done|].
  rewrite zlen_cons, decide_False by set_solver. rewrite IH by set_solver. done.
Qed.

Lemma std_search_range pat l : 0 ≤ std_search pat l ≤ zlen l.
Proof.
  induction l as [|b l IH]; simpl; case_decide; rewrite ?zlen_cons;
    try (pose proof (zlen_nonneg l)); unfold zlen in *; simpl in *; lia.
Qed.

Lemma std_search_match pat l :
  pat ≠ [] → std_search pat l < zlen l → ∃ l', zdrop (std_search pat l) l = pat ++ l'.
Proof.
  intros Hp. induction l as [|b l IH]; simpl.
  - case_decide as Hd; [|unfold zlen; simpl; lia].
    destruct Hd as [k Hk]. symmetry in Hk. apply app_nil in Hk as [? _]. done.
  - case_decide as Hd; [by destruct Hd as [k ->]; eauto|].
    rewrite zlen_cons. intros Hlt. pose proof (std_search_range pat l).
    destruct IH as [l' Hl']; [lia|]. exists l'. rewrite <- Hl'.
    unfold zdrop. by replace (Z.to_nat (1 + std_search pat l)) with (S (Z.to_nat (std_search pat l))) by lia.
Qed.

(** No occurrence starts before the position found. *)
Lemma std_search_first pat l1 l2 : std_search pat (l1 ++ pat ++ l2) ≤ zlen l1.
Proof.
  induction l1 as [|b l1 IH]; simpl.
  - assert (H : pat `prefix_of` pat ++ l2) by (by exists l2).
    destruct (pat ++ l2); simpl; by rewrite decide_True.
  - case_decide; rewrite zlen_cons; pose proof (zlen_nonneg l1); lia.
Qed.

Lemma std_search_match_len pat l :
  pat ≠ [] → std_search pat l < zlen l → std_search pat l + zlen pat ≤ zlen l.
Proof.
  intros Hp Hlt. destruct (std_search_match pat l) as [l' Hl']; [done..|].
  apply (f_equal zlen) in Hl'. pose proof (std_search_range pat l).
  rewrite zlen_zdrop, zlen_app in Hl' by lia. pose proof (zlen_nonneg l'). lia.
Qed.

Lemma std_search_prefix (pat l1 l2 : list byte) :
  pat `prefix_of` (l1 ++ l2) → zlen pat ≤ zlen l1 → pat `prefix_of` l1.
Proof.
  intros [k Hk] Hle. unfold zlen in Hle.
  exists (drop (length pat) l1).
  assert (Ht : take (length pat) (l1 ++ l2) = pat) by (by rewrite Hk, take_app_length).
  rewrite take_app_le in Ht by lia. rewrite <- Ht at 1. by rewrite take_drop.
Qed.

(** Data arriving behind a match does not change it. *)
Lemma std_search_app pat l m :
  pat ≠ [] → std_search pat l < zlen l → std_search pat (l ++ m) = std_search pat l.
Proof.
  intros Hp. induction l as [|b l IH]; simpl.
  - case_decide as Hd; unfold zlen; simpl; lia.
  - case_decide as Hd; intros Hlt.
    + rewrite decide_True; [done|]. by apply prefix_app_r with (l3 := m) in Hd.
    + rewrite zlen_cons in Hlt. rewrite decide_False.
      * rewrite IH; lia.
      * intros Hpre. apply Hd. apply (std_search_prefix pat (b :: l) m); [done|].
        pose proof (std_search_match_len pat l Hp ltac:(lia)).
        pose proof (std_search_range pat l). rewrite zlen_cons. lia.
Qed.

(** ** [printf]'s decimal conversion of a non-negative integer *)
Definition digit (d : Z) : byte := byte_of (48 + d).

(** Digits of [z], most significant first, in front of [acc]; [fuel] bounds their
    number and [dec] passes enough. *)
Fixpoint dec_digits (fuel : nat) (z : Z) (acc : list byte) : list byte :=
  match fuel with
  | O => acc
  | S fuel =>
      let acc := digit (z mod 10) :: acc in
      if z <? 10 then acc else dec_digits fuel (z / 10) acc
  end.

Definition dec (z : Z) : list byte :=
  if z <? 0 then digit (-3) :: dec_digits (S (Z.to_nat (Z.log2 (- z)))) (- z) []
  else dec_digits (S (Z.to_nat (Z.log2 z))) z [].

(** The value of a digit string. *)
Definition dec_val (l : list byte) : Z :=
  foldl (fun v b => 10 * v + (byte_val b - 48)) 0 l.

Lemma dec_digits_app fuel z acc : dec_digits fuel z acc = dec_digits fuel z [] ++ acc.
Proof.
  revert z acc. induction fuel as [|fuel IH]; intros z acc; [done|]. simpl.
  destruct (z <? 10); [done|]. rewrite IH, (IH _ [_]). by rewrite <- app_assoc.
Qed.

Lemma byte_val_digit d : 0 ≤ d < 10 → byte_val (digit d) = 48 + d.
Proof. intros. unfold digit. rewrite byte_val_of. apply Z.mod_small. lia. Qed.

Lemma dec_digits_val fuel z :
  0 ≤ z < 2 ^ Z.of_nat fuel → (0 < fuel)%nat → dec_val (dec_digits fuel z []) = z.
Proof.
  revert z. induction fuel as [|fuel IH]; intros z Hz Hf; [lia|].
  pose proof (Z.mod_pos_bound z 10 ltac:(lia)).
  cbn [dec_digits]. destruct (Z.ltb_spec z 10).
  - rewrite Z.mod_small by lia. unfold dec_val; cbn [foldl]. rewrite byte_val_digit by lia. lia.
  - assert (Hd : 0 ≤ z / 10 < 2 ^ Z.of_nat fuel).
    { split; [apply Z.div_pos; lia|]. apply Z.div_lt_upper_bound; [lia|].
      rewrite Nat2Z.inj_succ, Z.pow_succ_r in Hz by lia. lia. }
    destruct fuel as [|fuel]; [simpl in Hd; change (2 ^ 0) with 1 in Hd;
      pose proof (Z.div_le_mono 10 z 10 ltac:(lia) ltac:(lia)); change (10 / 10) with 1 in *; lia|].
    rewrite dec_digits_app. unfold dec_val in *. rewrite foldl_app, IH by lia.
    cbn [foldl]. rewrite byte_val_digit by lia. pose proof (Z.div_mod z 10). lia.
Qed.

Lemma log2_fuel z : 0 ≤ z → z < 2 ^ Z.of_nat (S (Z.to_nat (Z.log2 z))).
Proof.
  intros. pose proof (Z.log2_nonneg z). rewrite Nat2Z.inj_succ, Z2Nat.id by lia.
  destruct (Z.eq_dec z 0) as [->|]; [done|]. apply Z.log2_spec. lia.
Qed.

(** Printing is injective on non-negative integers. *)
Lemma dec_val_dec z : 0 ≤ z → dec_val (dec z) = z.
Proof.
  intros. unfold dec. destruct (Z.ltb_spec z 0); [lia|].
  apply dec_digits_val; [split; [done | by apply log2_fuel] | lia].
Qed.

Lemma dec_inj z1 z2 : 0 ≤ z1 → 0 ≤ z2 → dec z1 = dec z2 → z1 = z2.
Proof. intros ?? Heq. by rewrite <- (dec_val_dec z1), <- (dec_val_dec z2), Heq. Qed.

Lemma dec_digits_length fuel z k :
  0 ≤ z < 10 ^ Z.of_nat k → (0 < k)%nat → (length (dec_digits fuel z []) ≤ k)%nat.
Proof.
  revert z k. induction fuel as [|fuel IH]; intros z k Hz Hk; cbn [dec_digits]; [simpl; lia|].
  destruct (Z.ltb_spec z 10); [simpl; lia|].
  rewrite dec_digits_app, length_app. simpl.
  destruct k as [|[|k]]; [lia | simpl in Hz; lia |].
  enough (length (dec_digits fuel (z / 10) []) ≤ S k)%nat by lia.
  apply IH; [|lia]. split; [apply Z.div_pos; lia|].
  apply Z.div_lt_upper_bound; [lia|]. rewrite Nat2Z.inj_succ, Z.pow_succ_r in Hz by lia. lia.
Qed.

Lemma dec_length z k : 0 ≤ z < 10 ^ Z.of_nat k → (0 < k)%nat → zlen (dec z) ≤ Z.of_nat k.
Proof.
  intros Hz Hk. unfold dec. destruct (Z.ltb_spec z 0); [lia|].
  pose proof (dec_digits_length (S (Z.to_nat (Z.log2 z))) z k Hz Hk). unfold zlen. lia.
Qed.

Lemma dec_digits_are_digits fuel z :
  0 ≤ z → Forall (fun b => 48 ≤ byte_val b < 58) (dec_digits fuel z []).
Proof.
  revert z. induction fuel as [|fuel IH]; intros z Hz; cbn [dec_digits]; [constructor|].
  pose proof (Z.mod_pos_bound z 10 ltac:(lia)).
  assert (Forall (fun b => 48 ≤ byte_val b < 58) [digit (z mod 10)])
    by (repeat constructor; rewrite byte_val_digit; lia).
  destruct (z <? 10); [done|]. rewrite dec_digits_app. apply Forall_app. split; [|done].
  apply IH. apply Z.div_pos; lia.
Qed.

Lemma dec_are_digits z : 0 ≤ z → Forall (fun b => 48 ≤ byte_val b < 58) (dec z).
Proof.
  intros. unfold dec. destruct (Z.ltb_spec z 0); [lia|]. by apply dec_digits_are_digits.
Qed.

(** [snprintf(buf, n, ...)] keeps at most [n - 1] characters of the formatted text. *)
Definition snprintf (n : Z) (text : list byte) : list byte := ztake (n - 1) text.

Lemma snprintf_fits n text : zlen text < n → snprintf n text = text.
Proof. intros. apply ztake_all. lia. Qed.

(** A C string in a [char] array: what is in front of the first NUL. *)
Definition c_str (buf : list byte) : list byte := ztake (std_find x00 buf) buf.

(** [snprintf(buf + off, n - off, text)] into the array [buf] of [n] bytes. *)
Definition snprintf_at (off : Z) (text buf : list byte) : list byte :=
  zwrite off (snprintf (zlen buf - off) text ++ [x00]) buf.

Lemma c_str_app text junk : x00 ∉ text → c_str (text ++ x00 :: junk) = text.
Proof. intros. unfold c_str. rewrite std_find_app_match by done. by rewrite ztake_app_le, ztake_all by lia. Qed.

Lemma c_str_clean buf : x00 ∉ c_str buf.
Proof. apply std_find_before. Qed.
