(* ===== verification/Endian.v ===== *)
(** * Byte order: include/libfm/fmnet/Endian.h and the object representation of
    fixed-width integers, for either byte order of the host. *)
From stdpp Require Import base list numbers.
From Stdlib Require Import ZArith Lia.
From S2P Require Import Prelude.
#[local] Open Scope Z_scope.

(** The byte order of the machine the library runs on: [true] for little endian. *)
Class HostOrder := host_little : bool.

(** Little-endian digits of [z] in base 256. *)
Fixpoint le_bytes (n : nat) (z : Z) : list Byte.byte :=
  match n with
  | O => []
  | S n => byte_of z :: le_bytes n (z / 256)
  end.

Fixpoint le_val (l : list Byte.byte) : Z :=
  match l with
  | [] => 0
  | b :: l => byte_val b + 256 * le_val l
  end.

Definition be_bytes (n : nat) (z : Z) : list Byte.byte := reverse (le_bytes n z).
Definition be_val (l : list Byte.byte) : Z := le_val (reverse l).

Lemma length_le_bytes n z : length (le_bytes n z) = n.
Proof. revert z. induction n; intros; simpl; auto. Qed.
Lemma length_be_bytes n z : length (be_bytes n z) = n.
Proof. unfold be_bytes. by rewrite length_reverse, length_le_bytes. Qed.

Lemma le_val_bytes n z : le_val (le_bytes n z) = z mod 256 ^ Z.of_nat n.
Proof.
  revert z. induction n as [|n IH]; intros z; simpl le_bytes; simpl le_val.
  - by rewrite Z.mod_1_r.
  - rewrite IH, byte_val_of, Nat2Z.inj_succ, Z.pow_succ_r by lia.
    rewrite Z.rem_mul_r by (try apply Z.pow_nonzero; lia). lia.
Qed.

Lemma le_bytes_val l : le_bytes (length l) (le_val l) = l.
Proof.
  induction l as [|b l IH]; [done|]. simpl.
  pose proof (byte_val_range b).
  replace (byte_val b + 256 * le_val l) with (le_val l * 256 + byte_val b) by lia.
  rewrite Z.div_add_l, (Z.div_small (byte_val b)), Z.add_0_r, IH by lia. f_equal.
  rewrite <- byte_of_mod, Z.add_comm, Z_mod_plus_full, byte_of_mod. apply byte_of_val.
Qed.

Lemma le_val_range l : 0 ≤ le_val l < 256 ^ zlen l.
Proof.
  induction l as [|b l IH]; [done|]. simpl le_val. pose proof (byte_val_range b).
  rewrite zlen_cons, Z.pow_add_r by (try apply zlen_nonneg; lia). lia.
Qed.

Lemma le_bytes_mod n z : le_bytes n (z mod 256 ^ Z.of_nat n) = le_bytes n z.
Proof.
  rewrite <- le_val_bytes. rewrite <- (length_le_bytes n z) at 1. apply le_bytes_val.
Qed.

Lemma be_val_bytes n z : be_val (be_bytes n z) = z mod 256 ^ Z.of_nat n.
Proof. unfold be_val, be_bytes. by rewrite reverse_involutive, le_val_bytes. Qed.

Lemma be_bytes_mod n z : be_bytes n (z mod 256 ^ Z.of_nat n) = be_bytes n z.
Proof. unfold be_bytes. by rewrite le_bytes_mod. Qed.

Section HostOrder.
Context `{HostOrder}.

(** The bytes of an [n]-byte unsigned object holding [z], and the value read back
    from such bytes ([memcpy] from and to an object of that type). *)
Definition store (n : nat) (z : Z) : list Byte.byte :=
  if host_little then le_bytes n z else be_bytes n z.
Definition load (l : list Byte.byte) : Z :=
  if host_little then le_val l else be_val l.

(** [htobeNN] and [beNNtoh] of the C library: the value whose object
    representation on this host is the big-endian one of the argument. *)
Definition htobe (n : nat) (x : Z) : Z :=
  if host_little then be_val (le_bytes n x) else x mod 256 ^ Z.of_nat n.

(** [src/include/libfm/fmnet/Endian.h:13-15 hostToNetwork64] *)
Definition hostToNetwork64 (host64 : Z) : Z := htobe 8 host64.
(** [src/include/libfm/fmnet/Endian.h:17-19 hostToNetwork32] *)
Definition hostToNetwork32 (host32 : Z) : Z := htobe 4 host32.
(** [src/include/libfm/fmnet/Endian.h:21-23 hostToNetwork16] *)
Definition hostToNetwork16 (host16 : Z) : Z := htobe 2 host16.
(** [src/include/libfm/fmnet/Endian.h:25-27 networkToHost64] *)
Definition networkToHost64 (net64 : Z) : Z := htobe 8 net64.
(** [src/include/libfm/fmnet/Endian.h:29-31 networkToHost32] *)
Definition networkToHost32 (net32 : Z) : Z := htobe 4 net32.
(** [src/include/libfm/fmnet/Endian.h:33-35 networkToHost16] *)
Definition networkToHost16 (net16 : Z) : Z := htobe 2 net16.

Lemma length_store n z : length (store n z) = n.
Proof. unfold store. destruct host_little; [apply length_le_bytes | apply length_be_bytes]. Qed.

Lemma store_mod n z : store n (z mod 256 ^ Z.of_nat n) = store n z.
Proof. unfold store. destruct host_little; [apply le_bytes_mod | apply be_bytes_mod]. Qed.

Lemma load_range l : 0 ≤ load l < 256 ^ zlen l.
Proof.
  unfold load, be_val. destruct host_little; [apply le_val_range|].
  pose proof (le_val_range (reverse l)). unfold zlen in *. by rewrite length_reverse in *.
Qed.

Lemma load_store n z : load (store n z) = z mod 256 ^ Z.of_nat n.
Proof. unfold load, store. destruct host_little; [apply le_val_bytes | apply be_val_bytes]. Qed.

(** What [htobe] is for: the stored object is the big-endian encoding. *)
Lemma store_htobe n x : store n (htobe n x) = be_bytes n x.
Proof.
  unfold store, htobe. destruct host_little.
  - unfold be_val. rewrite <- (length_le_bytes n x) at 1.
    rewrite <- length_reverse, le_bytes_val. done.
  - apply be_bytes_mod.
Qed.

Lemma htobe_load n l : length l = n → htobe n (load l) = be_val l.
Proof.
  intros <-. unfold htobe, load. destruct host_little.
  - by rewrite le_bytes_val.
  - unfold be_val. rewrite <- le_val_bytes, <- length_reverse at 1.
    by rewrite le_bytes_val.
Qed.
End HostOrder.
