(* ===== verification/ByteBuffer.v ===== *)
(** * The byte buffer: include/libfm/fmnet/Buffer.h and net/Buffer.cpp

    Module [Buffer] translates every member function.  The representation is the
    code's: one vector and two indices.  A [char] pointer into the vector is its
    offset from [begin()], null is [None].  The module then relates the
    representation to the queue of readable bytes it stands for ([content]) and
    proves that the operations implement that queue. *)
From stdpp Require Import base list numbers.
From Stdlib Require Import ZArith Lia Init.Byte.
From S2P Require Import Prelude.
From S2P Require Import Endian.
#[local] Open Scope Z_scope.
#[local] Open Scope fm_scope.

Module Buffer.

(** [src/include/libfm/fmnet/Buffer.h:17-17 Buffer::kCheapPrepend] *)
Definition kCheapPrepend : Z := 8.
(** [src/include/libfm/fmnet/Buffer.h:18-18 Buffer::kInitialSize] *)
Definition kInitialSize : Z := 1024.
(** [src/include/libfm/fmnet/Buffer.h:110-110 Buffer::kCRLF] *)
Definition kCRLF : list byte := [CR; LF].

(** [src/include/libfm/fmnet/Buffer.h:112-114 Buffer data members] *)
Record Buffer := mkBuffer {
  buffer_ : list byte;
  read_index_ : Z;
  write_index_ : Z
}.

(** [buffer_.size()], and the limit [std::vector<char>::max_size()] of its size. *)
Definition size (b : Buffer) : Z := zlen (buffer_ b).
Definition max_size : Z := 9223372036854775807.

(** [std::vector<char>::resize(n)]: new elements are value-initialised. *)
Definition vector_resize (n : Z) (v : list byte) : result (list byte) :=
  if n <=? max_size
  then Ok (ztake n v ++ replicate (Z.to_nat (n - zlen v)) x00)
  else Fault LengthError.

(** Reads and writes of the vector's elements [[i, i + len)]. *)
Definition vector_read (i len : Z) (v : list byte) : result (list byte) :=
  check! OutOfBounds ((0 <=? i) && (0 <=? len) && (i + len <=? zlen v)); Ok (zslice i (i + len) v).
Definition vector_write (i : Z) (d v : list byte) : result (list byte) :=
  check! OutOfBounds ((0 <=? i) && (i + zlen d <=? zlen v)); Ok (zwrite i d v).

Definition set_buffer (v : list byte) (b : Buffer) : Buffer := mkBuffer v (read_index_ b) (write_index_ b).
Definition set_read_index (r : Z) (b : Buffer) : Buffer := mkBuffer (buffer_ b) r (write_index_ b).
Definition set_write_index (w : Z) (b : Buffer) : Buffer := mkBuffer (buffer_ b) (read_index_ b) w.

(** [src/include/libfm/fmnet/Buffer.h:39-39 Buffer::readableBytes] *)
Definition readableBytes (b : Buffer) : Z := sub64 (write_index_ b) (read_index_ b).
(** [src/include/libfm/fmnet/Buffer.h:40-40 Buffer::writableBytes] *)
Definition writableBytes (b : Buffer) : Z := sub64 (size b) (write_index_ b).
(** [src/include/libfm/fmnet/Buffer.h:41-41 Buffer::prependableBytes] *)
Definition prependableBytes (b : Buffer) : Z := read_index_ b.

(** [src/include/libfm/fmnet/Buffer.h:20-27 Buffer::Buffer] *)
Definition new (initial_size : Z) : result Buffer :=
  v ← vector_resize (add64 kCheapPrepend initial_size) [];
  let b := mkBuffer v kCheapPrepend kCheapPrepend in
  assert! (readableBytes b =? 0);
  assert! (writableBytes b =? initial_size);
  assert! (prependableBytes b =? kCheapPrepend);
  Ok b.

(** [src/include/libfm/fmnet/Buffer.h:33-37 Buffer::swap] *)
Definition swap (b rhs : Buffer) : Buffer * Buffer :=
  (mkBuffer (buffer_ rhs) (read_index_ rhs) (write_index_ rhs),
   mkBuffer (buffer_ b) (read_index_ b) (write_index_ b)).

(** [src/include/libfm/fmnet/Buffer.h:43-43 Buffer::peek] *)
Definition peek (b : Buffer) : Z := read_index_ b.
(** [src/include/libfm/fmnet/Buffer.h:93-94 Buffer::beginWrite] *)
Definition beginWrite (b : Buffer) : Z := write_index_ b.

(** [src/include/libfm/fmnet/Buffer.h:60-60 Buffer::toString] *)
Definition toString (b : Buffer) : result (list byte) :=
  vector_read (peek b) (readableBytes b) (buffer_ b).

(** The bytes of the range [[first, last)] of two pointers into the buffer. *)
Definition range (first last : Z) (b : Buffer) : result (list byte) :=
  vector_read first (last - first) (buffer_ b).

(** [src/net/Buffer.cpp:19-23 Buffer::findCRLF(const char *start)] *)
Definition findCRLF_from (start : Z) (b : Buffer) : result (option Z) :=
  assert! ((peek b <=? start) && (start <=? beginWrite b));
  l ← range start (beginWrite b) b;
  let crlf := start + std_search kCRLF l in
  Ok (if crlf =? beginWrite b then None else Some crlf).

(** [src/net/Buffer.cpp:14-17 Buffer::findCRLF()] *)
Definition findCRLF (b : Buffer) : result (option Z) :=
  l ← range (peek b) (beginWrite b) b;
  let crlf := peek b + std_search kCRLF l in
  Ok (if crlf =? beginWrite b then None else Some crlf).

(** [src/net/Buffer.cpp:25-28 Buffer::findEOL()] *)
Definition findEOL (b : Buffer) : result (option Z) :=
  l ← vector_read (peek b) (readableBytes b) (buffer_ b);
  Ok (i ← memchr LF l; Some (peek b + i)).

(** [src/net/Buffer.cpp:30-34 Buffer::findEOL(const char *start)] *)
Definition findEOL_from (start : Z) (b : Buffer) : result (option Z) :=
  assert! ((peek b <=? start) && (start <=? beginWrite b));
  l ← vector_read start (beginWrite b - start) (buffer_ b);
  Ok (i ← memchr LF l; Some (start + i)).

(** [src/include/libfm/fmnet/Buffer.h:56-56 Buffer::retrieveAll] *)
Definition retrieveAll (b : Buffer) : Buffer :=
  mkBuffer (buffer_ b) kCheapPrepend kCheapPrepend.

(** [src/net/Buffer.cpp:36-42 Buffer::retrieve] *)
Definition retrieve (len : Z) (b : Buffer) : result Buffer :=
  assert! (len <=? readableBytes b);
  if len <? readableBytes b
  then Ok (set_read_index (add64 (read_index_ b) len) b)
  else Ok (retrieveAll b).

(** [src/net/Buffer.cpp:44-47 Buffer::retrieveUntil] *)
Definition retrieveUntil (end_ : Z) (b : Buffer) : result Buffer :=
  assert! ((peek b <=? end_) && (end_ <=? beginWrite b));
  retrieve (end_ - peek b) b.

(** [src/include/libfm/fmnet/Buffer.h:52-52 Buffer::retrieveInt64] *)
Definition retrieveInt64 (b : Buffer) : result Buffer := retrieve 8 b.
(** [src/include/libfm/fmnet/Buffer.h:53-53 Buffer::retrieveInt32] *)
Definition retrieveInt32 (b : Buffer) : result Buffer := retrieve 4 b.
(** [src/include/libfm/fmnet/Buffer.h:54-54 Buffer::retrieveInt16] *)
Definition retrieveInt16 (b : Buffer) : result Buffer := retrieve 2 b.
(** [src/include/libfm/fmnet/Buffer.h:55-55 Buffer::retrieveInt8] *)
Definition retrieveInt8 (b : Buffer) : result Buffer := retrieve 1 b.

(** [src/net/Buffer.cpp:49-54 Buffer::retrieveAsString] *)
Definition retrieveAsString (len : Z) (b : Buffer) : result (list byte * Buffer) :=
  assert! (len <=? readableBytes b);
  s ← vector_read (peek b) len (buffer_ b);
  b' ← retrieve len b;
  Ok (s, b').

(** [src/include/libfm/fmnet/Buffer.h:58-58 Buffer::retrieveAllAsString] *)
Definition retrieveAllAsString (b : Buffer) : result (list byte * Buffer) :=
  retrieveAsString (readableBytes b) b.

(** [src/net/Buffer.cpp:158-161 Buffer::hasWritten] *)
Definition hasWritten (len : Z) (b : Buffer) : result Buffer :=
  assert! (len <=? writableBytes b);
  Ok (set_write_index (add64 (write_index_ b) len) b).

(** [src/net/Buffer.cpp:163-166 Buffer::unWrite] *)
Definition unWrite (len : Z) (b : Buffer) : result Buffer :=
  assert! (len <=? readableBytes b);
  Ok (set_write_index (sub64 (write_index_ b) len) b).

(** [src/net/Buffer.cpp:181-193 Buffer::makeSpace] *)
Definition makeSpace (len : Z) (b : Buffer) : result Buffer :=
  if add64 (writableBytes b) (prependableBytes b) <? add64 len kCheapPrepend
  then
    v ← vector_resize (add64 (write_index_ b) len) (buffer_ b);
    Ok (set_buffer v b)
  else
    assert! (kCheapPrepend <? read_index_ b);
    let readable := readableBytes b in
    d ← range (read_index_ b) (write_index_ b) b;
    v ← vector_write kCheapPrepend d (buffer_ b);
    let b' := mkBuffer v kCheapPrepend (add64 kCheapPrepend readable) in
    assert! (readable =? readableBytes b');
    Ok b'.

(** [src/net/Buffer.cpp:175-179 Buffer::ensureWritableBytes] *)
Definition ensureWritableBytes (len : Z) (b : Buffer) : result Buffer :=
  b' ← (if writableBytes b <? len then makeSpace len b else Ok b);
  assert! (len <=? writableBytes b');
  Ok b'.

(** [src/net/Buffer.cpp:56-60 Buffer::append] *)
Definition append (data : list byte) (b : Buffer) : result Buffer :=
  let len := zlen data in
  b1 ← ensureWritableBytes len b;
  v ← vector_write (beginWrite b1) data (buffer_ b1);
  hasWritten len (set_buffer v b1).

(** [src/net/Buffer.cpp:151-156 Buffer::prepend] *)
Definition prepend (data : list byte) (b : Buffer) : result Buffer :=
  let len := zlen data in
  assert! (len <=? prependableBytes b);
  let r := sub64 (read_index_ b) len in
  v ← vector_write r data (buffer_ b);
  Ok (mkBuffer v r (write_index_ b)).

(** [src/net/Buffer.cpp:168-173 Buffer::shrink] *)
Definition shrink (reserve : Z) (b : Buffer) : result Buffer :=
  other ← new kInitialSize;
  other ← ensureWritableBytes (add64 (readableBytes b) reserve) other;
  s ← toString b;
  other ← append s other;
  Ok (fst (swap b other)).

(** What [readv] returned: data placed in the two blocks, or an error number. *)
Inductive readv_outcome :=
  | ReadvData (d : list byte)
  | ReadvErr (errno : Z).

(** The size of [extraBuf]. *)
Definition kExtraBuf : Z := 65536.

(** [src/net/Buffer.cpp:195-216 Buffer::readFd] The condition of the second branch is the
    code's: it compares [writable] with itself. *)
Definition readFd (r : readv_outcome) (b : Buffer) : result (Z * option Z * Buffer) :=
  let writable := writableBytes b in
  match r with
  | ReadvErr e => Ok (-1, Some e, b)
  | ReadvData d =>
      let n := zlen d in
      (* the kernel fills iov[0] up to iov_len, then iov[1] *)
      v ← vector_write (write_index_ b) (ztake writable d) (buffer_ b);
      let extraBuf := zdrop writable d in
      let b1 := set_buffer v b in
      if writable <=? writable
      then Ok (n, None, set_write_index (add64 (write_index_ b1) n) b1)
      else
        b2 ← append (ztake (n - writable) extraBuf) (set_write_index (size b1) b1);
        Ok (n, None, b2)
  end.

(** What [readv] may return for the blocks [readFd] passes. *)
Definition readv_fits (r : readv_outcome) (b : Buffer) : Prop :=
  match r with
  | ReadvErr _ => True
  | ReadvData d => zlen d ≤ writableBytes b + (if writableBytes b <? kExtraBuf then kExtraBuf else 0)
  end.

(** ** Integers in network byte order *)
Section Integers.
Context `{HostOrder}.

(** [src/net/Buffer.cpp:62-65 Buffer::appendInt64] *)
Definition appendInt64 (x : Z) (b : Buffer) : result Buffer :=
  let be64 := to_signed 64 (hostToNetwork64 (to_unsigned 64 x)) in append (store 8 be64) b.
(** [src/net/Buffer.cpp:67-70 Buffer::appendInt32] *)
Definition appendInt32 (x : Z) (b : Buffer) : result Buffer :=
  let be32 := to_signed 32 (hostToNetwork32 (to_unsigned 32 x)) in append (store 4 be32) b.
(** [src/net/Buffer.cpp:72-75 Buffer::appendInt16] *)
Definition appendInt16 (x : Z) (b : Buffer) : result Buffer :=
  let be16 := to_signed 16 (hostToNetwork16 (to_unsigned 16 x)) in append (store 2 be16) b.
(** [src/net/Buffer.cpp:77-79 Buffer::appendInt8] *)
Definition appendInt8 (x : Z) (b : Buffer) : result Buffer := append (store 1 x) b.

(** [src/net/Buffer.cpp:105-110 Buffer::peekInt64] *)
Definition peekInt64 (b : Buffer) : result Z :=
  assert! (8 <=? readableBytes b);
  m ← vector_read (peek b) 8 (buffer_ b);
  let be64 := to_signed 64 (load m) in
  Ok (to_signed 64 (networkToHost64 (to_unsigned 64 be64))).
(** [src/net/Buffer.cpp:112-117 Buffer::peekInt32] *)
Definition peekInt32 (b : Buffer) : result Z :=
  assert! (4 <=? readableBytes b);
  m ← vector_read (peek b) 4 (buffer_ b);
  let be32 := to_signed 32 (load m) in
  Ok (to_signed 32 (hostToNetwork32 (to_unsigned 32 be32))).
(** [src/net/Buffer.cpp:119-124 Buffer::peekInt16] [be16] is an [int32_t]: four bytes are copied,
    of which two need to be readable, and the value is cut to 16 bits by the call of
    [hostToNetwork16]. *)
Definition peekInt16 (b : Buffer) : result Z :=
  assert! (2 <=? readableBytes b);
  m ← vector_read (peek b) 4 (buffer_ b);
  let be16 := to_signed 32 (load m) in
  Ok (to_signed 16 (hostToNetwork16 (to_unsigned 16 be16))).
(** [src/net/Buffer.cpp:126-130 Buffer::peekInt8] *)
Definition peekInt8 (b : Buffer) : result Z :=
  assert! (1 <=? readableBytes b);
  m ← vector_read (peek b) 1 (buffer_ b);
  Ok (to_signed 8 (load m)).

(** [src/net/Buffer.cpp:81-85 Buffer::readInt64] *)
Definition readInt64 (b : Buffer) : result (Z * Buffer) :=
  x ← peekInt64 b; b' ← retrieveInt64 b; Ok (x, b').
(** [src/net/Buffer.cpp:87-91 Buffer::readInt32] *)
Definition readInt32 (b : Buffer) : result (Z * Buffer) :=
  x ← peekInt32 b; b' ← retrieveInt32 b; Ok (x, b').
(** [src/net/Buffer.cpp:93-97 Buffer::readInt16] *)
Definition readInt16 (b : Buffer) : result (Z * Buffer) :=
  x ← peekInt16 b; b' ← retrieveInt16 b; Ok (x, b').
(** [src/net/Buffer.cpp:99-103 Buffer::readInt8] *)
Definition readInt8 (b : Buffer) : result (Z * Buffer) :=
  x ← peekInt8 b; b' ← retrieveInt8 b; Ok (x, b').

(** [src/net/Buffer.cpp:132-135 Buffer::prependInt64] *)
Definition prependInt64 (x : Z) (b : Buffer) : result Buffer :=
  let be64 := to_signed 64 (hostToNetwork64 (to_unsigned 64 x)) in prepend (store 8 be64) b.
(** [src/net/Buffer.cpp:137-140 Buffer::prependInt32] *)
Definition prependInt32 (x : Z) (b : Buffer) : result Buffer :=
  let be32 := to_signed 32 (hostToNetwork32 (to_unsigned 32 x)) in prepend (store 4 be32) b.
(** [src/net/Buffer.cpp:142-145 Buffer::prependInt16] *)
Definition prependInt16 (x : Z) (b : Buffer) : result Buffer :=
  let be16 := to_signed 16 (hostToNetwork16 (to_unsigned 16 x)) in prepend (store 2 be16) b.
(** [src/net/Buffer.cpp:147-149 Buffer::prependInt8] *)
Definition prependInt8 (x : Z) (b : Buffer) : result Buffer := prepend (store 1 x) b.
End Integers.

(** ** Representation invariant and abstraction *)

(** The indices delimit a range of the vector. *)
Record wf (b : Buffer) : Prop := {
  wf_read : 0 ≤ read_index_ b;
  wf_order : read_index_ b ≤ write_index_ b;
  wf_write : write_index_ b ≤ size b;
  wf_prepend : kCheapPrepend ≤ size b;
  wf_max : size b ≤ max_size
}.

(** The queue of readable bytes. *)
Definition content (b : Buffer) : list byte :=
  zslice (read_index_ b) (write_index_ b) (buffer_ b).

Ltac wf_lia :=
  repeat match goal with H : wf _ |- _ => destruct H end;
  simpl in *; unfold size, kCheapPrepend, max_size, two64 in *; simpl in *;
  repeat match goal with |- context [zlen ?l] => lazymatch goal with
    | _ : 0 ≤ zlen l |- _ => fail | _ => pose proof (zlen_nonneg l) end end;
  lia.

Section Facts.
Implicit Types (b : Buffer) (d : list byte).

Lemma readable_wf b : wf b → readableBytes b = write_index_ b - read_index_ b.
Proof. intros. apply sub64_small; wf_lia. Qed.
Lemma writable_wf b : wf b → writableBytes b = size b - write_index_ b.
Proof. intros. apply sub64_small; wf_lia. Qed.
Lemma zlen_content b : wf b → zlen (content b) = readableBytes b.
Proof. intros. rewrite readable_wf by done. apply zlen_zslice; wf_lia. Qed.

Lemma vector_read_ok i len v :
  0 ≤ i → 0 ≤ len → i + len ≤ zlen v → vector_read i len v = Ok (zslice i (i + len) v).
Proof. intros. unfold vector_read. rewrite ensure_true; [done|]. lia. Qed.
Lemma vector_write_ok i d v :
  0 ≤ i → i + zlen d ≤ zlen v → vector_write i d v = Ok (zwrite i d v).
Proof. intros. unfold vector_write. rewrite ensure_true; [done|]. lia. Qed.
Lemma vector_resize_ok n v :
  zlen v ≤ n → n ≤ max_size →
  vector_resize n v = Ok (v ++ replicate (Z.to_nat (n - zlen v)) x00).
Proof.
  intros. unfold vector_resize. destruct (Z.leb_spec n max_size); [|lia].
  by rewrite ztake_all.
Qed.
Lemma zlen_resized n v : zlen v ≤ n → zlen (v ++ replicate (Z.to_nat (n - zlen v)) x00) = n.
Proof. intros. rewrite zlen_app. unfold zlen at 2. rewrite length_replicate. lia. Qed.

Lemma toString_content b : wf b → toString b = Ok (content b).
Proof.
  intros Hb. unfold toString, peek, content. rewrite readable_wf by done.
  rewrite vector_read_ok by wf_lia. do 2 f_equal. lia.
Qed.

Lemma range_content b : wf b → range (peek b) (beginWrite b) b = Ok (content b).
Proof.
  intros Hb. unfold range, peek, beginWrite, content.
  rewrite vector_read_ok by wf_lia. do 2 f_equal. lia.
Qed.

Lemma new_spec n :
  0 ≤ n → n + kCheapPrepend ≤ max_size →
  ∃ b, new n = Ok b ∧ wf b ∧ content b = [] ∧ read_index_ b = kCheapPrepend ∧ size b = kCheapPrepend + n.
Proof.
  intros Hn Hm. unfold kCheapPrepend, max_size in *. unfold new.
  rewrite add64_small by (unfold kCheapPrepend, two64; lia).
  rewrite vector_resize_ok; [| unfold zlen, kCheapPrepend; simpl; lia | unfold kCheapPrepend, max_size; lia].
  rewrite bind_Ok.
  set (v := [] ++ replicate _ _).
  assert (Hv : zlen v = 8 + n) by (unfold v, kCheapPrepend; apply zlen_resized; unfold zlen; simpl; lia).
  set (b := mkBuffer v kCheapPrepend kCheapPrepend).
  assert (Hw : wf b) by (constructor; unfold size, b, kCheapPrepend, max_size in *; simpl; lia).
  rewrite (readable_wf b), (writable_wf b) by done. unfold prependableBytes.
  replace (size b) with (kCheapPrepend + n) by (unfold size, b, kCheapPrepend in *; simpl; lia).
  unfold b, kCheapPrepend; cbn [read_index_ write_index_].
  rewrite ensure_true by (apply Z.eqb_eq; lia).
  rewrite bind_Ok, ensure_true by (apply Z.eqb_eq; lia).
  rewrite bind_Ok, ensure_true by done.
  rewrite bind_Ok. eexists. split; [done|]. split; [done|].
  split; [by apply zslice_nil|]. split; [done|]. unfold size; simpl. done.
Qed.

Lemma retrieveAll_spec b :
  wf b → wf (retrieveAll b) ∧ content (retrieveAll b) = [] ∧ read_index_ (retrieveAll b) = kCheapPrepend.
Proof.
  intros Hb. split; [constructor; wf_lia|]. split; [by apply zslice_nil | done].
Qed.

Lemma retrieve_spec b n :
  wf b → 0 ≤ n ≤ zlen (content b) →
  ∃ b', retrieve n b = Ok b' ∧ wf b' ∧ content b' = zdrop n (content b) ∧ size b' = size b ∧
        read_index_ b' = (if n <? zlen (content b) then read_index_ b + n else kCheapPrepend).
Proof.
  intros Hb Hn. unfold retrieve. rewrite zlen_content in * by done.
  rewrite ensure_true by lia. rewrite bind_Ok.
  rewrite readable_wf in * by done.
  destruct (Z.ltb_spec n (write_index_ b - read_index_ b)).
  - exists (set_read_index (read_index_ b + n) b).
    rewrite add64_small by wf_lia. split; [done|]. split; [constructor; wf_lia|].
    split; [|done]. unfold content; simpl. rewrite zdrop_zslice by wf_lia. done.
  - exists (retrieveAll b). split; [done|]. destruct (retrieveAll_spec b Hb) as (?&->&?).
    split; [done|]. split; [|done]. rewrite zdrop_all; [done|].
    rewrite zlen_content, readable_wf by done. lia.
Qed.

(** [makeSpace] keeps the readable bytes and makes room, whichever branch runs. *)
Lemma makeSpace_cases b len :
  wf b → 0 ≤ len ≤ max_size → writableBytes b < len →
  (makeSpace len b = Fault LengthError ∧ max_size < zlen (content b) + 2 * len + kCheapPrepend) ∨
  ∃ b', makeSpace len b = Ok b' ∧ wf b' ∧ content b' = content b ∧ len ≤ writableBytes b' ∧
        Z.min kCheapPrepend (read_index_ b) ≤ read_index_ b'.
Proof.
  intros Hb Hl Hw. rewrite zlen_content, readable_wf by done.
  unfold makeSpace. rewrite writable_wf in * by done. unfold prependableBytes.
  rewrite !add64_small by wf_lia.
  destruct (Z.ltb_spec (size b - write_index_ b + read_index_ b) (len + kCheapPrepend)).
  - destruct (Z.leb_spec (write_index_ b + len) max_size) as [Hfit|Hbig].
    2: { left. unfold vector_resize. rewrite (proj2 (Z.leb_gt _ _)) by lia. split; [done|]. wf_lia. }
    right. rewrite vector_resize_ok by wf_lia. rewrite bind_Ok. eexists. split; [done|].
    assert (Hsz : zlen (buffer_ b ++ replicate (Z.to_nat (write_index_ b + len - zlen (buffer_ b))) x00)
                  = write_index_ b + len) by (apply zlen_resized; wf_lia).
    assert (Hwf : wf (set_buffer (buffer_ b ++ replicate (Z.to_nat (write_index_ b + len - zlen (buffer_ b))) x00) b)).
    { constructor; unfold size; simpl; rewrite ?Hsz; wf_lia. }
    split; [done|]. split.
    { unfold content; simpl. apply zslice_app_l; wf_lia. }
    rewrite writable_wf by done. unfold size; simpl. rewrite Hsz. split; wf_lia.
  - right. rewrite ensure_true by (apply Z.ltb_lt; wf_lia). rewrite bind_Ok.
    fold (peek b) (beginWrite b). rewrite range_content by done. rewrite bind_Ok.
    assert (Hlen : zlen (content b) = write_index_ b - read_index_ b)
      by (rewrite zlen_content, readable_wf by done; done).
    rewrite vector_write_ok by (rewrite ?Hlen; wf_lia). rewrite bind_Ok.
    rewrite readable_wf by done. rewrite add64_small by wf_lia.
    set (b' := mkBuffer _ _ _).
    assert (Hsz : size b' = size b)
      by (unfold size, b'; simpl; apply zlen_zwrite; rewrite ?Hlen; wf_lia).
    assert (Hwf : wf b').
    { constructor; rewrite ?Hsz; unfold b' in *; simpl; wf_lia. }
    rewrite (readable_wf b') by done. unfold b' at 1 2; simpl.
    rewrite ensure_true by (apply Z.eqb_eq; unfold kCheapPrepend; lia). rewrite bind_Ok.
    exists b'. split; [done|]. split; [done|]. split.
    { unfold content at 1, b'; simpl. rewrite <- Hlen. apply zslice_zwrite_at; wf_lia. }
    rewrite writable_wf by done. rewrite Hsz. unfold b' in *; simpl in *. split; wf_lia.
Qed.

Lemma makeSpace_spec b len :
  wf b → 0 ≤ len → writableBytes b < len → zlen (content b) + 2 * len + kCheapPrepend ≤ max_size →
  ∃ b', makeSpace len b = Ok b' ∧ wf b' ∧ content b' = content b ∧ len ≤ writableBytes b' ∧
        Z.min kCheapPrepend (read_index_ b) ≤ read_index_ b'.
Proof.
  intros Hb Hl Hw Hcap. pose proof (zlen_nonneg (content b)).
  destruct (makeSpace_cases b len) as [[_ Hbig]|?]; [done | unfold kCheapPrepend in *; lia | done | lia | done].
Qed.

Lemma ensureWritableBytes_spec b len :
  wf b → 0 ≤ len → zlen (content b) + 2 * len + kCheapPrepend ≤ max_size →
  ∃ b', ensureWritableBytes len b = Ok b' ∧ wf b' ∧ content b' = content b ∧ len ≤ writableBytes b' ∧
        Z.min kCheapPrepend (read_index_ b) ≤ read_index_ b'.
Proof.
  intros Hb Hl Hcap. unfold ensureWritableBytes.
  destruct (Z.ltb_spec (writableBytes b) len).
  - destruct (makeSpace_spec b len) as (b' & -> & ? & ? & ? & ?); [done..|].
    rewrite bind_Ok, ensure_true by lia. rewrite bind_Ok. by exists b'.
  - rewrite bind_Ok, ensure_true by lia. rewrite bind_Ok. exists b. split_and!; [done..|lia].
Qed.

Lemma append_spec b d :
  wf b → zlen (content b) + 2 * zlen d + kCheapPrepend ≤ max_size →
  ∃ b', append d b = Ok b' ∧ wf b' ∧ content b' = content b ++ d ∧
        Z.min kCheapPrepend (read_index_ b) ≤ read_index_ b'.
Proof.
  intros Hb Hcap. unfold append.
  destruct (ensureWritableBytes_spec b (zlen d)) as (b1 & -> & Hb1 & Hc & Hw & Hr);
    [done | apply zlen_nonneg | done |].
  rewrite bind_Ok. rewrite writable_wf in Hw by done. unfold beginWrite.
  rewrite vector_write_ok by wf_lia. rewrite bind_Ok.
  set (b2 := set_buffer _ b1).
  assert (Hsz : size b2 = size b1) by (unfold size, b2; simpl; apply zlen_zwrite; wf_lia).
  assert (Hb2 : wf b2) by (constructor; rewrite ?Hsz; simpl; wf_lia).
  unfold hasWritten. rewrite (writable_wf b2), Hsz by done.
  rewrite ensure_true by (simpl; lia). rewrite bind_Ok.
  rewrite add64_small by (simpl; wf_lia). eexists. split; [done|].
  split; [constructor; simpl; unfold size in *; simpl in *; rewrite ?Hsz; wf_lia|].
  split; [|done]. unfold content at 1; simpl.
  rewrite zslice_zwrite_app by wf_lia. by fold (content b1); rewrite Hc.
Qed.

(** Without a bound on the size, the only failure is the allocation's. *)
Lemma append_fine b d :
  wf b → zlen d ≤ max_size →
  fine (fun b' => wf b' ∧ content b' = content b ++ d) (append d b).
Proof.
  intros Hb Hd. destruct (Z.leb_spec (zlen (content b) + 2 * zlen d + kCheapPrepend) max_size) as [Hcap|Hbig].
  { destruct (append_spec b d Hb Hcap) as (b' & -> & ? & ? & _). done. }
  unfold append, ensureWritableBytes.
  assert (Hrest : ∀ b1, wf b1 → content b1 = content b → zlen d ≤ writableBytes b1 →
    fine (fun b' => wf b' ∧ content b' = content b ++ d)
      (v ← vector_write (beginWrite b1) d (buffer_ b1); hasWritten (zlen d) (set_buffer v b1))).
  { intros b1 Hb1 Hc Hw. rewrite writable_wf in Hw by done. unfold beginWrite.
    rewrite vector_write_ok by wf_lia. rewrite bind_Ok. set (b2 := set_buffer _ b1).
    assert (Hsz : size b2 = size b1) by (unfold size, b2; simpl; apply zlen_zwrite; wf_lia).
    assert (Hb2 : wf b2) by (constructor; rewrite ?Hsz; simpl; wf_lia).
    unfold hasWritten. rewrite (writable_wf b2), Hsz by done.
    rewrite ensure_true by (simpl; lia). rewrite bind_Ok. rewrite add64_small by (simpl; wf_lia).
    split; [constructor; simpl; unfold size in *; simpl in *; rewrite ?Hsz; wf_lia|].
    unfold content at 1; simpl. rewrite zslice_zwrite_app by wf_lia. by fold (content b1); rewrite Hc. }
  destruct (Z.ltb_spec (writableBytes b) (zlen d)) as [Hlt|Hge].
  - destruct (makeSpace_cases b (zlen d)) as [[-> _]|(b1 & -> & Hb1 & Hc & Hw & _)];
      [done | split; [apply zlen_nonneg | done] | done | done |].
    rewrite bind_Ok, ensure_true by lia. rewrite bind_Ok. by apply Hrest.
  - rewrite bind_Ok, ensure_true by lia. rewrite bind_Ok. by apply Hrest.
Qed.

Lemma prepend_spec b d :
  wf b → zlen d ≤ prependableBytes b →
  ∃ b', prepend d b = Ok b' ∧ wf b' ∧ content b' = d ++ content b ∧
        read_index_ b' = read_index_ b - zlen d.
Proof.
  intros Hb Hd. unfold prepend, prependableBytes in *. pose proof (zlen_nonneg d).
  rewrite ensure_true by lia. rewrite bind_Ok, sub64_small by wf_lia.
  rewrite vector_write_ok by wf_lia. rewrite bind_Ok. eexists. split; [done|].
  assert (Hsz : zlen (zwrite (read_index_ b - zlen d) d (buffer_ b)) = size b)
    by (apply zlen_zwrite; wf_lia).
  split; [constructor; unfold size; simpl; rewrite ?Hsz; wf_lia|]. split; [|done].
  unfold content; simpl.
  rewrite (zslice_split _ (read_index_ b)) by wf_lia. f_equal.
  - replace (read_index_ b) with (read_index_ b - zlen d + zlen d) at 2 by lia.
    apply zslice_zwrite_at; wf_lia.
  - apply zslice_zwrite_after; wf_lia.
Qed.

Lemma unWrite_spec b n :
  wf b → 0 ≤ n ≤ zlen (content b) →
  ∃ b', unWrite n b = Ok b' ∧ wf b' ∧ content b' = ztake (zlen (content b) - n) (content b) ∧
        read_index_ b' = read_index_ b.
Proof.
  intros Hb Hn. unfold unWrite. rewrite zlen_content in * by done.
  rewrite ensure_true by lia. rewrite bind_Ok. rewrite readable_wf in * by done.
  rewrite sub64_small by wf_lia. eexists. split; [done|]. split; [constructor; wf_lia|].
  split; [|done]. unfold content; simpl. rewrite ztake_zslice by lia. f_equal. lia.
Qed.

Lemma retrieveAsString_spec b n :
  wf b → 0 ≤ n ≤ zlen (content b) →
  ∃ b', retrieveAsString n b = Ok (ztake n (content b), b') ∧ wf b' ∧
        content b' = zdrop n (content b) ∧
        read_index_ b' = (if n <? zlen (content b) then read_index_ b + n else kCheapPrepend).
Proof.
  intros Hb Hn. unfold retrieveAsString.
  destruct (retrieve_spec b n) as (b' & -> & ? & ? & ? & ?); [done..|].
  rewrite zlen_content in Hn by done.
  rewrite ensure_true by lia. rewrite bind_Ok. unfold peek.
  rewrite readable_wf in Hn by done. rewrite vector_read_ok by wf_lia. rewrite !bind_Ok.
  exists b'. split; [|done]. do 2 f_equal. unfold content. rewrite ztake_zslice by lia. done.
Qed.

Lemma retrieveAllAsString_spec b :
  wf b → ∃ b', retrieveAllAsString b = Ok (content b, b') ∧ wf b' ∧ content b' = [].
Proof.
  intros Hb. unfold retrieveAllAsString. pose proof (zlen_nonneg (content b)) as Hz.
  destruct (retrieveAsString_spec b (readableBytes b)) as (b' & -> & Hb' & Hc & _); [done| |].
  { rewrite <- zlen_content by done. lia. }
  rewrite <- zlen_content in * by done. rewrite ztake_all in * by lia.
  exists b'. by rewrite Hc, zdrop_all by lia.
Qed.

Lemma shrink_spec b n :
  wf b → 0 ≤ n → 2 * (2 * zlen (content b) + n) + kCheapPrepend ≤ max_size →
  ∃ b', shrink n b = Ok b' ∧ wf b' ∧ content b' = content b ∧ kCheapPrepend ≤ read_index_ b'.
Proof.
  intros Hb Hn Hcap. unfold shrink. pose proof (zlen_nonneg (content b)).
  destruct (new_spec kInitialSize) as (o & -> & Ho & Hoc & Hor & _);
    [unfold kInitialSize; lia | unfold kInitialSize, kCheapPrepend, max_size; lia |].
  rewrite bind_Ok. rewrite zlen_content in * by done.
  rewrite add64_small by wf_lia.
  destruct (ensureWritableBytes_spec o (readableBytes b + n)) as (o1 & -> & Ho1 & Hc1 & _ & Hr1);
    [done | lia | rewrite Hoc; unfold zlen; simpl; lia |].
  rewrite bind_Ok, toString_content, bind_Ok by done.
  destruct (append_spec o1 (content b)) as (o2 & -> & Ho2 & Hc2 & Hr2);
    [done | rewrite Hc1, Hoc, zlen_content by done; unfold zlen; simpl; lia |].
  rewrite bind_Ok. exists o2. destruct o2; simpl in *. split; [done|]. split; [done|].
  rewrite Hc2, Hc1, Hoc. split; [done|]. lia.
Qed.

Lemma readFd_error b e : readFd (ReadvErr e) b = Ok (-1, Some e, b).
Proof. done. Qed.

Lemma readFd_spec b d :
  wf b → zlen d ≤ writableBytes b →
  ∃ b', readFd (ReadvData d) b = Ok (zlen d, None, b') ∧ wf b' ∧ content b' = content b ++ d.
Proof.
  intros Hb Hd. unfold readFd. rewrite writable_wf in * by done.
  rewrite (ztake_all _ d) by lia. rewrite vector_write_ok by wf_lia.
  rewrite bind_Ok, Z.leb_refl. rewrite add64_small by (simpl; wf_lia).
  eexists. split; [done|].
  assert (Hsz : zlen (zwrite (write_index_ b) d (buffer_ b)) = size b) by (apply zlen_zwrite; wf_lia).
  split; [constructor; unfold size; simpl; rewrite ?Hsz; wf_lia|].
  unfold content; simpl. apply zslice_zwrite_app; wf_lia.
Qed.

(** Positions of line ends, as offsets into the content. *)
Lemma findCRLF_spec b :
  wf b →
  findCRLF b = Ok (if std_search kCRLF (content b) =? zlen (content b) then None
                   else Some (peek b + std_search kCRLF (content b))).
Proof.
  intros Hb. unfold findCRLF. rewrite range_content by done. rewrite bind_Ok.
  rewrite zlen_content, readable_wf by done. unfold peek, beginWrite.
  do 2 f_equal.
  destruct (Z.eqb_spec (read_index_ b + std_search kCRLF (content b)) (write_index_ b)),
    (Z.eqb_spec (std_search kCRLF (content b)) (write_index_ b - read_index_ b)); lia || done.
Qed.

Lemma retrieveUntil_spec b n :
  wf b → 0 ≤ n ≤ zlen (content b) →
  ∃ b', retrieveUntil (peek b + n) b = Ok b' ∧ wf b' ∧ content b' = zdrop n (content b).
Proof.
  intros Hb Hn. unfold retrieveUntil, beginWrite.
  assert (peek b + n ≤ write_index_ b)
    by (rewrite zlen_content, readable_wf in Hn by done; unfold peek; lia).
  rewrite ensure_true by lia. rewrite bind_Ok.
  replace (peek b + n - peek b) with n by lia.
  destruct (retrieve_spec b n) as (b' & -> & ? & ? & _); [done..|]. by exists b'.
Qed.
End Facts.

End Buffer.
