(* ===== verification/BufferSpec.v ===== *)
(** * What the byte buffer promises: a queue of bytes with a little headroom

    The abstract machine of [Module QueueSpec] knows no vector and no indices: its
    state is the queue of readable bytes and the number of bytes that may still be
    put in front of it.  The refinement theorem runs any sequence of member
    functions on both sides.  The rest of the file states the buffer's other
    contracts: integers in network byte order, line search, and reading from a
    descriptor. *)
From stdpp Require Import base list numbers strings.
From Stdlib Require Import ZArith Lia Init.Byte.
From S2P Require Import Prelude.
From S2P Require Import Endian.
From S2P Require Import ByteBuffer.
Import Buffer.
#[local] Open Scope Z_scope.

Module QueueSpec.

(** The member functions a client calls, with their arguments. *)
Inductive op :=
  | OpAppend (d : list byte)
  | OpRetrieve (n : Z)
  | OpRetrieveAll
  | OpRetrieveAsString (n : Z)
  | OpPrepend (d : list byte)
  | OpUnWrite (n : Z)
  | OpEnsureWritable (n : Z)
  | OpShrink (n : Z)
  | OpToString
  | OpReadableBytes.

(** What a call returns to its caller. *)
Inductive obs := Nothing | Str (s : list byte) | Num (z : Z).

(** One call on the code's representation. *)
Definition exec (o : op) (b : Buffer) : result (Buffer * obs) :=
  match o with
  | OpAppend d => b' ← append d b; Ok (b', Nothing)
  | OpRetrieve n => b' ← retrieve n b; Ok (b', Nothing)
  | OpRetrieveAll => Ok (retrieveAll b, Nothing)
  | OpRetrieveAsString n => '(s, b') ← retrieveAsString n b; Ok (b', Str s)
  | OpPrepend d => b' ← prepend d b; Ok (b', Nothing)
  | OpUnWrite n => b' ← unWrite n b; Ok (b', Nothing)
  | OpEnsureWritable n => b' ← ensureWritableBytes n b; Ok (b', Nothing)
  | OpShrink n => b' ← shrink n b; Ok (b', Nothing)
  | OpToString => s ← toString b; Ok (b, Str s)
  | OpReadableBytes => Ok (b, Num (readableBytes b))
  end.

Fixpoint exec_all (os : list op) (b : Buffer) : result (Buffer * list obs) :=
  match os with
  | [] => Ok (b, [])
  | o :: os => '(b1, r) ← exec o b; '(b2, rs) ← exec_all os b1; Ok (b2, r :: rs)
  end.

(** The queue: [room] bytes may be prepended, [bytes] can be read. *)
Record queue := mkQueue { room : Z; qbytes : list byte }.

Definition full (room : Z) (c : list byte) : Z := if decide (c = []) then kCheapPrepend else room.

(** One call on the queue; [None] when the caller breaks the call's precondition
    or asks for more memory than a [std::vector<char>] can hold. *)
Definition spec (o : op) (q : queue) : option (queue * obs) :=
  let c := qbytes q in
  match o with
  | OpAppend d =>
      guard (zlen c + 2 * zlen d + kCheapPrepend ≤ max_size);; Some (mkQueue (room q) (c ++ d), Nothing)
  | OpRetrieve n =>
      guard (0 ≤ n ≤ zlen c);; Some (mkQueue (full (room q) (zdrop n c)) (zdrop n c), Nothing)
  | OpRetrieveAll => Some (mkQueue kCheapPrepend [], Nothing)
  | OpRetrieveAsString n =>
      guard (0 ≤ n ≤ zlen c);; Some (mkQueue (full (room q) (zdrop n c)) (zdrop n c), Str (ztake n c))
  | OpPrepend d => guard (zlen d ≤ room q);; Some (mkQueue (room q - zlen d) (d ++ c), Nothing)
  | OpUnWrite n => guard (0 ≤ n ≤ zlen c);; Some (mkQueue (room q) (ztake (zlen c - n) c), Nothing)
  | OpEnsureWritable n =>
      guard (0 ≤ n ∧ zlen c + 2 * n + kCheapPrepend ≤ max_size);; Some (q, Nothing)
  | OpShrink n =>
      guard (0 ≤ n ∧ 2 * (2 * zlen c + n) + kCheapPrepend ≤ max_size);; Some (mkQueue kCheapPrepend c, Nothing)
  | OpToString => Some (q, Str c)
  | OpReadableBytes => Some (q, Num (zlen c))
  end.

Fixpoint spec_all (os : list op) (q : queue) : option (queue * list obs) :=
  match os with
  | [] => Some (q, [])
  | o :: os => '(q1, r) ← spec o q; '(q2, rs) ← spec_all os q1; Some (q2, r :: rs)
  end.

(** The simulation relation. *)
Record sim (b : Buffer) (q : queue) : Prop := {
  sim_wf : wf b;
  sim_bytes : content b = qbytes q;
  sim_room : 0 ≤ room q ≤ kCheapPrepend;
  sim_headroom : room q ≤ read_index_ b
}.

Lemma sim_intro b q c r :
  wf b → content b = c → 0 ≤ r ≤ kCheapPrepend → r ≤ read_index_ b → q = mkQueue r c → sim b q.
Proof. intros ???? ->. by constructor. Qed.

Lemma sim_step o b q q' r :
  sim b q → spec o q = Some (q', r) → ∃ b', exec o b = Ok (b', r) ∧ sim b' q'.
Proof.
  intros [Hwf Hc Hr Hh] Hs.
  destruct o; simpl in Hs; rewrite <- ?Hc in Hs; simplify_option_eq.
  - destruct (append_spec b d) as (b' & -> & ? & ? & ?); [done..|].
    exists b'. split; [done|]. eapply sim_intro; [done..| | done]. lia.
  - destruct (retrieve_spec b n) as (b' & -> & ? & Hd & _ & Hi); [done..|].
    exists b'. split; [done|]. eapply sim_intro; [done | done | | | done]; unfold full;
      case_decide as He; unfold kCheapPrepend in *; try lia; rewrite Hi;
      destruct (Z.ltb_spec n (zlen (content b))); unfold kCheapPrepend; try lia.
    apply (f_equal zlen) in He. rewrite zlen_zdrop, zlen_nil in He by lia. lia.
  - destruct (retrieveAll_spec b Hwf) as (? & ? & Hi). eexists. split; [done|].
    unfold kCheapPrepend in *.
    eapply sim_intro; [done | done | | | done]; simpl; unfold kCheapPrepend; lia.
  - destruct (retrieveAsString_spec b n) as (b' & -> & ? & Hd & Hi); [done..|].
    exists b'. split; [done|]. eapply sim_intro; [done | done | | | done]; unfold full;
      case_decide as He; unfold kCheapPrepend in *; try lia; rewrite Hi;
      destruct (Z.ltb_spec n (zlen (content b))); unfold kCheapPrepend; try lia.
    apply (f_equal zlen) in He. rewrite zlen_zdrop, zlen_nil in He by lia. lia.
  - destruct (prepend_spec b d) as (b' & -> & ? & ? & Hi); [done | unfold prependableBytes; lia |].
    exists b'. split; [done|]. pose proof (zlen_nonneg d). eapply sim_intro; [done..| | | done]; lia.
  - destruct (unWrite_spec b n) as (b' & -> & ? & ? & Hi); [done..|].
    exists b'. split; [done|]. eapply sim_intro; [done..| lia | done].
  - destruct (ensureWritableBytes_spec b n) as (b' & -> & ? & ? & _ & Hi); [done..|].
    exists b'. split; [done|]. eapply sim_intro; [done | done | exact Hr | | by destruct q'; simpl in *; subst]. lia.
  - destruct (shrink_spec b n) as (b' & -> & ? & ? & Hi); [done..|].
    exists b'. split; [done|]. unfold kCheapPrepend in *.
    eapply sim_intro; [done | done | | | done]; simpl; unfold kCheapPrepend; lia.
  - rewrite toString_content by done. exists b. by split.
  - exists b. rewrite zlen_content by done. by split.
Qed.

Lemma new_sim n :
  0 ≤ n → n + kCheapPrepend ≤ max_size → ∃ b, new n = Ok b ∧ sim b (mkQueue kCheapPrepend []).
Proof.
  intros Hn Hm. destruct (new_spec n Hn Hm) as (b & -> & Hwf & Hc & Hr & _).
  exists b. split; [done|]. constructor; simpl; unfold kCheapPrepend in *; [done..| lia | lia].
Qed.

End QueueSpec.
Import QueueSpec.

(** C4. Refinement: whatever sequence of member functions a client calls on a buffer
    that stands for a queue, as long as the queue accepts every call, no call faults
    (no failed assertion, no access outside the vector), every call returns what the
    queue returns, and the buffer reached stands for the queue reached.  The vector
    never shows: growing it, moving its contents to the front and the reset of the
    indices are invisible. *)
Theorem buffer_refines_queue os b q q' rs :
  sim b q → spec_all os q = Some (q', rs) →
  ∃ b', exec_all os b = Ok (b', rs) ∧ sim b' q'.
Proof.
  revert b q q' rs. induction os as [|o os IH]; intros b q q' rs Hsim Hs; simpl in *.
  - simplify_eq. by exists b.
  - destruct (spec o q) as [[q1 r]|] eqn:Ho; simplify_eq/=.
    destruct (spec_all os q1) as [[q2 rs']|] eqn:Hos; simplify_eq/=.
    destruct (sim_step o b q q1 r) as (b1 & -> & Hs1); [done..|].
    destruct (IH b1 q1 q' rs') as (b2 & Hb2 & Hs2); [done..|].
    exists b2. simpl. by rewrite Hb2.
Qed.

(** From the constructor, with one growth of the vector and one move to the front. *)
Lemma buffer_refines_queue_witness :
  ∃ b b', new 4 = Ok b ∧
    exec_all [OpAppend (bytes "abcd"); OpRetrieve 2; OpAppend (bytes "efghij");
              OpRetrieveAsString 7; OpAppend (bytes "klmn"); OpPrepend (bytes "xy"); OpToString] b
      = Ok (b', [Nothing; Nothing; Nothing; Str (bytes "cdefghi"); Nothing; Nothing; Str (bytes "xyjklmn")]).
Proof.
  destruct (new_sim 4) as (b & Hb & Hsim); [done..|].
  destruct (buffer_refines_queue
    [OpAppend (bytes "abcd"); OpRetrieve 2; OpAppend (bytes "efghij");
     OpRetrieveAsString 7; OpAppend (bytes "klmn"); OpPrepend (bytes "xy"); OpToString]
    b (mkQueue kCheapPrepend []) (mkQueue 6 (bytes "xyjklmn"))
    [Nothing; Nothing; Nothing; Str (bytes "cdefghi"); Nothing; Nothing; Str (bytes "xyjklmn")])
    as (b' & Hrun & _); [exact Hsim | vm_compute; reflexivity |].
  exists b, b'. split; [exact Hb | exact Hrun].
Defined.

(** ** Integers in network byte order *)
Inductive width := W8 | W16 | W32 | W64.
Definition wbytes (w : width) : nat := match w with W8 => 1 | W16 => 2 | W32 => 4 | W64 => 8 end.
Definition in_width (w : width) (x : Z) : Prop :=
  - 2 ^ (8 * Z.of_nat (wbytes w) - 1) ≤ x < 2 ^ (8 * Z.of_nat (wbytes w) - 1).

Section Integers.
Context `{HostOrder}.

Definition appendInt (w : width) : Z → Buffer → result Buffer :=
  match w with W8 => appendInt8 | W16 => appendInt16 | W32 => appendInt32 | W64 => appendInt64 end.
Definition prependInt (w : width) : Z → Buffer → result Buffer :=
  match w with W8 => prependInt8 | W16 => prependInt16 | W32 => prependInt32 | W64 => prependInt64 end.
Definition readInt (w : width) : Buffer → result (Z * Buffer) :=
  match w with W8 => readInt8 | W16 => readInt16 | W32 => readInt32 | W64 => readInt64 end.
Definition peekInt (w : width) : Buffer → result Z :=
  match w with W8 => peekInt8 | W16 => peekInt16 | W32 => peekInt32 | W64 => peekInt64 end.

Lemma pow256 w : 256 ^ Z.of_nat (wbytes w) = 2 ^ (8 * Z.of_nat (wbytes w)).
Proof. destruct w; reflexivity. Qed.

(** The four [hostToNetwork] conversions through signed variables do not disturb
    the object representation. *)
Lemma store_network n x :
  256 ^ Z.of_nat n = 2 ^ (8 * Z.of_nat n) →
  store n (to_signed (8 * Z.of_nat n) (htobe n (to_unsigned (8 * Z.of_nat n) x))) = be_bytes n x.
Proof.
  intros Hp. rewrite <- store_mod, Hp, to_signed_unsigned by lia.
  rewrite <- Hp, store_mod, store_htobe. unfold to_unsigned. by rewrite <- Hp, be_bytes_mod.
Qed.

Lemma appendInt_append w x b : appendInt w x b = append (be_bytes (wbytes w) x) b.
Proof.
  destruct w; simpl; unfold appendInt8, appendInt16, appendInt32, appendInt64; f_equal.
  - unfold store, be_bytes. destruct host_little; done.
  - exact (store_network 2 x eq_refl).
  - exact (store_network 4 x eq_refl).
  - exact (store_network 8 x eq_refl).
Qed.

Lemma prependInt_prepend w x b : prependInt w x b = prepend (be_bytes (wbytes w) x) b.
Proof.
  destruct w; simpl; unfold prependInt8, prependInt16, prependInt32, prependInt64; f_equal.
  - unfold store, be_bytes. destruct host_little; done.
  - exact (store_network 2 x eq_refl).
  - exact (store_network 4 x eq_refl).
  - exact (store_network 8 x eq_refl).
Qed.

Lemma load_network n l :
  length l = n → 256 ^ Z.of_nat n = 2 ^ (8 * Z.of_nat n) →
  htobe n (to_unsigned (8 * Z.of_nat n) (to_signed (8 * Z.of_nat n) (load l))) = be_val l.
Proof.
  intros Hl Hp. unfold to_unsigned. rewrite to_signed_unsigned by lia.
  rewrite Z.mod_small; [by apply htobe_load|].
  pose proof (load_range l). unfold zlen in *. rewrite Hl, Hp in *. lia.
Qed.

(** What an integer of 16 bits needs to be read back: a little-endian host, and four bytes of
    the vector from its first on. *)
Definition room16 (w : width) (pos last : Z) : Prop :=
  w = W16 → host_little = true ∧ pos + 4 ≤ last.

(** The four bytes that [peekInt16] copies, two and two. *)
Lemma read16 b :
  wf b → 2 ≤ readableBytes b → read_index_ b + 4 ≤ size b →
  vector_read (peek b) 4 (buffer_ b) =
    Ok (ztake 2 (content b) ++ zslice (read_index_ b + 2) (read_index_ b + 4) (buffer_ b)).
Proof.
  intros Hb Hn Hroom. rewrite readable_wf in Hn by done. unfold peek. rewrite vector_read_ok by wf_lia. f_equal.
  rewrite (zslice_split _ (read_index_ b + 2)) by wf_lia. f_equal.
  unfold content. by rewrite ztake_zslice by lia.
Qed.

Lemma signed32_low16 x : to_unsigned 16 (to_signed 32 x) = x mod 65536.
Proof.
  unfold to_unsigned. change (2 ^ 16) with 65536.
  rewrite <- (Z.mod_mod_divide (to_signed 32 x) (2 ^ 32) 65536) by (by exists 65536).
  rewrite to_signed_unsigned by lia. by rewrite Z.mod_mod_divide by (by exists 65536).
Qed.

(** [peekInt16] on every buffer: with less than four bytes to the end of the vector it reads beyond it;
    otherwise a little-endian host returns the first two bytes as it should, and a big-endian host the
    two bytes behind them. *)
Theorem peekInt16_reads_four b :
  wf b → 2 ≤ readableBytes b →
  peekInt16 b =
    if size b <? read_index_ b + 4 then Fault OutOfBounds
    else Ok (to_signed 16 (be_val (if host_little then ztake 2 (content b)
                                   else zslice (read_index_ b + 2) (read_index_ b + 4) (buffer_ b)))).
Proof.
  intros Hb Hn. unfold peekInt16, hostToNetwork16. rewrite ensure_true by (by apply Z.leb_le). rewrite bind_Ok.
  destruct (Z.ltb_spec (size b) (read_index_ b + 4)) as [Hout|Hin].
  - unfold vector_read, peek, ensure. rewrite (proj2 (Z.leb_gt (read_index_ b + 4) (zlen (buffer_ b)))) by exact Hout.
    by rewrite andb_false_r.
  - rewrite read16, bind_Ok by done. rewrite signed32_low16. do 2 f_equal.
    set (l := ztake 2 (content b)). set (m := zslice _ _ _).
    assert (Hl : length l = 2%nat).
    { assert (Hz : zlen l = 2) by (unfold l; rewrite zlen_ztake; [done|]; rewrite zlen_content by done; lia).
      unfold zlen in Hz. lia. }
    assert (Hm : length m = 2%nat).
    { assert (Hz : zlen m = 2) by (unfold m; rewrite zlen_zslice; wf_lia). unfold zlen in Hz. lia. }
    destruct l as [|a0 [|a1 [|? ?]]]; try discriminate. destruct m as [|a2 [|a3 [|? ?]]]; try discriminate.
    pose proof (byte_val_range a0). pose proof (byte_val_range a1). pose proof (byte_val_range a2). pose proof (byte_val_range a3).
    unfold load, htobe, be_val. destruct host_little; cbn [app reverse rev_append le_val Z.of_nat Pos.of_succ_nat Pos.succ].
    + replace (byte_val a0 + 256 * (byte_val a1 + 256 * (byte_val a2 + 256 * (byte_val a3 + 256 * 0))))
        with (le_val [a0; a1] + (byte_val a2 + 256 * byte_val a3) * 65536) by (simpl le_val; lia).
      rewrite Z_mod_plus_full, Z.mod_small by (simpl le_val; lia).
      change 2%nat with (length [a0; a1]). by rewrite le_bytes_val.
    + unfold reverse. cbn [rev_append le_val]. change (256 ^ 2) with 65536. rewrite Z.mod_mod by lia.
      replace (byte_val a3 + 256 * (byte_val a2 + 256 * (byte_val a1 + 256 * (byte_val a0 + 256 * 0))))
        with (byte_val a3 + 256 * (byte_val a2 + 256 * 0) + (byte_val a1 + 256 * byte_val a0) * 65536) by lia.
      rewrite Z_mod_plus_full, Z.mod_small by lia. done.
Qed.

(** Reading an integer looks at the first bytes of the queue. *)
Lemma peekInt_spec w b l r :
  wf b → content b = l ++ r → length l = wbytes w → room16 w (read_index_ b) (size b) →
  peekInt w b = Ok (to_signed (8 * Z.of_nat (wbytes w)) (be_val l)).
Proof.
  intros Hb Hc Hl Hroom.
  assert (Hn : zlen (content b) = Z.of_nat (wbytes w) + zlen r)
    by (rewrite Hc, zlen_app; unfold zlen at 1; rewrite Hl; done).
  assert (Hread : vector_read (peek b) (Z.of_nat (wbytes w)) (buffer_ b) = Ok l).
  { pose proof (zlen_nonneg r). rewrite zlen_content, readable_wf in Hn by done. unfold peek.
    rewrite vector_read_ok by (wf_lia). f_equal.
    transitivity (ztake (Z.of_nat (wbytes w)) (content b)).
    - unfold content. rewrite ztake_zslice by lia. done.
    - rewrite Hc, ztake_app_le by (unfold zlen; lia). apply ztake_all. unfold zlen. lia. }
  rewrite zlen_content in Hn by done. pose proof (zlen_nonneg r).
  destruct w.
  2: { destruct (Hroom eq_refl) as [Hle Hin]. simpl peekInt.
       rewrite peekInt16_reads_four by (done || (simpl in Hn; lia)).
       rewrite (proj2 (Z.ltb_ge (size b) (read_index_ b + 4))), Hle by lia.
       by rewrite Hc, ztake_app_le, ztake_all by (unfold zlen; rewrite Hl; simpl; lia). }
  all: cbv [wbytes Z.of_nat Pos.of_succ_nat Pos.succ] in Hread; simpl peekInt;
    unfold peekInt8, peekInt32, peekInt64, networkToHost64, hostToNetwork32;
    (rewrite ensure_true by (apply Z.leb_le; simpl in Hn; lia)); rewrite bind_Ok, Hread, bind_Ok.
  - f_equal. destruct l as [|x [|? ?]]; try discriminate. unfold load, be_val. by destruct host_little.
  - rewrite <- (load_network 4 l Hl eq_refl). done.
  - rewrite <- (load_network 8 l Hl eq_refl). done.
Qed.

Lemma readInt_spec w b l r :
  wf b → content b = l ++ r → length l = wbytes w → room16 w (read_index_ b) (size b) →
  ∃ b', readInt w b = Ok (to_signed (8 * Z.of_nat (wbytes w)) (be_val l), b') ∧ wf b' ∧ content b' = r ∧
    size b' = size b ∧ (r ≠ [] → read_index_ b' = read_index_ b + Z.of_nat (wbytes w)).
Proof.
  intros Hb Hc Hl Hroom.
  assert (Hr : ∃ b', retrieve (Z.of_nat (wbytes w)) b = Ok b' ∧ wf b' ∧ content b' = r ∧ size b' = size b ∧
                 (r ≠ [] → read_index_ b' = read_index_ b + Z.of_nat (wbytes w))).
  { pose proof (zlen_nonneg r).
    assert (Hlen : zlen (content b) = Z.of_nat (wbytes w) + zlen r) by (rewrite Hc, zlen_app; unfold zlen at 1; by rewrite Hl).
    destruct (retrieve_spec b (Z.of_nat (wbytes w))) as (b' & ? & ? & Hd & Hsz & Hri); [done|lia|].
    exists b'. split; [done|]. split; [done|]. split; [|split; [done|]].
    - rewrite Hd, Hc, zdrop_app_ge by (unfold zlen; lia). apply zdrop_0. unfold zlen. lia.
    - intros Hne. rewrite Hri, Hlen. destruct (Z.ltb_spec (Z.of_nat (wbytes w)) (Z.of_nat (wbytes w) + zlen r)) as [|Hge]; [done|].
      destruct r; [done|]. rewrite zlen_cons in Hge. pose proof (zlen_nonneg r). lia. }
  destruct Hr as (b' & Hr & ? & ? & ? & ?). exists b'. split; [|done].
  pose proof (peekInt_spec w b l r Hb Hc Hl Hroom) as Hp.
  destruct w; cbv [wbytes Z.of_nat Pos.of_succ_nat Pos.succ] in Hr; simpl peekInt in Hp; simpl readInt; unfold readInt8, readInt16, readInt32, readInt64;
    rewrite Hp, bind_Ok; unfold retrieveInt8, retrieveInt16, retrieveInt32, retrieveInt64;
    by rewrite Hr.
Qed.

Lemma be_val_in_width w x :
  in_width w x → to_signed (8 * Z.of_nat (wbytes w)) (be_val (be_bytes (wbytes w) x)) = x.
Proof.
  intros Hx. rewrite be_val_bytes, pow256, to_signed_mod by lia.
  apply to_signed_id; [destruct w; done | exact Hx].
Qed.
End Integers.

Section Codec.
Context `{HostOrder}.

(** A message: integers appended one after the other, and read back by their widths. *)
Fixpoint appendInts (xs : list (width * Z)) (b : Buffer) : result Buffer :=
  match xs with
  | [] => Ok b
  | (w, x) :: xs => b' ← appendInt w x b; appendInts xs b'
  end.

Fixpoint readInts (ws : list width) (b : Buffer) : result (list Z * Buffer) :=
  match ws with
  | [] => Ok ([], b)
  | w :: ws => '(x, b1) ← readInt w b; '(xs, b2) ← readInts ws b1; Ok (x :: xs, b2)
  end.

(** The bytes a message puts on the wire. *)
Definition wire (xs : list (width * Z)) : list byte :=
  flat_map (fun '(w, x) => be_bytes (wbytes w) x) xs.

Lemma zlen_be_bytes w x : zlen (be_bytes (wbytes w) x) = Z.of_nat (wbytes w).
Proof. unfold zlen. by rewrite length_be_bytes. Qed.

Lemma appendInts_wire xs b :
  wf b → zlen (content b) + 3 * zlen (wire xs) + kCheapPrepend ≤ max_size →
  ∃ b', appendInts xs b = Ok b' ∧ wf b' ∧ content b' = content b ++ wire xs.
Proof.
  revert b. induction xs as [|[w x] xs IH]; intros b Hb Hcap; simpl in *.
  - exists b. by rewrite app_nil_r.
  - rewrite zlen_app in Hcap. pose proof (zlen_nonneg (wire xs)).
    pose proof (zlen_nonneg (be_bytes (wbytes w) x)).
    rewrite appendInt_append.
    destruct (append_spec b (be_bytes (wbytes w) x)) as (b1 & -> & Hb1 & Hc1 & _); [done | lia |].
    destruct (IH b1 Hb1) as (b2 & Hb2 & ? & Hc2); [rewrite Hc1, zlen_app; lia|].
    exists b2. split; [done|]. split; [done|]. by rewrite Hc2, Hc1, app_assoc.
Qed.

(** Every integer of 16 bits of a message that starts at [pos] can be read back. *)
Fixpoint room (ws : list width) (pos last : Z) : Prop :=
  match ws with
  | [] => True
  | w :: ws => room16 w pos last ∧ room ws (pos + Z.of_nat (wbytes w)) last
  end.

Lemma readInts_wire xs b r :
  wf b → Forall (fun '(w, x) => in_width w x) xs → content b = wire xs ++ r →
  room (map fst xs) (read_index_ b) (size b) →
  ∃ b', readInts (map fst xs) b = Ok (map snd xs, b') ∧ wf b' ∧ content b' = r.
Proof.
  revert b. induction xs as [|[w x] xs IH]; intros b Hb Hx Hc Hroom; simpl in *.
  - by exists b.
  - apply Forall_cons in Hx as [Hx Hxs]. rewrite <- app_assoc in Hc. destruct Hroom as [Hroom Hrest].
    destruct (readInt_spec w b _ _ Hb Hc (length_be_bytes _ _) Hroom) as (b1 & -> & Hb1 & Hc1 & Hsz & Hpos).
    rewrite bind_Ok, be_val_in_width by done.
    destruct (IH b1 Hb1 Hxs Hc1) as (b2 & -> & ? & ?); [|by exists b2].
    destruct xs as [|[w' x'] xs]; [done|]. rewrite Hsz, Hpos; [exact Hrest|].
    simpl. intros Hnil. apply (f_equal zlen) in Hnil. rewrite !zlen_app, zlen_be_bytes in Hnil.
    pose proof (zlen_nonneg (wire xs)). pose proof (zlen_nonneg r). change (zlen (@nil byte)) with 0 in Hnil.
    unfold wire in *. destruct w'; simpl in Hnil; lia.
Qed.


(** A length header fits in front of a message built in a fresh buffer. *)
Lemma prependInt_spec w x b :
  wf b → Z.of_nat (wbytes w) ≤ read_index_ b →
  ∃ b', prependInt w x b = Ok b' ∧ wf b' ∧ content b' = be_bytes (wbytes w) x ++ content b.
Proof.
  intros Hb Hr. rewrite prependInt_prepend.
  destruct (prepend_spec b (be_bytes (wbytes w) x)) as (b' & -> & ? & ? & _);
    [done | unfold prependableBytes; rewrite zlen_be_bytes; lia |].
  by exists b'.
Qed.
End Codec.


(** 300 in the last two bytes of the vector cannot be read back; with room behind it a little-endian host
    reads 300 and a big-endian one what was behind it in the vector. *)
Lemma peekInt16_reads_four_witness :
  peekInt16 (H := true) (mkBuffer (replicate 8 x00 ++ [x01; x2c]) 8 10) = Fault OutOfBounds ∧
  peekInt16 (H := true) (mkBuffer (replicate 8 x00 ++ [x01; x2c; x00; x07]) 8 10) = Ok 300 ∧
  peekInt16 (H := false) (mkBuffer (replicate 8 x00 ++ [x01; x2c; x00; x07]) 8 10) = Ok 7.
Proof.
  split_and!; (rewrite peekInt16_reads_four;
    [vm_compute; reflexivity | constructor; vm_compute; discriminate | vm_compute; discriminate]).
Defined.

(** ** Line search *)

(** [findCRLF] finds the first line end: it never faults on a well-formed
    buffer, a position it returns is where the readable bytes first hold CR LF, and
    null means that they hold none. *)
Theorem findCRLF_first b :
  wf b →
  ∃ r, findCRLF b = Ok r ∧
    match r with
    | Some p => ∃ l1 l2, content b = l1 ++ kCRLF ++ l2 ∧ p = peek b + zlen l1 ∧
                  ∀ k1 k2, content b = k1 ++ kCRLF ++ k2 → zlen l1 ≤ zlen k1
    | None => ∀ l1 l2, content b ≠ l1 ++ kCRLF ++ l2
    end.
Proof.
  intros Hb. rewrite findCRLF_spec by done. eexists. split; [done|].
  pose proof (std_search_range kCRLF (content b)) as Hrange.
  destruct (Z.eqb_spec (std_search kCRLF (content b)) (zlen (content b))) as [He|Hne].
  - intros l1 l2 Hc. pose proof (std_search_first kCRLF l1 l2) as Hf. rewrite <- Hc in Hf.
    rewrite He, Hc, !zlen_app in Hf. pose proof (zlen_nonneg l2). unfold zlen in *; simpl in *. lia.
  - destruct (std_search_match kCRLF (content b)) as [l2 Hl2]; [done | lia |].
    exists (ztake (std_search kCRLF (content b)) (content b)), l2.
    rewrite <- Hl2, ztake_zdrop, zlen_ztake by lia. split; [done|]. split; [done|].
    intros k1 k2 Hc. rewrite Hc. apply std_search_first.
Qed.

Lemma findCRLF_first_witness :
  ∃ b b1, new 16 = Ok b ∧ append (bytes "ab" ++ [CR; LF] ++ bytes "cd" ++ [CR; LF]) b = Ok b1 ∧
    findCRLF b1 = Ok (Some 10) ∧ (∃ r, findCRLF b1 = Ok r).
Proof.
  destruct (new_spec 16) as (b & Hnew & Hwf & Hc & Hr & Hs); [done..|].
  destruct (append_spec b (bytes "ab" ++ [CR; LF] ++ bytes "cd" ++ [CR; LF])) as (b1 & Ha & Hb1 & Hc1 & _);
    [exact Hwf | rewrite Hc; vm_compute; discriminate |].
  exists b, b1. split; [exact Hnew|]. split; [exact Ha|]. split.
  - injection Hnew as <-. vm_compute in Ha. injection Ha as <-. reflexivity.
  - destruct (findCRLF_first b1 Hb1) as (r & Hr1 & _). exists r. exact Hr1.
Defined.

(** ** Reading from a descriptor *)

(** [readFd], when the bytes read fit in the vector's free space: the count is
    returned and the bytes are behind the queue.  A failed [readv] reports its error
    number and leaves the buffer alone. *)
Theorem readFd_fits b d e :
  wf b → zlen d ≤ writableBytes b →
  readFd (ReadvErr e) b = Ok (-1, Some e, b) ∧
  ∃ b', readFd (ReadvData d) b = Ok (zlen d, None, b') ∧ wf b' ∧ content b' = content b ++ d.
Proof. intros. split; [apply readFd_error | by apply readFd_spec]. Qed.

Lemma readFd_fits_witness :
  ∃ b b', new 4 = Ok b ∧ readFd (ReadvData (bytes "abcd")) b = Ok (4, None, b') ∧
    content b' = bytes "abcd".
Proof.
  destruct (new_spec 4) as (b & Hnew & Hwf & Hc & _ & Hs); [done..|].
  destruct (readFd_fits b (bytes "abcd") 4) as [_ (b' & Hr & _ & Hc')].
  - exact Hwf.
  - injection Hnew as <-. vm_compute. discriminate.
  - exists b, b'. split; [exact Hnew|]. split; [exact Hr|]. rewrite Hc', Hc. done.
Defined.

(** [readFd], when [readv] used the second block: the test that should compare
    the count with the free space compares the free space with itself, so the write
    index is moved past the end of the vector, the bytes in the second block are
    never appended, and the very next look at the readable bytes runs outside the
    vector. *)
Theorem readFd_overflow b d :
  wf b → writableBytes b < zlen d → readv_fits (ReadvData d) b →
  ∃ b', readFd (ReadvData d) b = Ok (zlen d, None, b') ∧
        buffer_ b' = zwrite (write_index_ b) (ztake (writableBytes b) d) (buffer_ b) ∧
        size b' < write_index_ b' ∧ toString b' = Fault OutOfBounds.
Proof.
  intros Hb Hd Hfits. unfold readv_fits, kExtraBuf in Hfits. unfold readFd.
  assert (Hw : 0 ≤ writableBytes b) by (rewrite writable_wf by done; wf_lia).
  assert (Ht : zlen (ztake (writableBytes b) d) = writableBytes b) by (apply zlen_ztake; lia).
  rewrite vector_write_ok by (rewrite ?Ht, ?writable_wf by done; wf_lia).
  rewrite bind_Ok, Z.leb_refl. eexists. split; [done|]. split; [done|].
  assert (Hsz : zlen (zwrite (write_index_ b) (ztake (writableBytes b) d) (buffer_ b)) = size b)
    by (apply zlen_zwrite; rewrite ?Ht, ?writable_wf by done; wf_lia).
  assert (Hbound : write_index_ b + zlen d < two64).
  { destruct (Z.ltb_spec (writableBytes b) 65536); rewrite writable_wf in * by done; wf_lia. }
  rewrite writable_wf in * by done. simpl. rewrite add64_small by wf_lia.
  unfold size at 1; simpl. rewrite Hsz. split; [lia|].
  unfold toString, vector_read, readableBytes, peek; simpl. rewrite Hsz.
  rewrite sub64_small by wf_lia.
  replace (_ && _ && _) with false; [done|].
  symmetry. apply andb_false_iff. right. apply Z.leb_gt. lia.
Qed.

Lemma readFd_overflow_witness :
  ∃ b b', new 4 = Ok b ∧ readFd (ReadvData (bytes "abcdef")) b = Ok (6, None, b') ∧
    write_index_ b' = 14 ∧ size b' = 12 ∧ toString b' = Fault OutOfBounds.
Proof.
  destruct (new_spec 4) as (b & Hnew & Hwf & Hc & _ & Hs); [done..|].
  destruct (readFd_overflow b (bytes "abcdef")) as (b' & Hr & _ & _ & Ht).
  - exact Hwf.
  - injection Hnew as <-. vm_compute. reflexivity.
  - injection Hnew as <-. vm_compute. discriminate.
  - exists b, b'. split; [exact Hnew|]. split; [exact Hr|].
    injection Hnew as <-. injection Hr as <-.
    split; [reflexivity|]. split; [reflexivity|]. exact Ht.
Defined.
