(* ===== verification/HttpMessage.v ===== *)
(** * HTTP requests: include/libfm/fmnet/http/{HttpBase,HttpRequest}.h and
    net/http/HttpRequest.cpp

    A [std::string] is a byte list, the header maps ([std::unordered_map]) are finite
    maps.  Pointers into a line are offsets into it; a pair of pointers is the slice
    between them. *)
From stdpp Require Import base list gmap numbers strings.
From Stdlib Require Import ZArith Lia Init.Byte.
From S2P Require Import Prelude.
From S2P Require Import ByteBuffer.
#[local] Open Scope Z_scope.
#[local] Open Scope fm_scope.

(** [src/include/libfm/fmnet/http/HttpBase.h:10-10 Version] *)
Inductive Version := kUnknownVersion | kHttp10 | kHttp11 | kHttp20.

#[export] Instance Version_eq_dec : EqDecision Version.
Proof. solve_decision. Defined.

Abbreviation HeaderMap := (gmap (list byte) (list byte)).

Definition SP : byte := x20.
Definition COLON : byte := x3a.
Definition QUESTION : byte := x3f.
Definition DOT : byte := x2e.

(** [isspace] of the C locale. *)
Definition isspace (c : byte) : bool :=
  let v := byte_val c in (v =? 32) || ((9 <=? v) && (v <=? 13)).

Module HttpRequest.

(** [src/include/libfm/fmnet/http/HttpRequest.h:17-17 HttpRequest::Method] *)
Inductive Method := kInvalidMethod | kGet | kPost | kHead | kPut | kDelete.

#[export] Instance Method_eq_dec : EqDecision Method.
Proof. solve_decision. Defined.

(** [src/include/libfm/fmnet/http/HttpRequest.h:52-57 HttpRequest data members] *)
Record HttpRequest := mkRequest {
  method_ : Method;
  version_ : Version;
  path_ : list byte;
  query_ : list byte;
  receivedTime_ : Z;
  headers_ : HeaderMap
}.

(** [src/include/libfm/fmnet/http/HttpRequest.h:21-21 HttpRequest::HttpRequest] *)
Definition newRequest : HttpRequest := mkRequest kInvalidMethod kUnknownVersion [] [] 0 ∅.

Definition set_method (m : Method) (r : HttpRequest) : HttpRequest :=
  mkRequest m (version_ r) (path_ r) (query_ r) (receivedTime_ r) (headers_ r).
(** [src/include/libfm/fmnet/http/HttpRequest.h:32-32 HttpRequest::setPath] *)
Definition setPath (s : list byte) (r : HttpRequest) : HttpRequest :=
  mkRequest (method_ r) (version_ r) s (query_ r) (receivedTime_ r) (headers_ r).
(** [src/include/libfm/fmnet/http/HttpRequest.h:35-35 HttpRequest::setVersion] *)
Definition setVersion (v : Version) (r : HttpRequest) : HttpRequest :=
  mkRequest (method_ r) v (path_ r) (query_ r) (receivedTime_ r) (headers_ r).
(** [src/include/libfm/fmnet/http/HttpRequest.h:38-38 HttpRequest::setQuery] *)
Definition setQuery (s : list byte) (r : HttpRequest) : HttpRequest :=
  mkRequest (method_ r) (version_ r) (path_ r) s (receivedTime_ r) (headers_ r).
(** [src/include/libfm/fmnet/http/HttpRequest.h:41-41 HttpRequest::setReceivedTime] *)
Definition setReceivedTime (t : Z) (r : HttpRequest) : HttpRequest :=
  mkRequest (method_ r) (version_ r) (path_ r) (query_ r) t (headers_ r).
Definition set_headers (h : HeaderMap) (r : HttpRequest) : HttpRequest :=
  mkRequest (method_ r) (version_ r) (path_ r) (query_ r) (receivedTime_ r) h.

(** [src/net/http/HttpRequest.cpp:36-45 HttpRequest::setMethod] *)
Definition setMethod (m : list byte) (r : HttpRequest) : bool * HttpRequest :=
  let method :=
    if decide (m = bytes "GET") then kGet
    else if decide (m = bytes "POST") then kPost
    else if decide (m = bytes "HEAD") then kHead
    else if decide (m = bytes "PUT") then kPut
    else if decide (m = bytes "DELETE") then kDelete
    else kInvalidMethod in
  (bool_decide (method ≠ kInvalidMethod), set_method method r).

(** [src/net/http/HttpRequest.cpp:47-60 HttpRequest::methodToString] *)
Definition methodToString (r : HttpRequest) : list byte :=
  match method_ r with
  | kGet => bytes "GET"
  | kPost => bytes "POST"
  | kPut => bytes "PUT"
  | kDelete => bytes "DELETE"
  | kHead => bytes "HEAD"
  | kInvalidMethod => bytes "UNKNOWN"
  end.

(** The two trimming loops of [addHeader]. *)
Fixpoint skip_spaces (l : list byte) : list byte :=
  match l with
  | c :: l' => if isspace c then skip_spaces l' else l
  | [] => []
  end.

Fixpoint chop_spaces (n : nat) (v : list byte) : list byte :=
  match n with
  | O => v
  | S n => match last v with
           | Some c => if isspace c then chop_spaces n (take (length v - 1) v) else v
           | None => v
           end
  end.

(** [src/net/http/HttpRequest.cpp:62-70 HttpRequest::addHeader] The arguments are the
    slices [[start, colon)] and [[colon + 1, end)] of the header line. *)
Definition addHeader (field rest : list byte) (r : HttpRequest) : HttpRequest :=
  let value := skip_spaces rest in
  let value := chop_spaces (length value) value in
  set_headers (<[field := value]> (headers_ r)) r.

(** [src/net/http/HttpRequest.cpp:72-77 HttpRequest::getHeader] *)
Definition getHeader (field : list byte) (r : HttpRequest) : list byte :=
  match headers_ r !! field with
  | Some v => v
  | None => []
  end.

(** [src/net/http/HttpRequest.cpp:79-86 HttpRequest::swap] *)
Definition swap (r rhs : HttpRequest) : HttpRequest * HttpRequest :=
  (mkRequest (method_ rhs) (version_ rhs) (path_ rhs) (query_ rhs) (receivedTime_ rhs) (headers_ rhs),
   mkRequest (method_ r) (version_ r) (path_ r) (query_ r) (receivedTime_ r) (headers_ r)).

(** [src/net/http/HttpRequest.cpp:88-94 HttpRequest::clear] The receive time stays. *)
Definition clear (r : HttpRequest) : HttpRequest :=
  mkRequest kInvalidMethod kUnknownVersion [] [] (receivedTime_ r) ∅.

(** [src/net/http/HttpRequest.cpp:11-20 HttpRequest::HttpRequest(HttpRequest &&rhs)] The new
    request and what is left of [rhs]; moved-from strings and maps hold unspecified
    values, which are the first argument. *)
Definition moveRequest (junk : list byte * list byte * HeaderMap) (rhs : HttpRequest)
  : HttpRequest * HttpRequest :=
  let '(p, q, h) := junk in
  (mkRequest (method_ rhs) (version_ rhs) (path_ rhs) (query_ rhs) (receivedTime_ rhs) (headers_ rhs),
   mkRequest kInvalidMethod kUnknownVersion p q (receivedTime_ rhs) h).

(** [src/net/http/HttpRequest.cpp:22-34 HttpRequest::operator=(HttpRequest &&rhs)] for two
    distinct objects; a self-assignment does nothing. *)
Definition moveAssign (junk : list byte * list byte * HeaderMap) (self_assign : bool)
    (this rhs : HttpRequest) : HttpRequest * HttpRequest :=
  if self_assign then (this, this) else moveRequest junk rhs.

(** ** Trimming *)
Lemma skip_spaces_app l v :
  Forall (fun c => isspace c = true) l →
  match v with c :: _ => isspace c = false | [] => True end →
  skip_spaces (l ++ v) = v.
Proof.
  intros Hl Hv. induction Hl as [|c l Hc _ IH]; simpl.
  - destruct v as [|c v]; [done|]. simpl. by rewrite Hv.
  - by rewrite Hc.
Qed.

Lemma chop_spaces_app n v l :
  Forall (fun c => isspace c = true) l → (length l ≤ n)%nat →
  match last v with Some c => isspace c = false | None => True end →
  chop_spaces n (v ++ l) = v.
Proof.
  intros Hl Hn Hv. revert n Hn. induction l as [|c l IH] using rev_ind; intros n Hn.
  - rewrite app_nil_r. destruct n; simpl; [done|].
    destruct (last v); [by rewrite Hv | done].
  - apply Forall_app in Hl as [Hl Hc]. inversion_clear Hc as [|? ? Hc0 _]; rename Hc0 into Hc.
    rewrite length_app in Hn. simpl in Hn. destruct n as [|n]; [lia|].
    cbn [chop_spaces]. rewrite app_assoc, last_snoc, Hc.
    rewrite length_app. simpl. replace (length (v ++ l) + 1 - 1)%nat with (length (v ++ l)) by lia.
    rewrite take_app_length. apply IH; [done | lia].
Qed.

End HttpRequest.
Export HttpRequest (Method, HttpRequest).
