(* ===== verification/HttpReply.v ===== *)
(** * HTTP responses: include/libfm/fmnet/http/HttpResponse.h and net/http/HttpResponse.cpp

    The iteration order of an [unordered_map], which the language does not fix, is the
    parameter [iteration] of the serialiser. *)
From stdpp Require Import base list gmap numbers strings.
From Stdlib Require Import ZArith Lia Init.Byte.
From S2P Require Import Prelude.
From S2P Require Import ByteBuffer.
From S2P Require Import HttpMessage.
#[local] Open Scope Z_scope.
#[local] Open Scope fm_scope.

Module HttpResponse.

(** [src/include/libfm/fmnet/http/HttpResponse.h:20-26 HttpResponse::HttpStatusCode] *)
Inductive HttpStatusCode :=
  | kInvalidStatus | k200OK | k301MovedPermanently | k400BadRequest | k404NotFound.
Definition status_value (c : HttpStatusCode) : Z :=
  match c with
  | kInvalidStatus => 0
  | k200OK => 200
  | k301MovedPermanently => 301
  | k400BadRequest => 400
  | k404NotFound => 404
  end.

(** [src/include/libfm/fmnet/http/HttpResponse.h:56-61 HttpResponse data members] *)
Record HttpResponse := mkResponse {
  version_ : Version;
  statusCode_ : HttpStatusCode;
  statusMessage_ : list byte;
  headers_ : HeaderMap;
  closeConnection_ : bool;
  body_ : list byte
}.

(** [src/include/libfm/fmnet/http/HttpResponse.h:30-33 HttpResponse::HttpResponse] *)
Definition newResponse (close : bool) : HttpResponse :=
  mkResponse kUnknownVersion kInvalidStatus [] ∅ close [].

(** [src/include/libfm/fmnet/http/HttpResponse.h:38-38 HttpResponse::setVersion] *)
Definition setVersion (v : Version) (r : HttpResponse) : HttpResponse :=
  mkResponse v (statusCode_ r) (statusMessage_ r) (headers_ r) (closeConnection_ r) (body_ r).
(** [src/include/libfm/fmnet/http/HttpResponse.h:41-41 HttpResponse::setStatusCode] *)
Definition setStatusCode (c : HttpStatusCode) (r : HttpResponse) : HttpResponse :=
  mkResponse (version_ r) c (statusMessage_ r) (headers_ r) (closeConnection_ r) (body_ r).
(** [src/include/libfm/fmnet/http/HttpResponse.h:42-42 HttpResponse::setStatusMessage] *)
Definition setStatusMessage (m : list byte) (r : HttpResponse) : HttpResponse :=
  mkResponse (version_ r) (statusCode_ r) m (headers_ r) (closeConnection_ r) (body_ r).
(** [src/include/libfm/fmnet/http/HttpResponse.h:44-44 HttpResponse::setCloseConnection] *)
Definition setCloseConnection (on : bool) (r : HttpResponse) : HttpResponse :=
  mkResponse (version_ r) (statusCode_ r) (statusMessage_ r) (headers_ r) on (body_ r).
(** [src/include/libfm/fmnet/http/HttpResponse.h:45-45 HttpResponse::isCloseConnection] *)
Definition isCloseConnection (r : HttpResponse) : bool := closeConnection_ r.
(** [src/include/libfm/fmnet/http/HttpResponse.h:51-51 HttpResponse::setBody] *)
Definition setBody (b : list byte) (r : HttpResponse) : HttpResponse :=
  mkResponse (version_ r) (statusCode_ r) (statusMessage_ r) (headers_ r) (closeConnection_ r) b.
(** [src/net/http/HttpResponse.cpp:17-19 HttpResponse::addHeader] *)
Definition addHeader (field value : list byte) (r : HttpResponse) : HttpResponse :=
  mkResponse (version_ r) (statusCode_ r) (statusMessage_ r) (<[field := value]> (headers_ r))
    (closeConnection_ r) (body_ r).
(** [src/net/http/HttpResponse.cpp:13-15 HttpResponse::setContentType] *)
Definition setContentType (contentType : list byte) (r : HttpResponse) : HttpResponse :=
  addHeader (bytes "Content-Type") contentType r.

(** [src/net/http/HttpResponse.cpp:21-38 versionToStr] *)
Definition versionToStr (version : Version) : result (list byte) :=
  assert! (bool_decide (version ≠ kUnknownVersion));
  Ok (match version with
      | kHttp10 => bytes "HTTP/1.0"
      | kHttp11 => bytes "HTTP/1.1"
      | kHttp20 => bytes "HTTP/2.0"
      | kUnknownVersion => bytes ""
      end).

Definition crlf : list byte := [CR; LF].

Section Serialise.
(** The order in which a range-for loop meets the entries of the header map. *)
Variable iteration : HeaderMap → list (list byte * list byte).

(** [src/net/http/HttpResponse.cpp:40-63 HttpResponse::appendToBuffer] *)
Definition appendToBuffer (r : HttpResponse) (b : Buffer.Buffer) : result Buffer.Buffer :=
  v ← versionToStr (version_ r);
  b ← Buffer.append (snprintf 32 (v ++ [SP] ++ dec (status_value (statusCode_ r)) ++ [SP])) b;
  b ← Buffer.append (statusMessage_ r) b;
  b ← Buffer.append crlf b;
  b ← (if closeConnection_ r
       then Buffer.append (bytes "Connection: close" ++ crlf) b
       else
         b ← Buffer.append (snprintf 32 (bytes "Content-Length: " ++ dec (zlen (body_ r)) ++ crlf)) b;
         Buffer.append (bytes "Connection: keep-alive" ++ crlf) b);
  b ← foldM (fun header b =>
         b ← Buffer.append (fst header) b;
         b ← Buffer.append (bytes ": ") b;
         b ← Buffer.append (snd header) b;
         Buffer.append crlf b) (iteration (headers_ r)) b;
  b ← Buffer.append crlf b;
  Buffer.append (body_ r) b.
End Serialise.

End HttpResponse.
Export HttpResponse (HttpResponse).
