(* ===== verification/HttpParser.v ===== *)
(** * The request parser: net/http/HttpContext.h and net/http/HttpContext.cpp

    [parse_step] is one iteration of the [while (hasMore)] loop of [parseRequest],
    [parse_loop] the loop with a bound on its iterations: [None] when the bound is
    reached.  A parse that never returns is one that is [None] for every bound.

    The second half relates the parser to [feed], the same state machine on the plain
    list of received bytes, which is what the theorems of HttpParserSpec.v reason
    about. *)
From stdpp Require Import base list gmap numbers strings.
From Stdlib Require Import ZArith Lia Init.Byte.
From S2P Require Import Prelude.
From S2P Require Import ByteBuffer.
From S2P Require Import HttpMessage.
Import HttpRequest.
#[local] Open Scope Z_scope.
#[local] Open Scope fm_scope.

Module HttpContext.

(** [src/net/http/HttpContext.h:18-18 HttpContext::HttpRequestParseState] *)
Inductive HttpRequestParseState := kParseRequestLine | kParseHeaders | kParseBody | kAllDone.

#[export] Instance state_eq_dec : EqDecision HttpRequestParseState.
Proof. solve_decision. Defined.

(** [src/net/http/HttpContext.h:39-40 HttpContext data members] *)
Record HttpContext := mkContext {
  state_ : HttpRequestParseState;
  request_ : HttpRequest
}.

(** [src/net/http/HttpContext.h:20-20 HttpContext::HttpContext] *)
Definition newContext : HttpContext := mkContext kParseRequestLine newRequest.

(** [src/net/http/HttpContext.h:31-31 HttpContext::isAllDone] *)
Definition isAllDone (c : HttpContext) : bool := bool_decide (state_ c = kAllDone).

(** [src/net/http/HttpContext.h:33-33 HttpContext::reset] *)
Definition reset (c : HttpContext) : HttpContext :=
  mkContext kParseRequestLine (clear (request_ c)).

(** [*(line + i)] compared with a character. *)
Definition char_is (line : list byte) (i : Z) (c : byte) : bool :=
  bool_decide (line !! Z.to_nat i = Some c).

(** [src/net/http/HttpContext.cpp:62-97 HttpContext::processRequestLine] on
    the line between [begin] and [end]; pointers are offsets into it. *)
Definition processRequestLine (line : list byte) (r : HttpRequest) : bool * HttpRequest :=
  let end_ := zlen line in
  let start := 0 in
  let space := std_find SP line in
  if space =? end_ then (false, r)
  else
    let '(known, r) := setMethod (zslice start space line) r in
    if negb known then (false, r)
    else
      let start := space + 1 in
      let space := start + std_find SP (zslice start end_ line) in
      if space =? end_ then (false, r)
      else
        let question := start + std_find QUESTION (zslice start space line) in
        let r :=
          if negb (question =? space)
          then setQuery (zslice question space line) (setPath (zslice start question line) r)
          else setPath (zslice start space line) r in
        let start := space + 1 in
        let succeed := (end_ - start =? 8)
          && bool_decide (zslice start (end_ - 3) line = bytes "HTTP/")
          && char_is line (end_ - 2) DOT in
        if succeed then
          if char_is line (end_ - 3) x31 && char_is line (end_ - 1) x31 then (true, setVersion kHttp11 r)
          else if char_is line (end_ - 3) x31 && char_is line (end_ - 1) x30 then (true, setVersion kHttp10 r)
          else if char_is line (end_ - 3) x32 && char_is line (end_ - 1) x30 then (true, setVersion kHttp20 r)
          else (false, r)
        else (false, r).

(** The variables of the loop: [ok], the context, the buffer. *)
Record vars := mkVars { ok : bool; ctx : HttpContext; buf : Buffer.Buffer }.

(** [src/net/http/HttpContext.cpp:16-57 HttpContext::parseRequest (loop body)] The boolean is
    [hasMore] after the iteration. *)
Definition parse_step (receivedTime : Z) (v : vars) : result (bool * vars) :=
  let c := ctx v in
  let b := buf v in
  match state_ c with
  | kParseRequestLine =>
      crlf ← Buffer.findCRLF b;
      match crlf with
      | Some crlf =>
          line ← Buffer.range (Buffer.peek b) crlf b;
          let '(ok, r) := processRequestLine line (request_ c) in
          if ok then
            b ← Buffer.retrieveUntil (crlf + 2) b;
            Ok (true, mkVars ok (mkContext kParseHeaders (setReceivedTime receivedTime r)) b)
          else Ok (true, mkVars false (mkContext kParseRequestLine r) b)
      | None => Ok (false, v)
      end
  | kParseHeaders =>
      crlf ← Buffer.findCRLF b;
      match crlf with
      | Some crlf =>
          line ← Buffer.range (Buffer.peek b) crlf b;
          let colon := std_find COLON line in
          let '(more, c) :=
            if negb (colon =? zlen line)
            then (true, mkContext kParseHeaders
                          (addHeader (zslice 0 colon line) (zslice (colon + 1) (zlen line) line) (request_ c)))
            else (false, mkContext kAllDone (request_ c)) in
          b ← Buffer.retrieveUntil (crlf + 2) b;
          Ok (more, mkVars (ok v) c b)
      | None => Ok (false, v)
      end
  | kParseBody | kAllDone => Ok (true, v)
  end.

(** [src/net/http/HttpContext.cpp:13-60 HttpContext::parseRequest] with at most [fuel] iterations. *)
Fixpoint parse_loop (fuel : nat) (receivedTime : Z) (v : vars) : option (result vars) :=
  match fuel with
  | O => None
  | S fuel =>
      match parse_step receivedTime v with
      | Fault f => Some (Fault f)
      | Ok (true, v) => parse_loop fuel receivedTime v
      | Ok (false, v) => Some (Ok v)
      end
  end.

(** The call [context->parseRequest(buffer, receivedTime)]. *)
Definition parseRequest (fuel : nat) (receivedTime : Z) (c : HttpContext) (b : Buffer.Buffer)
  : option (result vars) := parse_loop fuel receivedTime (mkVars true c b).

(** ** The same machine on a list of bytes *)

Definition find_line (l : list byte) : option (list byte * list byte) :=
  let i := std_search Buffer.kCRLF l in
  if i =? zlen l then None else Some (ztake i l, zdrop (i + 2) l).

(** One header line. *)
Definition header_line (line : list byte) (r : HttpRequest) : HttpRequestParseState * HttpRequest :=
  let colon := std_find COLON line in
  if negb (colon =? zlen line)
  then (kParseHeaders, addHeader (zslice 0 colon line) (zslice (colon + 1) (zlen line) line) r)
  else (kAllDone, r).

(** What the parser makes of a list of bytes: it waits for more, is done, or does
    not come back. *)
Inductive verdict :=
  | Waiting (c : HttpContext) (rest : list byte)
  | Complete (r : HttpRequest) (rest : list byte)
  | Stuck.

Fixpoint feed (fuel : nat) (t : Z) (c : HttpContext) (l : list byte) : verdict :=
  match fuel with
  | O => Stuck
  | S fuel =>
      match state_ c with
      | kParseRequestLine =>
          match find_line l with
          | None => Waiting c l
          | Some (line, rest) =>
              let '(ok, r) := processRequestLine line (request_ c) in
              if ok then feed fuel t (mkContext kParseHeaders (setReceivedTime t r)) rest else Stuck
          end
      | kParseHeaders =>
          match find_line l with
          | None => Waiting c l
          | Some (line, rest) =>
              match header_line line (request_ c) with
              | (kParseHeaders, r) => feed fuel t (mkContext kParseHeaders r) rest
              | (_, r) => Complete r rest
              end
          end
      | _ => Stuck
      end
  end.

(** Enough iterations for a list of this length. *)
Definition enough (l : list byte) : nat := S (length l).

(** The two states a parse starts in. *)
Definition resumable (c : HttpContext) : Prop :=
  state_ c = kParseRequestLine ∨ state_ c = kParseHeaders.

(** A complete first line that is not a request line. *)
Definition malformed (l : list byte) : Prop :=
  ∃ line rest, find_line l = Some (line, rest) ∧ fst (processRequestLine line newRequest) = false.

(** ** Lines *)
Lemma kCRLF_nonnil : Buffer.kCRLF ≠ [].
Proof. done. Qed.

Lemma find_line_inv l line rest :
  find_line l = Some (line, rest) →
  l = line ++ Buffer.kCRLF ++ rest ∧ zlen line = std_search Buffer.kCRLF l ∧
  (length rest + 2 ≤ length l)%nat.
Proof.
  unfold find_line. pose proof (std_search_range Buffer.kCRLF l) as Hr.
  destruct (Z.eqb_spec (std_search Buffer.kCRLF l) (zlen l)) as [|Hne]; [done|].
  intros [= <- <-].
  destruct (std_search_match Buffer.kCRLF l kCRLF_nonnil) as [l' Hl']; [lia|].
  assert (Hd : zdrop (std_search Buffer.kCRLF l + 2) l = l').
  { rewrite Z.add_comm, <- zdrop_zdrop, Hl' by lia. done. }
  rewrite Hd. assert (Hl : l = ztake (std_search Buffer.kCRLF l) l ++ Buffer.kCRLF ++ l').
  { rewrite <- Hl'. by rewrite ztake_zdrop. }
  split; [done|]. rewrite zlen_ztake by lia. split; [done|].
  apply (f_equal length) in Hl. rewrite !length_app in Hl. simpl in Hl. lia.
Qed.

(** Appending data keeps the first line that was found. *)
Lemma find_line_app l m line rest :
  find_line l = Some (line, rest) → find_line (l ++ m) = Some (line, rest ++ m).
Proof.
  unfold find_line. pose proof (std_search_range Buffer.kCRLF l) as Hr.
  destruct (Z.eqb_spec (std_search Buffer.kCRLF l) (zlen l)) as [|Hne]; [done|].
  pose proof (std_search_match_len Buffer.kCRLF l kCRLF_nonnil ltac:(lia)) as Hlen.
  change (zlen Buffer.kCRLF) with 2 in Hlen.
  rewrite std_search_app by (done || lia). rewrite zlen_app. pose proof (zlen_nonneg m).
  destruct (Z.eqb_spec (std_search Buffer.kCRLF l) (zlen l + zlen m)); [lia|].
  intros [= <- <-]. rewrite ztake_app_le, zdrop_app_le by lia. done.
Qed.

(** A line without a carriage return ends at the first CR LF behind it. *)
Lemma find_line_intro line rest :
  CR ∉ line → find_line (line ++ Buffer.kCRLF ++ rest) = Some (line, rest).
Proof.
  intros Hcr.
  assert (Hs : std_search Buffer.kCRLF (line ++ Buffer.kCRLF ++ rest) = zlen line).
  { induction line as [|c line IH].
    - apply Z.le_antisymm; [apply (std_search_first Buffer.kCRLF [] rest) | apply std_search_range].
    - simpl. rewrite not_elem_of_cons in Hcr. destruct Hcr as [Hc Hcr].
      rewrite decide_False.
      + rewrite zlen_cons, <- IH by done. done.
      + intros [k Hk]. injection Hk as Hk _. done. }
  unfold find_line. rewrite Hs, !zlen_app. change (zlen Buffer.kCRLF) with 2.
  pose proof (zlen_nonneg rest).
  destruct (Z.eqb_spec (zlen line) (zlen line + (2 + zlen rest))); [lia|].
  rewrite ztake_app_ge, zdrop_app_ge by lia.
  rewrite ztake_0, app_nil_r by lia. do 2 f_equal.
  replace (zlen line + 2 - zlen line) with 2 by lia. done.
Qed.

(** Whether a line is a request line does not depend on the request filled in. *)
Lemma processRequestLine_ok line r r' :
  fst (processRequestLine line r) = fst (processRequestLine line r').
Proof.
  unfold processRequestLine. destruct (_ =? _); [done|]. unfold setMethod.
  destruct (bool_decide _); simpl; [|done].
  destruct (_ =? _); [done|]. destruct (_ && _ && _); [|done].
  repeat (destruct (_ && _); [done|]). done.
Qed.

(** ** The buffer-level parser computes [feed] *)
Section Simulation.
Variable t : Z.

(** A line of the buffer, as [findCRLF], the slice up to it and [retrieveUntil] see it. *)
Lemma buffer_line b line rest :
  Buffer.wf b → find_line (Buffer.content b) = Some (line, rest) →
  ∃ p b', Buffer.findCRLF b = Ok (Some p) ∧ Buffer.range (Buffer.peek b) p b = Ok line ∧
    Buffer.retrieveUntil (p + 2) b = Ok b' ∧ Buffer.wf b' ∧ Buffer.content b' = rest.
Proof.
  intros Hb Hl. pose proof (find_line_inv _ _ _ Hl) as (Hc & Hi & _).
  rewrite Buffer.findCRLF_spec by done. rewrite <- Hi.
  assert (Hlen : zlen (Buffer.content b) = zlen line + 2 + zlen rest)
    by (rewrite Hc, !zlen_app; unfold zlen at 2; simpl; lia).
  pose proof (zlen_nonneg rest). pose proof (zlen_nonneg line).
  destruct (Z.eqb_spec (zlen line) (zlen (Buffer.content b))); [lia|].
  destruct (Buffer.retrieveUntil_spec b (zlen line + 2)) as (b' & Hr & Hb' & Hc'); [done | lia |].
  exists (Buffer.peek b + zlen line), b'. split; [done|]. split; [|split].
  - unfold Buffer.range. replace (Buffer.peek b + zlen line - Buffer.peek b) with (zlen line) by lia.
    unfold Buffer.peek. rewrite Buffer.zlen_content, Buffer.readable_wf in Hlen by done.
    rewrite Buffer.vector_read_ok by (destruct Hb; unfold Buffer.size in *; lia). f_equal.
    transitivity (ztake (zlen line) (Buffer.content b)).
    + unfold Buffer.content. rewrite ztake_zslice by lia. done.
    + rewrite Hc, ztake_app_le by lia. by apply ztake_all.
  - rewrite <- Hr. f_equal. lia.
  - split; [done|]. rewrite Hc', Hc, zdrop_app_ge by lia.
    replace (zlen line + 2 - zlen line) with 2 by lia. done.
Qed.

Lemma buffer_no_line b :
  Buffer.wf b → find_line (Buffer.content b) = None → Buffer.findCRLF b = Ok None.
Proof.
  intros Hb. unfold find_line. rewrite Buffer.findCRLF_spec by done.
  by destruct (_ =? _).
Qed.

(** A rejected request line is read again for ever. *)
Lemma parse_loop_stuck fuel v line rest :
  Buffer.wf (buf v) → state_ (ctx v) = kParseRequestLine →
  find_line (Buffer.content (buf v)) = Some (line, rest) →
  fst (processRequestLine line newRequest) = false →
  parse_loop fuel t v = None.
Proof.
  intros Hb Hs Hl Hbad. revert v Hb Hs Hl. induction fuel as [|fuel IH]; intros v Hb Hs Hl; [done|].
  cbn [parse_loop]. unfold parse_step. rewrite Hs.
  destruct (buffer_line _ _ _ Hb Hl) as (p & b' & -> & Hr & _). rewrite bind_Ok. cbv beta iota.
  rewrite Hr, bind_Ok.
  pose proof (processRequestLine_ok line (request_ (ctx v)) newRequest) as Hok.
  rewrite Hbad in Hok. destruct (processRequestLine line (request_ (ctx v))) as [o r].
  simpl in Hok. subst o. by apply IH.
Qed.

Lemma parse_loop_feed fuel v :
  Buffer.wf (buf v) → ok v = true →
  match feed fuel t (ctx v) (Buffer.content (buf v)) with
  | Waiting c rest =>
      ∃ b', parse_loop fuel t v = Some (Ok (mkVars true c b')) ∧ Buffer.wf b' ∧ Buffer.content b' = rest
  | Complete r rest =>
      ∃ b', parse_loop fuel t v = Some (Ok (mkVars true (mkContext kAllDone r) b')) ∧
            Buffer.wf b' ∧ Buffer.content b' = rest
  | Stuck => parse_loop fuel t v = None
  end.
Proof.
  revert v. induction fuel as [|fuel IH]; intros v Hb Hok; [done|].
  cbn [feed]. destruct (state_ (ctx v)) eqn:Hs.
  - destruct (find_line _) as [[line rest]|] eqn:Hl.
    + destruct (processRequestLine line (request_ (ctx v))) as [[|] r] eqn:Hp.
      * destruct (buffer_line _ _ _ Hb Hl) as (p & b' & Hf & Hr & Hu & Hb' & Hc').
        cbn [parse_loop]. unfold parse_step. rewrite Hs, Hf, bind_Ok. cbv beta iota.
        rewrite Hr, bind_Ok, Hp, Hu, bind_Ok. rewrite <- Hc'.
        exact (IH (mkVars true (mkContext kParseHeaders (setReceivedTime t r)) b') Hb' eq_refl).
      * eapply parse_loop_stuck; [done..|].
        rewrite (processRequestLine_ok line newRequest (request_ (ctx v))), Hp. done.
    + cbn [parse_loop]. unfold parse_step. rewrite Hs, buffer_no_line by done. rewrite bind_Ok.
      exists (buf v). destruct v; simpl in *; subst. done.
  - destruct (find_line _) as [[line rest]|] eqn:Hl.
    + destruct (buffer_line _ _ _ Hb Hl) as (p & b' & Hf & Hr & Hu & Hb' & Hc').
      cbn [parse_loop]. unfold parse_step. rewrite Hs, Hf, bind_Ok. cbv beta iota.
      rewrite Hr, bind_Ok. unfold header_line.
      destruct (negb _) eqn:Hcol; rewrite Hu, bind_Ok, ?Hok.
      * rewrite <- Hc'.
        exact (IH (mkVars true (mkContext kParseHeaders (addHeader _ _ (request_ (ctx v)))) b') Hb' eq_refl).
      * by exists b'.
    + cbn [parse_loop]. unfold parse_step. rewrite Hs, buffer_no_line by done. rewrite bind_Ok.
      exists (buf v). destruct v; simpl in *; subst. done.
  - clear IH. cut (∀ n, parse_loop n t v = None); [intros H; apply (H (S fuel))|].
    intros n. induction n as [|n IHn]; [done|]. cbn [parse_loop]. unfold parse_step. by rewrite Hs.
  - clear IH. cut (∀ n, parse_loop n t v = None); [intros H; apply (H (S fuel))|].
    intros n. induction n as [|n IHn]; [done|]. cbn [parse_loop]. unfold parse_step. by rewrite Hs.
Qed.

(** ** [feed] *)

(** Every iteration that continues consumes a line, so the bound is never reached. *)
Lemma feed_fuel fuel c l :
  (enough l ≤ fuel)%nat → feed fuel t c l = feed (enough l) t c l.
Proof.
  unfold enough. remember (length l) as n eqn:Hn. revert fuel c l Hn.
  induction n as [n IH] using lt_wf_ind. intros fuel c l Hn Hf.
  destruct fuel as [|fuel]; [lia|]. cbn [feed].
  assert (Hrest : ∀ c' line rest, find_line l = Some (line, rest) →
            feed fuel t c' rest = feed n t c' rest).
  { intros c' line rest Hl. apply find_line_inv in Hl as (_ & _ & Hlen).
    rewrite (IH (length rest) ltac:(lia) fuel c' rest eq_refl ltac:(lia)).
    symmetry. apply (IH (length rest) ltac:(lia) n c' rest eq_refl). lia. }
  destruct (state_ c); [..|done|done].
  - destruct (find_line l) as [[line rest]|] eqn:Hl; [|done].
    destruct (processRequestLine line (request_ c)) as [[|] r]; [|done]. eauto.
  - destruct (find_line l) as [[line rest]|] eqn:Hl; [|done].
    destruct (header_line line (request_ c)) as [[] r]; eauto.
Qed.

Lemma feed_unfold c l :
  feed (enough l) t c l =
  match state_ c with
  | kParseRequestLine =>
      match find_line l with
      | None => Waiting c l
      | Some (line, rest) =>
          let '(ok, r) := processRequestLine line (request_ c) in
          if ok then feed (enough rest) t (mkContext kParseHeaders (setReceivedTime t r)) rest else Stuck
      end
  | kParseHeaders =>
      match find_line l with
      | None => Waiting c l
      | Some (line, rest) =>
          match header_line line (request_ c) with
          | (kParseHeaders, r) => feed (enough rest) t (mkContext kParseHeaders r) rest
          | (_, r) => Complete r rest
          end
      end
  | _ => Stuck
  end.
Proof.
  unfold enough at 1. cbn [feed].
  assert (Hrest : ∀ c' line rest, find_line l = Some (line, rest) →
            feed (length l) t c' rest = feed (enough rest) t c' rest).
  { intros c' line rest Hl. apply find_line_inv in Hl as (_ & _ & Hlen).
    apply feed_fuel. unfold enough. lia. }
  destruct (state_ c); [..|done|done].
  - destruct (find_line l) as [[line rest]|] eqn:Hl; [|done].
    destruct (processRequestLine line (request_ c)) as [[|] r]; [|done]. eauto.
  - destruct (find_line l) as [[line rest]|] eqn:Hl; [|done].
    destruct (header_line line (request_ c)) as [[] r]; eauto.
Qed.

(** Where the list of bytes is cut does not matter. *)
Lemma feed_app c l m :
  feed (enough (l ++ m)) t c (l ++ m) =
  match feed (enough l) t c l with
  | Waiting c' rest => feed (enough (rest ++ m)) t c' (rest ++ m)
  | Complete r rest => Complete r (rest ++ m)
  | Stuck => Stuck
  end.
Proof.
  remember (length l) as n eqn:Hn. revert c l Hn.
  induction n as [n IH] using lt_wf_ind. intros c l ->.
  rewrite (feed_unfold c l).
  destruct (state_ c) eqn:Hs; [..| by rewrite feed_unfold, Hs | by rewrite feed_unfold, Hs].
  - destruct (find_line l) as [[line rest]|] eqn:Hl; [|done].
    rewrite feed_unfold, Hs, (find_line_app _ m _ _ Hl).
    destruct (processRequestLine line (request_ c)) as [[|] r]; [|done].
    apply find_line_inv in Hl as (_ & _ & Hlen). apply (IH (length rest)); [lia | done].
  - destruct (find_line l) as [[line rest]|] eqn:Hl; [|done].
    rewrite feed_unfold, Hs, (find_line_app _ m _ _ Hl).
    apply find_line_inv in Hl as (_ & _ & Hlen).
    destruct (header_line line (request_ c)) as [[] r];
      (done || (apply (IH (length rest)); [lia | done])).
Qed.

Lemma header_line_states line r :
  (header_line line r).1 = kParseHeaders ∨ (header_line line r).1 = kAllDone.
Proof. unfold header_line. destruct (negb _); auto. Qed.

(** From the header state the parser always comes back; from the request-line state
    it does unless the first line is complete and no request line. *)
Lemma feed_headers_not_stuck c l : state_ c = kParseHeaders → feed (enough l) t c l ≠ Stuck.
Proof.
  remember (length l) as n eqn:Hn. revert c l Hn.
  induction n as [n IH] using lt_wf_ind. intros c l -> Hs.
  rewrite feed_unfold, Hs. destruct (find_line l) as [[line rest]|] eqn:Hl; [|done].
  apply find_line_inv in Hl as (_ & _ & Hlen).
  destruct (header_line line (request_ c)) as [[] r]; try done.
  apply (IH (length rest)); [lia | done..].
Qed.

Lemma feed_stuck c l :
  resumable c → feed (enough l) t c l = Stuck → state_ c = kParseRequestLine ∧ malformed l.
Proof.
  intros [Hs|Hs] Hst.
  - split; [done|]. rewrite feed_unfold, Hs in Hst.
    destruct (find_line l) as [[line rest]|] eqn:Hl; [|done].
    destruct (processRequestLine line (request_ c)) as [[|] r] eqn:Hp.
    + by apply feed_headers_not_stuck in Hst.
    + exists line, rest. split; [done|].
      by rewrite (processRequestLine_ok line newRequest (request_ c)), Hp.
  - by apply feed_headers_not_stuck in Hst.
Qed.

(** A context the parser returns while it waits can be fed again. *)
Lemma feed_waiting_resumable c l c' rest :
  resumable c → feed (enough l) t c l = Waiting c' rest → resumable c'.
Proof.
  remember (length l) as n eqn:Hn. revert c l Hn.
  induction n as [n IH] using lt_wf_ind. intros c l -> Hc Hw. rewrite feed_unfold in Hw.
  destruct Hc as [Hs|Hs]; rewrite Hs in Hw;
    (destruct (find_line l) as [[line rest0]|] eqn:Hl; [|injection Hw as <- <-; unfold resumable; auto]);
    apply find_line_inv in Hl as (_ & _ & Hlen).
  - destruct (processRequestLine line (request_ c)) as [[|] r]; [|done].
    eapply (IH (length rest0)); [lia | reflexivity | | exact Hw]; by right.
  - destruct (header_line line (request_ c)) as [[] r]; try done.
    eapply (IH (length rest0)); [lia | reflexivity | | exact Hw]; by right.
Qed.
End Simulation.

End HttpContext.
