(* ===== verification/HttpParserSpec.v ===== *)
(** * What the request parser promises

    The theorems on [HttpContext.parseRequest]: when it comes back and what it leaves,
    that the way a request is cut into segments does not matter, and that it reads back
    every request a conforming client can print. *)
From stdpp Require Import base list gmap numbers strings.
From Stdlib Require Import ZArith Lia Init.Byte.
From S2P Require Import Prelude.
From S2P Require Import ByteBuffer.
From S2P Require Import HttpMessage.
From S2P Require Import HttpParser.
Import HttpRequest HttpContext.
#[local] Open Scope Z_scope.
#[local] Open Scope fm_scope.

(** ** Segments

    The bytes of a connection arrive in segments; [onMessage] appends each to the input
    buffer and parses, until the request is complete. *)
Fixpoint receive (t : Z) (segments : list (list byte)) (c : HttpContext) (b : Buffer.Buffer)
  : option (result (HttpContext * Buffer.Buffer)) :=
  match segments with
  | [] => Some (Ok (c, b))
  | d :: ds =>
      match Buffer.append d b with
      | Fault f => Some (Fault f)
      | Ok b =>
          if isAllDone c then receive t ds c b
          else match parseRequest (enough (Buffer.content b)) t c b with
               | None => None
               | Some (Fault f) => Some (Fault f)
               | Some (Ok v) => receive t ds (ctx v) (buf v)
               end
      end
  end.

(** What can be seen of the outcome: the context and the bytes left in the buffer. *)
Definition outcome (o : option (result (HttpContext * Buffer.Buffer)))
  : option (result (HttpContext * list byte)) :=
  match o with
  | None => None
  | Some (Fault f) => Some (Fault f)
  | Some (Ok (c, b)) => Some (Ok (c, Buffer.content b))
  end.

Definition verdict_outcome (v : verdict) : option (result (HttpContext * list byte)) :=
  match v with
  | Waiting c rest => Some (Ok (c, rest))
  | Complete r rest => Some (Ok (mkContext kAllDone r, rest))
  | Stuck => None
  end.

(** Appending fails only for more bytes than an address space holds. *)
Definition short (l : list byte) : Prop := zlen l < 2 ^ 61.

Lemma parse_feed t c b :
  Buffer.wf b →
  match feed (enough (Buffer.content b)) t c (Buffer.content b) with
  | Waiting c' rest =>
      ∃ b', parseRequest (enough (Buffer.content b)) t c b = Some (Ok (mkVars true c' b')) ∧
            Buffer.wf b' ∧ Buffer.content b' = rest
  | Complete r rest =>
      ∃ b', parseRequest (enough (Buffer.content b)) t c b = Some (Ok (mkVars true (mkContext kAllDone r) b')) ∧
            Buffer.wf b' ∧ Buffer.content b' = rest
  | Stuck => parseRequest (enough (Buffer.content b)) t c b = None
  end.
Proof. intros Hb. exact (parse_loop_feed t _ (mkVars true c b) Hb eq_refl). Qed.

Section Segments.
Variable t : Z.

(** What is left unread is a suffix of what was there. *)
Lemma feed_suffix c l c' rest :
  feed (enough l) t c l = Waiting c' rest ∨ (∃ r, feed (enough l) t c l = Complete r rest) →
  rest `suffix_of` l.
Proof.
  remember (length l) as n eqn:Hn. revert c l Hn.
  induction n as [n IH] using lt_wf_ind. intros c l -> H. rewrite feed_unfold in H.
  assert (Hend : ∀ c0 line rest0, find_line l = Some (line, rest0) →
     feed (enough rest0) t c0 rest0 = Waiting c' rest ∨ (∃ r, feed (enough rest0) t c0 rest0 = Complete r rest) →
     rest `suffix_of` l).
  { intros c0 line rest0 Hl H0. pose proof (find_line_inv _ _ _ Hl) as (Heq & _ & Hlen).
    etrans; [eapply (IH (length rest0)); [lia | reflexivity | exact H0]|].
    rewrite Heq. exists (line ++ Buffer.kCRLF). by rewrite <- app_assoc. }
  destruct (state_ c); [..| naive_solver | naive_solver];
    (destruct (find_line l) as [[line rest0]|] eqn:Hl; [|naive_solver]).
  - destruct (processRequestLine line (request_ c)) as [[|] r]; [by eapply Hend | naive_solver].
  - destruct (header_line line (request_ c)) as [s r].
    destruct s; [| by eapply Hend | |];
      (destruct H as [H|[? H]]; [done|]; injection H as _ <-;
       pose proof (find_line_inv _ _ _ Hl) as (Heq & _);
       rewrite Heq; exists (line ++ Buffer.kCRLF); by rewrite <- app_assoc).
Qed.

Lemma short_suffix l l' : l' `suffix_of` l → short l → short l'.
Proof. intros [k ->]. unfold short. rewrite zlen_app. pose proof (zlen_nonneg k). lia. Qed.

Lemma append_short b d :
  Buffer.wf b → short (Buffer.content b ++ d) →
  ∃ b', Buffer.append d b = Ok b' ∧ Buffer.wf b' ∧ Buffer.content b' = Buffer.content b ++ d.
Proof.
  intros Hb Hs. unfold short in Hs. rewrite zlen_app in Hs.
  destruct (Buffer.append_spec b d) as (b' & ? & ? & ? & _); [done | | by exists b'].
  pose proof (zlen_nonneg (Buffer.content b)). unfold Buffer.max_size, Buffer.kCheapPrepend. lia.
Qed.

Lemma short_app_l l l' : short (l ++ l') → short l.
Proof. unfold short. rewrite zlen_app. pose proof (zlen_nonneg l'). lia. Qed.

Lemma resumable_not_done c : resumable c → isAllDone c = false.
Proof. intros [Hc|Hc]; unfold isAllDone; by rewrite Hc. Qed.

(** After completion the segments only pile up. *)
Lemma receive_done segments c b :
  Buffer.wf b → isAllDone c = true → short (Buffer.content b ++ concat segments) →
  outcome (receive t segments c b) = Some (Ok (c, Buffer.content b ++ concat segments)).
Proof.
  revert b. induction segments as [|d ds IH]; intros b Hb Hc Hs; simpl in *.
  - by rewrite app_nil_r.
  - rewrite app_assoc in Hs |- *.
    destruct (append_short b d) as (b' & -> & Hb' & Hc'); [done | by eapply short_app_l |].
    rewrite Hc. rewrite IH by (done || by rewrite Hc'). by rewrite Hc'.
Qed.

(** Segments parsed one by one give what the parser gives on all their bytes. *)
Lemma receive_feed segments c b :
  Buffer.wf b → resumable c → short (Buffer.content b ++ concat segments) →
  feed (enough (Buffer.content b)) t c (Buffer.content b) = Waiting c (Buffer.content b) →
  outcome (receive t segments c b) =
    verdict_outcome (feed (enough (Buffer.content b ++ concat segments)) t c
                       (Buffer.content b ++ concat segments)).
Proof.
  revert c b. induction segments as [|d ds IH]; intros c b Hb Hc Hs Hsat; cbn [receive concat] in *.
  - rewrite app_nil_r, Hsat. done.
  - rewrite app_assoc in Hs |- *.
    destruct (append_short b d) as (b' & -> & Hb' & Hc'); [done | by eapply short_app_l |].
    rewrite resumable_not_done by done.
    rewrite <- Hc' in Hs |- *. rewrite feed_app. pose proof (parse_feed t c b' Hb') as Hp.
    pose proof (feed_suffix c (Buffer.content b')) as Hsuf.
    pose proof (feed_waiting_resumable t c (Buffer.content b')) as Hres.
    pose proof (feed_app t c (Buffer.content b') []) as Hagain. rewrite !app_nil_r in Hagain.
    assert (Hs' : ∀ rest, rest `suffix_of` Buffer.content b' → short (rest ++ concat ds)).
    { intros rest [k Hk]. eapply short_suffix, Hs. exists k. by rewrite Hk, <- app_assoc. }
    destruct (feed (enough (Buffer.content b')) t c (Buffer.content b')) as [c' rest|r rest|] eqn:Hf.
    + destruct Hp as (b'' & -> & Hb'' & <-). simpl. rewrite app_nil_r in Hagain.
      apply IH; [done | by eapply Hres | apply Hs', (Hsuf c'); by left | done].
    + destruct Hp as (b'' & -> & Hb'' & <-). simpl.
      apply receive_done; [done..|]. apply Hs', (Hsuf c). right. by exists r.
    + rewrite Hp. done.
Qed.

End Segments.

(** ** When the parser comes back *)

(** C28. [parseRequest] comes back exactly when it can: called in one of the two states
    it is called in, it returns, without a fault, within one iteration per byte, with
    [ok] true, what it did not consume at the end of the buffer, and a context that
    is either complete or can be fed again; unless the buffer holds a complete first line
    that is no request line, which it then reads for ever. *)
Theorem parseRequest_returns t c b :
  Buffer.wf b → resumable c →
  if decide (state_ c = kParseRequestLine) then
    (malformed (Buffer.content b) ∧ ∀ fuel, parseRequest fuel t c b = None) ∨
    (¬ malformed (Buffer.content b) ∧
     ∃ c' b', parseRequest (enough (Buffer.content b)) t c b = Some (Ok (mkVars true c' b')) ∧
       Buffer.wf b' ∧ Buffer.content b' `suffix_of` Buffer.content b ∧
       (resumable c' ∨ isAllDone c' = true))
  else
    ∃ c' b', parseRequest (enough (Buffer.content b)) t c b = Some (Ok (mkVars true c' b')) ∧
      Buffer.wf b' ∧ Buffer.content b' `suffix_of` Buffer.content b ∧
      (resumable c' ∨ isAllDone c' = true).
Proof.
  intros Hb Hc. pose proof (parse_feed t c b Hb) as Hp.
  pose proof (feed_suffix t c (Buffer.content b)) as Hsuf.
  pose proof (feed_waiting_resumable t c (Buffer.content b)) as Hres.
  pose proof (feed_stuck t c (Buffer.content b) Hc) as Hst.
  assert (Hret : feed (enough (Buffer.content b)) t c (Buffer.content b) ≠ Stuck →
    ∃ c' b', parseRequest (enough (Buffer.content b)) t c b = Some (Ok (mkVars true c' b')) ∧
      Buffer.wf b' ∧ Buffer.content b' `suffix_of` Buffer.content b ∧
      (resumable c' ∨ isAllDone c' = true)).
  { intros Hns. destruct (feed _ t c _) as [c' rest|r rest|]; [..|done];
      destruct Hp as (b' & Hp & Hb' & <-); eexists _, b'; split_and!; [done..| | |done|done| |].
    - apply (Hsuf c'). by left.
    - left. by eapply Hres.
    - apply (Hsuf c). right. by exists r.
    - by right. }
  case_decide as Hs.
  - destruct (feed _ t c _) eqn:Hf; [right|right|left].
    + split; [|by apply Hret]. intros (line & rest' & Hl & Hbad).
      rewrite feed_unfold, Hs, Hl in Hf.
      pose proof (processRequestLine_ok line (request_ c) newRequest) as Hok. rewrite Hbad in Hok.
      destruct (processRequestLine line (request_ c)) as [o r]. simpl in Hok. by subst o.
    + split; [|by apply Hret]. intros (line & rest' & Hl & Hbad).
      rewrite feed_unfold, Hs, Hl in Hf.
      pose proof (processRequestLine_ok line (request_ c) newRequest) as Hok. rewrite Hbad in Hok.
      destruct (processRequestLine line (request_ c)) as [o r']. simpl in Hok. by subst o.
    + split; [by apply Hst|]. destruct (Hst eq_refl) as [_ (line & rest & Hl & Hbad)].
      intros fuel. exact (parse_loop_stuck t fuel (mkVars true c b) line rest Hb Hs Hl Hbad).
  - apply Hret. intros Hf. destruct (Hst Hf). done.
Qed.

(** A request line and half a header line on a fresh buffer. *)
Lemma parseRequest_returns_witness :
  ∃ b b1 v, Buffer.new 64 = Ok b ∧
    Buffer.append (bytes "GET /a HTTP/1.1" ++ [CR; LF] ++ bytes "Ho") b = Ok b1 ∧
    parseRequest 20 7 newContext b1 = Some (Ok v) ∧ state_ (ctx v) = kParseHeaders ∧
    ((malformed (Buffer.content b1) ∧ ∀ fuel, parseRequest fuel 7 newContext b1 = None) ∨
     (¬ malformed (Buffer.content b1) ∧
      ∃ c' b', parseRequest (enough (Buffer.content b1)) 7 newContext b1 = Some (Ok (mkVars true c' b')) ∧
       Buffer.wf b' ∧ Buffer.content b' `suffix_of` Buffer.content b1 ∧
       (resumable c' ∨ isAllDone c' = true))).
Proof.
  destruct (Buffer.new_spec 64) as (b & Hnew & Hwf & Hc & _); [done..|].
  destruct (append_short b (bytes "GET /a HTTP/1.1" ++ [CR; LF] ++ bytes "Ho"))
    as (b1 & Ha & Hb1 & _); [exact Hwf | rewrite Hc; vm_compute; reflexivity |].
  pose proof (parseRequest_returns 7 newContext b1 Hb1 (or_introl eq_refl)) as H.
  rewrite decide_True in H by reflexivity.
  injection Hnew as <-. vm_compute in Ha. injection Ha as <-.
  do 3 eexists. split; [reflexivity|]. split; [reflexivity|].
  split; [vm_compute; reflexivity|]. split; [reflexivity | exact H].
Defined.

(** C11. How the bytes of a request are cut into segments is invisible: two ways of
    cutting the same bytes give the same context and leave the same bytes in the
    buffer (or both never come back), and neither faults. *)
Theorem parseRequest_segmentation t segments1 segments2 b :
  Buffer.wf b → Buffer.content b = [] →
  concat segments1 = concat segments2 → short (concat segments1) →
  outcome (receive t segments1 newContext b) = outcome (receive t segments2 newContext b) ∧
  ∀ f, outcome (receive t segments1 newContext b) ≠ Some (Fault f).
Proof.
  intros Hb Hc Heq Hs.
  assert (Hrec : ∀ ds, concat ds = concat segments1 →
    outcome (receive t ds newContext b) =
    verdict_outcome (feed (enough (concat segments1)) t newContext (concat segments1))).
  { intros ds Hds. rewrite receive_feed; rewrite ?Hc, ?Hds; (done || by left). }
  rewrite (Hrec segments1), (Hrec segments2) by done. split; [done|].
  intros f. by destruct (feed _ _ _ _).
Qed.

Lemma parseRequest_segmentation_witness :
  ∃ b, Buffer.new 64 = Ok b ∧
    let l := bytes "GET / HTTP/1.0" ++ [CR; LF; CR; LF] in
    outcome (receive 7 [l] newContext b) =
      outcome (receive 7 [bytes "GE"; bytes "T / HTTP/1.0" ++ [CR]; [LF; CR]; [LF]] newContext b) ∧
    outcome (receive 7 [l] newContext b) =
      Some (Ok (mkContext kAllDone (mkRequest kGet kHttp10 (bytes "/") [] 7 ∅), [])).
Proof.
  destruct (Buffer.new_spec 64) as (b & Hnew & Hwf & Hc & _); [done..|].
  exists b. split; [exact Hnew|]. cbv zeta. split.
  - apply (parseRequest_segmentation 7 [bytes "GET / HTTP/1.0" ++ [CR; LF; CR; LF]]);
      [exact Hwf | exact Hc | reflexivity | vm_compute; reflexivity].
  - injection Hnew as <-. vm_compute. reflexivity.
Defined.

(** ** Reading back a printed request *)

Record wire_header := mkWire {
  field : list byte;
  before : list byte;    (** white space in front of the value *)
  value : list byte;
  after : list byte      (** white space behind it *)
}.

Definition version_text (v : Version) : option (list byte) :=
  match v with
  | kHttp10 => Some (bytes "HTTP/1.0")
  | kHttp11 => Some (bytes "HTTP/1.1")
  | kHttp20 => Some (bytes "HTTP/2.0")
  | kUnknownVersion => None
  end.

Definition header_text (h : wire_header) : list byte :=
  field h ++ [COLON] ++ before h ++ value h ++ after h.

Definition request_line (method path query version : list byte) : list byte :=
  method ++ [SP] ++ path ++ query ++ [SP] ++ version.

Definition render (line : list byte) (hs : list wire_header) : list byte :=
  line ++ Buffer.kCRLF ++ concat (map (fun h => header_text h ++ Buffer.kCRLF) hs) ++ Buffer.kCRLF.

(** What a client may print: lines hold no CR, a path neither SP nor a question mark, a
    query, if there is one, starts with the question mark, a field name has no colon, and a
    value starts and ends with something visible. *)
Definition path_ok (path query : list byte) : Prop :=
  SP ∉ path ∧ QUESTION ∉ path ∧ CR ∉ path ∧ SP ∉ query ∧ CR ∉ query ∧
  (query = [] ∨ ∃ q, query = QUESTION :: q).

Definition visible_ends (v : list byte) : Prop :=
  match v with c :: _ => isspace c = false | [] => True end ∧
  match last v with Some c => isspace c = false | None => True end.

Definition header_ok (h : wire_header) : Prop :=
  COLON ∉ field h ∧ CR ∉ header_text h ∧ visible_ends (value h) ∧
  Forall (fun c => isspace c = true) (before h) ∧ Forall (fun c => isspace c = true) (after h).

(** The header map that a sequence of header lines makes: the last line wins. *)
Definition headers_of (hs : list wire_header) (m : HeaderMap) : HeaderMap :=
  foldl (fun m h => <[field h := value h]> m) m hs.

Lemma addHeader_wire h r :
  header_ok h → addHeader (field h) (before h ++ value h ++ after h) r =
  set_headers (<[field h := value h]> (headers_ r)) r.
Proof.
  intros (_ & _ & [Hv1 Hv2] & Hb & Ha). unfold addHeader.
  assert (Hsk : chop_spaces (length (skip_spaces (before h ++ value h ++ after h)))
                  (skip_spaces (before h ++ value h ++ after h)) = value h).
  { destruct (value h) as [|c v] eqn:Hval.
    - simpl. assert (Hall : skip_spaces (before h ++ after h) = []).
      { rewrite <- (app_nil_r (before h ++ after h)). apply skip_spaces_app; [|done].
        by apply Forall_app. }
      by rewrite Hall.
    - rewrite skip_spaces_app by done. apply chop_spaces_app; [done | rewrite length_app; lia | done]. }
  by rewrite Hsk.
Qed.

Lemma header_line_wire h r :
  header_ok h → header_line (header_text h) r =
  (kParseHeaders, set_headers (<[field h := value h]> (headers_ r)) r).
Proof.
  intros Hok. pose proof Hok as (Hcol & _). unfold header_line, header_text.
  cbn [app]. rewrite std_find_app_match by done. rewrite zlen_app, zlen_cons.
  pose proof (zlen_nonneg (before h ++ value h ++ after h)).
  destruct (Z.eqb_spec (zlen (field h)) (zlen (field h) + (1 + zlen (before h ++ value h ++ after h))));
    [lia|]. cbn [negb]. f_equal. rewrite <- (addHeader_wire h r Hok). f_equal.
  - unfold zslice. rewrite zdrop_0, ztake_app_le, ztake_all by lia. done.
  - unfold zslice. rewrite zdrop_app_ge by lia.
    replace (zlen (field h) + 1 - zlen (field h)) with 1 by lia.
    change (zdrop 1 (COLON :: before h ++ value h ++ after h)) with (before h ++ value h ++ after h).
    apply ztake_all. lia.
Qed.

Lemma setMethod_text m r :
  m ≠ kInvalidMethod →
  setMethod (methodToString (set_method m newRequest)) r = (true, set_method m r).
Proof. by destruct m. Qed.

Lemma method_text_plain m : m ≠ kInvalidMethod →
  SP ∉ methodToString (set_method m newRequest) ∧ CR ∉ methodToString (set_method m newRequest).
Proof. intros Hm. destruct m; try done; split; by apply (bool_decide_unpack _). Qed.

(** Slices next to a separator. *)
Lemma zslice_mid {A} (l1 l2 l3 : list A) i j :
  i = zlen l1 → j = zlen l1 + zlen l2 → zslice i j (l1 ++ l2 ++ l3) = l2.
Proof.
  intros -> ->. pose proof (zlen_nonneg l2). unfold zslice.
  rewrite zdrop_app_ge, zdrop_0 by lia.
  rewrite ztake_app_le, ztake_all by lia. done.
Qed.

Lemma zslice_end {A} (l1 l2 : list A) i j :
  i = zlen l1 → j = zlen l1 + zlen l2 → zslice i j (l1 ++ l2) = l2.
Proof. intros. rewrite <- (app_nil_r l2) at 1. by apply zslice_mid. Qed.

(** The path and query fields that [start .. space) fills. *)
Lemma question_split path query :
  QUESTION ∉ path → (query = [] ∨ ∃ q, query = QUESTION :: q) →
  std_find QUESTION (path ++ query) = zlen path.
Proof.
  intros Hp [->|[q ->]].
  - rewrite app_nil_r. by apply std_find_none.
  - by apply std_find_app_match.
Qed.

(** The version suffix, as the code tests it. *)
Lemma version_tail pre v text :
  version_text v = Some text →
  let line := pre ++ text in
  let end_ := zlen line in
  end_ - zlen pre = 8 ∧ zslice (zlen pre) (end_ - 3) line = bytes "HTTP/" ∧
  char_is line (end_ - 2) DOT = true ∧
  (char_is line (end_ - 3) x31 && char_is line (end_ - 1) x31 = bool_decide (v = kHttp11)) ∧
  (char_is line (end_ - 3) x31 && char_is line (end_ - 1) x30 = bool_decide (v = kHttp10)) ∧
  (char_is line (end_ - 3) x32 && char_is line (end_ - 1) x30 = bool_decide (v = kHttp20)).
Proof.
  intros Hv. cbv zeta.
  assert (Ht : ∃ a b, text = bytes "HTTP/" ++ [a; DOT; b] ∧
     a = (if decide (v = kHttp20) then x32 else x31) ∧ b = (if decide (v = kHttp11) then x31 else x30) ∧ v ≠ kUnknownVersion).
  { destruct v; simpl in Hv; [done | injection Hv as <-..]; eexists _, _; done. }
  destruct Ht as (a & b & -> & Ha & Hb & Hnu).
  assert (Hlen : zlen (pre ++ bytes "HTTP/" ++ [a; DOT; b]) = zlen pre + 8) by (rewrite zlen_app; done).
  rewrite Hlen. split; [lia|]. split; [apply zslice_mid; [done|]; unfold zlen at 3; simpl; lia|].
  assert (Hch : ∀ i k c d, i = zlen pre + k → 0 ≤ k → (bytes "HTTP/" ++ [a; DOT; b]) !! Z.to_nat k = Some d →
     char_is (pre ++ bytes "HTTP/" ++ [a; DOT; b]) i c = bool_decide (d = c)).
  { intros i k c d -> Hk Hd. unfold char_is. rewrite lookup_app_r by (unfold zlen; lia).
    replace (Z.to_nat (zlen pre + k) - length pre)%nat with (Z.to_nat k) by (unfold zlen; lia).
    rewrite Hd. apply bool_decide_ext. naive_solver. }
  rewrite (Hch (zlen pre + 8 - 2) 6 DOT DOT), !(Hch (zlen pre + 8 - 3) 5 _ a),
    !(Hch (zlen pre + 8 - 1) 7 _ b) by (done || lia).
  subst a b. by destruct v.
Qed.

(** Where the fields of a request line are. *)
Lemma request_line_cuts mt path query text :
  SP ∉ mt → SP ∉ path → SP ∉ query →
  let line := request_line mt path query text in
  let m := zlen mt in let p := zlen path in let q := zlen query in
  zlen line = m + p + q + 2 + zlen text ∧
  std_find SP line = m ∧ zslice 0 m line = mt ∧
  std_find SP (zslice (m + 1) (zlen line) line) = p + q ∧
  zslice (m + 1) (m + 1 + (p + q)) line = path ++ query ∧
  zslice (m + 1) (m + 1 + p) line = path ∧
  zslice (m + 1 + p) (m + 1 + (p + q)) line = query.
Proof.
  intros Hm Hp Hq. cbv zeta. unfold request_line.
  set (line := mt ++ [SP] ++ path ++ query ++ [SP] ++ text).
  assert (Hlen : zlen line = zlen mt + zlen path + zlen query + 2 + zlen text)
    by (unfold line; rewrite !zlen_app; change (zlen [SP]) with 1; lia).
  assert (Hsl : ∀ a b c i j, line = a ++ b ++ c → i = zlen a → j = zlen a + zlen b → zslice i j line = b)
    by (intros a b c i j ->; apply zslice_mid).
  split_and!.
  - done.
  - by apply std_find_app_match.
  - by apply (Hsl [] mt ([SP] ++ path ++ query ++ [SP] ++ text)).
  - rewrite (Hsl (mt ++ [SP]) ((path ++ query) ++ SP :: text) []).
    + rewrite std_find_app_match by (rewrite elem_of_app; naive_solver). by rewrite zlen_app.
    + unfold line. by rewrite app_nil_r, <- !app_assoc.
    + by rewrite zlen_app.
    + rewrite Hlen, !zlen_app, !zlen_cons, zlen_nil. lia.
  - apply (Hsl (mt ++ [SP]) (path ++ query) (SP :: text)).
    + unfold line. by rewrite <- !app_assoc.
    + by rewrite zlen_app.
    + rewrite !zlen_app. change (zlen [SP]) with 1. lia.
  - apply (Hsl (mt ++ [SP]) path (query ++ SP :: text)).
    + unfold line. by rewrite <- !app_assoc.
    + by rewrite zlen_app.
    + rewrite !zlen_app. change (zlen [SP]) with 1. lia.
  - apply (Hsl (mt ++ [SP] ++ path) query (SP :: text)).
    + unfold line. by rewrite <- !app_assoc.
    + rewrite !zlen_app. change (zlen [SP]) with 1. lia.
    + rewrite !zlen_app. change (zlen [SP]) with 1. lia.
Qed.

Lemma processRequestLine_render m path query v text r :
  m ≠ kInvalidMethod → path_ok path query → version_text v = Some text →
  processRequestLine (request_line (methodToString (set_method m newRequest)) path query text) r =
  (true, mkRequest m v path (if decide (query = []) then query_ r else query) (receivedTime_ r) (headers_ r)).
Proof.
  intros Hm (Hps & Hpq & _ & Hqs & _ & Hq) Hv.
  pose proof (setMethod_text m r Hm) as Hset. destruct (method_text_plain m Hm) as [Hsp _].
  set (mt := methodToString (set_method m newRequest)) in *.
  pose proof (zlen_nonneg mt). pose proof (zlen_nonneg path). pose proof (zlen_nonneg query). pose proof (zlen_nonneg text).
  destruct (version_tail (mt ++ [SP] ++ path ++ query ++ [SP]) v text Hv) as (Hend & Hhttp & Hdot & H11 & H10 & H20).
  assert (Hline : (mt ++ [SP] ++ path ++ query ++ [SP]) ++ text = request_line mt path query text)
    by (unfold request_line; by rewrite <- !app_assoc).
  assert (Hpre : zlen (mt ++ [SP] ++ path ++ query ++ [SP]) = zlen mt + zlen path + zlen query + 2)
    by (rewrite !zlen_app; change (zlen [SP]) with 1; lia).
  rewrite Hline, Hpre in *.
  destruct (request_line_cuts mt path query text) as (Hlen & Hf1 & Hs1 & Hf2 & Htgt & Hpath & Hquery); [done..|].
  unfold processRequestLine. rewrite Hf1. destruct (Z.eqb_spec (zlen mt) (zlen (request_line mt path query text))); [lia|].
  rewrite Hs1, Hset. cbn [negb]. rewrite Hf2.
  destruct (Z.eqb_spec (zlen mt + 1 + (zlen path + zlen query)) (zlen (request_line mt path query text))); [lia|].
  rewrite Htgt, question_split by done.
  replace (zlen mt + 1 + (zlen path + zlen query) + 1) with (zlen mt + zlen path + zlen query + 2) by lia.
  rewrite (proj2 (Z.eqb_eq _ _) Hend), Hdot, H11, H10, H20. rewrite bool_decide_eq_true_2 by done. cbn [andb].
  assert (Hfin : ∀ r', (if bool_decide (v = kHttp11) then (true, setVersion kHttp11 r')
     else if bool_decide (v = kHttp10) then (true, setVersion kHttp10 r')
     else if bool_decide (v = kHttp20) then (true, setVersion kHttp20 r')
     else (false, r')) = (true, setVersion v r')) by (intros r'; by destruct v).
  rewrite Hfin, Hpath, Hquery. f_equal. destruct Hq as [->|[q ->]].
  - replace (zlen mt + 1 + zlen path =? _) with true; [|symmetry; apply Z.eqb_eq; rewrite zlen_nil; lia].
    cbn [negb]. by rewrite decide_True, app_nil_r by done.
  - pose proof (zlen_nonneg q). rewrite zlen_cons.
    by destruct (Z.eqb_spec (zlen mt + 1 + zlen path) (zlen mt + 1 + (zlen path + (1 + zlen q)))); [lia|].
Qed.

Lemma feed_headers t hs r rest :
  Forall header_ok hs →
  let l := concat (map (fun h => header_text h ++ Buffer.kCRLF) hs) ++ Buffer.kCRLF ++ rest in
  feed (enough l) t (mkContext kParseHeaders r) l =
  Complete (set_headers (headers_of hs (headers_ r)) r) rest.
Proof.
  cbv zeta. intros Hok. revert r. induction Hok as [|h hs Hh _ IH]; intros r; rewrite feed_unfold; simpl state_.
  - cbn [map concat app]. pose proof (find_line_intro [] rest ltac:(apply not_elem_of_nil)) as Hl. cbn [app] in Hl |- *.
    rewrite Hl.
    simpl. by destruct r.
  - cbn [map concat]. rewrite <- !app_assoc. destruct Hh as (? & Hcr & ?).
    rewrite find_line_intro by done. rewrite header_line_wire by done.
    rewrite IH. simpl. by destruct r.
Qed.

Lemma request_line_plain m path query v text :
  m ≠ kInvalidMethod → path_ok path query → version_text v = Some text →
  CR ∉ request_line (methodToString (set_method m newRequest)) path query text.
Proof.
  intros Hm (_ & _ & ? & _ & ? & _) Hv. destruct (method_text_plain m Hm) as [_ ?].
  assert (CR ∉ text) by (destruct v; simpl in Hv; [done | injection Hv as <-; by apply (bool_decide_unpack _)..]).
  assert (CR ∉ [SP]) by (by apply (bool_decide_unpack _)).
  unfold request_line. rewrite !elem_of_app. naive_solver.
Qed.

Lemma feed_render m path query v text hs rest t r0 :
  m ≠ kInvalidMethod → path_ok path query → version_text v = Some text → Forall header_ok hs →
  let l := render (request_line (methodToString (set_method m newRequest)) path query text) hs ++ rest in
  feed (enough l) t (mkContext kParseRequestLine (clear r0)) l =
  Complete (mkRequest m v path query t (headers_of hs ∅)) rest.
Proof.
  intros Hm Hp Hv Hhs. cbv zeta. unfold render. rewrite <- !app_assoc, feed_unfold. cbn [state_].
  rewrite find_line_intro by (by eapply request_line_plain).
  rewrite (processRequestLine_render m path query v text), feed_headers by done.
  f_equal. unfold setReceivedTime, set_headers. simpl. by case_decide; subst.
Qed.

(** C10. Round trip: whatever a conforming client prints - any of the five methods, a path
    with or without a query, one of the three versions, and header lines with any white
    space around the value - the parser reads back, field by field, as one request whose
    headers are the last values printed; it is complete at the empty line and everything
    behind it stays in the buffer. *)
Theorem parse_render m path query v text hs rest t b :
  m ≠ kInvalidMethod → path_ok path query → version_text v = Some text → Forall header_ok hs →
  Buffer.wf b →
  Buffer.content b =
    render (request_line (methodToString (set_method m newRequest)) path query text) hs ++ rest →
  ∃ b', parseRequest (enough (Buffer.content b)) t newContext b =
          Some (Ok (mkVars true (mkContext kAllDone (mkRequest m v path query t (headers_of hs ∅))) b')) ∧
        Buffer.wf b' ∧ Buffer.content b' = rest.
Proof.
  intros Hm Hp Hv Hhs Hb Hc. pose proof (parse_feed t newContext b Hb) as H.
  assert (Hf : feed (enough (Buffer.content b)) t newContext (Buffer.content b) =
    Complete (mkRequest m v path query t (headers_of hs ∅)) rest).
  { rewrite Hc. by apply (feed_render m path query v text hs rest t newRequest). }
  rewrite Hf in H. exact H.
Qed.

Lemma parse_render_witness :
  ∃ b b1, Buffer.new 64 = Ok b ∧
    Buffer.append (bytes "POST /x?y=1 HTTP/1.1" ++ [CR; LF] ++ bytes "Host:  h:80 " ++ [CR; LF; CR; LF]
                   ++ bytes "tail") b = Ok b1 ∧
    ∃ b', parseRequest (enough (Buffer.content b1)) 7 newContext b1 =
      Some (Ok (mkVars true (mkContext kAllDone
        (mkRequest kPost kHttp11 (bytes "/x") (bytes "?y=1") 7
           (<[bytes "Host" := bytes "h:80"]> ∅))) b')) ∧
      Buffer.wf b' ∧ Buffer.content b' = bytes "tail".
Proof.
  destruct (Buffer.new_spec 64) as (b & Hnew & Hwf & Hc & _); [done..|].
  destruct (append_short b (bytes "POST /x?y=1 HTTP/1.1" ++ [CR; LF] ++ bytes "Host:  h:80 "
     ++ [CR; LF; CR; LF] ++ bytes "tail")) as (b1 & Ha & Hb1 & Hc1);
    [exact Hwf | rewrite Hc; vm_compute; reflexivity |].
  exists b, b1. split; [exact Hnew|]. split; [exact Ha|].
  apply (parse_render kPost (bytes "/x") (bytes "?y=1") kHttp11 (bytes "HTTP/1.1")
          [mkWire (bytes "Host") (bytes "  ") (bytes "h:80") (bytes " ")] (bytes "tail") 7 b1).
  - discriminate.
  - unfold path_ok. split_and!; try (by apply (bool_decide_unpack _)). right. by exists (bytes "y=1").
  - reflexivity.
  - constructor; [|constructor]. unfold header_ok.
    split_and!; try (by apply (bool_decide_unpack _)); vm_compute; repeat constructor.
  - exact Hb1.
  - rewrite Hc1, Hc. reflexivity.
Defined.

(** A header line without a colon ends the headers, whatever it says: a client that
    folds a line or misspells one has its request taken as complete there, and the rest
    of its headers stay in the buffer, where the next call reads them as a request
    line. *)
Theorem colonless_line_ends_headers line rest r t b :
  CR ∉ line → COLON ∉ line → Buffer.wf b →
  Buffer.content b = line ++ Buffer.kCRLF ++ rest →
  ∃ b', parseRequest 1 t (mkContext kParseHeaders r) b =
          Some (Ok (mkVars true (mkContext kAllDone r) b')) ∧
        Buffer.wf b' ∧ Buffer.content b' = rest.
Proof.
  intros Hcr Hcol Hb Hc.
  pose proof (parse_loop_feed t 1 (mkVars true (mkContext kParseHeaders r) b) Hb eq_refl) as H.
  cbn [feed ctx buf state_ request_] in H. rewrite Hc, find_line_intro in H by done.
  unfold header_line in H. rewrite std_find_none, Z.eqb_refl in H by done. exact H.
Qed.

Lemma colonless_line_ends_headers_witness :
  ∃ b b1, Buffer.new 64 = Ok b ∧
    Buffer.append (bytes "folded" ++ [CR; LF] ++ bytes "Host: h") b = Ok b1 ∧
    ∃ b', parseRequest 1 7 (mkContext kParseHeaders newRequest) b1 =
            Some (Ok (mkVars true (mkContext kAllDone newRequest) b')) ∧
          Buffer.wf b' ∧ Buffer.content b' = bytes "Host: h".
Proof.
  destruct (Buffer.new_spec 64) as (b & Hnew & Hwf & Hc & _); [done..|].
  destruct (append_short b (bytes "folded" ++ [CR; LF] ++ bytes "Host: h")) as (b1 & Ha & Hb1 & Hc1);
    [exact Hwf | rewrite Hc; vm_compute; reflexivity |].
  exists b, b1. split; [exact Hnew|]. split; [exact Ha|].
  apply (colonless_line_ends_headers (bytes "folded") (bytes "Host: h"));
    [by apply (bool_decide_unpack _).. | exact Hb1 | rewrite Hc1, Hc; reflexivity].
Defined.
