(* ===== verification/HttpParserTyping.v ===== *)
(** * What holds of every request the parser returns

    Whatever bytes arrive: a request that has been parsed has a method and a version of the enumerations, and its
    strings have the form that the rest of the server counts on. *)
From stdpp Require Import base list gmap numbers strings.
From Stdlib Require Import ZArith Lia Init.Byte.
From S2P Require Import Prelude.
From S2P Require Import ByteBuffer.
From S2P Require Import HttpMessage.
From S2P Require Import HttpParser.
From S2P Require Import HttpParserSpec.
Import HttpRequest HttpParser.HttpContext.
#[local] Open Scope Z_scope.
#[local] Open Scope fm_scope.

(** A query with its question mark, or none. *)
Definition query_typed (q : list byte) : Prop := SP ∉ q ∧ (q = [] ∨ ∃ q', q = QUESTION :: q').

(** Field names have no colon, values no white space around them. *)
Definition header_typed (f v : list byte) : Prop := COLON ∉ f ∧ visible_ends v.

Record line_typed (r : HttpRequest) : Prop := {
  lt_method : method_ r ≠ kInvalidMethod;
  lt_version : version_ r ≠ kUnknownVersion;
  lt_path : SP ∉ path_ r ∧ QUESTION ∉ path_ r
}.

(** A parser's state: the first line has been read before the headers are. *)
Record typed (c : HttpContext) : Prop := {
  ty_query : query_typed (query_ (request_ c));
  ty_headers : map_Forall header_typed (headers_ (request_ c));
  ty_line : state_ c ≠ kParseRequestLine → line_typed (request_ c)
}.

Lemma new_typed : typed newContext.
Proof.
  constructor; [|by apply map_Forall_empty|done]. split; [by apply not_elem_of_nil | by left].
Qed.

Lemma reset_typed c : typed (reset c).
Proof. constructor; [|by apply map_Forall_empty|done]. split; [by apply not_elem_of_nil | by left]. Qed.

(** ** Slices between separators *)

Lemma zlen_zslice_le {A} i j (l : list A) : zlen (zslice i j l) ≤ Z.max 0 (j - i).
Proof. unfold zslice, ztake, zlen. rewrite length_take. lia. Qed.

Lemma slice_to_find c i j l : zslice i (i + std_find c (zslice i j l)) l = ztake (std_find c (zslice i j l)) (zslice i j l).
Proof.
  pose proof (std_find_range c (zslice i j l)) as Hr. pose proof (zlen_zslice_le i j l).
  destruct (Z.le_gt_cases j i) as [Hle|Hgt].
  - rewrite (zslice_nil i j) by done. cbn [std_find]. rewrite zslice_nil by lia. by rewrite ztake_0.
  - by rewrite ztake_zslice by lia.
Qed.

Lemma slice_before c i j l : c ∉ zslice i (i + std_find c (zslice i j l)) l.
Proof. rewrite slice_to_find. apply std_find_before. Qed.

Lemma not_in_ztake (c : byte) n l : c ∉ l → c ∉ ztake n l.
Proof. intros Hc Hin. apply Hc. by eapply elem_of_take in Hin as (? & Hin & _); apply list_elem_of_lookup; eexists. Qed.
Lemma not_in_zdrop (c : byte) n l : c ∉ l → c ∉ zdrop n l.
Proof. intros Hc Hin. apply Hc. rewrite <- (ztake_zdrop n l). apply elem_of_app. by right. Qed.

(** What stands behind the separator that has been found, up to the end. *)
Lemma slice_from_find c i j l :
  0 ≤ i → i + std_find c (zslice i j l) ≠ j → i ≤ j → zlen (zslice i j l) = j - i →
  ∃ q, zslice (i + std_find c (zslice i j l)) j l = c :: q.
Proof.
  intros Hi Hne Hij Hlen. pose proof (std_find_range c (zslice i j l)) as Hr.
  destruct (std_find_match c (zslice i j l)) as [q Hq]; [lia|]. exists q. by rewrite <- Hq, zdrop_zslice by lia.
Qed.

(** ** The first line *)

Lemma processRequestLine_typed line r :
  query_typed (query_ r) →
  let '(ok, r') := processRequestLine line r in
  query_typed (query_ r') ∧ headers_ r' = headers_ r ∧ (ok = true → line_typed r').
Proof.
  intros Hq. unfold processRequestLine. cbv zeta. pose proof (std_find_range SP line) as Hr1.
  destruct (Z.eqb_spec (std_find SP line) (zlen line)) as [|Hne]; [done|].
  destruct (setMethod _ r) as [known r1] eqn:Hm. unfold setMethod in Hm. injection Hm as Hk <-.
  destruct known; cbn [negb]; [|done]. apply bool_decide_eq_true in Hk.
  set (start := std_find SP line + 1). set (space := start + std_find SP (zslice start (zlen line) line)).
  assert (Hrest : zlen (zslice start (zlen line) line) = zlen line - start) by (apply zlen_zslice; lia).
  pose proof (std_find_range SP (zslice start (zlen line) line)) as Hr2.
  destruct (Z.eqb_spec space (zlen line)) as [|Hne2]; [done|].
  assert (Hpart : zlen (zslice start space line) = space - start) by (apply zlen_zslice; lia).
  assert (Hsp : SP ∉ zslice start space line) by apply slice_before.
  pose proof (slice_to_find QUESTION start space line) as Hpath. pose proof (std_find_range QUESTION (zslice start space line)) as Hr3.
  set (question := start + std_find QUESTION (zslice start space line)) in *.
  match goal with |- context [setVersion kHttp11 ?r2] => set (r3 := r2) end.
  assert (Hr4 : query_typed (query_ r3) ∧ headers_ r3 = headers_ r ∧ method_ r3 ≠ kInvalidMethod ∧ SP ∉ path_ r3 ∧ QUESTION ∉ path_ r3).
  { unfold r3. destruct (Z.eqb_spec question space) as [Heq|Hneq]; cbn [negb query_ headers_ method_ path_ setQuery setPath set_method].
    - split_and!; try done. rewrite <- Heq. apply slice_before.
    - split_and!; try done.
      + split.
        * replace question with (start + (question - start)) by lia. rewrite <- zdrop_zslice by lia. by apply not_in_zdrop.
        * right. by apply slice_from_find; lia.
      + rewrite Hpath. by apply not_in_ztake.
      + apply slice_before. }
  destruct Hr4 as (H1 & H2 & H3 & H4 & H5).
  clearbody r3. destruct (_ && _ && _); [|done]. repeat (destruct (_ && _); [split_and!; try done; intros _; by constructor|]). done.
Qed.

(** ** A header line *)

Lemma skip_spaces_head l : match skip_spaces l with c :: _ => isspace c = false | [] => True end.
Proof. induction l as [|c l IH]; [done|]. cbn [skip_spaces]. by destruct (isspace c) eqn:Hc. Qed.

Lemma chop_spaces_visible n v :
  (length v ≤ n)%nat → match v with c :: _ => isspace c = false | [] => True end → visible_ends (chop_spaces n v).
Proof.
  revert v. induction n as [|n IH]; intros v Hn Hv.
  - destruct v; [done|]. simpl in Hn. lia.
  - cbn [chop_spaces]. destruct (last v) as [c|] eqn:Hl.
    + destruct (isspace c) eqn:Hc; [|split; [done | by rewrite Hl]].
      apply IH; [rewrite length_take; lia|]. destruct v as [|b [|b' v]]; [done|done|].
      replace (take (length (b :: b' :: v) - 1) (b :: b' :: v)) with (b :: take (length v) (b' :: v)); [done|].
      cbn [length]. by replace (S (S (length v)) - 1)%nat with (S (length v)) by lia.
    + split; [done | by rewrite Hl].
Qed.

Lemma header_line_typed line r :
  map_Forall header_typed (headers_ r) →
  let '(_, r') := header_line line r in
  map_Forall header_typed (headers_ r') ∧ query_ r' = query_ r ∧ (line_typed r → line_typed r').
Proof.
  intros Hh. unfold header_line. destruct (negb _) eqn:Hc; [|done]. split; [|split; [done|]].
  - cbn [headers_ addHeader set_headers]. apply map_Forall_insert_2; [|done]. split.
    + unfold zslice. rewrite zdrop_0, Z.sub_0_r by lia. apply std_find_before.
    + apply chop_spaces_visible; [done | apply skip_spaces_head].
  - intros [H1 H2 H3]. by constructor.
Qed.

(** ** The parser *)

Lemma parse_step_typed t v more v' :
  parse_step t v = Ok (more, v') → typed (ctx v) → typed (ctx v').
Proof.
  intros Hp [Hq Hh Hl]. unfold parse_step in Hp. destruct (state_ (ctx v)) eqn:Hs.
  - apply bind_Ok_inv in Hp as ([crlf|] & _ & Hp); [|injection Hp as <- <-; by constructor].
    apply bind_Ok_inv in Hp as (line & _ & Hp). pose proof (processRequestLine_typed line (request_ (ctx v)) Hq) as Ht.
    destruct (processRequestLine line (request_ (ctx v))) as [[] r]; destruct Ht as (Hq' & Hh' & Hl').
    + apply bind_Ok_inv in Hp as (b & _ & Hp). injection Hp as <- <-.
      constructor; cbn [ctx request_ state_ setReceivedTime query_ headers_]; [done | by rewrite Hh' |]. intros _. by destruct (Hl' eq_refl).
    + injection Hp as <- <-. constructor; cbn [ctx request_ state_]; [done | by rewrite Hh' | done].
  - specialize (Hl ltac:(done)). apply bind_Ok_inv in Hp as ([crlf|] & _ & Hp); [|injection Hp as <- <-; by constructor].
    apply bind_Ok_inv in Hp as (line & _ & Hp). pose proof (header_line_typed line (request_ (ctx v)) Hh) as Ht. unfold header_line in Ht.
    destruct (negb (std_find COLON line =? zlen line)); apply bind_Ok_inv in Hp as (b & _ & Hp); injection Hp as <- <-;
      destruct Ht as (Hh' & Hq' & Hl'); (constructor; cbn [ctx request_ state_]; [exact Hq | done | auto]).
  - injection Hp as <- <-. constructor; [done | done | intros _; by apply Hl].
  - injection Hp as <- <-. constructor; [done | done | intros _; by apply Hl].
Qed.

Lemma parse_loop_typed fuel t v v' : parse_loop fuel t v = Some (Ok v') → typed (ctx v) → typed (ctx v').
Proof.
  revert v. induction fuel as [|fuel IH]; intros v Hp Ht; [done|]. cbn [parse_loop] in Hp.
  destruct (parse_step t v) as [[[] v1]|] eqn:Hs; [| |done].
  - apply (IH v1); [done|]. by eapply parse_step_typed.
  - injection Hp as <-. by eapply parse_step_typed.
Qed.

(** The same for the machine on lists. *)
Lemma feed_typed fuel t c l :
  typed c → match feed fuel t c l with Waiting c' _ => typed c' | Complete r _ => typed (mkContext kAllDone r) | Stuck => True end.
Proof.
  revert c l. induction fuel as [|fuel IH]; intros c l Hc; [done|]. pose proof Hc as [Hq Hh Hl]. cbn [feed].
  destruct (state_ c) eqn:Hs; [| |done..]; (destruct (find_line l) as [[line rest]|]; [|done]).
  - pose proof (processRequestLine_typed line (request_ c) Hq) as Ht.
    destruct (processRequestLine line (request_ c)) as [[] r]; [|done]. destruct Ht as (Hq' & Hh' & Hl'). apply IH.
    constructor; cbn [request_ state_ setReceivedTime query_ headers_]; [done | by rewrite Hh' |]. intros _. by destruct (Hl' eq_refl).
  - specialize (Hl ltac:(done)). pose proof (header_line_typed line (request_ c) Hh) as Ht.
    assert (Hty : ∀ st, typed (mkContext st (snd (header_line line (request_ c))))).
    { intros st. destruct (header_line line (request_ c)) as [st' r]. destruct Ht as (Hh' & Hq' & Hl').
      constructor; cbn [request_ snd]; [by rewrite Hq' | done | auto]. }
    destruct (header_line line (request_ c)) as [[] r]; try apply Hty. by apply IH, Hty.
Qed.

Lemma receive_typed t segments c b c' b' : receive t segments c b = Some (Ok (c', b')) → typed c → typed c'.
Proof.
  revert c b. induction segments as [|d ds IH]; intros c b Hr Ht; cbn [receive] in Hr; [by injection Hr as <- <-|].
  destruct (Buffer.append d b) as [b1|]; [|done]. destruct (isAllDone c); [by apply (IH c b1)|].
  destruct (parseRequest _ t c b1) as [[v|]|] eqn:Hp; [|done..]. apply (IH (ctx v) (buf v)); [done|].
  by eapply parse_loop_typed.
Qed.

(** C29. A request that the parser hands over is well-formed, whatever bytes came in, in whatever segments, after a new start or a reset: its method and its
    version are known ones, the path has neither a space nor a question mark, the query is empty or starts with
    its question mark, no field name has a colon and no value white space around it. *)
Theorem parsed_request_typed t segments c0 b c b' :
  c0 = newContext ∨ (∃ c1, c0 = reset c1) →
  receive t segments c0 b = Some (Ok (c, b')) → isAllDone c = true →
  let r := request_ c in
  method_ r ≠ kInvalidMethod ∧ version_ r ≠ kUnknownVersion ∧
  SP ∉ path_ r ∧ QUESTION ∉ path_ r ∧ query_typed (query_ r) ∧ map_Forall header_typed (headers_ r).
Proof.
  intros Hc0 Hr Hdone. assert (H0 : typed c0) by (destruct Hc0 as [-> | [c1 ->]]; [apply new_typed | apply reset_typed]).
  destruct (receive_typed t segments c0 b c b' Hr H0) as [Hq Hh Hl]. unfold isAllDone in Hdone. apply bool_decide_eq_true in Hdone.
  destruct Hl as [H1 H2 [H3 H4]]; [by rewrite Hdone|]. by split_and!.
Qed.

Lemma parsed_request_typed_witness :
  ∃ b b' r, Buffer.new 64 = Ok b ∧
    receive 7 [bytes "GET /a?x HTT"; bytes "P/1.0" ++ [CR; LF] ++ bytes "Host:  h " ++ [CR; LF; CR; LF]] newContext b =
      Some (Ok (mkContext kAllDone r, b')) ∧
    method_ r ≠ kInvalidMethod ∧ version_ r ≠ kUnknownVersion ∧
    SP ∉ path_ r ∧ QUESTION ∉ path_ r ∧ query_typed (query_ r) ∧ map_Forall header_typed (headers_ r).
Proof.
  assert (H : ∃ b b' r, Buffer.new 64 = Ok b ∧
    receive 7 [bytes "GET /a?x HTT"; bytes "P/1.0" ++ [CR; LF] ++ bytes "Host:  h " ++ [CR; LF; CR; LF]] newContext b =
      Some (Ok (mkContext kAllDone r, b'))).
  { do 3 eexists. split; [reflexivity|]. vm_compute. reflexivity. }
  destruct H as (b & b' & r & Hb & Hr). exists b, b', r. split; [exact Hb|]. split; [exact Hr|].
  exact (parsed_request_typed 7 _ newContext b _ b' (or_introl eq_refl) Hr eq_refl).
Defined.
