(* ===== verification/Channel.v ===== *)
(** * Channels: include/libfm/fmnet/Channel.h and net/Channel.cpp

    A [Channel] ties a descriptor to the events its owner is interested in and to the
    callbacks that handle them.  Callbacks are names (the type [CB]); what they do is
    the interpreter [callback] of the dispatch section, which works on any state [W]
    that holds channels (class [HasChannels]): the revents are read again from that
    state before every test, as the member function does.  The operations that go
    through the event loop ([update], [remove] and their callers) are in EventLoop.v. *)
From stdpp Require Import base list gmap numbers strings.
From Stdlib Require Import ZArith Lia Init.Byte.
From S2P Require Import Prelude.
#[local] Open Scope Z_scope.
#[local] Open Scope fm_scope.

(** The event bits of poll(2) and epoll(7). *)
Definition POLLIN : Z := 1.
Definition POLLPRI : Z := 2.
Definition POLLOUT : Z := 4.
Definition POLLERR : Z := 8.
Definition POLLHUP : Z := 16.
Definition POLLNVAL : Z := 32.
Definition POLLRDHUP : Z := 8192.

(** [(v & bits) != 0]. *)
Definition has_bits (v bits : Z) : bool := negb (Z.land v bits =? 0).

(** Addresses of channels, and of the objects a channel can be tied to. *)
Abbreviation loc := positive.

Module Channel.

(** [src/net/Channel.cpp:15-15 Channel::kNoneEvent] *)
Definition kNoneEvent : Z := 0.
(** [src/net/Channel.cpp:16-16 Channel::kReadEvent] *)
Definition kReadEvent : Z := Z.lor POLLIN POLLPRI.
(** [src/net/Channel.cpp:17-17 Channel::kWriteEvent] *)
Definition kWriteEvent : Z := POLLOUT.

(** [src/include/libfm/fmnet/Channel.h:79-93 Channel data members] The pointer
    to the loop is the loop the channel is stored in. *)
Record Channel (CB : Type) := mkChannel {
  fd_ : Z;
  events_ : Z;
  revents_ : Z;
  index_ : Z;
  log_hup_ : bool;
  tie_ : option loc;
  tied_ : bool;
  event_handling_ : bool;
  added_to_loop_ : bool;
  read_callback_ : option CB;
  write_callback_ : option CB;
  close_callback_ : option CB;
  error_callback_ : option CB
}.
Arguments mkChannel {CB}.
Arguments fd_ {CB} _.
Arguments events_ {CB} _.
Arguments revents_ {CB} _.
Arguments index_ {CB} _.
Arguments log_hup_ {CB} _.
Arguments tie_ {CB} _.
Arguments tied_ {CB} _.
Arguments event_handling_ {CB} _.
Arguments added_to_loop_ {CB} _.
Arguments read_callback_ {CB} _.
Arguments write_callback_ {CB} _.
Arguments close_callback_ {CB} _.
Arguments error_callback_ {CB} _.

Section Members.
Context {CB : Type}.
Implicit Types c : Channel CB.

(** [src/net/Channel.cpp:19-28 Channel::Channel] *)
Definition newChannel (fd : Z) : Channel CB :=
  mkChannel fd 0 0 (-1) false None false false false None None None None.

Definition set_events (e : Z) c : Channel CB :=
  mkChannel (fd_ c) e (revents_ c) (index_ c) (log_hup_ c) (tie_ c) (tied_ c) (event_handling_ c)
    (added_to_loop_ c) (read_callback_ c) (write_callback_ c) (close_callback_ c) (error_callback_ c).
(** [src/include/libfm/fmnet/Channel.h:56-56 Channel::set_revents] *)
Definition set_revents (r : Z) c : Channel CB :=
  mkChannel (fd_ c) (events_ c) r (index_ c) (log_hup_ c) (tie_ c) (tied_ c) (event_handling_ c)
    (added_to_loop_ c) (read_callback_ c) (write_callback_ c) (close_callback_ c) (error_callback_ c).
(** [src/include/libfm/fmnet/Channel.h:53-53 Channel::set_index] *)
Definition set_index (i : Z) c : Channel CB :=
  mkChannel (fd_ c) (events_ c) (revents_ c) i (log_hup_ c) (tie_ c) (tied_ c) (event_handling_ c)
    (added_to_loop_ c) (read_callback_ c) (write_callback_ c) (close_callback_ c) (error_callback_ c).
Definition set_event_handling (b : bool) c : Channel CB :=
  mkChannel (fd_ c) (events_ c) (revents_ c) (index_ c) (log_hup_ c) (tie_ c) (tied_ c) b
    (added_to_loop_ c) (read_callback_ c) (write_callback_ c) (close_callback_ c) (error_callback_ c).
Definition set_added_to_loop (b : bool) c : Channel CB :=
  mkChannel (fd_ c) (events_ c) (revents_ c) (index_ c) (log_hup_ c) (tie_ c) (tied_ c)
    (event_handling_ c) b (read_callback_ c) (write_callback_ c) (close_callback_ c) (error_callback_ c).
(** [src/net/Channel.cpp:37-42 Channel::tie] *)
Definition tie (obj : loc) c : Channel CB :=
  mkChannel (fd_ c) (events_ c) (revents_ c) (index_ c) (log_hup_ c) (Some obj) true
    (event_handling_ c) (added_to_loop_ c) (read_callback_ c) (write_callback_ c) (close_callback_ c)
    (error_callback_ c).
(** [src/include/libfm/fmnet/Channel.h:36-36 Channel::setReadCallback] *)
Definition setReadCallback (cb : CB) c : Channel CB :=
  mkChannel (fd_ c) (events_ c) (revents_ c) (index_ c) (log_hup_ c) (tie_ c) (tied_ c)
    (event_handling_ c) (added_to_loop_ c) (Some cb) (write_callback_ c) (close_callback_ c) (error_callback_ c).
(** [src/include/libfm/fmnet/Channel.h:37-37 Channel::setWriteCallback] *)
Definition setWriteCallback (cb : CB) c : Channel CB :=
  mkChannel (fd_ c) (events_ c) (revents_ c) (index_ c) (log_hup_ c) (tie_ c) (tied_ c)
    (event_handling_ c) (added_to_loop_ c) (read_callback_ c) (Some cb) (close_callback_ c) (error_callback_ c).
(** [src/include/libfm/fmnet/Channel.h:38-38 Channel::setCloseCallback] *)
Definition setCloseCallback (cb : CB) c : Channel CB :=
  mkChannel (fd_ c) (events_ c) (revents_ c) (index_ c) (log_hup_ c) (tie_ c) (tied_ c)
    (event_handling_ c) (added_to_loop_ c) (read_callback_ c) (write_callback_ c) (Some cb) (error_callback_ c).
(** [src/include/libfm/fmnet/Channel.h:39-39 Channel::setErrorCallback] *)
Definition setErrorCallback (cb : CB) c : Channel CB :=
  mkChannel (fd_ c) (events_ c) (revents_ c) (index_ c) (log_hup_ c) (tie_ c) (tied_ c)
    (event_handling_ c) (added_to_loop_ c) (read_callback_ c) (write_callback_ c) (close_callback_ c) (Some cb).

(** [src/include/libfm/fmnet/Channel.h:46-46 Channel::isReading] *)
Definition isReading c : bool := has_bits (events_ c) kReadEvent.
(** [src/include/libfm/fmnet/Channel.h:47-47 Channel::isWriting] *)
Definition isWriting c : bool := has_bits (events_ c) kWriteEvent.
(** [src/include/libfm/fmnet/Channel.h:48-48 Channel::isNoneEvent] *)
Definition isNoneEvent c : bool := events_ c =? kNoneEvent.
End Members.

(** The changes of the interest mask that [update()] follows. *)
Inductive interest := EnableReading | EnableWriting | DisableReading | DisableWriting | DisableAll.

(** [src/include/libfm/fmnet/Channel.h:41-45 Channel::enableReading ... disableAll] *)
Definition change_events (i : interest) (e : Z) : Z :=
  match i with
  | EnableReading => Z.lor e kReadEvent
  | EnableWriting => Z.lor e kWriteEvent
  | DisableReading => Z.land e (Z.lnot kReadEvent)
  | DisableWriting => Z.land e (Z.lnot kWriteEvent)
  | DisableAll => kNoneEvent
  end.

(** ** Printing *)

(** [src/net/Channel.cpp:92-110 Channel::eventsToString] *)
Definition eventsToString (fd ev : Z) : list byte :=
  let buf := replicate 32 x00 in
  let pr := zlen (dec fd ++ bytes ": ") in
  let buf := snprintf_at 0 (dec fd ++ bytes ": ") buf in
  let buf := if has_bits ev POLLIN then snprintf_at pr (bytes "IN ") buf else buf in
  let buf := if has_bits ev POLLPRI then snprintf_at pr (bytes "PRI ") buf else buf in
  let buf := if has_bits ev POLLOUT then snprintf_at pr (bytes "OUT ") buf else buf in
  let buf := if has_bits ev POLLHUP then snprintf_at pr (bytes "HUP ") buf else buf in
  let buf := if has_bits ev POLLRDHUP then snprintf_at pr (bytes "RDHUP ") buf else buf in
  let buf := if has_bits ev POLLERR then snprintf_at pr (bytes "ERR ") buf else buf in
  let buf := if has_bits ev POLLNVAL then snprintf_at pr (bytes "NVAL ") buf else buf in
  c_str buf.

(** ** Dispatch *)

(** States that hold channels: a heap of them, which can be replaced. *)
Class HasChannels (W CB : Type) := {
  chans : W → gmap loc (Channel CB);
  with_chans : gmap loc (Channel CB) → W → W;
  chans_with : ∀ h w, chans (with_chans h w) = h
}.

Section Dispatch.
Context {W CB : Type} `{HasChannels W CB}.
(** What a callback does, given the receive time, and whether a tied object still
    has an owner ([weak_ptr::lock] succeeds). *)
Variable callback : CB → Z → W → result W.
Variable alive : loc → W → bool.

(** A member access through the address [l]. *)
Definition get (l : loc) (w : W) : result (Channel CB) :=
  match chans w !! l with Some c => Ok c | None => Fault UseAfterFree end.
Definition put (l : loc) (c : Channel CB) (w : W) : W := with_chans (<[l := c]> (chans w)) w.

(** [if (revents_ & mask) if (cb) cb(...)]. *)
Definition dispatch (mask : Z) (which : Channel CB → option CB) (t : Z) (l : loc) (w : W) : result W :=
  c ← get l w;
  if has_bits (revents_ c) mask
  then match which c with Some cb => callback cb t w | None => Ok w end
  else Ok w.

(** [src/net/Channel.cpp:68-90 Channel::handleEventWithGurad] *)
Definition handleEventWithGurad (t : Z) (l : loc) (w : W) : result W :=
  c ← get l w;
  let w := put l (set_event_handling true c) w in
  w ← (c ← get l w;
       if has_bits (revents_ c) POLLHUP && negb (has_bits (revents_ c) POLLIN)
       then match close_callback_ c with Some cb => callback cb t w | None => Ok w end
       else Ok w);
  w ← dispatch (Z.lor POLLERR POLLNVAL) error_callback_ t l w;
  w ← dispatch (Z.lor (Z.lor POLLIN POLLPRI) POLLRDHUP) read_callback_ t l w;
  w ← dispatch POLLOUT write_callback_ t l w;
  c ← get l w;
  Ok (put l (set_event_handling false c) w).

(** [src/net/Channel.cpp:55-66 Channel::handleEvent] *)
Definition handleEvent (t : Z) (l : loc) (w : W) : result W :=
  c ← get l w;
  if tied_ c
  then match tie_ c with
       | Some obj => if alive obj w then handleEventWithGurad t l w else Ok w
       | None => Ok w
       end
  else handleEventWithGurad t l w.
End Dispatch.

(** ** Facts *)

Lemma has_bits_lor v a b : 0 ≤ v → 0 ≤ a → 0 ≤ b → has_bits v (Z.lor a b) = has_bits v a || has_bits v b.
Proof.
  intros. unfold has_bits. rewrite Z.land_lor_distr_r.
  destruct (Z.eqb_spec (Z.land v a) 0) as [->|Ha]; destruct (Z.eqb_spec (Z.land v b) 0) as [->|Hb]; simpl;
    rewrite ?Z.lor_0_l, ?Z.lor_0_r; try (apply negb_true_iff, Z.eqb_neq; done); [done|].
  apply negb_true_iff, Z.eqb_neq. intros Hz%Z.lor_eq_0_iff. naive_solver.
Qed.

Section DispatchFacts.
Context {W CB : Type} `{HasChannels W CB}.
Variable callback : CB → Z → W → result W.
Variable t : Z.

(** The callbacks a dispatch makes, in order, for the revents of [c]. *)
Definition planned (c : Channel CB) : list CB :=
  (if has_bits (revents_ c) POLLHUP && negb (has_bits (revents_ c) POLLIN)
   then option_list (close_callback_ c) else []) ++
  (if has_bits (revents_ c) (Z.lor POLLERR POLLNVAL) then option_list (error_callback_ c) else []) ++
  (if has_bits (revents_ c) (Z.lor (Z.lor POLLIN POLLPRI) POLLRDHUP)
   then option_list (read_callback_ c) else []) ++
  (if has_bits (revents_ c) POLLOUT then option_list (write_callback_ c) else []).

(** The parts of the record that the dispatch reads. *)
Definition same_dispatch (c c' : Channel CB) : Prop :=
  revents_ c' = revents_ c ∧ read_callback_ c' = read_callback_ c ∧ write_callback_ c' = write_callback_ c ∧
  close_callback_ c' = close_callback_ c ∧ error_callback_ c' = error_callback_ c.

(** No callback replaces them while it runs. *)
Definition stable (l : loc) (c : Channel CB) : Prop :=
  ∀ cb w w' c0, chans w !! l = Some c0 → same_dispatch c c0 → callback cb t w = Ok w' →
    ∃ c1, chans w' !! l = Some c1 ∧ same_dispatch c c1.

Lemma get_put l c w : get l (put l c w) = Ok c.
Proof. unfold get, put. by rewrite chans_with, lookup_insert_eq. Qed.

Lemma get_lookup l c w : chans w !! l = Some c → get l w = Ok c.
Proof. unfold get. by intros ->. Qed.

Lemma chans_put l c w : chans (put l c w) !! l = Some c.
Proof. unfold put. by rewrite chans_with, lookup_insert_eq. Qed.

(** One test of the dispatch, then the rest of it. *)
Lemma dispatch_step (b : Channel CB → bool) (which : Channel CB → option CB) l c (k fin : W → result W) cbs :
  stable l c →
  (∀ c', same_dispatch c c' → b c' = b c ∧ which c' = which c) →
  (∀ w c0, chans w !! l = Some c0 → same_dispatch c c0 →
     k w = (w ← foldM (fun cb => callback cb t) cbs w; fin w)) →
  ∀ w c0, chans w !! l = Some c0 → same_dispatch c c0 →
  (w ← (c ← get l w; if b c then match which c with Some cb => callback cb t w | None => Ok w end else Ok w);
   k w) = (w ← foldM (fun cb => callback cb t) ((if b c then option_list (which c) else []) ++ cbs) w; fin w).
Proof.
  intros Hst Hb Hk w c0 Hc0 Hs. rewrite (get_lookup l c0) by done. rewrite bind_Ok.
  destruct (Hb _ Hs) as [-> ->]. destruct (b c); [|by eapply Hk].
  destruct (which c) as [cb|]; [|by eapply Hk]. simpl.
  destruct (callback cb t w) as [w'|f] eqn:Hcb; [|done]. rewrite !bind_Ok.
  destruct (Hst _ _ _ _ Hc0 Hs Hcb) as (c1 & Hc1 & Hs1). by eapply Hk.
Qed.

Lemma handleEventWithGurad_planned l c w :
  chans w !! l = Some c → stable l c →
  handleEventWithGurad callback t l w =
  (w ← foldM (fun cb => callback cb t) (planned c) (put l (set_event_handling true c) w);
   c ← get l w;
   Ok (put l (set_event_handling false c) w)).
Proof.
  intros Hl Hst. unfold handleEventWithGurad. rewrite (get_lookup l c w Hl), bind_Ok. cbv zeta.
  assert (Hsame : ∀ c', same_dispatch c c' → revents_ c' = revents_ c ∧ read_callback_ c' = read_callback_ c ∧
    write_callback_ c' = write_callback_ c ∧ close_callback_ c' = close_callback_ c ∧
    error_callback_ c' = error_callback_ c) by done.
  unfold planned, dispatch. rewrite <- (app_nil_r (if has_bits (revents_ c) POLLOUT then _ else _)).
  eapply (dispatch_step (fun c => has_bits (revents_ c) POLLHUP && negb (has_bits (revents_ c) POLLIN))
    close_callback_ l c); [done | | | apply chans_put | done].
  { by intros c' (-> & _ & _ & -> & _)%Hsame. }
  eapply (dispatch_step (fun c => has_bits (revents_ c) (Z.lor POLLERR POLLNVAL)) error_callback_); [done | |].
  { by intros c' (-> & _ & _ & _ & ->)%Hsame. }
  eapply (dispatch_step (fun c => has_bits (revents_ c) (Z.lor (Z.lor POLLIN POLLPRI) POLLRDHUP)) read_callback_);
    [done | |].
  { by intros c' (-> & -> & _)%Hsame. }
  eapply (dispatch_step (fun c => has_bits (revents_ c) POLLOUT) write_callback_); [done | |].
  { by intros c' (-> & _ & -> & _)%Hsame. }
  done.
Qed.

(** What the callbacks and the record updates keep, the dispatch keeps. *)
Lemma handleEvent_pres (P : W → Prop) (alive : loc → W → bool) l w w' :
  (∀ cb w w', P w → callback cb t w = Ok w' → P w') → (∀ c w, P w → P (put l c w)) →
  P w → handleEvent callback alive t l w = Ok w' → P w'.
Proof.
  intros Hcb Hput Hw.
  assert (Hd : ∀ m which w w', P w → dispatch callback m which t l w = Ok w' → P w').
  { intros m which w1 w2 Hw1 (c & _ & Hc)%bind_Ok_inv. destruct (has_bits _ _); [|by injection Hc as <-].
    destruct (which c); [eauto | by injection Hc as <-]. }
  assert (Hg : handleEventWithGurad callback t l w = Ok w' → P w').
  { unfold handleEventWithGurad. intros (c & _ & H1)%bind_Ok_inv.
    apply bind_Ok_inv in H1 as (w1 & H1 & H2). apply bind_Ok_inv in H1 as (c1 & _ & H1).
    assert (Hw1 : P w1).
    { destruct (_ && _); [destruct (close_callback_ _) as [cb|]|].
      - eapply Hcb; [|exact H1]. by apply Hput.
      - injection H1 as <-. by apply Hput.
      - injection H1 as <-. by apply Hput. }
    apply bind_Ok_inv in H2 as (w2 & H2 & H3). apply bind_Ok_inv in H3 as (w3 & H3 & H4).
    apply bind_Ok_inv in H4 as (w4 & H4 & H5). apply bind_Ok_inv in H5 as (c5 & _ & H5).
    injection H5 as <-. eauto. }
  unfold handleEvent. intros H1. inv_ok. destruct (tied_ _); [|auto].
  destruct (tie_ _); [|by injection H1 as <-]. destruct (alive _ _); [auto | by injection H1 as <-].
Qed.
End DispatchFacts.

Lemma set_index_same {CB} (c : Channel CB) i : index_ c = i → set_index i c = c.
Proof. intros <-. by destruct c. Qed.

End Channel.
Export Channel (Channel, HasChannels).
