(* ===== verification/Poller.v ===== *)
(** * The poller: net/Epoller.h and net/Epoller.cpp

    An [Epoller] keeps the map from descriptors to channels and issues [epoll_ctl]
    calls; the calls are recorded in the order they are made ([ctl_log]).  What the
    kernel does with them is its documented contract, [ctl_run]: ADD of a descriptor
    that is there and MOD or DEL of one that is not are errors.  The main result is that
    the poller never makes such a call and that the kernel's interest list is at all
    times exactly the channels whose index is [kAdded], with their event masks. *)
From stdpp Require Import base list gmap numbers fin_maps strings.
From Stdlib Require Import ZArith Lia Init.Byte.
From S2P Require Import Prelude.
From S2P Require Import Channel.
Import Channel.Channel.
#[local] Open Scope Z_scope.
#[local] Open Scope fm_scope.

Module Epoller.

(** [src/net/Epoller.cpp:17-17 kNew] *)
Definition kNew : Z := -1.
(** [src/net/Epoller.cpp:18-18 kAdded] *)
Definition kAdded : Z := 1.
(** [src/net/Epoller.cpp:19-19 kDeleted] *)
Definition kDeleted : Z := 2.
(** [src/net/Epoller.h:38-38 Epoller::kInitEventListSize] *)
Definition kInitEventListSize : Z := 16.

Inductive ctl_op := ADD | MOD | DEL.

#[export] Instance ctl_op_eq_dec : EqDecision ctl_op.
Proof. solve_decision. Defined.

(** One [epoll_ctl] call: operation, descriptor, [event.events], [event.data.ptr]. *)
Record ctl_call := mkCtl { op : ctl_op; ctl_fd : Z; mask : Z; ptr : loc }.

(** [src/net/Epoller.h:46-52 Epoller data members] Of the array
    [events_] only the size outlives a call of [poll]. *)
Record Epoller := mkEpoller {
  channels_ : gmap Z loc;
  events_size : Z;
  ctl_log : list ctl_call
}.

(** [src/net/Epoller.cpp:23-29 Epoller::Epoller] A failing [epoll_create1] ends the program. *)
Definition newEpoller (epoll_fd : Z) : result Epoller :=
  if epoll_fd <? 0 then Fault FatalLog else Ok (mkEpoller ∅ kInitEventListSize []).

(** What [epoll_wait] reported: events, in the order of the array, or [errno]. *)
Inductive wait_outcome :=
  | WaitEvents (evs : list (loc * Z))
  | WaitErr (errno : Z).
Definition EINTR : Z := 4.

Section Operations.
Context {CB : Type}.
Abbreviation heap := (gmap loc (Channel CB)).
Implicit Types (h : heap) (ep : Epoller) (l : loc) (c : Channel CB).

Definition deref l h : result (Channel CB) :=
  match h !! l with Some c => Ok c | None => Fault UseAfterFree end.

(** [src/net/Epoller.cpp:126-138 Epoller::update] The result of [epoll_ctl] is only logged. *)
Definition update l (o : ctl_op) h ep : result Epoller :=
  c ← deref l h;
  Ok (mkEpoller (channels_ ep) (events_size ep) (ctl_log ep ++ [mkCtl o (fd_ c) (events_ c) l])).

(** [src/net/Epoller.cpp:58-87 Epoller::updateChannel] *)
Definition updateChannel (inLoop : bool) l h ep : result (heap * Epoller) :=
  check! NotInLoopThread inLoop;
  c ← deref l h;
  let status := index_ c in
  let fd := fd_ c in
  if (status =? kNew) || (status =? kDeleted) then
    ep ← (if status =? kNew then
            assert! (bool_decide (channels_ ep !! fd = None));
            Ok (mkEpoller (<[fd := l]> (channels_ ep)) (events_size ep) (ctl_log ep))
          else
            assert! (bool_decide (channels_ ep !! fd ≠ None));
            assert! (bool_decide (channels_ ep !! fd = Some l));
            Ok ep);
    let h := <[l := set_index kAdded c]> h in
    ep ← update l ADD h ep;
    Ok (h, ep)
  else
    assert! (bool_decide (channels_ ep !! fd ≠ None));
    assert! (bool_decide (channels_ ep !! fd = Some l));
    if isNoneEvent c then
      ep ← update l DEL h ep;
      Ok (<[l := set_index kDeleted c]> h, ep)
    else
      ep ← update l MOD h ep;
      Ok (h, ep).

(** [src/net/Epoller.cpp:89-105 Epoller::removeChannel] *)
Definition removeChannel (inLoop : bool) l h ep : result (heap * Epoller) :=
  check! NotInLoopThread inLoop;
  c ← deref l h;
  let fd := fd_ c in
  let status := index_ c in
  assert! (bool_decide (channels_ ep !! fd ≠ None));
  assert! (bool_decide (channels_ ep !! fd = Some l));
  assert! (isNoneEvent c);
  assert! ((status =? kAdded) || (status =? kDeleted));
  let ep := mkEpoller (delete fd (channels_ ep)) (events_size ep) (ctl_log ep) in
  ep ← (if status =? kAdded then update l DEL h ep else Ok ep);
  Ok (<[l := set_index kNew c]> h, ep).

(** [src/net/Epoller.cpp:107-111 Epoller::hasChannel] *)
Definition hasChannel (inLoop : bool) l h ep : result bool :=
  check! NotInLoopThread inLoop;
  c ← deref l h;
  Ok (bool_decide (channels_ ep !! fd_ c = Some l)).

(** [src/net/Epoller.cpp:117-124 Epoller::fillActiveChannels] *)
Definition fillActiveChannels (evs : list (loc * Z)) (active : list loc) h ep : result (list loc * heap) :=
  assert! (zlen evs <=? to_signed 32 (events_size ep));
  foldM (fun ev '(active, h) =>
    let '(l, revents) := ev in
    c ← deref l h;
    Ok (active ++ [l], <[l := set_revents revents c]> h)) evs (active, h).

(** [src/net/Epoller.cpp:35-56 Epoller::poll] The time it returns is the clock's
    and not part of the result here. *)
Definition poll (w : wait_outcome) (active : list loc) h ep : result (list loc * heap * Epoller) :=
  match w with
  | WaitEvents [] => Ok (active, h, ep)
  | WaitEvents evs =>
      '(active, h) ← fillActiveChannels evs active h ep;
      Ok (active, h,
          if zlen evs =? to_signed 32 (events_size ep)
          then mkEpoller (channels_ ep) (events_size ep * 2) (ctl_log ep) else ep)
  | WaitErr e => if e =? EINTR then Ok (active, h, ep) else Fault FatalLog
  end.

(** [src/net/Epoller.cpp:140-145 Epoller::operationToString] *)
Definition operationToString (o : ctl_op) : list byte :=
  match o with ADD => bytes "ADD" | MOD => bytes "MOD" | DEL => bytes "DEL" end.

(** ** The kernel's side *)

(** The interest list: what each registered descriptor asks for. *)
Abbreviation interest_list := (gmap Z (Z * loc)).

(** epoll_ctl(2): [None] where the call fails with EEXIST or ENOENT. *)
Definition ctl_step (k : option interest_list) (a : ctl_call) : option interest_list :=
  k ← k;
  match op a, k !! ctl_fd a with
  | ADD, None => Some (<[ctl_fd a := (mask a, ptr a)]> k)
  | MOD, Some _ => Some (<[ctl_fd a := (mask a, ptr a)]> k)
  | DEL, Some _ => Some (delete (ctl_fd a) k)
  | _, _ => None
  end.
Definition ctl_run (log : list ctl_call) : option interest_list := foldl ctl_step (Some ∅) log.

(** What the kernel should hold for a descriptor: the mask of its channel, if that is
    added. *)
Definition registered h (cm : gmap Z loc) (fd : Z) : option (Z * loc) :=
  l ← cm !! fd;
  c ← h !! l;
  if index_ c =? kAdded then Some (events_ c, l) else None.

(** What the poller keeps true: the map and the indices agree, and every call so far
    succeeded and left in the kernel exactly the added channels with their masks. *)
Record ok h ep : Prop := {
  ok_map : ∀ fd l, channels_ ep !! fd = Some l → ∃ c, h !! l = Some c ∧ fd_ c = fd ∧ index_ c ≠ kNew;
  ok_index : ∀ l c, h !! l = Some c → index_ c ≠ kNew →
    channels_ ep !! fd_ c = Some l ∧ (index_ c = kAdded ∨ index_ c = kDeleted);
  ok_kernel : ∃ k, ctl_run (ctl_log ep) = Some k ∧ ∀ fd, k !! fd = registered h (channels_ ep) fd
}.

Lemma ctl_run_snoc log a : ctl_run (log ++ [a]) = ctl_step (ctl_run log) a.
Proof. unfold ctl_run. by rewrite foldl_app. Qed.

Lemma deref_lookup l c h : h !! l = Some c → deref l h = Ok c.
Proof. unfold deref. by intros ->. Qed.

Lemma deref_insert l c h : deref l (<[l := c]> h) = Ok c.
Proof. apply deref_lookup, lookup_insert_eq. Qed.

(** Replacing the channel [l] changes what is registered for its descriptor only. *)
Lemma registered_other h ep cm l c c' fd :
  ok h ep → h !! l = Some c → fd ≠ fd_ c → cm !! fd = channels_ ep !! fd →
  registered (<[l := c']> h) cm fd = registered h (channels_ ep) fd.
Proof.
  intros Hok Hl Hne Hcm. unfold registered. rewrite Hcm.
  destruct (channels_ ep !! fd) as [l'|] eqn:Hch; [|done]. simpl.
  rewrite lookup_insert_ne; [done|]. intros <-.
  destruct (ok_map _ _ Hok _ _ Hch) as (c0 & Hc0 & <- & _). rewrite Hl in Hc0. naive_solver.
Qed.

Lemma registered_at h (cm : gmap Z loc) l c c' :
  cm !! fd_ c = Some l →
  registered (<[l := c']> h) cm (fd_ c) = if index_ c' =? kAdded then Some (events_ c', l) else None.
Proof. unfold registered. intros ->. simpl. by rewrite lookup_insert_eq. Qed.

(** One more [epoll_ctl] call for the channel [l], whose record becomes [c'], keeps the
    invariant when it is legal and leaves what is registered. *)
Lemma ok_call h ep l c c' cm sz a k' :
  ok h ep → h !! l = Some c → fd_ c' = fd_ c →
  (∀ fd, fd ≠ fd_ c → cm !! fd = channels_ ep !! fd) →
  (cm !! fd_ c = if decide (index_ c' = kNew) then None else Some l) →
  (index_ c' = kNew ∨ index_ c' = kAdded ∨ index_ c' = kDeleted) →
  (index_ c = kNew → channels_ ep !! fd_ c = None) →
  ctl_fd a = fd_ c →
  (match op a with
   | ADD => index_ c ≠ kAdded ∧ k' = Some (mask a, ptr a)
   | MOD => index_ c = kAdded ∧ k' = Some (mask a, ptr a)
   | DEL => index_ c = kAdded ∧ k' = None
   end) →
  k' = (if decide (index_ c' = kAdded) then Some (events_ c', l) else None) →
  ok (<[l := c']> h) (mkEpoller cm sz (ctl_log ep ++ [a])).
Proof.
  intros Hok Hl Hfd Hother Hat Hidx Hnew Hafd Hop Hk'.
  assert (Hold : ∀ k : interest_list, (∀ fd, k !! fd = registered h (channels_ ep) fd) →
     k !! fd_ c = if index_ c =? kAdded then Some (events_ c, l) else None).
  { intros k ->. unfold registered. destruct (decide (index_ c = kNew)) as [Hn|Hn].
    - rewrite (Hnew Hn), Hn. done.
    - destruct (ok_index _ _ Hok _ _ Hl Hn) as [-> _]. simpl. by rewrite Hl. }
  constructor; simpl.
  - intros fd l'. destruct (decide (fd = fd_ c)) as [->|Hne].
    + rewrite Hat. destruct (decide (index_ c' = kNew)); [done|]. intros [= <-]. exists c'. by rewrite lookup_insert_eq.
    + rewrite Hother by done. intros Hch. destruct (ok_map _ _ Hok _ _ Hch) as (c0 & Hc0 & <- & ?).
      exists c0. rewrite lookup_insert_ne; [done|]. intros <-. rewrite Hl in Hc0. naive_solver.
  - intros l' c0. destruct (decide (l' = l)) as [->|Hne].
    + rewrite lookup_insert_eq. intros [= <-] Hn. rewrite Hfd, Hat, decide_False by done. naive_solver.
    + rewrite lookup_insert_ne by done. intros Hc0 Hn.
      destruct (ok_index _ _ Hok _ _ Hc0 Hn) as [Hch Hi]. split; [|done].
      destruct (decide (fd_ c0 = fd_ c)) as [Heq|?]; [|by rewrite Hother].
      exfalso. rewrite Heq in Hch. destruct (decide (index_ c = kNew)) as [Hnc|Hnc].
      * rewrite (Hnew Hnc) in Hch. done.
      * destruct (ok_index _ _ Hok _ _ Hl Hnc) as [Hch' _]. naive_solver.
  - destruct (ok_kernel _ _ Hok) as (k & Hrun & Hk). rewrite ctl_run_snoc, Hrun. simpl.
    pose proof (Hold k Hk) as Hkc.
    assert (Hstep : ∃ k1, ctl_step (Some k) a = Some k1 ∧ k1 !! fd_ c = k' ∧
              ∀ fd, fd ≠ fd_ c → k1 !! fd = k !! fd).
    { unfold ctl_step. simpl. rewrite Hafd, Hkc.
      destruct (Z.eqb_spec (index_ c) kAdded) as [Hi|Hi]; destruct (op a); try (exfalso; by destruct Hop);
        destruct Hop as [_ ->]; eexists; (split; [done|]);
        rewrite ?lookup_insert_eq, ?lookup_delete_eq; (split; [done|]);
        intros fd Hne; by rewrite ?lookup_insert_ne, ?lookup_delete_ne by done. }
    destruct Hstep as (k1 & Hs & Hk1 & Hk1o). exists k1. split; [done|]. intros fd.
    destruct (decide (fd = fd_ c)) as [->|Hne].
    + rewrite Hk1, Hk'. unfold registered. rewrite Hat. destruct (decide (index_ c' = kAdded)) as [Hi|Hi].
      * rewrite decide_False by (unfold kNew, kAdded in *; lia). simpl. rewrite lookup_insert_eq; simpl. by rewrite Hi.
      * destruct (decide (index_ c' = kNew)); [done|]. simpl. rewrite lookup_insert_eq.
        simpl. destruct (Z.eqb_spec (index_ c') kAdded); done.
    + rewrite Hk1o, Hk by done. symmetry. by eapply registered_other, Hother.
Qed.

(** ** The operations keep it

    [updateChannel] is called after the channel's mask has been changed, so the state
    it sees is the invariant's with that one record replaced. *)
Lemma updateChannel_ok h ep l c c1 :
  ok h ep → h !! l = Some c → fd_ c1 = fd_ c → index_ c1 = index_ c →
  (index_ c = kNew → channels_ ep !! fd_ c = None) →
  let i := if (index_ c =? kAdded) && isNoneEvent c1 then kDeleted else kAdded in
  ∃ ep', updateChannel true l (<[l := c1]> h) ep = Ok (<[l := set_index i c1]> h, ep') ∧
    ok (<[l := set_index i c1]> h) ep' ∧ channels_ ep' = <[fd_ c := l]> (channels_ ep) ∧
    events_size ep' = events_size ep.
Proof.
  intros Hok Hl Hfd Hi Hnew. cbv zeta.
  assert (Hreg : index_ c ≠ kNew → channels_ ep !! fd_ c = Some l ∧ (index_ c = kAdded ∨ index_ c = kDeleted))
    by (apply (ok_index _ _ Hok); done).
  unfold updateChannel. rewrite deref_insert. cbn [ensure]. rewrite !bind_Ok, Hi, Hfd.
  destruct (Z.eqb_spec (index_ c) kNew) as [Hn|Hn].
  - assert (Hna : (index_ c =? kAdded) = false) by (by rewrite Hn). rewrite Hna. cbn [orb andb].
    rewrite ensure_true by (apply bool_decide_eq_true_2; auto). rewrite !bind_Ok.
    unfold update. rewrite insert_insert_eq, deref_insert, !bind_Ok.
    eexists. split; [done|]. split; [|done].
    eapply (ok_call h ep l c); simpl; try done.
    + intros fd Hne. by rewrite lookup_insert_ne.
    + by rewrite lookup_insert_eq.
    + by right; left.
    + by rewrite Hn.
  - destruct (Hreg Hn) as [Hch Hst]. cbn [orb].
    destruct Hst as [Ha|Hd].
    + rewrite Ha. change (kAdded =? kDeleted) with false. change (kAdded =? kAdded) with true. cbn [andb].
      rewrite !Hch. rewrite !ensure_true by (by apply bool_decide_eq_true_2). rewrite !bind_Ok.
      rewrite (insert_id (channels_ ep)) by done.
      unfold update. rewrite deref_insert, !bind_Ok.
      destruct (isNoneEvent c1) eqn:He; rewrite ?insert_insert_eq.
      * eexists. split; [done|]. split; [|done].
        eapply (ok_call h ep l c); simpl; try done. by right; right.
      * rewrite (set_index_same c1 kAdded) by congruence. eexists. split; [done|]. split; [|done].
        eapply (ok_call h ep l c); simpl; try done; rewrite ?Hi, ?Ha; try done. by right; left.
    + rewrite Hd. change (kDeleted =? kDeleted) with true. change (kDeleted =? kAdded) with false.
      change (kDeleted =? kNew) with false. cbn [andb].
      rewrite !Hch. rewrite !ensure_true by (by apply bool_decide_eq_true_2). rewrite !bind_Ok.
      rewrite (insert_id (channels_ ep)) by done.
      unfold update. rewrite insert_insert_eq, deref_insert, !bind_Ok.
      eexists. split; [done|]. split; [|done].
      eapply (ok_call h ep l c); simpl; try done; [by right; left | by rewrite Hd].
Qed.

Lemma removeChannel_ok h ep l c :
  ok h ep → h !! l = Some c → index_ c ≠ kNew → isNoneEvent c = true →
  ∃ ep', removeChannel true l h ep = Ok (<[l := set_index kNew c]> h, ep') ∧
    ok (<[l := set_index kNew c]> h) ep' ∧ channels_ ep' = delete (fd_ c) (channels_ ep) ∧
    events_size ep' = events_size ep.
Proof.
  intros Hok Hl Hn He. destruct (ok_index _ _ Hok _ _ Hl Hn) as [Hch Hst].
  unfold removeChannel. rewrite (deref_lookup l c) by done. cbn [ensure]. rewrite !bind_Ok, !Hch, He.
  repeat (rewrite ensure_true by (reflexivity || (by apply bool_decide_eq_true_2) || (destruct Hst as [-> | ->]; done))).
  rewrite !bind_Ok. unfold update. rewrite (deref_lookup l c) by done.
  destruct Hst as [Ha|Hd].
  - rewrite Ha. change (kAdded =? kAdded) with true. rewrite !bind_Ok.
    eexists. split; [done|]. split; [|done].
    eapply (ok_call h ep l c); simpl; try done.
    + intros fd Hne. by rewrite lookup_delete_ne.
    + by rewrite lookup_delete_eq.
    + by left.
  - rewrite Hd. change (kDeleted =? kAdded) with false. rewrite !bind_Ok.
    eexists. split; [done|]. split; [|done].
    constructor; simpl.
    + intros fd l' Hfd. apply lookup_delete_Some in Hfd as [Hne Hfd].
      destruct (ok_map _ _ Hok _ _ Hfd) as (c0 & Hc0 & <- & ?). exists c0.
      rewrite lookup_insert_ne; [done|]. intros <-. rewrite Hl in Hc0. naive_solver.
    + intros l' c0. destruct (decide (l' = l)) as [->|Hne].
      * rewrite lookup_insert_eq. by intros [= <-].
      * rewrite lookup_insert_ne by done. intros Hc0 Hi.
        destruct (ok_index _ _ Hok _ _ Hc0 Hi) as [Hch' ?]. split; [|done].
        rewrite lookup_delete_ne; [done|]. intros Heq. rewrite Heq in Hch. naive_solver.
    + destruct (ok_kernel _ _ Hok) as (k & Hrun & Hk). exists k. split; [done|]. intros fd.
      rewrite Hk. destruct (decide (fd = fd_ c)) as [->|Hne].
      * unfold registered. rewrite Hch, lookup_delete_eq. simpl. rewrite Hl; simpl. by rewrite Hd.
      * symmetry. eapply registered_other; [done..|]. by rewrite lookup_delete_ne.
Qed.

(** The time between a change of the revents and the dispatch does not matter to it. *)
Lemma ok_replace h ep l c c' :
  ok h ep → h !! l = Some c → fd_ c' = fd_ c → index_ c' = index_ c → events_ c' = events_ c →
  ok (<[l := c']> h) ep.
Proof.
  intros Hok Hl Hfd Hi He. constructor.
  - intros fd l' Hch. destruct (ok_map _ _ Hok _ _ Hch) as (c0 & Hc0 & Hf & Hn).
    destruct (decide (l' = l)) as [->|Hne].
    + exists c'. rewrite lookup_insert_eq. rewrite Hl in Hc0. injection Hc0 as <-. by rewrite Hfd, Hi.
    + exists c0. by rewrite lookup_insert_ne.
  - intros l' c0. destruct (decide (l' = l)) as [->|Hne].
    + rewrite lookup_insert_eq. intros [= <-]. rewrite Hfd, Hi. by apply (ok_index _ _ Hok).
    + rewrite lookup_insert_ne by done. apply (ok_index _ _ Hok).
  - destruct (ok_kernel _ _ Hok) as (k & Hrun & Hk). exists k. split; [done|]. intros fd.
    rewrite Hk. unfold registered. destruct (channels_ ep !! fd) as [l'|]; [|done]. simpl.
    destruct (decide (l' = l)) as [->|Hne].
    + by rewrite lookup_insert_eq, Hl; simpl; rewrite Hi, He.
    + by rewrite lookup_insert_ne.
Qed.

Lemma new_ok fd ep : newEpoller fd = Ok ep → ok ∅ ep.
Proof.
  unfold newEpoller. destruct (_ <? _); [done|]. intros [= <-]. constructor; simpl.
  - done.
  - done.
  - exists ∅. split; [done|]. intros. done.
Qed.

(** A fresh channel, and the end of one that is not registered. *)
Lemma ok_new_channel h ep l c :
  ok h ep → h !! l = None → index_ c = kNew → ok (<[l := c]> h) ep.
Proof.
  intros Hok Hl Hi. constructor.
  - intros fd l' Hch. destruct (ok_map _ _ Hok _ _ Hch) as (c0 & Hc0 & ?). exists c0.
    rewrite lookup_insert_ne; [done|]. intros <-. congruence.
  - intros l' c0. destruct (decide (l' = l)) as [->|Hne].
    + rewrite lookup_insert_eq. by intros [= <-].
    + rewrite lookup_insert_ne by done. apply (ok_index _ _ Hok).
  - destruct (ok_kernel _ _ Hok) as (k & Hrun & Hk). exists k. split; [done|]. intros fd.
    rewrite Hk. unfold registered. destruct (channels_ ep !! fd) as [l'|] eqn:Hch; [|done]. simpl.
    destruct (ok_map _ _ Hok _ _ Hch) as (c0 & Hc0 & ?).
    rewrite lookup_insert_ne; [done|]. intros <-. congruence.
Qed.

Lemma ok_delete_channel h ep l c :
  ok h ep → h !! l = Some c → index_ c = kNew → ok (delete l h) ep.
Proof.
  intros Hok Hl Hi.
  assert (Hne : ∀ fd l', channels_ ep !! fd = Some l' → l' ≠ l).
  { intros fd l' Hch ->. destruct (ok_map _ _ Hok _ _ Hch) as (c0 & Hc0 & ?). naive_solver. }
  constructor.
  - intros fd l' Hch. destruct (ok_map _ _ Hok _ _ Hch) as (c0 & Hc0 & ?). exists c0.
    rewrite lookup_delete_ne; [done|]. intros <-. by eapply Hne.
  - intros l' c0 Hc0. apply lookup_delete_Some in Hc0 as [_ Hc0]. by apply (ok_index _ _ Hok).
  - destruct (ok_kernel _ _ Hok) as (k & Hrun & Hk). exists k. split; [done|]. intros fd.
    rewrite Hk. unfold registered. destruct (channels_ ep !! fd) as [l'|] eqn:Hch; [|done]. simpl.
    rewrite lookup_delete_ne; [done|]. intros <-. by eapply Hne.
Qed.
End Operations.
End Epoller.
Export Epoller (Epoller).
