(* ===== verification/EventLoop.v ===== *)
(** * The event loop: include/libfm/fmnet/EventLoop.h and net/EventLoop.cpp

    One record holds the loop's members; the channels it dispatches to live in the
    heap [channels] and the timer queue is a component of its own (TimerQueue.v).
    Functors and callbacks are names, [F] and [CB].  The argument [inLoop] of an
    operation says whether the calling thread is the loop's ([isInLoopThread()]).

    The operations on the record come first, with those of [Channel] that go through
    the loop; then, for any state that holds a loop (class [HasLoop]), the operations
    that run user code: [runInLoop], [doPendingFunctors] and the body of [loop]. *)
From stdpp Require Import base list gmap numbers strings.
From Stdlib Require Import ZArith Lia Init.Byte.
From S2P Require Import Prelude.
From S2P Require Import Channel.
From S2P Require Import Poller.
Import Channel.Channel.
#[local] Open Scope Z_scope.
#[local] Open Scope fm_scope.

Module EventLoop.

(** [src/net/EventLoop.cpp:24-24 kPollTimeMs] *)
Definition kPollTimeMs : Z := 10000.

(** [src/include/libfm/fmnet/EventLoop.h:78-97 EventLoop data members] [eventfd] is
    the counter behind [wakeup_fd_]. *)
Record EventLoop (F CB : Type) := mkLoop {
  looping_ : bool;
  quit_ : bool;
  event_handling_ : bool;
  calling_pending_functors_ : bool;
  iteration_ : Z;
  poll_return_time_ : Z;
  channels : gmap loc (Channel CB);
  poller_ : Epoller;
  eventfd : Z;
  wakeup_channel_ : loc;
  active_channels_ : list loc;
  current_active_channel_ : option loc;
  pending_functors_ : list F
}.
Arguments mkLoop {F CB}.
Arguments looping_ {F CB} _.
Arguments quit_ {F CB} _.
Arguments event_handling_ {F CB} _.
Arguments calling_pending_functors_ {F CB} _.
Arguments iteration_ {F CB} _.
Arguments poll_return_time_ {F CB} _.
Arguments channels {F CB} _.
Arguments poller_ {F CB} _.
Arguments eventfd {F CB} _.
Arguments wakeup_channel_ {F CB} _.
Arguments active_channels_ {F CB} _.
Arguments current_active_channel_ {F CB} _.
Arguments pending_functors_ {F CB} _.

Section Members.
Context {F CB : Type}.
Implicit Types lp : EventLoop F CB.

Definition set_flags (looping quit handling calling : bool) lp : EventLoop F CB :=
  mkLoop looping quit handling calling (iteration_ lp) (poll_return_time_ lp) (channels lp)
    (poller_ lp) (eventfd lp) (wakeup_channel_ lp) (active_channels_ lp) (current_active_channel_ lp)
    (pending_functors_ lp).
Definition set_looping (b : bool) lp := set_flags b (quit_ lp) (event_handling_ lp) (calling_pending_functors_ lp) lp.
Definition set_quit (b : bool) lp := set_flags (looping_ lp) b (event_handling_ lp) (calling_pending_functors_ lp) lp.
Definition set_handling (b : bool) lp := set_flags (looping_ lp) (quit_ lp) b (calling_pending_functors_ lp) lp.
Definition set_calling (b : bool) lp := set_flags (looping_ lp) (quit_ lp) (event_handling_ lp) b lp.
Definition set_poller (h : gmap loc (Channel CB)) (ep : Epoller) lp : EventLoop F CB :=
  mkLoop (looping_ lp) (quit_ lp) (event_handling_ lp) (calling_pending_functors_ lp) (iteration_ lp)
    (poll_return_time_ lp) h ep (eventfd lp) (wakeup_channel_ lp) (active_channels_ lp)
    (current_active_channel_ lp) (pending_functors_ lp).
Definition set_eventfd (n : Z) lp : EventLoop F CB :=
  mkLoop (looping_ lp) (quit_ lp) (event_handling_ lp) (calling_pending_functors_ lp) (iteration_ lp)
    (poll_return_time_ lp) (channels lp) (poller_ lp) n (wakeup_channel_ lp) (active_channels_ lp)
    (current_active_channel_ lp) (pending_functors_ lp).
Definition set_active (a : list loc) lp : EventLoop F CB :=
  mkLoop (looping_ lp) (quit_ lp) (event_handling_ lp) (calling_pending_functors_ lp) (iteration_ lp)
    (poll_return_time_ lp) (channels lp) (poller_ lp) (eventfd lp) (wakeup_channel_ lp) a
    (current_active_channel_ lp) (pending_functors_ lp).
Definition set_current (c : option loc) lp : EventLoop F CB :=
  mkLoop (looping_ lp) (quit_ lp) (event_handling_ lp) (calling_pending_functors_ lp) (iteration_ lp)
    (poll_return_time_ lp) (channels lp) (poller_ lp) (eventfd lp) (wakeup_channel_ lp)
    (active_channels_ lp) c (pending_functors_ lp).
Definition set_pending (fs : list F) lp : EventLoop F CB :=
  mkLoop (looping_ lp) (quit_ lp) (event_handling_ lp) (calling_pending_functors_ lp) (iteration_ lp)
    (poll_return_time_ lp) (channels lp) (poller_ lp) (eventfd lp) (wakeup_channel_ lp)
    (active_channels_ lp) (current_active_channel_ lp) fs.

(** ** Threads *)

(** [src/net/EventLoop.cpp:170-172 EventLoop::isInLoopThread] The thread
    identifiers of the caller and of the loop. *)
Definition isInLoopThread (tid thread_id : Z) : bool := tid =? thread_id.

(** [src/net/EventLoop.cpp:165-168 EventLoop::assertInLoopThread] with
    [abortNotInLoopThread], which logs at the fatal level. *)
Definition assertInLoopThread (inLoop : bool) : result unit := ensure NotInLoopThread inLoop.

(** ** Wake-ups *)

(** [src/net/EventLoop.cpp:153-158 EventLoop::wakeup] eventfd(2) adds the number
    written; a write that would overflow the counter fails and is only logged. *)
Definition wakeup lp : EventLoop F CB :=
  if eventfd lp + 1 <=? two64 - 2 then set_eventfd (eventfd lp + 1) lp else lp.

(** [src/net/EventLoop.cpp:184-189 EventLoop::handleRead] Reading resets the counter; reading
    zero fails and is only logged. *)
Definition handleRead lp : EventLoop F CB := set_eventfd 0 lp.

(** [src/net/EventLoop.cpp:111-112 EventLoop::quit (after the store)] *)
Definition quit_rest (inLoop : bool) lp : EventLoop F CB := if inLoop then lp else wakeup lp.

(** [src/net/EventLoop.cpp:109-113 EventLoop::quit] *)
Definition quit (inLoop : bool) lp : EventLoop F CB := quit_rest inLoop (set_quit true lp).

(** ** The functor queue *)

(** The critical section of [queueInLoop]. *)
Definition push_functor (f : F) lp : EventLoop F CB := set_pending (pending_functors_ lp ++ [f]) lp.

(** The test behind it. *)
Definition needs_wakeup (inLoop : bool) lp : bool := negb inLoop || calling_pending_functors_ lp.

(** [src/net/EventLoop.cpp:125-126 EventLoop::queueInLoop (after the critical section)] *)
Definition queueInLoop_rest (inLoop : bool) lp : EventLoop F CB :=
  if needs_wakeup inLoop lp then wakeup lp else lp.

(** [src/net/EventLoop.cpp:120-127 EventLoop::queueInLoop] *)
Definition queueInLoop (inLoop : bool) (f : F) lp : EventLoop F CB :=
  queueInLoop_rest inLoop (push_functor f lp).

(** [src/net/EventLoop.cpp:160-163 EventLoop::queueSize] *)
Definition queueSize lp : Z := zlen (pending_functors_ lp).

(** ** Channels of the loop *)

Definition getChannel (l : loc) lp : result (Channel CB) := Epoller.deref l (channels lp).

(** [src/net/EventLoop.cpp:129-133 EventLoop::updateChannel] A channel is stored in the loop
    that owns it, so the first assertion holds. *)
Definition updateChannel (inLoop : bool) (l : loc) lp : result (EventLoop F CB) :=
  assertInLoopThread inLoop;;
  '(h, ep) ← Epoller.updateChannel inLoop l (channels lp) (poller_ lp);
  Ok (set_poller h ep lp).

(** [src/net/EventLoop.cpp:135-145 EventLoop::removeChannel] *)
Definition removeChannel (inLoop : bool) (l : loc) lp : result (EventLoop F CB) :=
  assertInLoopThread inLoop;;
  (if event_handling_ lp
   then ensure AssertFailed (bool_decide (current_active_channel_ lp = Some l)
                             || bool_decide (l ∉ active_channels_ lp))
   else Ok tt);;
  '(h, ep) ← Epoller.removeChannel inLoop l (channels lp) (poller_ lp);
  Ok (set_poller h ep lp).

(** [src/net/EventLoop.cpp:147-151 EventLoop::hasChannel] *)
Definition hasChannel (inLoop : bool) (l : loc) lp : result bool :=
  assertInLoopThread inLoop;;
  Epoller.hasChannel inLoop l (channels lp) (poller_ lp).

(** [src/net/Channel.cpp:44-47 Channel::update] *)
Definition update (inLoop : bool) (l : loc) lp : result (EventLoop F CB) :=
  c ← getChannel l lp;
  updateChannel inLoop l (set_poller (<[l := set_added_to_loop true c]> (channels lp)) (poller_ lp) lp).

(** [src/include/libfm/fmnet/Channel.h:41-45 Channel::enableReading ... disableAll] *)
Definition change (inLoop : bool) (i : interest) (l : loc) lp : result (EventLoop F CB) :=
  c ← getChannel l lp;
  update inLoop l (set_poller (<[l := set_events (change_events i (events_ c)) c]> (channels lp)) (poller_ lp) lp).

(** [src/net/Channel.cpp:49-53 Channel::remove] *)
Definition remove (inLoop : bool) (l : loc) lp : result (EventLoop F CB) :=
  c ← getChannel l lp;
  assert! (isNoneEvent c);
  removeChannel inLoop l (set_poller (<[l := set_added_to_loop false c]> (channels lp)) (poller_ lp) lp).

(** [src/net/Channel.cpp:30-35 Channel::~Channel] *)
Definition destroyChannel (inLoop : bool) (l : loc) lp : result (EventLoop F CB) :=
  c ← getChannel l lp;
  assert! (negb (Channel.event_handling_ c));
  assert! (negb (added_to_loop_ c));
  (if inLoop then (has ← hasChannel inLoop l lp; ensure AssertFailed (negb has)) else Ok tt);;
  Ok (set_poller (delete l (channels lp)) (poller_ lp) lp).

(** A channel built at a fresh address. *)
Definition addChannel (l : loc) (c : Channel CB) lp : EventLoop F CB :=
  set_poller (<[l := c]> (channels lp)) (poller_ lp) lp.

(** [src/net/EventLoop.cpp:43-68 EventLoop::EventLoop] The results of
    [epoll_create1] and [eventfd], the address of the wake-up channel, its callback,
    and whether the thread has a loop already. *)
Definition newLoop (epoll_fd evtfd : Z) (l : loc) (onWakeup : CB) (other : bool) : result (EventLoop F CB) :=
  ep ← Epoller.newEpoller epoll_fd;
  check! FatalLog (0 <=? evtfd);
  check! FatalLog (negb other);
  let lp := mkLoop false false false false 0 0 {[ l := newChannel evtfd ]} ep 0 l [] None [] in
  c ← getChannel l lp;
  change true EnableReading l (addChannel l (setReadCallback onWakeup c) lp).

(** [src/net/EventLoop.cpp:70-75 EventLoop::~EventLoop] *)
Definition destroyLoop (inLoop : bool) lp : result (EventLoop F CB) :=
  lp ← change inLoop DisableAll (wakeup_channel_ lp) lp;
  remove inLoop (wakeup_channel_ lp) lp.

(** ** Facts *)

(** The poller's invariant, on the loop. *)
Definition ok lp : Prop := Epoller.ok (channels lp) (poller_ lp).

(** The record a change of interest leaves behind. *)
Definition changed (i : interest) (c : Channel CB) : Channel CB :=
  let e := change_events i (events_ c) in
  set_index (if (index_ c =? Epoller.kAdded) && (e =? kNoneEvent) then Epoller.kDeleted else Epoller.kAdded)
    (set_added_to_loop true (set_events e c)).

(** A descriptor may be registered by one channel at a time. *)
Definition fd_free (c : Channel CB) lp : Prop :=
  index_ c = Epoller.kNew → Epoller.channels_ (poller_ lp) !! fd_ c = None.

Lemma change_ok lp l c i :
  ok lp → channels lp !! l = Some c → fd_free c lp →
  ∃ ep', change true i l lp = Ok (set_poller (<[l := changed i c]> (channels lp)) ep' lp) ∧
    ok (set_poller (<[l := changed i c]> (channels lp)) ep' lp) ∧
    Epoller.channels_ ep' = <[fd_ c := l]> (Epoller.channels_ (poller_ lp)).
Proof.
  intros Hok Hl Hfree. unfold change, update, getChannel.
  rewrite (Epoller.deref_lookup l c) by done. rewrite bind_Ok. cbn [channels set_poller].
  rewrite Epoller.deref_insert, bind_Ok, insert_insert_eq.
  edestruct (Epoller.updateChannel_ok (channels lp) (poller_ lp) l c
              (set_added_to_loop true (set_events (change_events i (events_ c)) c)))
    as (ep' & Hu & Hok' & Hch & _); [done..|].
  exists ep'. unfold updateChannel. cbn [assertInLoopThread ensure channels poller_ set_poller].
  rewrite bind_Ok, Hu, bind_Ok.
  split; [done|]. split; [|done]. exact Hok'.
Qed.

Lemma remove_ok lp l c :
  ok lp → channels lp !! l = Some c → index_ c ≠ Epoller.kNew → isNoneEvent c = true →
  (event_handling_ lp = true → current_active_channel_ lp = Some l ∨ l ∉ active_channels_ lp) →
  let c' := set_index Epoller.kNew (set_added_to_loop false c) in
  ∃ ep', remove true l lp = Ok (set_poller (<[l := c']> (channels lp)) ep' lp) ∧
    ok (set_poller (<[l := c']> (channels lp)) ep' lp) ∧
    Epoller.channels_ ep' = delete (fd_ c) (Epoller.channels_ (poller_ lp)).
Proof.
  intros Hok Hl Hi He Hact. cbv zeta. unfold remove, getChannel.
  rewrite (Epoller.deref_lookup l c) by done. rewrite bind_Ok, He. cbn [ensure]. rewrite bind_Ok.
  assert (Hok1 : Epoller.ok (<[l := set_added_to_loop false c]> (channels lp)) (poller_ lp))
    by (by eapply Epoller.ok_replace).
  destruct (Epoller.removeChannel_ok _ _ l (set_added_to_loop false c) Hok1)
    as (ep' & Hr & Hok' & Hch & _); [by rewrite lookup_insert_eq | done..|].
  rewrite insert_insert_eq in *.
  exists ep'. unfold removeChannel. cbn [assertInLoopThread ensure channels poller_ set_poller event_handling_
    current_active_channel_ active_channels_].
  rewrite bind_Ok. destruct (event_handling_ lp) eqn:Hh.
  - rewrite ensure_true.
    + rewrite bind_Ok, Hr, bind_Ok. done.
    + apply orb_true_iff. rewrite !bool_decide_eq_true. auto.
  - rewrite bind_Ok, Hr, bind_Ok. done.
Qed.

Lemma destroy_ok lp l c :
  ok lp → channels lp !! l = Some c → index_ c = Epoller.kNew →
  Channel.event_handling_ c = false → added_to_loop_ c = false →
  destroyChannel true l lp = Ok (set_poller (delete l (channels lp)) (poller_ lp) lp) ∧
  ok (set_poller (delete l (channels lp)) (poller_ lp) lp).
Proof.
  intros Hok Hl Hi Hh Ha. unfold destroyChannel, getChannel.
  rewrite (Epoller.deref_lookup l c) by done. rewrite bind_Ok, Hh, Ha. cbn [negb ensure]. rewrite !bind_Ok.
  unfold hasChannel, Epoller.hasChannel. cbn [assertInLoopThread ensure]. rewrite !bind_Ok.
  rewrite (Epoller.deref_lookup l c) by done. rewrite !bind_Ok.
  rewrite bool_decide_eq_false_2.
  - split; [reflexivity|]. by eapply Epoller.ok_delete_channel.
  - intros Hch. destruct (Epoller.ok_map _ _ Hok _ _ Hch) as (c0 & Hc0 & _ & Hn). naive_solver.
Qed.
End Members.

(** Queueing does not touch the channels. *)
Lemma queueInLoop_frame {F CB} (inLoop : bool) (f : F) (lp : EventLoop F CB) :
  channels (queueInLoop inLoop f lp) = channels lp ∧ poller_ (queueInLoop inLoop f lp) = poller_ lp ∧
  pending_functors_ (queueInLoop inLoop f lp) = pending_functors_ lp ++ [f].
Proof.
  unfold queueInLoop, queueInLoop_rest, wakeup, push_functor. destruct (needs_wakeup _ _); [|done].
  by destruct (_ <=? _).
Qed.

Lemma queueInLoop_handling {F CB} (inLoop : bool) (f : F) (lp : EventLoop F CB) :
  event_handling_ (queueInLoop inLoop f lp) = event_handling_ lp.
Proof.
  unfold queueInLoop, queueInLoop_rest, wakeup, push_functor. destruct (needs_wakeup _ _); [|done].
  by destruct (_ <=? _).
Qed.

(** ** Running user code *)

Class HasLoop (W F CB : Type) := {
  loop_of : W → EventLoop F CB;
  with_loop : EventLoop F CB → W → W;
  loop_with : ∀ lp w, loop_of (with_loop lp w) = lp
}.

#[export] Program Instance HasLoop_channels {W F CB} `{HasLoop W F CB} : HasChannels W CB := {
  chans w := channels (loop_of w);
  with_chans h w := with_loop (set_poller h (poller_ (loop_of w)) (loop_of w)) w
}.
Next Obligation. intros. cbv beta. by rewrite loop_with. Qed.

#[export] Instance loop_HasLoop {F CB} : HasLoop (EventLoop F CB) F CB := {
  loop_of lp := lp;
  with_loop lp _ := lp;
  loop_with _ _ := eq_refl
}.

Section Run.
Context {W F CB : Type} `{HasLoop W F CB}.
(** What functors and channel callbacks do, and which tied objects have an owner. *)
Variable functor : F → W → result W.
Variable callback : CB → Z → W → result W.
Variable alive : loc → W → bool.

Definition on_loop (g : EventLoop F CB → EventLoop F CB) (w : W) : W := with_loop (g (loop_of w)) w.

(** [src/net/EventLoop.cpp:115-118 EventLoop::runInLoop] *)
Definition runInLoop (inLoop : bool) (f : F) (w : W) : result W :=
  if inLoop then functor f w else Ok (on_loop (queueInLoop false f) w).

(** [src/net/EventLoop.cpp:191-204 EventLoop::doPendingFunctors] *)
Definition doPendingFunctors (w : W) : result W :=
  let w := on_loop (set_calling true) w in
  let functors := pending_functors_ (loop_of w) in
  let w := on_loop (set_pending []) w in
  w ← foldM functor functors w;
  Ok (on_loop (set_calling false) w).

(** [src/net/EventLoop.cpp:84-103 EventLoop::loop (loop body)] One turn, for what
    [epoll_wait] reports at the time [now].  [printActiveChannels] only logs. *)
Definition iterate (now : Z) (o : Epoller.wait_outcome) (w : W) : result W :=
  let lp := set_active [] (loop_of w) in
  '(active, h, ep) ← Epoller.poll o [] (channels lp) (poller_ lp);
  let lp := set_active active (set_poller h ep lp) in
  let lp := mkLoop (looping_ lp) (quit_ lp) true (calling_pending_functors_ lp) (iteration_ lp + 1) now
              (channels lp) (poller_ lp) (eventfd lp) (wakeup_channel_ lp) (active_channels_ lp)
              (current_active_channel_ lp) (pending_functors_ lp) in
  w ← foldM (fun ch w => handleEvent callback alive now ch (on_loop (set_current (Some ch)) w))
        active (with_loop lp w);
  let w := on_loop (set_current None) w in
  let w := on_loop (set_handling false) w in
  doPendingFunctors w.

(** The [while (!quit_)] loop, fed with what the poller reports turn by turn; [None]
    when the reports run out. *)
Fixpoint turns (reports : list (Z * Epoller.wait_outcome)) (w : W) : option (result W) :=
  if quit_ (loop_of w) then Some (Ok w)
  else match reports with
       | [] => None
       | (now, o) :: reports =>
           match iterate now o w with
           | Fault f => Some (Fault f)
           | Ok w => turns reports w
           end
       end.

(** [src/net/EventLoop.cpp:77-107 EventLoop::loop] *)
Definition loop (inLoop : bool) (reports : list (Z * Epoller.wait_outcome)) (w : W) : option (result W) :=
  if looping_ (loop_of w) then Some (Fault AssertFailed)
  else if inLoop then
    let w := on_loop (fun lp => set_quit false (set_looping true lp)) w in
    match turns reports w with
    | Some (Ok w) => Some (Ok (on_loop (set_looping false) w))
    | r => r
    end
  else Some (Fault NotInLoopThread).
End Run.

End EventLoop.
Export EventLoop (EventLoop, HasLoop).
