(* ===== verification/EventLoopSpec.v ===== *)
(** * What channels, poller and event loop promise

    The kernel's interest list follows the channels; events are dispatched in a fixed
    order and not at all once the owner is gone; functors run once each, in the order
    they were queued, and a queued functor is never left behind by a sleeping loop. *)
From stdpp Require Import base list gmap numbers strings.
From Stdlib Require Import ZArith Lia Init.Byte.
From S2P Require Import Prelude.
From S2P Require Import Channel.
From S2P Require Import Poller.
From S2P Require Import EventLoop.
Import Channel.Channel EventLoop.EventLoop.
#[local] Open Scope Z_scope.
#[local] Open Scope fm_scope.

(** ** Channels and the kernel *)
Section InterestList.
Context {F CB : Type}.
Implicit Types lp : EventLoop F CB.

(** What the owner of a channel does with it. *)
Inductive chan_cmd :=
  | CNew (l : loc) (fd : Z)
  | CChange (l : loc) (i : interest)
  | CRemove (l : loc)
  | CDestroy (l : loc).

Definition exec (a : chan_cmd) lp : result (EventLoop F CB) :=
  match a with
  | CNew l fd => Ok (addChannel l (newChannel fd) lp)
  | CChange l i => change true i l lp
  | CRemove l => remove true l lp
  | CDestroy l => destroyChannel true l lp
  end.

(** The discipline of the owners: addresses are fresh, a descriptor is not
    registered twice, a channel is removed when it is registered and wants no events (and,
    while events are handled, is the current one or not among the active ones), and
    destroyed when it is removed and idle. *)
Definition usable (a : chan_cmd) lp : Prop :=
  match a with
  | CNew l _ => channels lp !! l = None
  | CChange l _ => ∃ c, channels lp !! l = Some c ∧ fd_free c lp
  | CRemove l => ∃ c, channels lp !! l = Some c ∧ index_ c ≠ Epoller.kNew ∧ isNoneEvent c = true ∧
      (event_handling_ lp = true → current_active_channel_ lp = Some l ∨ l ∉ active_channels_ lp)
  | CDestroy l => ∃ c, channels lp !! l = Some c ∧ index_ c = Epoller.kNew ∧
      Channel.event_handling_ c = false ∧ added_to_loop_ c = false
  end.

Fixpoint all_usable (cmds : list chan_cmd) lp : Prop :=
  match cmds with
  | [] => True
  | a :: cmds => usable a lp ∧ ∀ lp', exec a lp = Ok lp' → all_usable cmds lp'
  end.

(** The kernel's list after the calls made so far is the added channels with their masks. *)
Definition kernel_in_sync lp : Prop :=
  ∃ k, Epoller.ctl_run (Epoller.ctl_log (poller_ lp)) = Some k ∧
    ∀ fd, k !! fd = Epoller.registered (channels lp) (Epoller.channels_ (poller_ lp)) fd.

Lemma exec_ok a lp : ok lp → usable a lp → ∃ lp', exec a lp = Ok lp' ∧ ok lp'.
Proof.
  intros Hok Hu. destruct a as [l fd|l i|l|l]; simpl in Hu.
  - eexists. split; [done|]. by apply Epoller.ok_new_channel.
  - destruct Hu as (c & Hc & Hf). destruct (change_ok lp l c i) as (ep & He & ? & _); [done..|].
    eexists. by split.
  - destruct Hu as (c & Hc & Hi & He & Ha). destruct (remove_ok lp l c) as (ep & Hr & ? & _); [done..|].
    eexists. by split.
  - destruct Hu as (c & Hc & Hi & Hh & Ha). destruct (destroy_ok lp l c) as [Hd ?]; [done..|].
    eexists. by split.
Qed.

Lemma exec_all cmds lp :
  ok lp → all_usable cmds lp → ∃ lp', foldM exec cmds lp = Ok lp' ∧ ok lp'.
Proof.
  revert lp. induction cmds as [|a cmds IH]; intros lp Hok Hu; [by exists lp|]. simpl.
  destruct Hu as [Hu Hrest]. destruct (exec_ok a lp) as (lp' & He & Hok'); [done..|].
  rewrite He, bind_Ok. auto.
Qed.

Lemma newLoop_ok efd wfd l cb :
  0 ≤ efd → 0 ≤ wfd → ∃ lp, newLoop (F := F) efd wfd l cb false = Ok lp ∧ ok (CB := CB) lp ∧
    pending_functors_ lp = [] ∧ (∀ l', l' ≠ l → channels lp !! l' = None) ∧
    ∀ fd, fd ≠ wfd → Epoller.channels_ (poller_ lp) !! fd = None.
Proof.
  intros He Hw. unfold newLoop. destruct (Epoller.newEpoller efd) as [ep|] eqn:Hep.
  2: { unfold Epoller.newEpoller in Hep. destruct (Z.ltb_spec efd 0); [lia | done]. }
  rewrite bind_Ok, (proj2 (Z.leb_le 0 wfd)) by done. cbn [ensure negb]. rewrite !bind_Ok. cbv zeta.
  unfold getChannel at 1. cbn [channels]. unfold Epoller.deref. rewrite lookup_singleton_eq, bind_Ok.
  set (lp0 := addChannel _ _ _).
  destruct (change_ok lp0 l (setReadCallback cb (newChannel wfd)) EnableReading) as (ep' & Hc & Hok & Hch).
  - unfold ok, lp0, addChannel. cbn [channels poller_ set_poller].
    eapply (Epoller.ok_replace {[ l := newChannel wfd ]} ep l (newChannel wfd)); [| | done..].
    + eapply Epoller.ok_new_channel; [by eapply Epoller.new_ok | done | done].
    + by rewrite lookup_singleton_eq.
  - unfold lp0, addChannel. cbn [channels set_poller]. by rewrite lookup_insert_eq.
  - intros _. unfold lp0. cbn [poller_ addChannel set_poller]. unfold Epoller.newEpoller in Hep.
    destruct (efd <? 0); [done|]. by injection Hep as <-.
  - rewrite Hc. eexists. split; [done|]. split; [done|]. split; [done|].
    unfold lp0, addChannel. cbn [channels set_poller poller_]. split.
    + intros l' Hl'. rewrite !(lookup_insert_ne (M := gmap loc)) by done. by apply lookup_singleton_ne.
    + intros fd Hfd. rewrite Hch. unfold lp0. cbn [poller_ addChannel set_poller].
      change (fd_ (setReadCallback cb (newChannel wfd))) with wfd. rewrite lookup_insert_ne by done.
      unfold Epoller.newEpoller in Hep. destruct (efd <? 0); [done|]. by injection Hep as <-.
Qed.

(** C21. Whatever the owners of channels do within their discipline, starting from a
    new loop: no assertion of [Channel], [Epoller] or [EventLoop] fails, every [epoll_ctl]
    call made is one the kernel accepts, and the kernel's interest list is at every
    point exactly the channels in state [kAdded], each with its current event mask and
    its own address. *)
Theorem epoll_in_sync efd wfd l cb lp cmds :
  0 ≤ efd → 0 ≤ wfd → newLoop efd wfd l cb false = Ok lp → all_usable cmds lp →
  ∀ n, ∃ lp', foldM exec (take n cmds) lp = Ok lp' ∧ kernel_in_sync lp'.
Proof.
  intros He Hw Hnew Hu n. destruct (newLoop_ok efd wfd l cb) as (lp0 & Hn & Hok & _); [done..|].
  rewrite Hnew in Hn. injection Hn as <-.
  assert (Htake : all_usable (take n cmds) lp).
  { clear Hok Hnew. revert lp n Hu. induction cmds as [|a cmds IH]; intros lp [|n]; simpl; [done..|].
    intros [? Hrest]. split; [done|]. eauto. }
  destruct (exec_all (take n cmds) lp) as (lp' & Hrun & Hok'); [done..|].
  exists lp'. split; [done|]. exact (Epoller.ok_kernel _ _ Hok').
Qed.
End InterestList.

(** A connection's life: its channel is watched for reading, then for writing as well, then not at
    all, removed and destroyed. *)
Lemma epoll_in_sync_witness :
  ∃ lp, newLoop (F := unit) 3 4 1 tt false = Ok lp ∧
    ∃ lp', foldM exec (take 6 [CNew 2 9; CChange 2 EnableReading; CChange 2 EnableWriting;
             CChange 2 DisableAll; CRemove 2; CDestroy 2]) lp = Ok lp' ∧ kernel_in_sync (CB := unit) lp'.
Proof.
  destruct (newLoop (F := unit) 3 4 1 tt false) as [lp|] eqn:Hn; [|vm_compute in Hn; discriminate].
  exists lp. split; [reflexivity|].
  eapply (epoll_in_sync 3 4 1 tt lp); [lia | lia | exact Hn |].
  vm_compute in Hn. injection Hn as <-.
  repeat (split; [vm_compute; first [reflexivity | (eexists; split; [reflexivity|]);
     repeat split; try discriminate; try reflexivity] | intros lp' Hlp'; vm_compute in Hlp'; injection Hlp' as <-]).
  exact I.
Defined.

(** ** Dispatch *)

(** Dispatch of one channel's events: nothing runs when the channel is tied to an
    object that is gone; otherwise exactly the callbacks that the revents call for run,
    each at most once, in the order close, error, read, write - close only for a hang-up
    without input - between setting and clearing [event_handling_].  (The callbacks
    may do anything except replace this channel's revents and callbacks.) *)
Theorem handleEvent_order {W CB} `{HasChannels W CB} (callback : CB → Z → W → result W)
    (alive : loc → W → bool) t l c w :
  chans w !! l = Some c → stable callback t l c →
  handleEvent callback alive t l w =
  if tied_ c && negb (default false ((fun obj => alive obj w) <$> tie_ c)) then Ok w
  else
    (w ← foldM (fun cb => callback cb t) (planned c) (put l (set_event_handling true c) w);
     c ← get l w;
     Ok (put l (set_event_handling false c) w)).
Proof.
  intros Hl Hst. unfold handleEvent. rewrite (get_lookup l c w Hl), bind_Ok.
  rewrite <- handleEventWithGurad_planned by done.
  destruct (tied_ c); [|done]. destruct (tie_ c) as [obj|]; [|done]. simpl. by destruct (alive obj w).
Qed.

(** A tied channel with a hang-up, an error and no input, alone in a loop whose callbacks
    queue themselves. *)
Definition hup_channel : Channel nat :=
  set_revents 24 (tie 7 (setCloseCallback 3%nat (setErrorCallback 4%nat
    (setReadCallback 5%nat (newChannel 9))))).
Definition hup_loop : EventLoop nat nat :=
  mkLoop false false false false 0 0 {[ 2%positive := hup_channel ]} (Epoller.mkEpoller ∅ 16 [])
    0 1%positive [] None [].
Definition log_callback (cb : nat) (t : Z) (lp : EventLoop nat nat) : result (EventLoop nat nat) :=
  Ok (push_functor cb lp).

Lemma handleEvent_order_witness :
  handleEvent log_callback (fun _ _ => false) 0 2%positive hup_loop = Ok hup_loop ∧
  (lp ← handleEvent log_callback (fun _ _ => true) 0 2%positive hup_loop; Ok (pending_functors_ lp)) =
    Ok [3%nat; 4%nat].
Proof.
  assert (Hst : stable log_callback 0 2%positive hup_channel)
    by (intros cb w w' c0 Hc0 Hs [= <-]; by exists c0).
  assert (Hl : chans hup_loop !! 2%positive = Some hup_channel) by apply lookup_singleton_eq.
  split.
  - exact (handleEvent_order log_callback (fun _ _ => false) 0 2%positive hup_channel hup_loop Hl Hst).
  - rewrite (handleEvent_order log_callback (fun _ _ => true) 0 2%positive hup_channel hup_loop Hl Hst).
    vm_compute. reflexivity.
Defined.

(** ** The functor queue *)

(** C23. [doPendingFunctors], for functors that record that they ran and queue the functors
    [next f] from the loop's thread: it runs what was queued when it started, each once and
    in the order of the queue, and what they queue stays, in order, for the next turn (so
    the call ends even when every functor queues itself again); a wake-up is pending if
    anything was queued. *)
Theorem doPendingFunctors_once {W F CB} `{HasLoop W F CB} (functor : F → W → result W)
    (ran : W → list F) (next : F → list F) w :
  (∀ lp w, ran (with_loop lp w) = ran w) →
  (∀ f w, ∃ w', functor f w = Ok w' ∧ ran w' = ran w ++ [f] ∧
     loop_of w' = foldl (fun lp g => queueInLoop true g lp) (loop_of w) (next f)) →
  0 ≤ eventfd (loop_of w) →
  ∃ w', doPendingFunctors functor w = Ok w' ∧
    ran w' = ran w ++ pending_functors_ (loop_of w) ∧
    pending_functors_ (loop_of w') = concat (map next (pending_functors_ (loop_of w))) ∧
    calling_pending_functors_ (loop_of w') = false ∧
    (pending_functors_ (loop_of w') ≠ [] → 0 < eventfd (loop_of w')).
Proof.
  intros Hran Hf He. unfold doPendingFunctors, on_loop. rewrite !loop_with.
  cbn [pending_functors_ set_calling set_flags].
  set (w1 := with_loop _ (with_loop _ w)).
  set (good := fun lp : EventLoop F CB =>
         calling_pending_functors_ lp = true ∧ 0 ≤ eventfd lp ∧ (pending_functors_ lp ≠ [] → 0 < eventfd lp)).
  assert (Hqueue : ∀ gs lp, good lp →
     let lp' := foldl (fun lp g => queueInLoop true g lp) lp gs in
     good lp' ∧ pending_functors_ lp' = pending_functors_ lp ++ gs).
  { intros gs. induction gs as [|g gs IH]; intros lp Hg; simpl; [by rewrite app_nil_r|].
    destruct (IH (queueInLoop true g lp)) as [Hg' Hp].
    - unfold good, queueInLoop, queueInLoop_rest, needs_wakeup, wakeup in *. simpl in *. destruct Hg as (Hc & ? & _). rewrite Hc. simpl.
      destruct (Z.leb_spec (eventfd lp + 1) (two64 - 2)); simpl; unfold two64 in *; split_and!; (done || (intros; lia)).
    - split; [done|]. rewrite Hp. unfold queueInLoop, queueInLoop_rest, needs_wakeup, wakeup. simpl.
      destruct Hg as (-> & _). simpl. destruct (_ <=? _); simpl; by rewrite <- app_assoc. }
  assert (Hall : ∀ fs w, good (loop_of w) → ∃ w', foldM functor fs w = Ok w' ∧ ran w' = ran w ++ fs ∧
     good (loop_of w') ∧ pending_functors_ (loop_of w') = pending_functors_ (loop_of w) ++ concat (map next fs)).
  { clear w w1 He. intros fs. induction fs as [|f fs IH]; intros w Hg.
    - exists w. by rewrite !app_nil_r.
    - simpl. destruct (Hf f w) as (w1 & -> & Hr1 & Hl1).
      destruct (Hqueue (next f) (loop_of w) Hg) as [Hg1 Hp1]. rewrite <- Hl1 in Hg1, Hp1.
      rewrite bind_Ok. destruct (IH w1 Hg1) as (w2 & -> & Hr2 & Hg2 & Hp2). exists w2.
      split; [done|]. rewrite Hr2, Hr1, Hp2, Hp1, <- !app_assoc. done. }
  assert (Hl1 : loop_of w1 = set_pending [] (set_calling true (loop_of w))) by apply loop_with.
  destruct (Hall (pending_functors_ (loop_of w)) w1) as (w2 & -> & Hr & (_ & _ & Hg) & Hp).
  { rewrite Hl1. unfold good. simpl. done. }
  rewrite bind_Ok. eexists. split; [done|]. rewrite Hran, Hr, loop_with.
  split; [unfold w1; by rewrite !Hran|]. rewrite Hl1 in Hp. simpl in Hp |- *. auto.
Qed.

(** A loop with a history beside it. *)
#[export] Program Instance pair_HasLoop {F CB A} : HasLoop (EventLoop F CB * A) F CB := {
  loop_of := fst;
  with_loop lp w := (lp, snd w)
}.
Next Obligation. done. Qed.

(** Two functors, the first of which queues itself again. *)
Definition again (f : nat) : list nat := if decide (f = 1%nat) then [1%nat] else [].
Definition run_again (f : nat) (w : EventLoop nat nat * list nat) : result (EventLoop nat nat * list nat) :=
  Ok (foldl (fun lp g => queueInLoop true g lp) w.1 (again f), w.2 ++ [f]).

Lemma doPendingFunctors_once_witness :
  ∃ w', doPendingFunctors run_again (push_functor 2%nat (push_functor 1%nat hup_loop), []) = Ok w' ∧
    snd w' = [1%nat; 2%nat] ∧ pending_functors_ (loop_of w') = [1%nat] ∧
    calling_pending_functors_ (loop_of w') = false ∧
    (pending_functors_ (loop_of w') ≠ [] → 0 < eventfd (loop_of w')).
Proof.
  destruct (doPendingFunctors_once run_again snd again (push_functor 2%nat (push_functor 1%nat hup_loop), []))
    as (w' & Hd & Hr & Hp & Hrest).
  - done.
  - intros f w. eexists. split; [reflexivity|]. done.
  - done.
  - exists w'. split; [exact Hd|]. split; [exact Hr|]. split; [rewrite Hp; reflexivity|]. exact Hrest.
Defined.

(** *** The loop's thread against the others

    A call of another thread is two steps: the critical section of [queueInLoop], or
    the store of [quit]; and later the rest of the very definition
    ([EventLoop.queueInLoop_rest], [EventLoop.quit_rest]), on the loop as it is then.
    The loop's thread is outside of [loop] first, where it may queue functors and call
    [quit] as well; in [loop] it tests [quit_], waits, handles events (the read of the
    eventfd among them) and runs functors, and while it does either it may queue functors
    and quit.  [pc] is where the loop's thread is. *)
Section Interleaving.
Context {F CB : Type}.

Inductive pc :=
  | POut                         (** outside of [loop] *)
  | PTest                        (** at the condition of the while loop *)
  | PWait                        (** in or before [epoll_wait] *)
  | PHandle (woken : bool)       (** handling events; [woken] if the eventfd is still to be read *)
  | PDrain (todo : list F).      (** in the for loop of [doPendingFunctors] *)

(** What another thread still has to do of its call. *)
Inductive rest := RQueue | RQuit.

Definition finish (r : rest) (lp : EventLoop F CB) : EventLoop F CB :=
  match r with
  | RQueue => queueInLoop_rest false lp
  | RQuit => quit_rest false lp
  end.

Record conf := mkConf {
  lp : EventLoop F CB;
  at_ : pc;
  inflight : list rest;  (** the other threads in the middle of a call *)
  asked : list F;        (** everything queued so far, in the order of the mutex *)
  ran : list F;          (** everything run so far *)
  early : list F         (** of the queue, what the loop's thread queued outside of [loop] *)
}.

(** The loop's thread runs its own code inside of [loop], where it may call [queueInLoop] and [quit]. *)
Definition in_callback (p : pc) : Prop :=
  match p with PHandle _ | PDrain _ => True | _ => False end.

Inductive step : conf → conf → Prop :=
  | s_push l a n q r e f : step (mkConf l a n q r e) (mkConf (push_functor f l) a (RQueue :: n) (q ++ [f]) r e)
  | s_quit l a n q r e : step (mkConf l a n q r e) (mkConf (set_quit true l) a (RQuit :: n) q r e)
  | s_rest l a n1 x n2 q r e : step (mkConf l a (n1 ++ x :: n2) q r e) (mkConf (finish x l) a (n1 ++ n2) q r e)
  | s_early l n q r e f : step (mkConf l POut n q r e) (mkConf (queueInLoop true f l) POut n (q ++ [f]) r (e ++ [f]))
  | s_quit_out l n q r e : step (mkConf l POut n q r e) (mkConf (quit true l) POut n q r e)
  | s_enter l n q r e : step (mkConf l POut n q r e) (mkConf (set_quit false (set_looping true l)) PTest n q r e)
  | s_test l n q r e : step (mkConf l PTest n q r e)
      (if quit_ l then mkConf (set_looping false l) POut n q r e else mkConf l PWait n q r e)
  | s_return l n q r e woken : (woken = true → 0 < eventfd l) →
      step (mkConf l PWait n q r e) (mkConf l (PHandle woken) n q r e)
  | s_read l n q r e : step (mkConf l (PHandle true) n q r e) (mkConf (handleRead l) (PHandle false) n q r e)
  | s_queue l a n q r e f : in_callback a →
      step (mkConf l a n q r e) (mkConf (queueInLoop true f l) a n (q ++ [f]) r e)
  | s_quit_self l a n q r e : in_callback a → step (mkConf l a n q r e) (mkConf (quit true l) a n q r e)
  | s_swap l n q r e : step (mkConf l (PHandle false) n q r e)
      (mkConf (set_pending [] (set_calling true l)) (PDrain (pending_functors_ l)) n q r [])
  | s_run l f todo n q r e : step (mkConf l (PDrain (f :: todo)) n q r e) (mkConf l (PDrain todo) n q (r ++ [f]) e)
  | s_end l n q r e : step (mkConf l (PDrain []) n q r e) (mkConf (set_calling false l) PTest n q r e).

(** A loop just built (as [newLoop] builds it, [newLoop_started]), its thread not in [loop] yet. *)
Definition started (c : conf) : Prop :=
  at_ c = POut ∧ pending_functors_ (lp c) = [] ∧ calling_pending_functors_ (lp c) = false ∧
  eventfd (lp c) = 0 ∧ inflight c = [] ∧ asked c = [] ∧ ran c = [] ∧ early c = [].

Inductive reachable : conf → Prop :=
  | r_start c : started c → reachable c
  | r_step c c' : reachable c → step c c' → reachable c'.

(** [epoll_wait] returns for the eventfd: it is readable, or another thread makes it
    readable with the next step it takes. *)
Definition will_wake (c : conf) : Prop :=
  0 < eventfd (lp c) ∨ Exists (fun x => 0 < eventfd (finish x (lp c))) (inflight c).

(** All that is queued was queued by the loop's thread outside of [loop]. *)
Definition only_early (c : conf) : Prop := pending_functors_ (lp c) = early c.

Record loop_inv (c : conf) : Prop := {
  inv_eventfd : 0 ≤ eventfd (lp c);
  inv_calling : calling_pending_functors_ (lp c) = match at_ c with PDrain _ => true | _ => false end;
  inv_early : pending_functors_ (lp c) = [] → early c = [];
  inv_drained : match at_ c with PDrain _ => early c = [] | _ => True end;
  inv_wake : match at_ c with
             | PHandle _ => True
             | PWait => (quit_ (lp c) = true → will_wake c) ∧
                        (pending_functors_ (lp c) ≠ [] → will_wake c ∨ only_early c)
             | _ => pending_functors_ (lp c) ≠ [] → will_wake c ∨ only_early c
             end;
  inv_order : asked c = ran c ++ match at_ c with PDrain todo => todo | _ => [] end
                        ++ pending_functors_ (lp c)
}.

Lemma wakeup_readable (l : EventLoop F CB) : 0 ≤ eventfd l → 0 < eventfd (wakeup l).
Proof. intros He. unfold wakeup, two64. destruct (Z.leb_spec (eventfd l + 1) (18446744073709551616 - 2)); simpl; lia. Qed.

Lemma wakeup_same (l : EventLoop F CB) :
  pending_functors_ (wakeup l) = pending_functors_ l ∧ quit_ (wakeup l) = quit_ l ∧
  calling_pending_functors_ (wakeup l) = calling_pending_functors_ l.
Proof. unfold wakeup. by destruct (_ <=? _). Qed.

(** Whatever another thread has begun ends with the eventfd readable. *)
Lemma finish_readable x (l : EventLoop F CB) : 0 ≤ eventfd l → 0 < eventfd (finish x l).
Proof. intros He. destruct x; by apply wakeup_readable. Qed.

Lemma finish_same x (l : EventLoop F CB) :
  pending_functors_ (finish x l) = pending_functors_ l ∧ quit_ (finish x l) = quit_ l ∧
  calling_pending_functors_ (finish x l) = calling_pending_functors_ l.
Proof. destruct x; apply wakeup_same. Qed.

Lemma flight_wakes l a x n q r e : 0 ≤ eventfd l → will_wake (mkConf l a (x :: n) q r e).
Proof. intros He. right. constructor. by apply finish_readable. Qed.

(** The eventfd does not become unreadable when it is written, nor do threads get lost. *)
Lemma wakes_frame l l' a a' n q q' r r' e e' :
  0 ≤ eventfd l' → eventfd l ≤ eventfd l' →
  will_wake (mkConf l a n q r e) → will_wake (mkConf l' a' n q' r' e').
Proof.
  intros He Hle [Hw|Hw]; [left; simpl in *; lia|]. right. simpl in *.
  eapply List.Exists_impl; [|exact Hw]. intros x _. by apply finish_readable.
Qed.

Lemma finish_wakes x l a n q r e : 0 ≤ eventfd l → will_wake (mkConf (finish x l) a n q r e).
Proof. intros He. left. by apply finish_readable. Qed.

Lemma queue_own (l : EventLoop F CB) f :
  0 ≤ eventfd l →
  pending_functors_ (queueInLoop true f l) = pending_functors_ l ++ [f] ∧
  quit_ (queueInLoop true f l) = quit_ l ∧
  calling_pending_functors_ (queueInLoop true f l) = calling_pending_functors_ l ∧
  eventfd l ≤ eventfd (queueInLoop true f l) ∧
  (calling_pending_functors_ l = true → 0 < eventfd (queueInLoop true f l)).
Proof.
  intros He. unfold queueInLoop, queueInLoop_rest, needs_wakeup. simpl.
  destruct (calling_pending_functors_ l) eqn:Hc; simpl; [|split_and!; done || lia].
  destruct (wakeup_same (push_functor f l)) as (-> & -> & ->).
  pose proof (wakeup_readable (push_functor f l) He). simpl. split_and!; try done.
  unfold wakeup. simpl. destruct (_ <=? _); simpl; lia.
Qed.

Lemma app_not_nil {A} (l : list A) x : l ++ [x] ≠ [].
Proof. by destruct l. Qed.

(** What the invariant says of a sleeping loop, over a step that leaves the eventfd alone. *)
Ltac kept :=
  match goal with
  | Hw : _ → will_wake _ ∨ only_early _ |- _ → will_wake _ ∨ only_early _ =>
      let Hp := fresh in intros Hp; destruct (Hw Hp);
      [left; eapply wakes_frame; [| |eassumption]; simpl; lia | right; done]
  end.

Lemma step_inv c c' : loop_inv c → step c c' → loop_inv c'.
Proof.
  intros [He Hc Hn Hd Hw Ho] Hs. destruct Hs; simpl in *.
  - constructor; simpl; try done; [by intros ?%app_not_nil| |by rewrite Ho, <- !app_assoc].
    destruct a; try done; try (intros; left; by apply flight_wakes).
    split; intros; [|left]; by apply flight_wakes.
  - constructor; simpl; try done. destruct a; try done; try (intros; left; by apply flight_wakes).
    split; intros; [|left]; by apply flight_wakes.
  - destruct (finish_same x l) as (Hp & Hq & Hcal). pose proof (finish_readable x l He).
    constructor; simpl; rewrite ?Hp, ?Hq, ?Hcal; try done; [lia|].
    destruct a; try done; try (intros; left; by apply finish_wakes).
    split; intros; [|left]; by apply finish_wakes.
  - destruct (queue_own l f He) as (Hp & Hq & Hcal & Hle & _).
    constructor; simpl; rewrite ?Hp, ?Hq, ?Hcal; try done; [lia|by intros ?%app_not_nil| |by rewrite Ho, <- !app_assoc].
    intros _. destruct (decide (pending_functors_ l = [])) as [Hnil|Hne].
    + right. unfold only_early. simpl. by rewrite Hp, Hnil, (Hn Hnil).
    + destruct (Hw Hne) as [Hwk|Hwk]; [left; eapply wakes_frame; [| |exact Hwk]; lia|].
      right. unfold only_early in *. simpl in *. by rewrite Hp, Hwk.
  - constructor; simpl; try done. kept.
  - constructor; simpl; try done. kept.
  - destruct (quit_ l) eqn:Hq; constructor; simpl; try done; [kept|]. split; [congruence|kept].
  - constructor; simpl; done.
  - constructor; simpl; done.
  - destruct (queue_own l f He) as (Hp & Hq & Hcal & Hle & Hread).
    constructor; simpl; rewrite ?Hp, ?Hq, ?Hcal; try done; [lia|by intros ?%app_not_nil| |].
    + destruct a; try done. intros _. left. left. simpl. auto.
    + rewrite Ho, <- !app_assoc. by destruct a.
  - constructor; simpl; try done. destruct a; try done. kept.
  - constructor; simpl; try done. by rewrite Ho, app_nil_r.
  - constructor; simpl; try done. by rewrite Ho, <- app_assoc.
  - constructor; simpl; try done. kept.
Qed.

Lemma reachable_inv c : reachable c → loop_inv c.
Proof.
  induction 1 as [c (Ha & Hp & Hc & He & Hi & Hk & Hr & Hy)|c c' _ IH Hs]; [|by eapply step_inv].
  constructor; rewrite ?Ha, ?Hc, ?Hp, ?Hr, ?Hy, ?Hk, ?He; done.
Qed.


(** Functors run exactly once and in the order they were queued: at every moment what
    has been queued is what has run, then what the current round still has to run,
    then the queue. *)
Theorem functors_fifo c :
  reachable c →
  asked c = ran c ++ match at_ c with PDrain todo => todo | _ => [] end ++ pending_functors_ (lp c).
Proof. intros Hr. exact (inv_order _ (reachable_inv _ Hr)). Qed.

Lemma newLoop_started efd wfd l cb lp0 :
  newLoop efd wfd l cb false = Ok lp0 → started (mkConf lp0 POut [] [] [] []).
Proof.
  intros Hn. unfold newLoop in Hn. apply bind_Ok_inv in Hn as (ep & _ & Hn). apply bind_Ok_inv in Hn as (_ & _ & Hn).
  apply bind_Ok_inv in Hn as (_ & _ & Hn). apply bind_Ok_inv in Hn as (c & _ & Hn).
  unfold change in Hn. apply bind_Ok_inv in Hn as (c1 & _ & Hn). unfold update in Hn.
  apply bind_Ok_inv in Hn as (c2 & _ & Hn). unfold updateChannel in Hn. apply bind_Ok_inv in Hn as (_ & _ & Hn).
  apply bind_Ok_inv in Hn as ([h ep'] & _ & [= <-]). done.
Qed.
End Interleaving.

(** A loop as it is built. *)
Definition built_loop : EventLoop nat nat := 
  match newLoop 3 4 1%positive 0%nat false with Ok l => l | Fault _ => hup_loop end.

Lemma built_reachable : reachable (mkConf built_loop POut [] [] [] []).
Proof. apply r_start. eapply (newLoop_started 3 4 1%positive 0%nat). vm_compute. reflexivity. Qed.

(** A functor queued by another thread while the loop's thread waits. *)
Definition queued_conf : conf (F := nat) (CB := nat) :=
  mkConf (push_functor 5%nat (set_quit false (set_looping true built_loop))) PWait [RQueue] [5%nat] [] [].

Lemma queued_reachable : reachable queued_conf.
Proof.
  eapply r_step; [eapply r_step; [eapply r_step; [exact built_reachable|apply s_enter]|apply s_test]|].
  exact (s_push (set_quit false (set_looping true built_loop)) PWait [] [] [] [] 5%nat).
Qed.


Lemma functors_fifo_witness :
  reachable queued_conf ∧ asked queued_conf = ran queued_conf ++ [] ++ pending_functors_ (lp queued_conf).
Proof. split; [exact queued_reachable|]. exact (functors_fifo queued_conf queued_reachable). Defined.

(** The exception is real: a functor that the loop's own thread queues before it enters
    [loop] gets no wake-up, and [epoll_wait] blocks with the functor queued, until
    something else happens or the time-out of ten seconds. *)
Theorem early_functor_sleeps :
  ∃ c : conf (F := nat) (CB := nat), reachable c ∧ at_ c = PWait ∧ pending_functors_ (lp c) = [5%nat] ∧
    eventfd (lp c) = 0 ∧ inflight c = [].
Proof.
  exists (mkConf (set_quit false (set_looping true (queueInLoop true 5%nat built_loop))) PWait [] [5%nat] [] [5%nat]).
  split; [|done].
  eapply r_step; [eapply r_step; [eapply r_step; [exact built_reachable|apply (s_early _ _ _ _ _ 5%nat)]|apply s_enter]|].
  exact (s_test (set_quit false (set_looping true (queueInLoop true 5%nat built_loop))) [] [5%nat] [] [5%nat]).
Qed.

(** ** Quitting *)
Section Quit.
Context {W F CB : Type} `{HasLoop W F CB}.
Variable functor : F → W → result W.
Variable callback : CB → Z → W → result W.
Variable alive : loc → W → bool.
Hypothesis functor_quit : ∀ f w w', functor f w = Ok w' → quit_ (loop_of w') = quit_ (loop_of w).
Hypothesis callback_quit : ∀ cb t w w', callback cb t w = Ok w' → quit_ (loop_of w') = quit_ (loop_of w).

Lemma iterate_quit now o w w' :
  quit_ (loop_of w) = false → iterate functor callback alive now o w = Ok w' → quit_ (loop_of w') = false.
Proof.
  intros Hq H1. unfold iterate in H1. cbv zeta in H1. apply bind_Ok_inv in H1 as ([[active h] ep] & _ & H1).
  apply bind_Ok_inv in H1 as (w1 & H1 & H2).
  assert (Hq1 : quit_ (loop_of w1) = false).
  { eapply (foldM_pres (fun w => quit_ (loop_of w) = false)); [| |exact H1].
    - intros ch w2 w3 Hw2 Hh.
      eapply (handleEvent_pres callback now (fun w => quit_ (loop_of w) = false)); [| | |exact Hh].
      + intros cb w4 w5 Hw4 Hcb. by rewrite (callback_quit _ _ _ _ Hcb).
      + intros c w4 Hw4. unfold put. simpl. by rewrite loop_with.
      + unfold on_loop. by rewrite loop_with.
    - simpl. by rewrite loop_with. }
  unfold doPendingFunctors in H2. cbv zeta in H2. apply bind_Ok_inv in H2 as (w2 & H2 & H3).
  injection H3 as <-. unfold on_loop. rewrite loop_with.
  eapply (foldM_pres (fun w => quit_ (loop_of w) = false)); [| |exact H2].
  - intros f w3 w4 Hw3 Hf. by rewrite (functor_quit _ _ _ Hf).
  - unfold on_loop. by rewrite !loop_with.
Qed.

(** A [quit] that comes before [loop] is forgotten: [loop] clears the flag when it
    starts, so unless a callback or functor calls [quit] as well, the loop never
    returns, whatever the poller reports and for however many turns. *)
Theorem quit_before_loop_is_lost inLoop reports w :
  (∀ w', loop functor callback alive inLoop reports (on_loop (quit false) w) ≠ Some (Ok w')).
Proof.
  intros w'. unfold loop. destruct (looping_ _); [done|]. destruct inLoop; [|done].
  set (w1 := on_loop _ (on_loop _ w)).
  assert (Hq : quit_ (loop_of w1) = false) by (unfold w1, on_loop; by rewrite loop_with).
  assert (Ht : ∀ w2, turns functor callback alive reports w1 ≠ Some (Ok w2)).
  { clearbody w1. revert w1 Hq. induction reports as [|[now o] rs IH]; intros w1 Hq w2; simpl; rewrite Hq; [done|].
    destruct (iterate functor callback alive now o w1) as [w3|] eqn:Hi; [|done].
    apply IH. by eapply iterate_quit. }
  destruct (turns functor callback alive reports w1) as [[w2|]|] eqn:E; [|done..]. by destruct (Ht w2).
Qed.
End Quit.

Lemma quit_before_loop_is_lost_witness :
  (∀ w', loop (W := EventLoop nat nat) (fun f lp => Ok lp) log_callback (fun _ _ => true) true
     [(0, Epoller.WaitEvents []); (1, Epoller.WaitEvents [])] (on_loop (quit false) hup_loop) ≠ Some (Ok w')) ∧
  loop (W := EventLoop nat nat) (fun f lp => Ok lp) log_callback (fun _ _ => true) true
     [(0, Epoller.WaitEvents []); (1, Epoller.WaitEvents [])] (on_loop (quit false) hup_loop) = None.
Proof.
  split; [|vm_compute; reflexivity].
  apply (quit_before_loop_is_lost (W := EventLoop nat nat) (fun f lp => Ok lp) log_callback (fun _ _ => true)).
  - intros f w w' [= <-]. reflexivity.
  - intros cb t w w' [= <-]. reflexivity.
Defined.

(** ** Printing event masks *)

(** The flag tested last of those that are set. *)
Definition last_flag (ev : Z) : list byte :=
  if has_bits ev POLLNVAL then bytes "NVAL "
  else if has_bits ev POLLERR then bytes "ERR "
  else if has_bits ev POLLRDHUP then bytes "RDHUP "
  else if has_bits ev POLLHUP then bytes "HUP "
  else if has_bits ev POLLOUT then bytes "OUT "
  else if has_bits ev POLLPRI then bytes "PRI "
  else if has_bits ev POLLIN then bytes "IN "
  else [].

Lemma snprintf_at_prefix p t junk text :
  zlen (p ++ t ++ [x00] ++ junk) = 32 → zlen p + zlen text < 32 →
  ∃ junk', snprintf_at (zlen p) text (p ++ t ++ [x00] ++ junk) = p ++ text ++ [x00] ++ junk' ∧
    zlen (p ++ text ++ [x00] ++ junk') = 32.
Proof.
  intros Hlen Ht. unfold snprintf_at. rewrite Hlen, snprintf_fits by lia.
  pose proof (zlen_nonneg p). pose proof (zlen_nonneg text).
  unfold zwrite. rewrite ztake_app_le, ztake_all by lia.
  rewrite (zlen_app text), zdrop_app_ge by (change (zlen [x00]) with 1; lia). rewrite <- app_assoc.
  eexists. split; [reflexivity|]. rewrite !zlen_app in *. change (zlen [x00]) with 1 in *.
  rewrite zlen_zdrop; rewrite ?zlen_app; change (zlen [x00]) with 1; lia.
Qed.

(** [eventsToString] prints the descriptor and one flag only, the last of those that
    are set in the order of its tests: every flag is printed at the same place, over
    the one before. *)
Theorem eventsToString_last_flag fd ev :
  0 ≤ fd < 2 ^ 31 → eventsToString fd ev = dec fd ++ bytes ": " ++ last_flag ev.
Proof.
  intros Hfd. unfold eventsToString, last_flag. cbv zeta.
  assert (Hp : zlen (dec fd ++ bytes ": ") ≤ 12).
  { rewrite zlen_app. change (zlen (bytes ": ")) with 2.
    pose proof (dec_length fd 10 ltac:(lia) ltac:(lia)). lia. }
  assert (Hnul : x00 ∉ dec fd ++ bytes ": ").
  { rewrite elem_of_app. intros [Hin|Hin]; [|revert Hin; by apply (bool_decide_unpack (x00 ∉ bytes ": "))].
    pose proof (dec_are_digits fd ltac:(lia)) as Hd. rewrite Forall_forall in Hd. apply Hd in Hin.
    change (byte_val x00) with 0 in Hin. lia. }
  rewrite (app_assoc (dec fd)). set (p := dec fd ++ bytes ": ") in *.
  assert (Hinit : ∃ junk, snprintf_at 0 p (replicate 32 x00) = p ++ [] ++ [x00] ++ junk ∧
                    zlen (p ++ [] ++ [x00] ++ junk) = 32).
  { destruct (snprintf_at_prefix [] [] (replicate 31 x00) p) as (junk & ? & ?);
      [done | change (zlen (@nil byte)) with 0; lia |]. by exists junk. }
  destruct Hinit as (junk & -> & Hlen).
  assert (Hflag : ∀ (b : bool) text t0 junk0, zlen text < 10 → zlen (p ++ t0 ++ [x00] ++ junk0) = 32 →
     ∃ junk1, (if b then snprintf_at (zlen p) text (p ++ t0 ++ [x00] ++ junk0) else p ++ t0 ++ [x00] ++ junk0) =
              p ++ (if b then text else t0) ++ [x00] ++ junk1 ∧
              zlen (p ++ (if b then text else t0) ++ [x00] ++ junk1) = 32).
  { intros b text t0 junk0 Ht Hl. destruct b; [|by exists junk0]. apply snprintf_at_prefix; [done | lia]. }
  do 7 (match goal with |- context [if ?b then snprintf_at (zlen p) ?text (p ++ ?t0 ++ [x00] ++ ?j) else _] =>
    destruct (Hflag b text t0 j ltac:(reflexivity) Hlen) as (? & -> & Hlen1); clear Hlen; rename Hlen1 into Hlen end).
  unfold c_str. rewrite (app_assoc p).
  assert (Hflags : x00 ∉ last_flag ev).
  { unfold last_flag. repeat (destruct (has_bits ev _); [by apply (bool_decide_unpack _)|]).
    apply not_elem_of_nil. }
  unfold last_flag in Hflags. cbn [app].
  rewrite std_find_app_match by (rewrite elem_of_app; naive_solver).
  rewrite ztake_app_le, ztake_all by lia. done.
Qed.

(** Readable, urgent and writable at once prints as writable. *)
Lemma eventsToString_last_flag_witness : eventsToString 5 7 = bytes "5: OUT ".
Proof. rewrite (eventsToString_last_flag 5 7); [reflexivity | lia]. Defined.
