(* ===== verification/Time.v ===== *)
(** * Time: include/libfm/fmutil/{TimeStamp,SystemClock}.h, util/TimeStamp.cpp, and the
    relative times of net/TimerQueue.cpp

    A [TimeStamp] is a number of microseconds.  [duration_cast] to a coarser unit and the
    remainder [%] of the sources round towards zero ([Z.quot], [Z.rem]).  The
    64-bit range is not written out here: all times the theorems are about are within it. *)
From stdpp Require Import base list numbers strings.
From Stdlib Require Import ZArith Lia Znumtheory Init.Byte.
From S2P Require Import Prelude.
#[local] Open Scope Z_scope.

Module TimeStamp.

(** [src/include/libfm/fmutil/TimeStamp.h:37-37 TimeStamp data members] *)
Definition TimeStamp := Z.

(** [src/include/libfm/fmutil/TimeStamp.h:31-31 TimeStamp::isZero] *)
Definition isZero (t : TimeStamp) : bool := t =? 0.
(** [src/include/libfm/fmutil/TimeStamp.h:40-43 TimeStamp::operator+=] *)
Definition plus_assign (t d : Z) : TimeStamp := t + d.
(** [src/include/libfm/fmutil/TimeStamp.h:45-48 TimeStamp::operator-=] *)
Definition minus_assign (t d : Z) : TimeStamp := t - d.
(** [src/include/libfm/fmutil/TimeStamp.h:50-53 operator-] *)
Definition minus (lhs rhs : TimeStamp) : Z := lhs - rhs.
(** [src/include/libfm/fmutil/TimeStamp.h:55-65 operator+] *)
Definition plus (lhs : TimeStamp) (rhs : Z) : TimeStamp := lhs + rhs.
(** [src/include/libfm/fmutil/TimeStamp.h:67-71 operator-] *)
Definition minus_duration (lhs : TimeStamp) (rhs : Z) : TimeStamp := lhs - rhs.
(** [src/include/libfm/fmutil/TimeStamp.h:73-75 operator<] *)
Definition lt (lhs rhs : TimeStamp) : bool := lhs <? rhs.
(** [src/include/libfm/fmutil/TimeStamp.h:77-79 operator>] *)
Definition gt (lhs rhs : TimeStamp) : bool := rhs <? lhs.
(** [src/include/libfm/fmutil/TimeStamp.h:81-83 operator==] *)
Definition eq (lhs rhs : TimeStamp) : bool := lhs =? rhs.
(** [src/include/libfm/fmutil/TimeStamp.h:85-87 operator!=] *)
Definition ne (lhs rhs : TimeStamp) : bool := negb (lhs =? rhs).

(** [%06d] of a non-negative number. *)
Definition dec06 (z : Z) : list byte := replicate (6 - length (dec z)) x30 ++ dec z.

Section Format.
(** [localtime_r] and [strftime] of the C library: the text for a format and a number of
    seconds since the epoch. *)
Variable local_format : list byte → Z → list byte.

(** [src/util/TimeStamp.cpp:10-19 TimeStamp::toFormattedString] A text that does not fit
    in the buffer of 64 bytes leaves it empty. *)
Definition toFormattedString (fmt : list byte) (t : TimeStamp) : list byte :=
  let text := local_format fmt (Z.quot t 1000000) in
  if zlen text <? 64 then text else [].

(** [src/util/TimeStamp.cpp:21-32 TimeStamp::toString] *)
Definition toString (microsecond : bool) (t : TimeStamp) : list byte :=
  if microsecond then
    let rest := to_unsigned 32 t mod 1000000 in
    toFormattedString (bytes "%F %T") t ++ snprintf 12 (bytes "." ++ dec06 rest)
  else toFormattedString (bytes "%F %T") t.
End Format.

End TimeStamp.

Module SystemClock.

(** [src/include/libfm/fmutil/SystemClock.h:15-15 SystemClock::kSecondToMicroseconds] *)
Definition kSecondToMicroseconds : Z := 1000 * 1000.

(** [src/include/libfm/fmutil/SystemClock.h:19-22 SystemClock::now] The reading of the system clock
    in nanoseconds. *)
Definition now (system_clock_ns : Z) : Z := Z.quot system_clock_ns 1000.
(** [src/include/libfm/fmutil/SystemClock.h:24-26 SystemClock::zero] *)
Definition zero : Z := 0.
(** [src/include/libfm/fmutil/SystemClock.h:28-31 SystemClock::to_time_t] *)
Definition to_time_t (t : Z) : Z := Z.quot t 1000000.
(** [src/include/libfm/fmutil/SystemClock.h:33-35 SystemClock::from_time_t] *)
Definition from_time_t (t : Z) : Z := t * 1000000.

(** A [timeval] or a [timespec]: seconds and micro- or nanoseconds. *)
Record timepair := mkTime { tv_sec : Z; tv_frac : Z }.

(** [src/include/libfm/fmutil/SystemClock.h:37-42 SystemClock::to_timeval] *)
Definition to_timeval (t : Z) : timepair := mkTime (Z.quot t 1000000) (Z.rem t kSecondToMicroseconds).
(** [src/include/libfm/fmutil/SystemClock.h:44-46 SystemClock::from_timeval] *)
Definition from_timeval (tv : timepair) : Z := tv_sec tv * kSecondToMicroseconds + tv_frac tv.
(** [src/include/libfm/fmutil/SystemClock.h:48-53 SystemClock::to_timespec] *)
Definition to_timespec (t : Z) : timepair :=
  mkTime (Z.quot t 1000000) (Z.rem t kSecondToMicroseconds * 1000).
(** [src/include/libfm/fmutil/SystemClock.h:55-57 SystemClock::from_timespec] *)
Definition from_timespec (ts : timepair) : Z :=
  tv_sec ts * kSecondToMicroseconds + Z.quot (tv_frac ts) 1000.

(** [src/net/TimerQueue.cpp:35-42 timespecFromNow] for a reading [now] of the clock. *)
Definition timespecFromNow (now when : Z) : timepair :=
  let interval := to_timespec (when - now) in
  let interval := if tv_sec interval <? 0 then mkTime 0 (tv_frac interval) else interval in
  if (tv_sec interval =? 0) && (tv_frac interval <? 100) then mkTime (tv_sec interval) 100 else interval.

Lemma quot_rem_bounds t : 0 ≤ t → 0 ≤ Z.quot t 1000000 ∧ 0 ≤ Z.rem t 1000000 < 1000000 ∧
  t = Z.quot t 1000000 * 1000000 + Z.rem t 1000000.
Proof.
  intros Ht. pose proof (Z.quot_rem t 1000000 ltac:(lia)). pose proof (Z.rem_bound_pos t 1000000 ltac:(lia) ltac:(lia)).
  pose proof (Z.quot_pos t 1000000 ltac:(lia) ltac:(lia)). lia.
Qed.

Lemma quot_rem_neg t : t < 0 → Z.quot t 1000000 ≤ 0 ∧ -1000000 < Z.rem t 1000000 ≤ 0.
Proof.
  intros Ht. replace t with (- (- t)) by lia. rewrite Z.quot_opp_l, Z.rem_opp_l by lia.
  pose proof (quot_rem_bounds (- t) ltac:(lia)). lia.
Qed.

End SystemClock.

Import TimeStamp SystemClock.

(** The conversions are inverse to each other: a time survives the way through a
    [timeval] or a [timespec] (whatever its sign), and whole seconds through [time_t]. *)
Theorem clock_roundtrip t :
  from_timeval (to_timeval t) = t ∧ from_timespec (to_timespec t) = t ∧
  to_time_t (from_time_t t) = t.
Proof.
  pose proof (Z.quot_rem t 1000000 ltac:(lia)).
  unfold from_timeval, to_timeval, from_timespec, to_timespec, to_time_t, from_time_t, kSecondToMicroseconds.
  simpl tv_sec. simpl tv_frac. change (1000 * 1000) with 1000000.
  rewrite (Z.quot_mul (Z.rem t 1000000)), Z.quot_mul by lia. lia.
Qed.

(** [timespecFromNow] is always a time [timerfd_settime] accepts and that arms the
    timer (never zero, which would disarm it): it is the time left when that is at least
    100 ns, and 100 ns for any time that is due or past. *)
Theorem timespecFromNow_arms now when :
  let ts := timespecFromNow now when in
  0 ≤ tv_sec ts ∧ 0 ≤ tv_frac ts < 1000000000 ∧ (tv_sec ts, tv_frac ts) ≠ (0, 0) ∧
  (now < when → tv_sec ts * 1000000000 + tv_frac ts = (when - now) * 1000) ∧
  (when ≤ now → tv_sec ts = 0 ∧ tv_frac ts = 100).
Proof.
  cbv zeta. unfold timespecFromNow, to_timespec, kSecondToMicroseconds. change (1000 * 1000) with 1000000.
  simpl tv_sec. simpl tv_frac. set (d := when - now).
  destruct (Z.leb_spec 0 d) as [Hd|Hd].
  - pose proof (quot_rem_bounds d Hd) as (Hq & Hr & Heq).
    destruct (Z.ltb_spec (Z.quot d 1000000) 0); [lia|]. simpl.
    destruct (Z.eqb_spec (Z.quot d 1000000) 0); destruct (Z.ltb_spec (Z.rem d 1000000 * 1000) 100); simpl;
      split_and!; try lia; try (intros [= ? ?]; lia).
  - pose proof (quot_rem_neg d Hd) as (Hq & Hr).
    destruct (Z.ltb_spec (Z.quot d 1000000) 0); simpl.
    + destruct (Z.ltb_spec (Z.rem d 1000000 * 1000) 100); simpl; [|lia].
      split_and!; try lia. intros [= ?].
    + destruct (Z.eqb_spec (Z.quot d 1000000) 0); [|lia].
      destruct (Z.ltb_spec (Z.rem d 1000000 * 1000) 100); simpl; [|lia].
      split_and!; try lia. intros [= ? ?]; lia.
Qed.

(** The fraction [toString] prints. *)
Definition printed_fraction (t : Z) : Z := to_unsigned 32 t mod 1000000.

(** The microseconds [toString] prints are right only if the number of times the
    count has outrun 32 bits is a multiple of 15625: the count is truncated to 32 bits before the
    remainder is taken, and 2{^32} is no multiple of a million.  (15624 of every 15625
    timestamps since 1970 print a wrong fraction.) *)
Theorem toString_fraction t :
  0 ≤ t → printed_fraction t = t mod 1000000 ↔ (t / 2 ^ 32) mod 15625 = 0.
Proof.
  intros Ht. unfold printed_fraction, to_unsigned.
  pose proof (Z.div_mod t (2 ^ 32) ltac:(lia)) as Hdm.
  set (q := t / 2 ^ 32) in *. set (r := t mod 2 ^ 32) in *. rewrite Hdm. clearbody q r.
  split.
  - intros Heq. assert (Hdiv : (1000000 | 2 ^ 32 * q)).
    { apply Z.mod_divide; [lia|].
      replace (2 ^ 32 * q) with ((2 ^ 32 * q + r) - r) by lia.
      rewrite Zminus_mod, <- Heq, Z.sub_diag. done. }
    destruct Hdiv as [k Hk]. apply Z.mod_divide; [lia|].
    apply (Z.gauss 15625 (2 ^ 26)); [exists k; lia | by vm_compute].
  - intros [k Hk]%Z.mod_divide; [|lia]. subst q.
    replace (2 ^ 32 * (k * 15625) + r) with (r + (k * 67108864) * 1000000) by lia.
    by rewrite Z_mod_plus_full.
Qed.

Lemma toString_fraction_witness :
  printed_fraction 1628500000123456 = 302912 ∧ 1628500000123456 mod 1000000 = 123456 ∧
  (printed_fraction 1628500000123456 = 1628500000123456 mod 1000000 ↔ (1628500000123456 / 2 ^ 32) mod 15625 = 0).
Proof.
  split; [vm_compute; reflexivity|]. split; [vm_compute; reflexivity|].
  apply (toString_fraction 1628500000123456). lia.
Defined.
