(* ===== verification/TimerQueue.v ===== *)
(** * Timers: net/Timer.{h,cpp}, include/libfm/fmnet/TimerId.h, net/TimerQueue.{h,cpp}

    Timers are heap objects: the map [timers] holds the live ones by address, an access
    to any other address is a [UseAfterFree] fault.  The tree [timer_tree_] is the sorted
    sequence that [std::set] keeps; the two sets of timer identifiers are finite sets.
    The functors that other threads leave in the loop's queue are [pending_].

    A user callback is a name ([K]); running one is a list of calls of the interface,
    which may depend on everything ([behaviour]).  The address [new] returns is the
    choice of an allocator ([alloc]) that may reuse freed addresses, or fail ([std::bad_alloc], the
    fault [LengthError]).  [now] arguments are
    readings of the clock. *)
From stdpp Require Import base list gmap numbers sorting.
From Stdlib Require Import ZArith Lia Init.Byte.
From S2P Require Import Prelude.
From S2P Require Import Time.
#[local] Open Scope Z_scope.
#[local] Open Scope fm_scope.

Module Timer.

(** [src/net/Timer.h:39-43 Timer data members] *)
Record Timer (K : Type) := mkTimer {
  callback_ : K;
  expiration_ : Z;
  interval_ : Z;
  repeat_ : bool;
  sequence_ : Z
}.
Arguments mkTimer {K}.
Arguments callback_ {K} _.
Arguments expiration_ {K} _.
Arguments interval_ {K} _.
Arguments repeat_ {K} _.
Arguments sequence_ {K} _.

(** [src/net/Timer.h:19-24 Timer::Timer] *)
Definition newTimer {K} (cb : K) (when interval seq : Z) : Timer K :=
  mkTimer cb when interval (0 <? interval) seq.

(** [src/net/Timer.cpp:14-17 Timer::restart] *)
Definition restart {K} (when : Z) (t : Timer K) : Timer K :=
  mkTimer (callback_ t) (if repeat_ t then when + interval_ t else SystemClock.zero)
    (interval_ t) (repeat_ t) (sequence_ t).

End Timer.
Export Timer (Timer).

Module TimerQueue.

Abbreviation loc := positive.

(** A [TimerId] is an address and a sequence number; equality compares both. *)
Abbreviation TimerId := (loc * Z)%type.
(** [src/include/libfm/fmnet/TimerId.h:21-21 TimerId::TimerId] *)
Definition makeTimerId (timer : loc) (seq : Z) : TimerId := (timer, seq).
(** [src/include/libfm/fmnet/TimerId.h:28-30 operator<(TimerId)]; addresses compare as numbers. *)
Definition id_lt (lhs rhs : TimerId) : bool := (Zpos lhs.1 <? Zpos rhs.1) && (lhs.2 <? rhs.2).
(** [src/include/libfm/fmnet/TimerId.h:32-34 operator==(TimerId)] *)
Definition id_eq (lhs rhs : TimerId) : bool := (Zpos lhs.1 =? Zpos rhs.1) && (lhs.2 =? rhs.2).

(** [TimerEntry], and the order of [std::pair] on it. *)
Abbreviation TimerEntry := (Z * loc)%type.
Definition entry_lt (a b : TimerEntry) : bool :=
  (fst a <? fst b) || (negb (fst b <? fst a) && (Pos.ltb (snd a) (snd b))).

(** The largest pointer value, UINTPTR_MAX. *)
Definition uintptr_max : loc := 18446744073709551615.

(** [std::set::insert]: the sequence stays sorted; an equivalent entry is not replaced. *)
Fixpoint tree_insert (e : TimerEntry) (t : list TimerEntry) : bool * list TimerEntry :=
  match t with
  | [] => (true, [e])
  | x :: t' =>
      if entry_lt e x then (true, e :: t)
      else if entry_lt x e then let '(b, r) := tree_insert e t' in (b, x :: r)
      else (false, t)
  end.

(** [std::set::erase] of a key: how many entries went. *)
Fixpoint tree_erase (e : TimerEntry) (t : list TimerEntry) : Z * list TimerEntry :=
  match t with
  | [] => (0, [])
  | x :: t' =>
      if entry_lt x e then let '(n, r) := tree_erase e t' in (n, x :: r)
      else if entry_lt e x then (0, t)
      else (1, t')
  end.

(** [std::set::lower_bound]: the sequence in front of the iterator and from it on. *)
Fixpoint lower_bound (e : TimerEntry) (t : list TimerEntry) : list TimerEntry * list TimerEntry :=
  match t with
  | [] => ([], [])
  | x :: t' => if entry_lt x e then let '(a, b) := lower_bound e t' in (x :: a, b) else ([], t)
  end.

(** ** The sorted sequence *)

Lemma entry_lt_spec a b :
  entry_lt a b = true ↔ fst a < fst b ∨ (fst a = fst b ∧ (snd a < snd b)%positive).
Proof.
  unfold entry_lt. destruct (Z.ltb_spec (fst a) (fst b)), (Z.ltb_spec (fst b) (fst a)); simpl;
    rewrite ?Pos.ltb_lt; try (split; [lia|lia]); split; intros; try lia; try done.
Qed.

Abbreviation elt := (fun a b : TimerEntry => entry_lt a b = true).

#[export] Instance entry_lt_trans : Transitive elt.
Proof. intros a b c. rewrite !entry_lt_spec. lia. Qed.

Lemma entry_eq (a b : TimerEntry) : entry_lt a b = false → entry_lt b a = false → a = b.
Proof.
  intros Hab Hba. destruct a as [x l], b as [y m].
  assert (H1 : ¬ (x < y ∨ (x = y ∧ (l < m)%positive))).
  { intros H. apply not_true_iff_false in Hab. by rewrite (entry_lt_spec (x, l) (y, m)) in Hab. }
  assert (H2 : ¬ (y < x ∨ (y = x ∧ (m < l)%positive))).
  { intros H. apply not_true_iff_false in Hba. by rewrite (entry_lt_spec (y, m) (x, l)) in Hba. }
  f_equal; lia.
Qed.

Lemma entry_irrefl a : entry_lt a a = false.
Proof. apply not_true_iff_false. rewrite entry_lt_spec. lia. Qed.

Abbreviation sorted := (StronglySorted elt).

Lemma tree_insert_spec e t :
  sorted t → e ∉ t →
  ∃ t', tree_insert e t = (true, t') ∧ sorted t' ∧ (∀ x, x ∈ t' ↔ x = e ∨ x ∈ t) ∧
        length t' = S (length t).
Proof.
  induction 1 as [|x t Ht IH Hx]; intros Hn; simpl.
  - exists [e]. split; [done|]. split; [repeat constructor|]. set_solver.
  - rewrite not_elem_of_cons in Hn. destruct Hn as [Hne Hn].
    destruct (entry_lt e x) eqn:Hlt.
    + exists (e :: x :: t). split; [done|]. split; [|set_solver].
      constructor; [by constructor|]. constructor; [done|].
      eapply Forall_impl; [done|]. intros y Hy. exact (entry_lt_trans e x y Hlt Hy).
    + destruct (entry_lt x e) eqn:Hgt; [|exfalso; apply Hne; by apply entry_eq].
      destruct (IH Hn) as (t' & -> & Hs & Hin & Hlen). exists (x :: t'). split; [done|].
      split; [|split; [set_solver|simpl; lia]]. constructor; [done|].
      apply Forall_forall. intros y Hy. apply Hin in Hy as [->|Hy]; [done|].
      rewrite Forall_forall in Hx. auto.
Qed.

Lemma tree_erase_spec e t :
  sorted t → e ∈ t →
  ∃ t', tree_erase e t = (1, t') ∧ sorted t' ∧ (∀ x, x ∈ t' ↔ x ∈ t ∧ x ≠ e) ∧
        S (length t') = length t.
Proof.
  induction 1 as [|x t Ht IH Hx]; intros Hin; simpl; [by apply elem_of_nil in Hin|].
  rewrite Forall_forall in Hx.
  destruct (decide (x = e)) as [->|Hne].
  - rewrite entry_irrefl. exists t. split; [done|]. split; [done|]. split; [|done].
    intros y. rewrite elem_of_cons. split; [|naive_solver].
    intros Hy. split; [by right|]. intros ->. apply Hx in Hy. by rewrite entry_irrefl in Hy.
  - apply elem_of_cons in Hin as [->|Hin]; [done|]. pose proof (Hx _ Hin) as Hlt. rewrite Hlt.
    destruct (IH Hin) as (t' & -> & Hs & Hin' & Hlen). exists (x :: t'). split; [done|].
    split; [|split; [set_solver|simpl; lia]]. constructor; [done|].
    apply Forall_forall. intros y [Hy _]%Hin'. auto.
Qed.

(** The entries in front of the guard are the ones that are due. *)
Lemma lower_bound_guard now u t :
  sorted t → Forall (fun e : TimerEntry => (snd e < u)%positive) t →
  lower_bound (now, u) t =
    (filter (fun e : TimerEntry => fst e ≤ now) t, filter (fun e : TimerEntry => ¬ fst e ≤ now) t) ∧
  Forall (fun e : TimerEntry => now < fst e) (filter (fun e : TimerEntry => ¬ fst e ≤ now) t) ∧
  t = filter (fun e : TimerEntry => fst e ≤ now) t ++ filter (fun e : TimerEntry => ¬ fst e ≤ now) t.
Proof.
  induction 1 as [|x t Ht IH Hx]; intros Haddr; [done|].
  inversion_clear Haddr as [|?? Hxa Hta].
  cbn [lower_bound]. rewrite !filter_cons.
  destruct (decide (fst x ≤ now)) as [Hle|Hgt].
  - rewrite (proj2 (entry_lt_spec x (now, u))) by (simpl; lia).
    destruct (IH Hta) as (-> & Hf & Heq). rewrite decide_False by lia. split; [done|]. split; [done|].
    simpl. by rewrite <- Heq.
  - assert (Hall : ∀ e, e ∈ t → now < fst e).
    { rewrite Forall_forall in Hx. intros e He. apply Hx in He. rewrite entry_lt_spec in He. lia. }
    assert (Hnil : filter (fun e : TimerEntry => fst e ≤ now) t = []).
    { destruct (filter _ t) as [|e r] eqn:Hf; [done|].
      assert (He : e ∈ filter (fun e : TimerEntry => fst e ≤ now) t) by (rewrite Hf; by left).
      apply list_elem_of_filter in He as [? He]. apply Hall in He. lia. }
    assert (Hid : filter (fun e : TimerEntry => ¬ fst e ≤ now) t = t).
    { clear - Hall. induction t as [|e t IH]; [done|]. rewrite filter_cons, decide_True.
      - f_equal. apply IH. intros; apply Hall; by right.
      - specialize (Hall e ltac:(by left)). lia. }
    assert (Hlt : entry_lt x (now, u) = false).
    { apply not_true_iff_false. rewrite entry_lt_spec. simpl. lia. }
    rewrite Hlt, Hnil, Hid, decide_True by lia. split; [done|]. split; [|done].
    constructor; [lia|]. apply Forall_forall. auto.
Qed.

Section Queue.
Context {K : Type}.

(** What other threads queue in the loop. *)
Inductive functor :=
  | FAddTimerInLoop (timer : loc)
  | FDelTimerInLoop (id : TimerId).

(** The kernel's side of a timerfd that is only ever set for one expiry: not set; set, for this
    expiration time with this relative time passed to [timerfd_settime]; gone off and not read
    since (it is readable then, and set no more).  Setting it forgets an expiry that has not
    been read. *)
Inductive timerfd :=
  | Disarmed
  | Armed (expiration : Z) (it_value : SystemClock.timepair)
  | Expired.

(** [src/net/TimerQueue.h:54-61 TimerQueue data members] with the heap of timers, the
    counter [numsTimerCreated_], the queued functors, and what is behind [timer_fd_]. *)
Record TimerQueue := mkQueue {
  timers : gmap loc (Timer K);
  numsTimerCreated_ : Z;
  pending_ : list functor;
  timerfd_ : timerfd;
  timer_tree_ : list TimerEntry;
  active_timers_ : gset TimerId;
  deleted_timers_ : gset TimerId;
  calling_expired_timers_ : bool
}.
Implicit Types q : TimerQueue.

Definition set_timers h q := mkQueue h (numsTimerCreated_ q) (pending_ q) (timerfd_ q) (timer_tree_ q)
  (active_timers_ q) (deleted_timers_ q) (calling_expired_timers_ q).
Definition set_tree t a q := mkQueue (timers q) (numsTimerCreated_ q) (pending_ q) (timerfd_ q) t a
  (deleted_timers_ q) (calling_expired_timers_ q).
Definition set_deleted d q := mkQueue (timers q) (numsTimerCreated_ q) (pending_ q) (timerfd_ q)
  (timer_tree_ q) (active_timers_ q) d (calling_expired_timers_ q).
Definition set_calling b q := mkQueue (timers q) (numsTimerCreated_ q) (pending_ q) (timerfd_ q)
  (timer_tree_ q) (active_timers_ q) (deleted_timers_ q) b.
Definition set_pending p q := mkQueue (timers q) (numsTimerCreated_ q) p (timerfd_ q)
  (timer_tree_ q) (active_timers_ q) (deleted_timers_ q) (calling_expired_timers_ q).

(** [src/net/TimerQueue.cpp:66-74 TimerQueue::TimerQueue] The channel of the timerfd is one of the
    loop's, read-enabled with [handleRead] as its callback. *)
Definition newQueue : TimerQueue := mkQueue ∅ 0 [] Disarmed [] ∅ ∅ false.

Definition deref (l : loc) q : result (Timer K) :=
  match timers q !! l with Some t => Ok t | None => Fault UseAfterFree end.
(** [delete timer]. *)
Definition free (l : loc) q : result TimerQueue :=
  _ ← deref l q; Ok (set_timers (delete l (timers q)) q).

(** [timer_tree_.size() == active_timers_.size()]. *)
Definition sizes_agree q : bool := zlen (timer_tree_ q) =? Z.of_nat (size (active_timers_ q)).

Definition set_timerfd f q := mkQueue (timers q) (numsTimerCreated_ q) (pending_ q) f (timer_tree_ q)
  (active_timers_ q) (deleted_timers_ q) (calling_expired_timers_ q).

(** [src/net/TimerQueue.cpp:54-62 updateTimerfd] *)
Definition updateTimerfd (now expiration : Z) q : TimerQueue :=
  set_timerfd (Armed expiration (SystemClock.timespecFromNow now expiration)) q.

(** [src/net/TimerQueue.cpp:44-52 readTimerfd] Takes the expiry there is; without one the
    read fails, which is only logged. *)
Definition readTimerfd q : TimerQueue :=
  match timerfd_ q with Expired => set_timerfd Disarmed q | _ => q end.

(** The time passes: a timerfd that is set goes off. *)
Definition expire q : TimerQueue :=
  match timerfd_ q with Armed _ _ => set_timerfd Expired q | _ => q end.

(** [src/net/TimerQueue.cpp:165-185 TimerQueue::insertTimer] *)
Definition insertTimer (timer : loc) q : result (bool * TimerQueue) :=
  assert! (sizes_agree q);
  t ← deref timer q;
  let when := Timer.expiration_ t in
  let isEarliestTimer :=
    match timer_tree_ q with [] => true | first :: _ => TimeStamp.lt when (fst first) end in
  let '(fresh1, tree) := tree_insert (when, timer) (timer_tree_ q) in
  assert! fresh1;
  let id := (timer, Timer.sequence_ t) in
  assert! (bool_decide (id ∉ active_timers_ q));
  Ok (isEarliestTimer, set_tree tree ({[ id ]} ∪ active_timers_ q) q).

(** [src/net/TimerQueue.cpp:90-98 TimerQueue::addTimerInLoop] *)
Definition addTimerInLoop (now : Z) (timer : loc) q : result TimerQueue :=
  '(isEarliestTimer, q) ← insertTimer timer q;
  if (isEarliestTimer : bool) then
    t ← deref timer q;
    Ok (updateTimerfd now (Timer.expiration_ t) q)
  else Ok q.

(** [src/net/TimerQueue.cpp:104-125 TimerQueue::delTimerInLoop] *)
Definition delTimerInLoop (timerId : TimerId) q : result TimerQueue :=
  assert! (sizes_agree q);
  q ← (if decide (timerId ∈ active_timers_ q) then
         let timer := fst timerId in
         t ← deref timer q;
         let '(n, tree) := tree_erase (Timer.expiration_ t, timer) (timer_tree_ q) in
         assert! (n =? 1);
         free timer (set_tree tree (active_timers_ q ∖ {[ timerId ]}) q)
       else if calling_expired_timers_ q then Ok (set_deleted ({[ timerId ]} ∪ deleted_timers_ q) q)
       else Ok q);
  assert! (sizes_agree q);
  Ok q.

(** The loop of [getExpired] over the expired entries. *)
Definition deactivate (entry : TimerEntry) q : result TimerQueue :=
  t ← deref (snd entry) q;
  let timerId := (snd entry, Timer.sequence_ t) in
  assert! (bool_decide (timerId ∈ active_timers_ q));
  Ok (set_tree (timer_tree_ q) (active_timers_ q ∖ {[ timerId ]}) q).

(** [src/net/TimerQueue.cpp:187-208 TimerQueue::getExpired] *)
Definition getExpired (now : Z) q : result (list TimerEntry * TimerQueue) :=
  assert! (sizes_agree q);
  let '(expired, rest) := lower_bound (now, uintptr_max) (timer_tree_ q) in
  assert! (match rest with [] => true | e :: _ => now <? fst e end);
  q ← foldM deactivate expired (set_tree rest (active_timers_ q) q);
  assert! (sizes_agree q);
  Ok (expired, q).

(** The loop of [resetTimer] over the expired entries. *)
Definition rearm (now : Z) (entry : TimerEntry) q : result TimerQueue :=
  t ← deref (snd entry) q;
  let timerId := (snd entry, Timer.sequence_ t) in
  if Timer.repeat_ t && bool_decide (timerId ∉ deleted_timers_ q) then
    r ← insertTimer (snd entry) (set_timers (<[snd entry := Timer.restart now t]> (timers q)) q);
    Ok (snd r)
  else free (snd entry) q.

(** [src/net/TimerQueue.cpp:145-163 TimerQueue::resetTimer] [clock] is the reading made when the
    timerfd is set. *)
Definition resetTimer (expired : list TimerEntry) (now clock : Z) q : result TimerQueue :=
  q ← foldM (rearm now) expired q;
  match timer_tree_ q with
  | [] => Ok q
  | first :: _ =>
      t ← deref (snd first) q;
      Ok (updateTimerfd clock (Timer.expiration_ t) q)
  end.

(** ** The interface *)

Section Allocator.
Variable alloc : gmap loc (Timer K) → option loc.

(** The timer is made and handed to the loop's thread ... *)
Definition hand_over (inLoop : bool) (now : Z) (cb : K) (time interval : Z) q : result (loc * TimerQueue) :=
  timer ← (match alloc (timers q) with Some l => Ok l | None => Fault LengthError end);
  let seq := numsTimerCreated_ q in
  let q := mkQueue (<[timer := Timer.newTimer cb time interval seq]> (timers q)) (seq + 1) (pending_ q)
             (timerfd_ q) (timer_tree_ q) (active_timers_ q) (deleted_timers_ q) (calling_expired_timers_ q) in
  q ← (if inLoop then addTimerInLoop now timer q
       else Ok (set_pending (pending_ q ++ [FAddTimerInLoop timer]) q));
  Ok (timer, q).

(** ... and then read again for its identifier. *)
Definition make_id (timer : loc) q : result TimerId :=
  t ← deref timer q; Ok (makeTimerId timer (Timer.sequence_ t)).

(** [src/net/TimerQueue.cpp:84-88 TimerQueue::addTimer] when nothing comes between its two
    statements, as is the case in the loop's thread.  Another thread may be overtaken by the loop there: its
    call is the two steps one by one (TimerQueueSpec.v, [EvHandOver] and [EvMakeId]). *)
Definition addTimer (inLoop : bool) (now : Z) (cb : K) (time interval : Z) q : result (TimerId * TimerQueue) :=
  r ← hand_over inLoop now cb time interval q;
  id ← make_id (fst r) (snd r);
  Ok (id, snd r).

(** [src/net/TimerQueue.cpp:100-102 TimerQueue::delTimer] *)
Definition delTimer (inLoop : bool) (timerId : TimerId) q : result TimerQueue :=
  if inLoop then delTimerInLoop timerId q
  else Ok (set_pending (pending_ q ++ [FDelTimerInLoop timerId]) q).

(** [src/net/EventLoop.cpp:211-216 EventLoop::runAt] *)
Definition runAt (inLoop : bool) (now : Z) (time : Z) (cb : K) q : result (TimerId * TimerQueue) :=
  addTimer inLoop now cb time 0 q.
(** [src/net/EventLoop.cpp:218-223 EventLoop::runAfter] *)
Definition runAfter (inLoop : bool) (now : Z) (interval : Z) (cb : K) q : result (TimerId * TimerQueue) :=
  addTimer inLoop now cb (TimeStamp.plus now interval) 0 q.
(** [src/net/EventLoop.cpp:225-230 EventLoop::runEvery] *)
Definition runEvery (inLoop : bool) (now : Z) (interval : Z) (cb : K) q : result (TimerId * TimerQueue) :=
  addTimer inLoop now cb (TimeStamp.plus now interval) interval q.
(** [src/net/EventLoop.cpp:232-234 EventLoop::cancel] *)
Definition cancel (inLoop : bool) (timerId : TimerId) q : result TimerQueue := delTimer inLoop timerId q.

(** What a callback does with the queue, in the loop's thread. *)
Inductive call :=
  | CallAdd (now : Z) (cb : K) (time interval : Z)
  | CallDel (id : TimerId).

Definition exec_call (a : call) q : result TimerQueue :=
  match a with
  | CallAdd now cb time interval => r ← addTimer true now cb time interval q; Ok (snd r)
  | CallDel id => delTimer true id q
  end.

Variable behaviour : K → TimerQueue → list call.

(** [Timer::run]. *)
Definition run (timer : loc) q : result TimerQueue :=
  t ← deref timer q;
  foldM exec_call (behaviour (Timer.callback_ t) q) q.

(** [src/net/TimerQueue.cpp:131-142 TimerQueue::handleRead (behind the read)] *)
Definition run_expired (now clock : Z) q : result TimerQueue :=
  '(expiredTimers, q) ← getExpired now q;
  let q := set_deleted ∅ (set_calling true q) in
  q ← foldM (fun entry q => run (snd entry) q) expiredTimers q;
  let q := set_calling false q in
  resetTimer expiredTimers now clock q.

(** [src/net/TimerQueue.cpp:127-143 TimerQueue::handleRead] *)
Definition handleRead (now clock : Z) q : result TimerQueue := run_expired now clock (readTimerfd q).

(** A functor taken from the loop's queue, run by the loop. *)
Definition run_functor (now : Z) (f : functor) q : result TimerQueue :=
  match f with
  | FAddTimerInLoop timer => addTimerInLoop now timer q
  | FDelTimerInLoop id => delTimerInLoop id q
  end.

(** [src/net/TimerQueue.cpp:76-82 TimerQueue::~TimerQueue] The timers of the tree. *)
Definition destroyQueue q : result TimerQueue :=
  foldM (fun entry q => free (snd entry) q) (timer_tree_ q) q.
End Allocator.
End Queue.
Arguments TimerQueue K : clear implicits.
Arguments call : clear implicits.
End TimerQueue.
