(* ===== verification/TimerQueueSpec.v ===== *)
(** * What the timer queue promises

    Ownership (every live timer is in the tree or waits in the loop's queue, nothing
    is freed twice or used after it was freed), the agreement of tree, identifiers and
    timers, that the timerfd is armed for the earliest timer, and what a turn of
    [handleRead] does with the timers that are due - whatever the callbacks do. *)
From stdpp Require Import base list gmap numbers sorting.
From Stdlib Require Import ZArith Lia Init.Byte.
From S2P Require Import Prelude.
From S2P Require Import Time.
From S2P Require Import TimerQueue.
Import TimerQueue.TimerQueue.
#[local] Open Scope Z_scope.
#[local] Open Scope fm_scope.
#[local] Opaque uintptr_max.

(** Identifiers are equal when both parts are.  Their order is a strict one, but no weak order: that two of them are not ordered is not transitive,
    as an ordered container needs it - the timer queue keeps identifiers in a hash set. *)
Theorem timer_id_order (a b c : TimerId) :
  (id_eq a b = true ↔ a = b) ∧ id_lt a a = false ∧ (id_lt a b = true → id_lt b c = true → id_lt a c = true) ∧
  ∃ x y z, id_lt x y = false ∧ id_lt y x = false ∧ id_lt y z = false ∧ id_lt z y = false ∧ id_lt x z = true.
Proof.
  destruct a as [l1 s1], b as [l2 s2], c as [l3 s3]. unfold id_eq, id_lt. cbn [fst snd]. split_and!.
  - rewrite andb_true_iff, !Z.eqb_eq. split; [by intros [[= ->] ->] | by intros [= -> ->]].
  - by rewrite Z.ltb_irrefl.
  - rewrite !andb_true_iff, !Z.ltb_lt. lia.
  - by exists (1%positive, 1), (1%positive, 2), (2%positive, 2).
Qed.

Section Queue.
Context {K : Type}.
Implicit Types (q : TimerQueue K) (extra : gset loc).

(** [extra]: the live timers that are neither in the tree nor known to [active_timers_]. *)
Record wf extra q : Prop := {
  wf_sorted : sorted (timer_tree_ q);
  wf_entries : ∀ t l, (t, l) ∈ timer_tree_ q → ∃ tm, timers q !! l = Some tm ∧ Timer.expiration_ tm = t;
  wf_active : ∀ l s, (l, s) ∈ active_timers_ q ↔
    ∃ t tm, (t, l) ∈ timer_tree_ q ∧ timers q !! l = Some tm ∧ Timer.sequence_ tm = s;
  wf_size : size (active_timers_ q) = length (timer_tree_ q);
  wf_owned : ∀ l, is_Some (timers q !! l) ↔ (∃ t, (t, l) ∈ timer_tree_ q) ∨ l ∈ extra;
  wf_disjoint : ∀ t l, (t, l) ∈ timer_tree_ q → l ∉ extra;
  wf_addr : ∀ l, is_Some (timers q !! l) → (l < uintptr_max)%positive
}.

(** The timerfd has gone off and the loop is about to hear of it, or it is set and goes off no later
    than the earliest timer's time. *)
Definition on_time (f : timerfd) (t : Z) : Prop :=
  f = Expired ∨ ∃ x clock, f = Armed x (SystemClock.timespecFromNow clock x) ∧ x ≤ t.

Definition armed q : Prop :=
  match timer_tree_ q with
  | [] => True
  | first :: _ => on_time (timerfd_ q) (fst first)
  end.

Lemma on_time_mono f t t' : on_time f t → t ≤ t' → on_time f t'.
Proof. intros [?|(x & c & ? & ?)] ?; [by left|]. right. exists x, c. split; [done|lia]. Qed.

Lemma sizes_agree_wf extra q : wf extra q → sizes_agree q = true.
Proof. intros Hq. unfold sizes_agree, zlen. rewrite (wf_size _ _ Hq). apply Z.eqb_refl. Qed.

Lemma deref_ok l q t : timers q !! l = Some t → deref l q = Ok t.
Proof. unfold deref. by intros ->. Qed.

(** ** Insertion *)

Lemma insertTimer_ok extra q l tm :
  wf ({[ l ]} ∪ extra) q → l ∉ extra → timers q !! l = Some tm →
  ∃ tree, insertTimer l q =
      Ok (match timer_tree_ q with [] => true | e :: _ => Timer.expiration_ tm <? fst e end,
          set_tree tree ({[ (l, Timer.sequence_ tm) ]} ∪ active_timers_ q) q) ∧
    wf extra (set_tree tree ({[ (l, Timer.sequence_ tm) ]} ∪ active_timers_ q) q) ∧
    (∀ x, x ∈ tree ↔ x = (Timer.expiration_ tm, l) ∨ x ∈ timer_tree_ q).
Proof.
  intros Hq Hl Htm. unfold insertTimer. rewrite (sizes_agree_wf _ _ Hq). cbn [ensure]. rewrite bind_Ok.
  rewrite (deref_ok l q tm) by done. rewrite bind_Ok. cbv zeta.
  assert (Hnt : ∀ t, (t, l) ∉ timer_tree_ q) by (intros t Hin; apply (wf_disjoint _ _ Hq) in Hin; set_solver).
  assert (Hna : (l, Timer.sequence_ tm) ∉ active_timers_ q).
  { intros (t & ? & Hin & _)%(wf_active _ _ Hq). by eapply Hnt. }
  destruct (tree_insert_spec (Timer.expiration_ tm, l) (timer_tree_ q)) as (tree & -> & Hs & Hin & Hlen);
    [apply Hq | apply Hnt |].
  cbn [ensure]. rewrite bind_Ok. rewrite bool_decide_eq_true_2 by done. cbn [ensure]. rewrite bind_Ok.
  exists tree. split; [done|]. split; [|done].
  constructor; cbn [timer_tree_ active_timers_ timers set_tree].
  - done.
  - intros t l' [[= -> ->]|Hin']%Hin; [by exists tm | by apply Hq].
  - intros l' s. rewrite elem_of_union, elem_of_singleton, (wf_active _ _ Hq). split.
    + intros [[= -> ->]|(t & tm' & ? & ? & ?)].
      * exists (Timer.expiration_ tm), tm. split; [apply Hin; by left | done].
      * exists t, tm'. split; [apply Hin; by right | done].
    + intros (t & tm' & [[= -> ->]|Hin']%Hin & Htm' & <-); [left; congruence | right; by exists t, tm'].
  - rewrite size_union, size_singleton, (wf_size _ _ Hq), Hlen by set_solver. done.
  - intros l'. rewrite (wf_owned _ _ Hq). split.
    + intros [[t Ht]|Hex]; [left; exists t; apply Hin; by right|].
      apply elem_of_union in Hex as [->%elem_of_singleton|?]; [|by right].
      left. exists (Timer.expiration_ tm). apply Hin. by left.
    + intros [[t [[= -> ->]|Ht]%Hin]|?]; [right; set_solver | left; by exists t | right; set_solver].
  - intros t l' [[= -> ->]|Hin']%Hin; [done|]. apply (wf_disjoint _ _ Hq) in Hin'. set_solver.
  - apply Hq.
Qed.

(** ** Removal *)

(** Taking an entry out of the tree and its identifier out of the set. *)
Lemma take_out_wf extra q t l tm tree :
  wf extra q → (t, l) ∈ timer_tree_ q → timers q !! l = Some tm → sorted tree →
  (∀ x, x ∈ tree ↔ x ∈ timer_tree_ q ∧ x ≠ (t, l)) → S (length tree) = length (timer_tree_ q) →
  wf ({[ l ]} ∪ extra) (set_tree tree (active_timers_ q ∖ {[ (l, Timer.sequence_ tm) ]}) q).
Proof.
  intros Hq Ht Htm Hs Hin Hlen.
  assert (Ht' : t = Timer.expiration_ tm) by (destruct (wf_entries _ _ Hq _ _ Ht) as (tm' & ? & <-); congruence).
  assert (Honly : ∀ t', (t', l) ∈ timer_tree_ q → t' = t).
  { intros t' Hin'. destruct (wf_entries _ _ Hq _ _ Hin') as (tm' & ? & <-). congruence. }
  constructor; cbn [timer_tree_ active_timers_ timers set_tree].
  - done.
  - intros t' l' [Hin' _]%Hin. by apply Hq.
  - intros l' s. rewrite elem_of_difference, elem_of_singleton, (wf_active _ _ Hq). split.
    + intros ((t' & tm' & Hin' & Htm' & <-) & Hne). exists t', tm'. split; [|done].
      apply Hin. split; [done|]. intros [= -> ->]. apply Hne. congruence.
    + intros (t' & tm' & [Hin' Hne]%Hin & Htm' & <-). split; [by exists t', tm'|].
      intros [= -> _]. apply Hne. by rewrite (Honly t').
  - rewrite size_difference.
    + rewrite size_singleton, (wf_size _ _ Hq). lia.
    + apply singleton_subseteq_l, (wf_active _ _ Hq). by exists t, tm.
  - intros l'. rewrite (wf_owned _ _ Hq). split.
    + intros [[t' Hin']|?]; [|right; set_solver]. destruct (decide (l' = l)) as [->|Hne]; [right; set_solver|].
      left. exists t'. apply Hin. naive_solver.
    + intros [[t' [Hin' _]%Hin]|Hex]; [left; by exists t'|].
      apply elem_of_union in Hex as [->%elem_of_singleton|?]; [left; by exists t | by right].
  - intros t' l' [Hin' Hne]%Hin. apply not_elem_of_union. split; [|by apply (wf_disjoint _ _ Hq) in Hin'].
    intros ->%elem_of_singleton. apply Hne. by rewrite (Honly t').
  - apply Hq.
Qed.

(** Freeing a timer that nothing refers to. *)
Lemma free_wf extra q l :
  wf ({[ l ]} ∪ extra) q → l ∉ extra →
  free l q = Ok (set_timers (delete l (timers q)) q) ∧ wf extra (set_timers (delete l (timers q)) q).
Proof.
  intros Hq Hl. assert (Hsome : is_Some (timers q !! l)) by (apply (wf_owned _ _ Hq); right; set_solver).
  assert (Hnt : ∀ t l', (t, l') ∈ timer_tree_ q → l' ≠ l)
    by (intros t l' Hin ->; apply (wf_disjoint _ _ Hq) in Hin; set_solver).
  destruct Hsome as [tm Htm]. unfold free. rewrite (deref_ok l q tm) by done. split; [done|].
  constructor; cbn [timer_tree_ active_timers_ timers set_timers].
  - apply Hq.
  - intros t l' Hin. rewrite lookup_delete_ne by (symmetry; by eapply Hnt). by apply Hq.
  - intros l' s. rewrite (wf_active _ _ Hq). split; intros (t & tm' & Hin & Hl' & ?); exists t, tm'.
    + rewrite lookup_delete_ne; [done | symmetry; by eapply Hnt].
    + rewrite lookup_delete_ne in Hl'; [done | symmetry; by eapply Hnt].
  - apply Hq.
  - intros l'. destruct (decide (l' = l)) as [->|Hne].
    + rewrite lookup_delete_eq. split; [by intros [??]|]. intros [[t Hin]|?]; [by destruct (Hnt _ _ Hin) | done].
    + rewrite lookup_delete_ne, (wf_owned _ _ Hq) by done. set_solver.
  - intros t l' Hin. apply (wf_disjoint _ _ Hq) in Hin. set_solver.
  - intros l' Hs. apply (wf_addr _ _ Hq). destruct (decide (l' = l)) as [->|Hne]; [by exists tm|].
    by rewrite lookup_delete_ne in Hs.
Qed.

Lemma wf_frame extra q q' :
  wf extra q → timers q' = timers q → timer_tree_ q' = timer_tree_ q → active_timers_ q' = active_timers_ q →
  wf extra q'.
Proof. intros [] Ht Htr Ha. constructor; rewrite ?Ht, ?Htr, ?Ha; done. Qed.

(** The timers of [extra] are not touched, and the fields a callback cannot change. *)
Record frame extra q q' : Prop := {
  fr_timers : ∀ l, l ∈ extra → timers q' !! l = timers q !! l;
  fr_calling : calling_expired_timers_ q' = calling_expired_timers_ q;
  fr_pending : pending_ q' = pending_ q
}.

Lemma frame_refl extra q : frame extra q q.
Proof. by constructor. Qed.
Lemma frame_trans extra q1 q2 q3 : frame extra q1 q2 → frame extra q2 q3 → frame extra q1 q3.
Proof. intros [H1 ? ?] [H2 ? ?]. constructor; [|congruence..]. intros l Hl. by rewrite H2, H1. Qed.

Lemma delTimerInLoop_ok extra q id :
  wf extra q →
  ∃ q', delTimerInLoop id q = Ok q' ∧ wf extra q' ∧ frame extra q q' ∧ id ∉ active_timers_ q' ∧
    (∀ x, x ∈ timer_tree_ q' → x ∈ timer_tree_ q) ∧ timerfd_ q' = timerfd_ q.
Proof.
  intros Hq. destruct id as [l s]. unfold delTimerInLoop. rewrite (sizes_agree_wf _ _ Hq). cbn [ensure].
  rewrite bind_Ok. case_decide as Hact.
  - apply (wf_active _ _ Hq) in Hact as (t & tm & Hin & Htm & <-). cbn [fst].
    rewrite (deref_ok l q tm) by done. rewrite bind_Ok.
    destruct (wf_entries _ _ Hq _ _ Hin) as (tm' & Htm' & <-). rewrite Htm in Htm'. injection Htm' as <-.
    destruct (tree_erase_spec (Timer.expiration_ tm, l) (timer_tree_ q)) as (tree & -> & Hs & Hel & Hlen);
      [apply Hq | done |].
    cbn [ensure Z.eqb Pos.eqb fst]. rewrite bind_Ok.
    pose proof (take_out_wf _ _ _ _ _ _ Hq Hin Htm Hs Hel Hlen) as Hq1.
    assert (Hl : l ∉ extra) by (by eapply (wf_disjoint _ _ Hq)).
    destruct (free_wf _ _ _ Hq1 Hl) as [-> Hq2]. rewrite bind_Ok.
    rewrite (sizes_agree_wf _ _ Hq2). cbn [ensure]. rewrite bind_Ok. eexists. split; [done|]. split; [done|].
    split; [constructor; [|done..]|].
    + intros l' Hl'. cbn [timers set_timers set_tree]. rewrite lookup_delete_ne; [done|]. by intros <-.
    + cbn [active_timers_ set_timers set_tree timer_tree_ timerfd_]. split; [set_solver|].
      split; [|done]. intros x Hx. by apply Hel.
  - destruct (calling_expired_timers_ q) eqn:Hc; rewrite bind_Ok.
    + assert (Hq' : wf extra (set_deleted ({[(l, s)]} ∪ deleted_timers_ q) q)) by (by eapply wf_frame).
      rewrite (sizes_agree_wf _ _ Hq'). eexists. split; [done|]. split; [done|]. split; [by constructor|]. done.
    + rewrite (sizes_agree_wf _ _ Hq). eexists. split; [done|]. split; [done|]. split; [by constructor|]. done.
Qed.

(** ** The turn of [handleRead] *)

Definition due (now : Z) (t : list TimerEntry) : list TimerEntry := filter (fun e : TimerEntry => fst e ≤ now) t.
Definition not_due (now : Z) (t : list TimerEntry) : list TimerEntry := filter (fun e : TimerEntry => ¬ fst e ≤ now) t.

Definition locs (es : list TimerEntry) : gset loc := list_to_set (map snd es).

Lemma wf_tree_addr extra q : wf extra q → Forall (fun e : TimerEntry => (snd e < uintptr_max)%positive) (timer_tree_ q).
Proof.
  intros Hq. apply Forall_forall. intros [t l] Hin. apply (wf_addr _ _ Hq), (wf_owned _ _ Hq). left. by exists t.
Qed.

Lemma deactivate_ok t l tm q :
  timers q !! l = Some tm → (l, Timer.sequence_ tm) ∈ active_timers_ q →
  deactivate (t, l) q = Ok (set_tree (timer_tree_ q) (active_timers_ q ∖ {[ (l, Timer.sequence_ tm) ]}) q).
Proof.
  intros Htm Hin. unfold deactivate. cbn [snd]. rewrite (deref_ok l q tm) by done. rewrite bind_Ok. cbv zeta.
  by rewrite bool_decide_eq_true_2.
Qed.

Lemma deactivate_all rest es extra q :
  wf extra q → timer_tree_ q = es ++ rest →
  ∃ a, foldM deactivate es (set_tree rest (active_timers_ q) q) = Ok (set_tree rest a q) ∧
       wf (locs es ∪ extra) (set_tree rest a q).
Proof.
  revert extra q. induction es as [|[t l] es IH]; intros extra q Hq Htree.
  - exists (active_timers_ q). split; [done|]. eapply (wf_frame _ q); try done.
    unfold locs. simpl. by rewrite union_empty_l_L.
  - cbn [app] in Htree.
    destruct (wf_entries _ _ Hq t l) as (tm & Htm & Hexp); [rewrite Htree; by left|].
    pose proof (wf_sorted _ _ Hq) as Hs. rewrite Htree in Hs. inversion_clear Hs as [|?? Hs' Hall].
    assert (Hnin : (t, l) ∉ es ++ rest).
    { intros Hin. rewrite Forall_forall in Hall. apply Hall in Hin. by rewrite entry_irrefl in Hin. }
    pose proof (take_out_wf _ _ t l tm (es ++ rest) Hq) as Hq1.
    destruct (IH ({[ l ]} ∪ extra) (set_tree (es ++ rest) (active_timers_ q ∖ {[ (l, Timer.sequence_ tm) ]}) q))
      as (a & Hf & Hwf).
    + apply Hq1; [rewrite Htree; by left | done | done | | by rewrite Htree].
      intros x. rewrite Htree, elem_of_cons. naive_solver.
    + done.
    + exists a. cbn [foldM]. rewrite (deactivate_ok t l tm).
      * rewrite bind_Ok. split; [exact Hf|]. unfold locs in *. cbn [map snd]. rewrite list_to_set_cons.
        rewrite (union_comm_L {[l]}), <- union_assoc_L. exact Hwf.
      * done.
      * apply (wf_active _ _ Hq). exists t, tm. split; [rewrite Htree; by left | done].
Qed.

Lemma getExpired_ok extra q now :
  wf extra q →
  ∃ a, getExpired now q = Ok (due now (timer_tree_ q), set_tree (not_due now (timer_tree_ q)) a q) ∧
    wf (locs (due now (timer_tree_ q)) ∪ extra) (set_tree (not_due now (timer_tree_ q)) a q).
Proof.
  intros Hq. unfold getExpired. rewrite (sizes_agree_wf _ _ Hq). cbn [ensure]. rewrite bind_Ok.
  destruct (lower_bound_guard now uintptr_max (timer_tree_ q) (wf_sorted _ _ Hq) (wf_tree_addr _ _ Hq))
    as (-> & Hall & Hsplit). fold (due now (timer_tree_ q)) (not_due now (timer_tree_ q)) in *.
  rewrite ensure_true.
  - rewrite bind_Ok.
    destruct (deactivate_all (not_due now (timer_tree_ q)) (due now (timer_tree_ q)) extra q)
      as (a & -> & Hwf); [done..|].
    rewrite bind_Ok, (sizes_agree_wf _ _ Hwf). exists a. by split.
  - destruct (not_due now (timer_tree_ q)); [done|]. inversion_clear Hall. by apply Z.ltb_lt.
Qed.

Lemma tree_nodup extra q : wf extra q → NoDup (map snd (timer_tree_ q)).
Proof.
  intros Hq.
  assert (Hfun : ∀ t t' l, (t, l) ∈ timer_tree_ q → (t', l) ∈ timer_tree_ q → t = t').
  { intros t t' l (tm & ? & <-)%(wf_entries _ _ Hq) (tm' & ? & <-)%(wf_entries _ _ Hq). congruence. }
  pose proof (wf_sorted _ _ Hq) as Hs. clear Hq. induction Hs as [|[t l] tree Hs IH Hall]; [constructor|].
  cbn [map]. constructor; [|apply IH; intros; eapply Hfun; right; done].
  intros Hin. apply list_elem_of_fmap in Hin as ([t' l'] & Heq & Hin). simpl in Heq. subst l'.
  assert (t = t') by (eapply Hfun; [by left | by right]). subst t'.
  rewrite Forall_forall in Hall. apply Hall in Hin. by rewrite entry_irrefl in Hin.
Qed.

Lemma due_nodup extra q now : wf extra q → NoDup (map snd (due now (timer_tree_ q))).
Proof.
  intros Hq. pose proof (tree_nodup _ _ Hq) as Hnd.
  destruct (lower_bound_guard now uintptr_max (timer_tree_ q) (wf_sorted _ _ Hq) (wf_tree_addr _ _ Hq))
    as (_ & _ & Hsplit).
  rewrite Hsplit, map_app in Hnd. by apply NoDup_app in Hnd as [? _].
Qed.

(** Resetting a timer that is in nobody's hands but ours. *)
Lemma wf_update extra q l tm :
  wf extra q → l ∈ extra → wf extra (set_timers (<[l := tm]> (timers q)) q).
Proof.
  intros Hq Hl.
  assert (Hnt : ∀ t l', (t, l') ∈ timer_tree_ q → l' ≠ l) by (intros t l' Hin ->; by apply (wf_disjoint _ _ Hq) in Hin).
  constructor; cbn [timer_tree_ active_timers_ timers set_timers].
  - apply Hq.
  - intros t l' Hin. rewrite lookup_insert_ne by (symmetry; by eapply Hnt). by apply Hq.
  - intros l' s. rewrite (wf_active _ _ Hq). split; intros (t & tm' & Hin & Hl' & ?); exists t, tm'.
    + rewrite lookup_insert_ne; [done | symmetry; by eapply Hnt].
    + rewrite lookup_insert_ne in Hl'; [done | symmetry; by eapply Hnt].
  - apply Hq.
  - intros l'. destruct (decide (l' = l)) as [->|Hne].
    + rewrite lookup_insert_eq. split; [by right | by eexists].
    + by rewrite lookup_insert_ne, (wf_owned _ _ Hq).
  - apply Hq.
  - intros l' Hs. apply (wf_addr _ _ Hq). destruct (decide (l' = l)) as [->|Hne].
    + apply (wf_owned _ _ Hq). by right.
    + by rewrite lookup_insert_ne in Hs.
Qed.

(** Whether a timer that has just run goes back into the tree. *)
Definition goes_on (q : TimerQueue K) (l : loc) (tm : Timer K) : bool :=
  Timer.repeat_ tm && bool_decide ((l, Timer.sequence_ tm) ∉ deleted_timers_ q).

Lemma rearm_ok now e extra q tm :
  wf ({[ snd e ]} ∪ extra) q → snd e ∉ extra → timers q !! snd e = Some tm →
  ∃ q', rearm now e q = Ok q' ∧ wf extra q' ∧ deleted_timers_ q' = deleted_timers_ q ∧
    calling_expired_timers_ q' = calling_expired_timers_ q ∧ pending_ q' = pending_ q ∧
    (∀ l, l ≠ snd e → timers q' !! l = timers q !! l) ∧
    timers q' !! snd e = (if goes_on q (snd e) tm then Some (Timer.restart now tm) else None) ∧
    (∀ x, x ∈ timer_tree_ q' ↔
       x ∈ timer_tree_ q ∨ (goes_on q (snd e) tm = true ∧ x = (now + Timer.interval_ tm, snd e))).
Proof.
  intros Hq Hl Htm. unfold rearm. rewrite (deref_ok _ q tm) by done. rewrite bind_Ok. cbv zeta.
  fold (goes_on q (snd e) tm). destruct (goes_on q (snd e) tm) eqn:Hg.
  - assert (Hq1 : wf ({[ snd e ]} ∪ extra) (set_timers (<[snd e := Timer.restart now tm]> (timers q)) q))
      by (apply wf_update; [done | set_solver]).
    destruct (insertTimer_ok extra _ (snd e) (Timer.restart now tm) Hq1 Hl) as (tree & -> & Hwf & Hin).
    { cbn [timers set_timers]. by rewrite lookup_insert_eq. }
    rewrite bind_Ok. cbn [snd]. eexists. split; [done|]. split; [done|]. split; [done|].
    split; [done|]. split; [done|]. cbn [timers set_tree set_timers timer_tree_].
    split; [intros l Hne; by rewrite lookup_insert_ne|]. split; [by rewrite lookup_insert_eq|].
    intros x. rewrite Hin. cbn [timer_tree_ set_timers].
    unfold goes_on in Hg. apply andb_true_iff in Hg as [Hrep _].
    assert (Hexp : Timer.expiration_ (Timer.restart now tm) = now + Timer.interval_ tm)
      by (unfold Timer.restart; simpl; by rewrite Hrep).
    rewrite Hexp. naive_solver.
  - destruct (free_wf extra q (snd e) Hq Hl) as [-> Hwf]. eexists. split; [done|]. split; [done|].
    split; [done|]. split; [done|]. split; [done|]. cbn [timers set_timers timer_tree_].
    split; [intros l Hne; by rewrite lookup_delete_ne|]. split; [by rewrite lookup_delete_eq|]. naive_solver.
Qed.

Lemma rearm_all now es extra q :
  wf (locs es ∪ extra) q → NoDup (map snd es) → (∀ e, e ∈ es → snd e ∉ extra) →
  ∃ q', foldM (rearm now) es q = Ok q' ∧ wf extra q' ∧ deleted_timers_ q' = deleted_timers_ q ∧
    calling_expired_timers_ q' = calling_expired_timers_ q ∧ pending_ q' = pending_ q ∧
    (∀ l, l ∉ map snd es → timers q' !! l = timers q !! l) ∧
    (∀ e tm, e ∈ es → timers q !! snd e = Some tm →
       timers q' !! snd e = (if goes_on q (snd e) tm then Some (Timer.restart now tm) else None)) ∧
    (∀ x, x ∈ timer_tree_ q' ↔ x ∈ timer_tree_ q ∨
       ∃ e tm, e ∈ es ∧ timers q !! snd e = Some tm ∧ goes_on q (snd e) tm = true ∧
               x = (now + Timer.interval_ tm, snd e)).
Proof.
  revert q. induction es as [|e es IH]; intros q Hq Hnd Hex.
  - exists q. split; [done|]. unfold locs in Hq. simpl in Hq. rewrite union_empty_l_L in Hq.
    split_and!; try done.
    + intros e tm Hin. by apply elem_of_nil in Hin.
    + intros x. split; [by left|]. intros [?|(e & tm & Hin & _)]; [done|]. by apply elem_of_nil in Hin.
  - cbn [map] in Hnd. inversion_clear Hnd as [|?? Hnin Hnd'].
    assert (Hlocs : locs (e :: es) ∪ extra = {[ snd e ]} ∪ (locs es ∪ extra)) by (unfold locs; simpl; set_solver).
    rewrite Hlocs in Hq.
    assert (Hl : snd e ∉ locs es ∪ extra).
    { apply not_elem_of_union. split; [|apply Hex; by left]. unfold locs. by rewrite elem_of_list_to_set. }
    destruct (timers q !! snd e) as [tm|] eqn:Htm.
    2: { assert (His : is_Some (timers q !! snd e)) by (apply (wf_owned _ _ Hq); right; set_solver).
         rewrite Htm in His. by destruct His. }
    destruct (rearm_ok now e (locs es ∪ extra) q tm Hq Hl Htm)
      as (q1 & Hr1 & Hwf1 & Hd1 & Hc1 & Hp1 & Ho1 & Ha1 & Ht1).
    destruct (IH q1 Hwf1 Hnd') as (q2 & Hr2 & Hwf2 & Hd2 & Hc2 & Hp2 & Ho2 & Ha2 & Ht2);
      [intros e' He'; apply Hex; by right|].
    assert (Hne : ∀ e', e' ∈ es → snd e' ≠ snd e).
    { intros e' He' Heq. apply Hnin. rewrite <- Heq. by apply list_elem_of_fmap_2. }
    assert (Hgo : ∀ l tm', goes_on q1 l tm' = goes_on q l tm') by (intros; unfold goes_on; by rewrite Hd1).
    exists q2. cbn [foldM]. rewrite Hr1, bind_Ok. split; [done|]. split; [done|].
    split; [congruence|]. split; [congruence|]. split; [congruence|].
    split_and!.
    + intros l Hl'. cbn [map] in Hl'. rewrite not_elem_of_cons in Hl'. rewrite Ho2, Ho1 by naive_solver. done.
    + intros e' tm' [->|He']%elem_of_cons Htm'.
      * rewrite Ho2 by done. rewrite Ha1. rewrite Htm in Htm'. injection Htm' as <-. done.
      * rewrite <- (Hgo (snd e')). apply Ha2; [done|]. by rewrite Ho1 by auto.
    + intros x. rewrite Ht2, Ht1. split.
      * intros [[?|[Hg ->]]|(e' & tm' & He' & Htm' & Hg & ->)]; [by left | right | right].
        -- exists e, tm. split; [by left | done].
        -- exists e', tm'. rewrite Ho1 in Htm' by auto. rewrite Hgo in Hg. split; [by right | done].
      * intros [?|(e' & tm' & [->|He']%elem_of_cons & Htm' & Hg & ->)]; [by left; left | left; right | right].
        -- rewrite Htm in Htm'. injection Htm' as <-. done.
        -- exists e', tm'. rewrite Hgo, Ho1 by auto. done.
Qed.
End Queue.

(** ** The whole queue, for any allocator and any callbacks *)

(** An allocator returns addresses that are not in use. *)
Definition allocator {K} (alloc : gmap loc (Timer K) → option loc) : Prop :=
  ∀ h l, alloc h = Some l → h !! l = None ∧ (l < uintptr_max)%positive.

(** The timers that wait in the loop's queue to be inserted. *)
Definition waiting {K} (q : TimerQueue K) : list loc :=
  omap (fun f => match f with FAddTimerInLoop l => Some l | FDelTimerInLoop _ => None end) (pending_ q).

Lemma readTimerfd_same {K} (q : TimerQueue K) :
  timers (readTimerfd q) = timers q ∧ timer_tree_ (readTimerfd q) = timer_tree_ q ∧
  active_timers_ (readTimerfd q) = active_timers_ q ∧ pending_ (readTimerfd q) = pending_ q ∧
  calling_expired_timers_ (readTimerfd q) = calling_expired_timers_ q.
Proof. unfold readTimerfd. by destruct (timerfd_ q). Qed.

Section Callbacks.
Context {K : Type}.
Variable alloc : gmap loc (Timer K) → option loc.
Hypothesis alloc_fresh : allocator alloc.
Variable behaviour : K → TimerQueue K → list (call K).
Implicit Types (q : TimerQueue K) (extra : gset loc).

(** A new timer, not yet in the tree. *)
Lemma alloc_wf extra q l tm n :
  wf extra q → alloc (timers q) = Some l →
  let q' := mkQueue (<[l := tm]> (timers q)) n (pending_ q) (timerfd_ q) (timer_tree_ q)
              (active_timers_ q) (deleted_timers_ q) (calling_expired_timers_ q) in
  wf ({[ l ]} ∪ extra) q' ∧ l ∉ extra ∧ frame extra q q'.
Proof.
  intros Hq Ha. cbv zeta. destruct (alloc_fresh _ _ Ha) as [Hfresh Haddr].
  assert (Hl : l ∉ extra) by (intros Hl; assert (is_Some (timers q !! l)) as [? Hs] by (apply (wf_owned _ _ Hq); by right); congruence).
  assert (Hnt : ∀ t l', (t, l') ∈ timer_tree_ q → l' ≠ l).
  { intros t l' (tm' & Htm' & _)%(wf_entries _ _ Hq) ->. congruence. }
  split; [|split; [done|]].
  - constructor; cbn [timer_tree_ active_timers_ timers].
    + apply Hq.
    + intros t l' Hin. rewrite lookup_insert_ne by (symmetry; by eapply Hnt). by apply Hq.
    + intros l' s. rewrite (wf_active _ _ Hq). split; intros (t & tm' & Hin & Hl' & ?); exists t, tm'.
      * rewrite lookup_insert_ne; [done | symmetry; by eapply Hnt].
      * rewrite lookup_insert_ne in Hl'; [done | symmetry; by eapply Hnt].
    + apply Hq.
    + intros l'. destruct (decide (l' = l)) as [->|Hne].
      * rewrite lookup_insert_eq. split; [|by eexists]. right. set_solver.
      * rewrite lookup_insert_ne, (wf_owned _ _ Hq) by done. set_solver.
    + intros t l' Hin. pose proof (Hnt _ _ Hin). apply (wf_disjoint _ _ Hq) in Hin. set_solver.
    + intros l' Hs. destruct (decide (l' = l)) as [->|Hne]; [done|].
      apply (wf_addr _ _ Hq). by rewrite lookup_insert_ne in Hs.
  - constructor; [|done..]. intros l' Hl'. cbn [timers]. rewrite lookup_insert_ne; [done|]. by intros <-.
Qed.

Lemma addTimerInLoop_ok extra q now l tm :
  wf ({[ l ]} ∪ extra) q → l ∉ extra → timers q !! l = Some tm →
  ∃ q', addTimerInLoop now l q = Ok q' ∧ wf extra q' ∧ timers q' = timers q ∧
    calling_expired_timers_ q' = calling_expired_timers_ q ∧ pending_ q' = pending_ q ∧
    deleted_timers_ q' = deleted_timers_ q ∧
    (∀ x, x ∈ timer_tree_ q' ↔ x = (Timer.expiration_ tm, l) ∨ x ∈ timer_tree_ q) ∧
    (armed q → armed q').
Proof.
  intros Hq Hl Htm. unfold addTimerInLoop.
  destruct (insertTimer_ok extra q l tm Hq Hl Htm) as (tree & -> & Hwf & Hin). rewrite bind_Ok.
  set (q1 := set_tree tree _ q) in *.
  assert (Harm : ∀ x, on_time (timerfd_ q1) x → x ≤ Timer.expiration_ tm → (∀ e, e ∈ timer_tree_ q → x ≤ fst e) → armed q1).
  { intros x Hfd Hx Hall. unfold armed. destruct (timer_tree_ q1) as [|e r] eqn:Htr; [done|].
    apply (on_time_mono _ x); [done|]. assert (He : e ∈ tree) by (change tree with (timer_tree_ q1); rewrite Htr; by left).
    apply Hin in He as [-> |He]; [done|]. by apply Hall. }
  assert (Hhead : ∀ e r e', timer_tree_ q = e :: r → e' ∈ timer_tree_ q → fst e ≤ fst e').
  { intros e r e' Htr He'. pose proof (wf_sorted _ _ Hq) as Hs. rewrite Htr in Hs, He'. inversion_clear Hs as [|?? ? Hall].
    apply elem_of_cons in He' as [->|He']; [done|]. rewrite Forall_forall in Hall. apply Hall in He'.
    rewrite entry_lt_spec in He'. lia. }
  destruct (match timer_tree_ q with [] => true | e :: _ => Timer.expiration_ tm <? fst e end) eqn:Hearly.
  - rewrite (deref_ok l q1 tm) by done. rewrite bind_Ok. eexists. split; [done|].
    split; [by eapply wf_frame|]. split_and!; try done.
    intros _. unfold armed. cbn [timer_tree_ timerfd_ updateTimerfd set_timerfd].
    destruct (timer_tree_ q1) as [|e r] eqn:Htr; [done|]. right. eexists _, _. split; [done|].
    assert (He : e ∈ tree) by (change tree with (timer_tree_ q1); rewrite Htr; by left).
    apply Hin in He as [->|He]; [done|]. destruct (timer_tree_ q) as [|e0 r0] eqn:Htq; [by apply elem_of_nil in He|].
    apply Z.ltb_lt in Hearly. pose proof (Hhead e0 r0 e eq_refl He). lia.
  - exists q1. split; [done|]. split; [done|]. split_and!; try done.
    intros Harmed. unfold armed in Harmed. destruct (timer_tree_ q) as [|e0 r0] eqn:Htq; [done|].
    apply Z.ltb_ge in Hearly.
    apply (Harm (fst e0)); [done | lia |]. intros e He. exact (Hhead e0 r0 e eq_refl He).
Qed.

(** [addTimer] in the loop's thread. *)
Lemma addTimer_ok extra q now cb time interval :
  wf extra q →
  fine (fun r => wf extra (snd r) ∧ frame extra q (snd r) ∧ deleted_timers_ (snd r) = deleted_timers_ q ∧
         (armed q → armed (snd r)) ∧ fst r ∈ active_timers_ (snd r))
    (addTimer alloc true now cb time interval q).
Proof.
  intros Hq. unfold addTimer, hand_over.
  destruct (alloc (timers q)) as [l|] eqn:Ha; [|done]. rewrite bind_Ok. cbv zeta.
  destruct (alloc_wf extra q l (Timer.newTimer cb time interval (numsTimerCreated_ q)) (numsTimerCreated_ q + 1) Hq Ha)
    as (Hq1 & Hl & Hfr1).
  set (q1 := mkQueue _ _ _ _ _ _ _ _) in *.
  destruct (addTimerInLoop_ok extra q1 now l (Timer.newTimer cb time interval (numsTimerCreated_ q)) Hq1 Hl)
    as (q2 & -> & Hq2 & Ht2 & Hc2 & Hp2 & Hd2 & Hin2 & Harm).
  { unfold q1. cbn [timers]. by rewrite lookup_insert_eq. }
  rewrite !bind_Ok. cbn [fst snd]. unfold make_id.
  rewrite (deref_ok l q2 (Timer.newTimer cb time interval (numsTimerCreated_ q)))
    by (rewrite Ht2; unfold q1; cbn [timers]; by rewrite lookup_insert_eq).
  rewrite !bind_Ok. cbn [fine fst snd]. split; [done|]. split.
  - eapply frame_trans; [exact Hfr1|]. constructor; [|done..]. intros l' _. by rewrite Ht2.
  - split; [done|]. split; [exact Harm|].
    apply (wf_active _ _ Hq2). eexists _, _. split; [apply Hin2; by left|].
    rewrite Ht2. unfold q1. cbn [timers]. by rewrite lookup_insert_eq.
Qed.

Lemma timer_call_ok extra q a :
  wf extra q → fine (fun q' => wf extra q' ∧ frame extra q q') (exec_call alloc a q).
Proof.
  intros Hq. destruct a as [now cb time interval|id]; simpl.
  - eapply fine_bind; [by apply (addTimer_ok extra)|]. intros r (? & ? & _). by split.
  - unfold delTimer. destruct (delTimerInLoop_ok extra q id Hq) as (q' & -> & ? & ? & _). by split.
Qed.

Lemma run_ok extra q l :
  wf extra q → l ∈ extra → fine (fun q' => wf extra q' ∧ frame extra q q') (run alloc behaviour l q).
Proof.
  intros Hq Hl. assert (is_Some (timers q !! l)) as [tm Htm] by (apply (wf_owned _ _ Hq); by right).
  unfold run. rewrite (deref_ok l q tm) by done. rewrite bind_Ok.
  apply (fine_foldM (fun q' => wf extra q' ∧ frame extra q q')); [split; [done | apply frame_refl]|].
  intros a q' _ [Hq' Hfr]. eapply fine_impl; [by apply (timer_call_ok extra)|].
  intros q'' [? ?]. split; [done|]. by eapply frame_trans.
Qed.

(** What is left of the timers that were due, when the turn is over. *)
Definition settled (now : Z) (es : list TimerEntry) q q' : Prop :=
  ∀ t l tm, (t, l) ∈ es → timers q !! l = Some tm →
    if Timer.repeat_ tm && bool_decide ((l, Timer.sequence_ tm) ∉ deleted_timers_ q')
    then timers q' !! l = Some (Timer.restart now tm) ∧ (now + Timer.interval_ tm, l) ∈ timer_tree_ q'
    else timers q' !! l = None ∧ ∀ t', (t', l) ∉ timer_tree_ q'.

(** The timerfd is set for exactly the earliest timer, by this reading of the clock. *)
Definition set_again (clock : Z) q : Prop :=
  ∀ first rest, timer_tree_ q = first :: rest →
    timerfd_ q = Armed (fst first) (SystemClock.timespecFromNow clock (fst first)).

Lemma set_again_armed clock q : set_again clock q → armed q.
Proof.
  intros Hs. unfold armed. destruct (timer_tree_ q) as [|e r] eqn:Htr; [done|].
  right. eexists _, _. split; [by eapply Hs | lia].
Qed.

Lemma resetTimer_ok now clock es extra q :
  wf (locs es ∪ extra) q → NoDup (map snd es) → (∀ e, e ∈ es → snd e ∉ extra) →
  ∃ q', resetTimer es now clock q = Ok q' ∧ wf extra q' ∧ pending_ q' = pending_ q ∧
    calling_expired_timers_ q' = calling_expired_timers_ q ∧
    deleted_timers_ q' = deleted_timers_ q ∧ (∀ l, l ∉ map snd es → timers q' !! l = timers q !! l) ∧
    settled now es q q' ∧ set_again clock q'.
Proof.
  intros Hq Hnd Hex. unfold resetTimer.
  destruct (rearm_all now es extra q Hq Hnd Hex) as (q1 & -> & Hq1 & Hd & Hc & Hp & Ho & Ha & Ht). rewrite bind_Ok.
  assert (Hset : settled now es q q1).
  { intros t l tm Hin Htm. rewrite Hd. fold (goes_on q l tm). pose proof (Ha (t, l) tm Hin Htm) as Hl. cbn [snd] in Hl.
    destruct (goes_on q l tm) eqn:Hg.
    - split; [done|]. apply Ht. right. exists (t, l), tm. done.
    - split; [done|]. intros t' (tm' & ? & _)%(wf_entries _ _ Hq1). congruence. }
  destruct (timer_tree_ q1) as [|[t l] r] eqn:Htr.
  - exists q1. split_and!; try done. intros first rest. by rewrite Htr.
  - destruct (wf_entries _ _ Hq1 t l) as (tm & Htm & Hexp); [rewrite Htr; by left|].
    cbn [snd]. rewrite (deref_ok l q1 tm) by done. rewrite bind_Ok. eexists. split; [done|].
    split; [by eapply wf_frame|]. split_and!; try done.
    intros first rest. cbn [timer_tree_ timerfd_ updateTimerfd set_timerfd]. rewrite Htr. intros [= <- <-]. by rewrite <- Hexp.
Qed.

Lemma run_expired_ok extra q now clock :
  wf extra q → calling_expired_timers_ q = false →
  fine (fun q' => wf extra q' ∧ calling_expired_timers_ q' = false ∧ pending_ q' = pending_ q ∧
          (∀ l, l ∈ extra → timers q' !! l = timers q !! l) ∧
          settled now (due now (timer_tree_ q)) q q' ∧ set_again clock q')
    (run_expired alloc behaviour now clock q).
Proof.
  intros Hq Hcall. unfold run_expired.
  destruct (getExpired_ok extra q now Hq) as (a & -> & Hq1). rewrite bind_Ok. cbv zeta.
  set (es := due now (timer_tree_ q)) in *.
  set (q1 := set_deleted ∅ _).
  assert (Hq1' : wf (locs es ∪ extra) q1) by (by eapply wf_frame).
  eapply (fine_bind (fun q' => wf (locs es ∪ extra) q' ∧ frame (locs es ∪ extra) q1 q')).
  - apply fine_foldM; [split; [done | apply frame_refl]|]. intros e q' He [Hq' Hfr].
    eapply fine_impl; [apply (run_ok (locs es ∪ extra)); [done|]|].
    + apply elem_of_union_l. unfold locs. rewrite elem_of_list_to_set. by apply list_elem_of_fmap_2.
    + intros q'' [? ?]. split; [done|]. by eapply frame_trans.
  - intros q2 [Hq2 Hfr].
    destruct (resetTimer_ok now clock es extra (set_calling false q2)) as (q3 & -> & Hq3 & Hp3 & Hc3 & Hd3 & Ho3 & Hs3 & Ha3).
    + by eapply wf_frame.
    + by eapply due_nodup.
    + intros [t l] He. apply list_elem_of_filter in He as [_ He]. by eapply (wf_disjoint _ _ Hq).
    + cbn [fine]. split; [done|]. split; [by rewrite Hc3|]. split; [rewrite Hp3; apply (fr_pending _ _ _ Hfr)|].
      split; [|split; [|done]].
      * intros l Hl. rewrite Ho3.
        -- cbn [timers set_calling]. rewrite (fr_timers _ _ _ Hfr) by set_solver. done.
        -- intros Hin. apply list_elem_of_fmap in Hin as ([t l'] & Heq & He). simpl in Heq. subst l'.
           apply list_elem_of_filter in He as [_ He]. by apply (wf_disjoint _ _ Hq) in He.
      * intros t l tm Hin Htm. apply (Hs3 t l tm Hin). cbn [timers set_calling].
        rewrite (fr_timers _ _ _ Hfr); [done|]. apply elem_of_union_l. unfold locs.
        rewrite elem_of_list_to_set. by apply (list_elem_of_fmap_2 snd es (t, l)).
Qed.

Lemma timer_handleRead_ok extra q now clock :
  wf extra q → calling_expired_timers_ q = false →
  fine (fun q' => wf extra q' ∧ calling_expired_timers_ q' = false ∧ pending_ q' = pending_ q ∧
          (∀ l, l ∈ extra → timers q' !! l = timers q !! l) ∧
          settled now (due now (timer_tree_ q)) q q' ∧ set_again clock q')
    (handleRead alloc behaviour now clock q).
Proof.
  intros Hq Hcall. destruct (readTimerfd_same q) as (Htm & Htr & Ha & Hp & Hc).
  eapply fine_impl; [apply (run_expired_ok extra); [by eapply wf_frame | by rewrite Hc]|].
  rewrite Hp, Htr. intros q' (? & ? & ? & Hk & Hs & ?). rewrite Htm in Hk. split_and!; try done.
  intros t l tm Hin Hl. apply (Hs t l tm Hin). by rewrite Htm.
Qed.
End Callbacks.

(** ** Any history of the queue *)
Section History.
Context {K : Type}.
Variable alloc : gmap loc (Timer K) → option loc.
Variable behaviour : K → TimerQueue K → list (call K).
Implicit Types q : TimerQueue K.

(** What happens to a queue: [addTimer] in the loop's thread; [addTimer] in another thread, which first
    hands its timer over and later reads it for the identifier (the thread at this place among
    those in between); [delTimer] from either side; functors of other threads reaching the
    loop; the timerfd going off; turns of [handleRead]. *)
Inductive event :=
  | EvAdd (now : Z) (cb : K) (time interval : Z)
  | EvHandOver (now : Z) (cb : K) (time interval : Z)
  | EvMakeId (i : nat)
  | EvDel (inLoop : bool) (id : TimerId)
  | EvFunctor (now : Z)
  | EvExpire
  | EvRead (now clock : Z).

(** The queue, and the timers of the threads that are between the two statements of [addTimer]. *)
Record history := mkHistory { queue : TimerQueue K; callers : list loc }.

Definition react (e : event) (h : history) : result history :=
  let q := queue h in
  match e with
  | EvAdd now cb time interval =>
      r ← addTimer alloc true now cb time interval q; Ok (mkHistory (snd r) (callers h))
  | EvHandOver now cb time interval =>
      r ← hand_over alloc false now cb time interval q; Ok (mkHistory (snd r) (callers h ++ [fst r]))
  | EvMakeId i =>
      match callers h !! i with
      | None => Ok h
      | Some l => _ ← make_id l q; Ok (mkHistory q (delete i (callers h)))
      end
  | EvDel inLoop id => q ← delTimer inLoop id q; Ok (mkHistory q (callers h))
  | EvFunctor now =>
      match pending_ q with
      | [] => Ok h
      | f :: rest => q ← run_functor now f (set_pending rest q); Ok (mkHistory q (callers h))
      end
  | EvExpire => Ok (mkHistory (expire q) (callers h))
  | EvRead now clock => q ← handleRead alloc behaviour now clock q; Ok (mkHistory q (callers h))
  end.

Inductive happens : history → Prop :=
  | h_new : happens (mkHistory newQueue [])
  | h_event e h h' : happens h → react e h = Ok h' → happens h'.

Definition reachable q : Prop := ∃ cs, happens (mkHistory q cs).

(** The loop has been faster: a thread reads its timer, which has been freed. *)
Definition overtaken (e : event) (h : history) : Prop :=
  ∃ i l, e = EvMakeId i ∧ callers h !! i = Some l ∧ timers (queue h) !! l = None.

Lemma decide_overtaken e h : Decision (overtaken e h).
Proof.
  destruct e as [| |i| | | |]; try (right; by intros (i & l & [=] & _)).
  destruct (callers h !! i) as [l|] eqn:Hi; [|right; intros (j & l & [= <-] & Hj & _); congruence].
  destruct (timers (queue h) !! l) eqn:Hl; [|left; by exists i, l].
  right. intros (j & l' & [= <-] & Hj & Hl'). congruence.
Qed.

Lemma overtaken_faults e h : overtaken e h → react e h = Fault UseAfterFree.
Proof. intros (i & l & -> & Hi & Hl). unfold react. cbv zeta. rewrite Hi. unfold make_id, deref. by rewrite Hl. Qed.

Definition inv q : Prop :=
  wf (list_to_set (waiting q)) q ∧ NoDup (waiting q) ∧ armed q ∧ calling_expired_timers_ q = false.

Lemma new_inv : inv newQueue.
Proof.
  split_and!; [|constructor|done|done]. constructor; simpl; try done.
  - constructor.
  - intros t l Hin. by apply elem_of_nil in Hin.
  - intros l s. split; [set_solver|]. intros (t & tm & Hin & _). by apply elem_of_nil in Hin.
  - intros l. split; [by intros [? ?]|]. intros [[t Hin]|Hin]; [by apply elem_of_nil in Hin | set_solver].
  - intros l [? ?]. done.
Qed.

Lemma armed_frame q q' : timer_tree_ q' = timer_tree_ q → timerfd_ q' = timerfd_ q → armed q → armed q'.
Proof. unfold armed. by intros -> ->. Qed.

(** Taking timers out of the tree leaves the timerfd early enough. *)
Lemma armed_subset extra q q' :
  wf extra q → armed q → timerfd_ q' = timerfd_ q → (∀ x, x ∈ timer_tree_ q' → x ∈ timer_tree_ q) → armed q'.
Proof.
  intros Hq Harm Hfd Hsub. unfold armed in *. destruct (timer_tree_ q') as [|e r]; [done|].
  specialize (Hsub e ltac:(by left)). pose proof (wf_sorted _ _ Hq) as Hs.
  destruct (timer_tree_ q) as [|e0 r0]; [by apply elem_of_nil in Hsub|].
  rewrite Hfd. apply (on_time_mono _ (fst e0)); [done|].
  inversion_clear Hs as [|?? ? Hall]. apply elem_of_cons in Hsub as [->|Hin]; [done|].
  rewrite Forall_forall in Hall. apply Hall in Hin. rewrite entry_lt_spec in Hin. lia.
Qed.

Lemma expire_inv q : inv q → inv (expire q).
Proof.
  intros (Hq & Hnd & Harm & Hc). unfold expire. destruct (timerfd_ q); [done| |done].
  split_and!; [by eapply wf_frame | done | | done]. unfold armed in *. cbn [timer_tree_ set_timerfd timerfd_].
  destruct (timer_tree_ q); [done|]. by left.
Qed.

Hypothesis alloc_fresh : allocator alloc.

Lemma hand_over_off_loop q now cb time interval :
  inv q → fine (fun r => inv (snd r) ∧ is_Some (timers (snd r) !! fst r))
            (hand_over alloc false now cb time interval q).
Proof.
  intros (Hq & Hnd & Harm & Hc). unfold hand_over.
  destruct (alloc (timers q)) as [l|] eqn:Ha; [|done]. rewrite bind_Ok. cbv zeta.
  destruct (alloc_wf alloc alloc_fresh _ q l (Timer.newTimer cb time interval (numsTimerCreated_ q))
              (numsTimerCreated_ q + 1) Hq Ha) as (Hq1 & Hl & _).
  set (q1 := mkQueue _ _ _ _ _ _ _ _) in *. rewrite bind_Ok. cbn [fine fst snd].
  assert (Hw : waiting (set_pending (pending_ q1 ++ [FAddTimerInLoop l]) q1) = waiting q ++ [l])
    by (unfold waiting; cbn [pending_ set_pending]; by rewrite omap_app).
  split; [|unfold q1; cbn [timers set_pending]; rewrite lookup_insert_eq; by eexists].
  unfold inv. rewrite Hw. split_and!.
  - eapply (wf_frame _ q1); try done. rewrite list_to_set_app_L. simpl.
    rewrite union_empty_r_L, union_comm_L. done.
  - apply NoDup_app. split; [done|]. split; [|apply NoDup_singleton].
    intros l' Hl' ->%list_elem_of_singleton. apply Hl. by apply elem_of_list_to_set.
  - by eapply armed_frame.
  - done.
Qed.

Lemma functor_inv now f rest q :
  inv q → pending_ q = f :: rest → fine inv (run_functor now f (set_pending rest q)).
Proof.
  intros (Hq & Hnd & Harm & Hc) Hp. destruct f as [l|id]; simpl.
  - assert (Hw : waiting q = l :: waiting (set_pending rest q)) by (unfold waiting; by rewrite Hp).
    set (q1 := set_pending rest q) in *.
    rewrite Hw in Hq, Hnd. inversion_clear Hnd as [|?? Hnin Hnd'].
    rewrite list_to_set_cons in Hq. assert (Hq1 : wf ({[l]} ∪ list_to_set (waiting q1)) q1) by (by eapply wf_frame).
    assert (is_Some (timers q1 !! l)) as [tm Htm] by (apply (wf_owned _ _ Hq1); right; set_solver).
    destruct (addTimerInLoop_ok (list_to_set (waiting q1)) q1 now l tm Hq1) as (q2 & -> & Hq2 & _ & Hc2 & Hp2 & _ & _ & Ha2);
      [by rewrite elem_of_list_to_set | done|].
    cbn [fine]. unfold inv. assert (Hw2 : waiting q2 = waiting q1) by (unfold waiting; by rewrite Hp2).
    rewrite Hw2. split_and!; try done; [by apply Ha2, (armed_frame q) | by rewrite Hc2].
  - assert (Hw : waiting (set_pending rest q) = waiting q) by (unfold waiting; rewrite Hp; done).
    set (q1 := set_pending rest q) in *.
    assert (Hq1 : wf (list_to_set (waiting q)) q1) by (by eapply wf_frame).
    destruct (delTimerInLoop_ok _ q1 id Hq1) as (q2 & -> & Hq2 & Hfr & _ & Hsub & Hfd).
    cbn [fine]. unfold inv. assert (Hw2 : waiting q2 = waiting q) by (rewrite <- Hw; unfold waiting; by rewrite (fr_pending _ _ _ Hfr)).
    rewrite Hw2. split_and!; try done; [by eapply (armed_subset _ q) | by rewrite (fr_calling _ _ _ Hfr)].
Qed.

Lemma delTimer_inv inLoop id q : inv q → fine inv (delTimer inLoop id q).
Proof.
  intros (Hq & Hnd & Harm & Hc). unfold delTimer. destruct inLoop.
  - destruct (delTimerInLoop_ok _ q id Hq) as (q' & -> & Hq' & Hfr & _ & Hsub & Hfd).
    assert (Hkeep : waiting q' = waiting q) by (unfold waiting; by rewrite (fr_pending _ _ _ Hfr)).
    unfold inv. cbn [fine]. rewrite Hkeep. split_and!; [done.. | by eapply (armed_subset _ q) | by rewrite (fr_calling _ _ _ Hfr)].
  - unfold inv. cbn [fine]. assert (Hw : waiting (set_pending (pending_ q ++ [FDelTimerInLoop id]) q) = waiting q).
    { unfold waiting. cbn [pending_ set_pending]. rewrite omap_app. simpl. apply app_nil_r. }
    rewrite Hw. split_and!; [by eapply wf_frame | done | by eapply armed_frame | done].
Qed.

Lemma add_inv now cb time interval q :
  inv q → fine (fun r => inv (snd r)) (addTimer alloc true now cb time interval q).
Proof.
  intros (Hq & Hnd & Harm & Hc). eapply fine_impl; [by apply (addTimer_ok alloc alloc_fresh (list_to_set (waiting q)))|].
  intros r (Hr & Hfr & _ & Ha & _). unfold inv.
  assert (Hkeep : waiting (snd r) = waiting q) by (unfold waiting; by rewrite (fr_pending _ _ _ Hfr)).
  rewrite Hkeep. split_and!; auto. by rewrite (fr_calling _ _ _ Hfr).
Qed.

Lemma read_inv now clock q : inv q → fine inv (handleRead alloc behaviour now clock q).
Proof.
  intros (Hq & Hnd & Harm & Hc).
  eapply fine_impl; [by apply (timer_handleRead_ok alloc alloc_fresh behaviour (list_to_set (waiting q)))|].
  intros q' (? & ? & Hp & _ & _ & Ha). assert (Hkeep : waiting q' = waiting q) by (unfold waiting; by rewrite Hp).
  unfold inv. rewrite Hkeep. split_and!; try done. by eapply set_again_armed.
Qed.

Lemma react_inv e h : inv (queue h) → ¬ overtaken e h → fine (fun h' => inv (queue h')) (react e h).
Proof.
  intros Hi Hno. destruct e as [now cb time interval|now cb time interval|i|inLoop id|now| |now clock]; unfold react; cbv zeta.
  - eapply fine_bind; [by apply add_inv|]. done.
  - eapply fine_bind; [by apply hand_over_off_loop|]. by intros r [? _].
  - destruct (callers h !! i) as [l|] eqn:Hl; [|done]. unfold make_id, deref.
    destruct (timers (queue h) !! l) eqn:Ht; [done|]. destruct Hno. by exists i, l.
  - eapply fine_bind; [by apply delTimer_inv|]. done.
  - destruct (pending_ (queue h)) as [|f rest] eqn:Hp; [done|]. eapply fine_bind; [by apply functor_inv|]. done.
  - by apply expire_inv.
  - eapply fine_bind; [by apply read_inv|]. done.
Qed.

Lemma overtaken_not_Ok e h h' : react e h = Ok h' → ¬ overtaken e h.
Proof. intros Hr Ho. rewrite (overtaken_faults _ _ Ho) in Hr. done. Qed.

Lemma happens_inv h : happens h → inv (queue h).
Proof.
  induction 1 as [|e h h' _ IH Hr]; [apply new_inv|].
  pose proof (react_inv e h IH (overtaken_not_Ok _ _ _ Hr)) as Hf. by rewrite Hr in Hf.
Qed.

Lemma timers_reachable_inv q : reachable q → inv q.
Proof. intros [cs Hh]. exact (happens_inv _ Hh). Qed.
End History.

(** A concrete allocator: the first free address, while there are any. *)
Definition first_free {K} (h : gmap loc (Timer K)) : option loc :=
  let l := fresh (dom h) in if Pos.ltb l uintptr_max then Some l else None.

Lemma first_free_fresh {K} : allocator (@first_free K).
Proof.
  intros h l. unfold first_free. destruct (Pos.ltb_spec (fresh (dom h)) uintptr_max); [|done].
  intros [= <-]. split; [|done]. apply not_elem_of_dom, is_fresh.
Qed.


(** C20. The timerfd never sleeps through a timer: between the steps of any history, if a timer is in
    the tree, then the timerfd has gone off and has not been read, so that [epoll_wait] reports it and
    [handleRead] runs, or it is set, for the time left until a time that is no later than the earliest timer's;
    and every turn of [handleRead], which takes the expiry and leaves the timerfd unset, sets it again for exactly
    the earliest timer that there is then. *)
Theorem timerfd_armed {K} alloc behaviour (q : TimerQueue K) now clock :
  allocator alloc → reachable alloc behaviour q →
  (∀ first rest, timer_tree_ q = first :: rest →
     (timerfd_ q = Expired ∨
      ∃ x c, timerfd_ q = Armed x (SystemClock.timespecFromNow c x) ∧ x ≤ fst first) ∧
     (∀ e, e ∈ rest → fst first ≤ fst e)) ∧
  (∀ q' first rest, handleRead alloc behaviour now clock q = Ok q' → timer_tree_ q' = first :: rest →
     timerfd_ q' = Armed (fst first) (SystemClock.timespecFromNow clock (fst first))).
Proof.
  intros Ha Hr. pose proof (timers_reachable_inv alloc behaviour Ha q Hr) as (Hq & _ & Harm & Hc). split.
  - intros first rest Htr. unfold armed in Harm. rewrite Htr in Harm. split; [done|].
    pose proof (wf_sorted _ _ Hq) as Hs. rewrite Htr in Hs. inversion_clear Hs as [|?? ? Hall].
    rewrite Forall_forall in Hall. intros e He%Hall. rewrite entry_lt_spec in He. lia.
  - intros q' first rest Hh. pose proof (timer_handleRead_ok alloc Ha behaviour _ q now clock Hq Hc) as Hf.
    rewrite Hh in Hf. destruct Hf as (_ & _ & _ & _ & _ & Hs). apply Hs.
Qed.

(** C30. A turn of [handleRead] takes exactly the timers that are due out of the tree, runs
    each once, in the order of their expiration times, and afterwards settles each: a
    periodic one that no callback has cancelled is back in the tree for one interval from
    now, every other one is freed; timers on their way in are not touched. *)
Theorem handleRead_turn {K} alloc behaviour (q : TimerQueue K) now clock :
  allocator alloc → reachable alloc behaviour q →
  (∃ a, handleRead alloc behaviour now clock q =
     (q1 ← foldM (fun e => run alloc behaviour (snd e)) (due now (timer_tree_ q))
        (set_deleted ∅ (set_calling true (set_tree (not_due now (timer_tree_ q)) a (readTimerfd q))));
      resetTimer (due now (timer_tree_ q)) now clock (set_calling false q1))) ∧
  sorted (due now (timer_tree_ q)) ∧ NoDup (map snd (due now (timer_tree_ q))) ∧
  fine (fun q' => settled now (due now (timer_tree_ q)) q q' ∧
          ∀ l, l ∈ waiting q → timers q' !! l = timers q !! l)
    (handleRead alloc behaviour now clock q).
Proof.
  intros Ha Hr. pose proof (timers_reachable_inv alloc behaviour Ha q Hr) as (Hq & _ & _ & Hc).
  split; [|split; [|split]].
  - destruct (readTimerfd_same q) as (Htm & Htr & Hac & _).
    assert (Hq1 : wf (list_to_set (waiting q)) (readTimerfd q)) by (by eapply wf_frame).
    destruct (getExpired_ok _ _ now Hq1) as (a & Hg & _). exists a. unfold handleRead, run_expired. by rewrite Hg, Htr.
  - destruct (lower_bound_guard now uintptr_max (timer_tree_ q) (wf_sorted _ _ Hq) (wf_tree_addr _ _ Hq))
      as (_ & _ & Hsplit).
    pose proof (wf_sorted _ _ Hq) as Hs. rewrite Hsplit in Hs. by apply StronglySorted_app_1_l in Hs.
  - by eapply due_nodup.
  - eapply fine_impl; [by apply (timer_handleRead_ok alloc Ha behaviour (list_to_set (waiting q)))|].
    intros q' (_ & _ & _ & Hw & Hs & _). split; [done|]. intros l Hl. apply Hw. by rewrite elem_of_list_to_set.
Qed.

(** C31. Cancelling works: after [delTimer] in the loop's thread the timer is in no tree and,
    if it was, freed; cancelling an identifier that is stale (fired, cancelled before, or whose
    address belongs to a new timer by now) changes nothing. *)
Theorem cancel_effective {K} alloc behaviour (q : TimerQueue K) id :
  allocator alloc → reachable alloc behaviour q →
  ∃ q', delTimer true id q = Ok q' ∧
    (∀ t tm, (t, fst id) ∈ timer_tree_ q' → timers q' !! fst id = Some tm → Timer.sequence_ tm ≠ snd id) ∧
    (id ∈ active_timers_ q → timers q' !! fst id = None) ∧
    (id ∉ active_timers_ q → q' = q).
Proof.
  intros Ha Hr. pose proof (timers_reachable_inv alloc behaviour Ha q Hr) as (Hq & _ & _ & Hc).
  destruct (delTimerInLoop_ok _ q id Hq) as (q' & Hd & Hq' & Hfr & Hnin & _).
  exists q'. split; [exact Hd|]. destruct id as [l s]. cbn [fst snd]. split; [|split].
  - intros t tm Hin Htm <-. apply Hnin. apply (wf_active _ _ Hq'). by exists t, tm.
  - intros Hact. unfold delTimerInLoop in Hd. rewrite (sizes_agree_wf _ _ Hq) in Hd. cbn [ensure] in Hd.
    rewrite bind_Ok in Hd. rewrite decide_True in Hd by done. inv_ok.
    destruct (tree_erase _ _) as [n tree]. inv_ok. unfold free in *. inv_ok. cbn [timers set_timers set_tree fst].
    by rewrite lookup_delete_eq.
  - intros Hnact. unfold delTimerInLoop in Hd. rewrite (sizes_agree_wf _ _ Hq) in Hd. cbn [ensure] in Hd.
    rewrite bind_Ok in Hd. rewrite decide_False, Hc, bind_Ok in Hd by done.
    rewrite (sizes_agree_wf _ _ Hq) in Hd. cbn [ensure] in Hd. rewrite bind_Ok in Hd. by injection Hd.
Qed.

(** [addTimer] from another thread reads the timer after it has handed it over: if
    the loop's thread inserts, runs and frees a one-shot timer that is already due before the
    caller gets to the line that makes the identifier, the caller reads freed memory.
    This happens for every timer whose time has come, from every reachable state. *)
Theorem addTimer_race {K} alloc behaviour (q : TimerQueue K) cb time now clock l q1 :
  allocator alloc → reachable alloc behaviour q → time ≤ now → pending_ q = [] →
  hand_over alloc false now cb time 0 q = Ok (l, q1) →
  ∃ q2, run_functor now (FAddTimerInLoop l) (set_pending [] q1) = Ok q2 ∧
    ∀ q3, handleRead alloc behaviour now clock q2 = Ok q3 → make_id l q3 = Fault UseAfterFree.
Proof.
  intros Ha Hr Ht Hp Hh. pose proof (timers_reachable_inv alloc behaviour Ha q Hr) as (Hq & _ & _ & Hc).
  unfold hand_over in Hh. destruct (alloc (timers q)) as [l'|] eqn:Hal; [|done]. rewrite !bind_Ok in Hh.
  cbv zeta in Hh. injection Hh as -> <-.
  destruct (alloc_wf alloc Ha _ q l (Timer.newTimer cb time 0 (numsTimerCreated_ q)) (numsTimerCreated_ q + 1) Hq Hal)
    as (Hq1 & Hl & _).
  set (tm := Timer.newTimer cb time 0 (numsTimerCreated_ q)) in *.
  set (q1 := set_pending [] _).
  assert (Hq1' : wf ({[l]} ∪ list_to_set (waiting q)) q1) by (by eapply wf_frame).
  assert (Htm : timers q1 !! l = Some tm) by (unfold q1; cbn [timers set_pending]; by rewrite lookup_insert_eq).
  destruct (addTimerInLoop_ok _ q1 now l tm Hq1' Hl Htm) as (q2 & Hadd & Hq2 & Ht2 & Hc2 & _ & _ & Hin2 & _).
  exists q2. split; [exact Hadd|]. intros q3 Hread.
  pose proof (timer_handleRead_ok alloc Ha behaviour _ q2 now clock Hq2) as Hok.
  rewrite Hread in Hok. destruct Hok as (_ & _ & _ & _ & Hs & _); [by rewrite Hc2|].
  assert (Hdue : (time, l) ∈ due now (timer_tree_ q2)).
  { apply list_elem_of_filter. split; [done|]. apply Hin2. by left. }
  pose proof (Hs time l tm Hdue) as Hsl. rewrite Ht2 in Hsl. specialize (Hsl Htm).
  cbn [tm Timer.repeat_ Timer.newTimer Z.ltb Z.compare andb] in Hsl. destruct Hsl as [Hsl _].
  unfold make_id, deref. by rewrite Hsl.
Qed.

(** The destructor frees every timer of the tree, once; what is left are the
    timers whose insertion still waits in the loop's queue. *)
Theorem destroyQueue_frees {K} alloc behaviour (q : TimerQueue K) :
  allocator alloc → reachable alloc behaviour q →
  ∃ q', destroyQueue q = Ok q' ∧ ∀ l, is_Some (timers q' !! l) ↔ l ∈ waiting q.
Proof.
  intros Ha Hr. pose proof (timers_reachable_inv alloc behaviour Ha q Hr) as (Hq & Hnd & _ & _).
  assert (Hfree : ∀ (es : list TimerEntry) (q0 : TimerQueue K), NoDup (map snd es) → (∀ e, e ∈ es → is_Some (timers q0 !! snd e)) →
    ∃ q', foldM (fun entry q => free (snd entry) q) es q0 = Ok q' ∧
          ∀ l, is_Some (timers q' !! l) ↔ is_Some (timers q0 !! l) ∧ l ∉ map snd es).
  { clear. intros es. induction es as [|e es IH]; intros q0 Hnd Hs.
    - exists q0. split; [done|]. intros l. split; [|naive_solver]. intros. split; [done|]. apply not_elem_of_nil.
    - cbn [map] in Hnd. inversion_clear Hnd as [|?? Hnin Hnd'].
      destruct (Hs e ltac:(by left)) as [tm Htm]. cbn [foldM].
      assert (Hfr : free (snd e) q0 = Ok (set_timers (delete (snd e) (timers q0)) q0))
        by (unfold free; by rewrite (deref_ok _ q0 tm)).
      rewrite Hfr, bind_Ok.
      destruct (IH (set_timers (delete (snd e) (timers q0)) q0) Hnd') as (q' & Hf & Hl).
      + intros e' He'. cbn [timers set_timers]. rewrite lookup_delete_ne; [apply Hs; by right|].
        intros Heq. apply Hnin. rewrite Heq. by apply list_elem_of_fmap_2.
      + exists q'. split; [exact Hf|]. intros l. rewrite Hl. cbn [timers set_timers map]. rewrite not_elem_of_cons.
        destruct (decide (l = snd e)) as [->|Hne].
        * rewrite lookup_delete_eq. split; [by intros [[? ?] _] | naive_solver].
        * rewrite lookup_delete_ne by done. naive_solver. }
  unfold destroyQueue. destruct (Hfree (timer_tree_ q) q) as (q' & Hf & Hl).
  - by eapply tree_nodup.
  - intros [t l] Hin. apply (wf_owned _ _ Hq). left. by exists t.
  - exists q'. split; [exact Hf|]. intros l. rewrite Hl, (wf_owned _ _ Hq), elem_of_list_to_set. split.
    + intros [[[t Hin]|Hin] Hnin]; [|done]. exfalso. apply Hnin. by apply (list_elem_of_fmap_2 snd _ (t, l)).
    + intros Hw. split; [by right|]. intros Hin.
      apply list_elem_of_fmap in Hin as ([t l'] & Heq & Hin). simpl in Heq. subst l'.
      apply (wf_disjoint _ _ Hq) in Hin. by rewrite elem_of_list_to_set in Hin.
Qed.

(** ** Concrete histories

    Callback 1 cancels its own timer (the first one made) and adds a one-shot timer. *)
Definition example_behaviour (k : nat) (q : TimerQueue nat) : list (call nat) :=
  if decide (k = 1%nat) then [CallDel (1%positive, 0); CallAdd 10 2%nat 30 0] else [].

Definition example_events : list (@event nat) :=
  [EvAdd 0 1%nat 5 7; EvHandOver 0 3%nat 8 0; EvFunctor 0; EvExpire].

Definition run_events (es : list (@event nat)) : result (@history nat) :=
  foldM (react first_free example_behaviour) es (mkHistory newQueue []).

Lemma run_events_happens es h : run_events es = Ok h → happens first_free example_behaviour h.
Proof.
  intros Hr. eapply (foldM_pres (happens first_free example_behaviour)); [|apply h_new|exact Hr].
  intros e h1 h2 Hh1 He. by eapply h_event.
Qed.

Definition example_history : @history nat :=
  match run_events example_events with Ok h => h | Fault _ => mkHistory newQueue [] end.
Definition example_queue : TimerQueue nat := queue example_history.

Lemma example_happens : happens first_free example_behaviour example_history.
Proof. apply (run_events_happens example_events). vm_compute. reflexivity. Qed.

Lemma example_reachable : reachable first_free example_behaviour example_queue.
Proof.
  exists (callers example_history). unfold example_queue. generalize example_happens. generalize example_history.
  intros [q cs] Hh. exact Hh.
Qed.

(** Both timers go off, and then the thread that added the second one reads it. *)
Definition overtaken_history : @history nat :=
  match react first_free example_behaviour (EvRead 10 11) example_history with Ok h => h | Fault _ => example_history end.


Lemma timerfd_armed_witness :
  timer_tree_ example_queue = [(5, 1%positive); (8, 2%positive)] ∧
  (timerfd_ example_queue = Expired ∨
   ∃ x c, timerfd_ example_queue = Armed x (SystemClock.timespecFromNow c x) ∧ x ≤ 5) ∧
  ∃ q', handleRead first_free example_behaviour 10 11 example_queue = Ok q' ∧
    timerfd_ q' = Armed 30 (SystemClock.timespecFromNow 11 30).
Proof.
  destruct (timerfd_armed first_free example_behaviour example_queue 10 11 first_free_fresh example_reachable) as [Hn Hr].
  split; [vm_compute; reflexivity|]. split.
  - exact (proj1 (Hn (5, 1%positive) [(8, 2%positive)] ltac:(vm_compute; reflexivity))).
  - destruct (handleRead first_free example_behaviour 10 11 example_queue) as [q'|] eqn:Hq; [|vm_compute in Hq; discriminate].
    exists q'. split; [reflexivity|]. apply (Hr q' (30, 3%positive) []); [reflexivity|].
    assert (Ht : match handleRead first_free example_behaviour 10 11 example_queue with Ok q0 => timer_tree_ q0 | Fault _ => [] end
                 = [(30, 3%positive)]) by (vm_compute; reflexivity).
    rewrite Hq in Ht. exact Ht.
Defined.

Lemma handleRead_turn_witness :
  due 10 (timer_tree_ example_queue) = [(5, 1%positive); (8, 2%positive)] ∧
  fine (fun q' => settled 10 (due 10 (timer_tree_ example_queue)) example_queue q' ∧
          ∀ l, l ∈ waiting example_queue → timers q' !! l = timers example_queue !! l)
    (handleRead first_free example_behaviour 10 11 example_queue).
Proof.
  split; [vm_compute; reflexivity|].
  exact (proj2 (proj2 (proj2 (handleRead_turn first_free example_behaviour example_queue 10 11
    first_free_fresh example_reachable)))).
Defined.

Lemma cancel_effective_witness :
  ∃ q', delTimer true (2%positive, 1) example_queue = Ok q' ∧ timer_tree_ q' = [(5, 1%positive)] ∧
    ∃ q2, delTimer true (2%positive, 1) example_queue = Ok q2 ∧
      (((2%positive, 1) ∈ active_timers_ example_queue → timers q2 !! 2%positive = None)).
Proof.
  eexists. split; [vm_compute; reflexivity|]. split; [vm_compute; reflexivity|].
  destruct (cancel_effective first_free example_behaviour example_queue (2%positive, 1)
    first_free_fresh example_reachable) as (q' & Hd & _ & Ha & _).
  exists q'. split; [exact Hd | exact Ha].
Defined.

Lemma addTimer_race_witness :
  ∃ l q1, hand_over first_free false 9 4%nat 9 0 example_queue = Ok (l, q1) ∧
  ∃ q2, run_functor 9 (FAddTimerInLoop l) (set_pending [] q1) = Ok q2 ∧
    ∀ q3, handleRead first_free example_behaviour 9 10 q2 = Ok q3 → make_id l q3 = Fault UseAfterFree.
Proof.
  destruct (hand_over first_free false 9 4%nat 9 0 example_queue) as [[l q1]|] eqn:Hh;
    [|vm_compute in Hh; discriminate].
  exists l, q1. split; [reflexivity|].
  apply (addTimer_race first_free example_behaviour example_queue 4%nat 9 9 10 l q1);
    [exact first_free_fresh | exact example_reachable | lia | vm_compute; reflexivity | exact Hh].
Defined.

Lemma destroyQueue_frees_witness :
  ∃ q', destroyQueue example_queue = Ok q' ∧ ∀ l, is_Some (timers q' !! l) ↔ l ∈ waiting example_queue.
Proof. exact (destroyQueue_frees first_free example_behaviour example_queue first_free_fresh example_reachable). Defined.
