(* ===== verification/TcpConnection.v ===== *)
(** * Connections: include/libfm/fmnet/TcpConnection.h and net/TcpConnection.cpp

    The state is one connection in the event loop that serves it: the members of the object,
    the loop with the connection's channel in it, and what the outside has seen - the bytes the
    kernel took ([written]), whether the write side was shut down, how often the
    close callback ran.  Strings and buffers that other threads pass to [send] by address are in
    [strings] and [buffers]; they live as long as their owner keeps them there.

    System calls are the Section variables [sys_write] and [sys_readv], whose answers may
    differ from call to call ([calls] counts them); what the user's callbacks do is
    [behaviour].  [inLoop] says whether the caller is the loop's thread. *)
From stdpp Require Import base list gmap numbers strings.
From Stdlib Require Import ZArith Lia Init.Byte.
From S2P Require Import Prelude.
From S2P Require Import ByteBuffer.
From S2P Require Import Channel.
From S2P Require Import Poller.
From S2P Require Import EventLoop.
Import EventLoop.EventLoop.
#[local] Open Scope Z_scope.
#[local] Open Scope fm_scope.

Definition EPIPE : Z := 32.
Definition ECONNRESET : Z := 104.
Definition EWOULDBLOCK : Z := 11.

Module TcpConnection.

(** [src/include/libfm/fmnet/TcpConnection.h:78-78 TcpConnection::StateE] *)
Inductive StateE := kDisconnected | kConnecting | kConnected | kDisconnecting.

#[export] Instance StateE_eq_dec : EqDecision StateE.
Proof. solve_decision. Defined.

(** What the callbacks installed in the channel call: [handleRead], [handleWrite],
    [handleClose], [handleError]. *)
Inductive channel_cb := CbRead | CbWrite | CbClose | CbError.

(** What a [Buffer *] points to: a buffer of the user's, or the connection's own input buffer, which
    the message callback is handed. *)
Inductive buffer_ref :=
  | UserBuffer (b : positive)
  | InputBuffer.

#[export] Instance buffer_ref_eq_dec : EqDecision buffer_ref.
Proof. solve_decision. Defined.

(** The lambdas a connection puts in its loop's queue. *)
Inductive functor :=
  | FSendString (msg : positive)       (** [[this, &msg] { this->send(msg); }] *)
  | FSendBuffer (b : buffer_ref)       (** [[this, buf] { this->send(buf->retrieveAllAsString()); }] *)
  | FWriteComplete
  | FHighWaterMark (n : Z)
  | FShutdownInLoop
  | FForceCloseInLoop
  | FStartReadInLoop
  | FStopReadInLoop
  | FConnectDestroyed.

(** When the user's callbacks run. *)
Inductive user_event :=
  | OnConnection
  | OnMessage (receiveTime : Z)
  | OnWriteComplete
  | OnHighWaterMark (n : Z).

(** [src/include/libfm/fmnet/TcpConnection.h:95-116 TcpConnection data members] The
    descriptor is the channel's; of the callbacks that may be empty, whether they are set. *)
Record TcpConnection := mkConn {
  name_ : list byte;
  state_ : StateE;
  reading_ : bool;
  channel_ : loc;
  write_complete_callback_ : bool;
  high_water_mark_callback_ : bool;
  high_water_mark_ : Z;
  input_buffer_ : Buffer.Buffer;
  output_buffer_ : Buffer.Buffer
}.

Inductive write_outcome :=
  | Wrote (n : Z)
  | WriteErr (errno : Z).

#[export] Instance write_outcome_eq_dec : EqDecision write_outcome.
Proof. solve_decision. Defined.

Record world := mkWorld {
  loop_ : EventLoop functor channel_cb;
  conn : TcpConnection;
  strings : gmap positive (list byte);
  buffers : gmap positive Buffer.Buffer;
  calls : nat;
  written : list byte;
  write_shutdown : bool;
  closed_calls : nat
}.

#[export] Program Instance world_HasLoop : HasLoop world functor channel_cb := {
  loop_of := loop_;
  with_loop lp w := mkWorld lp (conn w) (strings w) (buffers w) (calls w) (written w)
                      (write_shutdown w) (closed_calls w)
}.
Next Obligation. done. Qed.

Definition set_conn (c : TcpConnection) (w : world) : world :=
  mkWorld (loop_ w) c (strings w) (buffers w) (calls w) (written w) (write_shutdown w) (closed_calls w).
Definition set_strings (s : gmap positive (list byte)) (w : world) : world :=
  mkWorld (loop_ w) (conn w) s (buffers w) (calls w) (written w) (write_shutdown w) (closed_calls w).
Definition set_buffers (b : gmap positive Buffer.Buffer) (w : world) : world :=
  mkWorld (loop_ w) (conn w) (strings w) b (calls w) (written w) (write_shutdown w) (closed_calls w).

(** [src/include/libfm/fmnet/TcpConnection.h:91-91 TcpConnection::setState] *)
Definition setState (s : StateE) (c : TcpConnection) : TcpConnection :=
  mkConn (name_ c) s (reading_ c) (channel_ c) (write_complete_callback_ c) (high_water_mark_callback_ c)
    (high_water_mark_ c) (input_buffer_ c) (output_buffer_ c).
Definition set_reading (b : bool) (c : TcpConnection) : TcpConnection :=
  mkConn (name_ c) (state_ c) b (channel_ c) (write_complete_callback_ c) (high_water_mark_callback_ c)
    (high_water_mark_ c) (input_buffer_ c) (output_buffer_ c).
Definition set_input (b : Buffer.Buffer) (c : TcpConnection) : TcpConnection :=
  mkConn (name_ c) (state_ c) (reading_ c) (channel_ c) (write_complete_callback_ c)
    (high_water_mark_callback_ c) (high_water_mark_ c) b (output_buffer_ c).
Definition set_output (b : Buffer.Buffer) (c : TcpConnection) : TcpConnection :=
  mkConn (name_ c) (state_ c) (reading_ c) (channel_ c) (write_complete_callback_ c)
    (high_water_mark_callback_ c) (high_water_mark_ c) (input_buffer_ c) b.

(** Access to a buffer by reference. *)
Definition get_buffer (r : buffer_ref) (w : world) : option Buffer.Buffer :=
  match r with UserBuffer b => buffers w !! b | InputBuffer => Some (input_buffer_ (conn w)) end.
Definition put_buffer (r : buffer_ref) (buf : Buffer.Buffer) (w : world) : world :=
  match r with
  | UserBuffer b => set_buffers (<[b := buf]> (buffers w)) w
  | InputBuffer => set_conn (set_input buf (conn w)) w
  end.

(** [src/include/libfm/fmnet/TcpConnection.h:43-43 TcpConnection::isConnected] *)
Definition isConnected (c : TcpConnection) : bool := bool_decide (state_ c = kConnected).
(** [src/include/libfm/fmnet/TcpConnection.h:44-44 TcpConnection::isDisconnected] *)
Definition isDisconnected (c : TcpConnection) : bool := bool_decide (state_ c = kDisconnected).

(** [src/net/TcpConnection.cpp:296-308 TcpConnection::stateToString] *)
Definition stateToString (s : StateE) : list byte :=
  match s with
  | kConnecting => bytes "kConnecting"
  | kConnected => bytes "kConnected"
  | kDisconnecting => bytes "kDisconneting"
  | kDisconnected => bytes "kDisconnected"
  end.

(** [src/net/TcpConnection.cpp:29-53 TcpConnection::TcpConnection] The channel is built at the
    address [l] of the loop. *)
Definition newConnection (name : list byte) (sockfd : Z) (l : loc) (hasWriteComplete hasHighWaterMark : bool)
    (lp : EventLoop functor channel_cb) : result world :=
  input ← Buffer.new Buffer.kInitialSize;
  output ← Buffer.new Buffer.kInitialSize;
  let c := Channel.newChannel sockfd in
  let c := Channel.setReadCallback CbRead c in
  let c := Channel.setWriteCallback CbWrite c in
  let c := Channel.setCloseCallback CbClose c in
  let c := Channel.setErrorCallback CbError c in
  Ok (mkWorld (addChannel l c lp)
        (mkConn name kConnecting true l hasWriteComplete hasHighWaterMark (1024 * 1024 * 64) input output)
        ∅ ∅ 0 [] false 0).

(** The connection's channel, and a change of its interest. *)
Definition channel (w : world) : result (Channel channel_cb) := getChannel (channel_ (conn w)) (loop_ w).
Definition change_channel (i : Channel.interest) (w : world) : result world :=
  lp ← change true i (channel_ (conn w)) (loop_ w); Ok (with_loop lp w).

Definition queue (inLoop : bool) (f : functor) (w : world) : world := on_loop (queueInLoop inLoop f) w.

Section Operations.
(** The answers of [write(2)] and [readv(2)], given how many calls came before. *)
Variable sys_write : nat → list byte → write_outcome.
Variable sys_readv : nat → Buffer.readv_outcome.

Definition write (data : list byte) (w : world) : write_outcome * world :=
  let o := sys_write (calls w) data in
  (o, mkWorld (loop_ w) (conn w) (strings w) (buffers w) (S (calls w))
        (match o with Wrote n => written w ++ ztake n data | WriteErr _ => written w end)
        (write_shutdown w) (closed_calls w)).

(** The attempt of [sendInLoop] to write without buffering: [nwrote], [remaining],
    [faultError]. *)
Definition direct_write (inLoop : bool) (msg : list byte) (w : world) : Z * Z * bool * world :=
  let len := zlen msg in
  let '(o, w) := write msg w in
  match o with
  | Wrote n =>
      let remaining := sub64 len n in
      (n, remaining, false,
       if (remaining =? 0) && write_complete_callback_ (conn w) then queue inLoop FWriteComplete w else w)
  | WriteErr e =>
      (0, len, negb (e =? EWOULDBLOCK) && ((e =? EPIPE) || (e =? ECONNRESET)), w)
  end.

(** [src/net/TcpConnection.cpp:92-143 TcpConnection::sendInLoop] *)
Definition sendInLoop (inLoop : bool) (msg : list byte) (w : world) : result world :=
  assertInLoopThread inLoop;;
  if decide (state_ (conn w) = kDisconnected) then Ok w
  else
    c ← channel w;
    let '(nwrote, remaining, faultError, w) :=
      if negb (Channel.isWriting c) && (Buffer.readableBytes (output_buffer_ (conn w)) =? 0)
      then direct_write inLoop msg w
      else (0, zlen msg, false, w) in
    assert! (remaining <=? zlen msg);
    if negb faultError && (0 <? remaining) then
      let oldLen := Buffer.readableBytes (output_buffer_ (conn w)) in
      let w := if (high_water_mark_ (conn w) <=? oldLen + remaining) && (oldLen <? high_water_mark_ (conn w))
                    && high_water_mark_callback_ (conn w)
               then queue inLoop (FHighWaterMark (oldLen + remaining)) w else w in
      out ← Buffer.append (zslice nwrote (nwrote + remaining) msg) (output_buffer_ (conn w));
      let w := set_conn (set_output out (conn w)) w in
      c ← channel w;
      if negb (Channel.isWriting c) then change_channel Channel.EnableWriting w else Ok w
    else Ok w.

(** [src/net/TcpConnection.cpp:66-74 TcpConnection::send] *)
Definition send (inLoop : bool) (msg : positive) (w : world) : result world :=
  if decide (state_ (conn w) = kConnected) then
    if inLoop then
      match strings w !! msg with
      | Some s => sendInLoop inLoop s w
      | None => Fault UseAfterFree
      end
    else Ok (queue inLoop (FSendString msg) w)
  else Ok w.

(** [src/net/TcpConnection.cpp:62-64 TcpConnection::send] The string
    it builds, at a free address, ends with the call. *)
Definition send_bytes (inLoop : bool) (tmp : positive) (data : list byte) (w : world) : result world :=
  check! LengthError (zlen data <=? Buffer.max_size);
  w ← send inLoop tmp (set_strings (<[tmp := data]> (strings w)) w);
  Ok (set_strings (delete tmp (strings w)) w).

(** [src/net/TcpConnection.cpp:76-86 TcpConnection::send] *)
Definition send_buffer (inLoop : bool) (b : buffer_ref) (w : world) : result world :=
  if decide (state_ (conn w) = kConnected) then
    if inLoop then
      match get_buffer b w with
      | Some buf =>
          data ← Buffer.toString buf;
          w ← sendInLoop inLoop data w;
          Ok (put_buffer b (Buffer.retrieveAll buf) w)
      | None => Fault UseAfterFree
      end
    else Ok (queue inLoop (FSendBuffer b) w)
  else Ok w.

(** [src/net/TcpConnection.cpp:152-156 TcpConnection::shutdownInLoop] *)
Definition shutdownInLoop (inLoop : bool) (w : world) : result world :=
  assertInLoopThread inLoop;;
  c ← channel w;
  if negb (Channel.isWriting c)
  then Ok (mkWorld (loop_ w) (conn w) (strings w) (buffers w) (calls w) (written w) true (closed_calls w))
  else Ok w.

(** [src/net/TcpConnection.cpp:145-150 TcpConnection::shutdown] *)
Definition shutdown (inLoop : bool) (w : world) : result world :=
  if decide (state_ (conn w) = kConnected) then
    let w := set_conn (setState kDisconnecting (conn w)) w in
    if inLoop then shutdownInLoop inLoop w else Ok (queue inLoop FShutdownInLoop w)
  else Ok w.

(** [src/net/TcpConnection.cpp:158-163 TcpConnection::forceClose] *)
Definition forceClose (inLoop : bool) (w : world) : result world :=
  if decide (state_ (conn w) = kConnected ∨ state_ (conn w) = kDisconnecting) then
    Ok (queue inLoop FForceCloseInLoop (set_conn (setState kDisconnecting (conn w)) w))
  else Ok w.

(** [src/net/TcpConnection.cpp:171-176 TcpConnection::forceCloseWithDelay] *)
Definition forceCloseWithDelay (w : world) : result world :=
  if decide (state_ (conn w) = kConnected ∨ state_ (conn w) = kDisconnecting)
  then Ok (set_conn (setState kDisconnecting (conn w)) w)
  else Ok w.

(** [src/net/TcpConnection.cpp:187-193 TcpConnection::startReadInLoop] *)
Definition startReadInLoop (inLoop : bool) (w : world) : result world :=
  assertInLoopThread inLoop;;
  c ← channel w;
  if negb (reading_ (conn w)) || negb (Channel.isReading c) then
    w ← change_channel Channel.EnableReading w;
    Ok (set_conn (set_reading true (conn w)) w)
  else Ok w.

(** [src/net/TcpConnection.cpp:182-185 TcpConnection::startRead] *)
Definition startRead (inLoop : bool) (w : world) : result world :=
  if inLoop then startReadInLoop inLoop w else Ok (queue inLoop FStartReadInLoop w).

(** [src/net/TcpConnection.cpp:199-205 TcpConnection::stopReadInLoop] *)
Definition stopReadInLoop (inLoop : bool) (w : world) : result world :=
  assertInLoopThread inLoop;;
  c ← channel w;
  if reading_ (conn w) || Channel.isReading c then
    w ← change_channel Channel.DisableReading w;
    Ok (set_conn (set_reading false (conn w)) w)
  else Ok w.

(** [src/net/TcpConnection.cpp:195-197 TcpConnection::stopRead] *)
Definition stopRead (inLoop : bool) (w : world) : result world :=
  if inLoop then stopReadInLoop inLoop w else Ok (queue inLoop FStopReadInLoop w).

(** ** The user's callbacks *)

(** What a callback does with the connection, in the loop's thread. *)
Inductive user_call :=
  | USend (tmp : positive) (data : list byte)
  | USendString (msg : positive)
  | USendBuffer (b : buffer_ref)
  | UShutdown
  | UForceClose
  | UForceCloseWithDelay
  | UStartRead
  | UStopRead
  | URetrieve (n : N)                  (** up to [n] bytes *)
  | URetrieveAll
  | UQuit.                             (** [quit] on the connection's loop *)

Definition exec_call (inLoop : bool) (a : user_call) (w : world) : result world :=
  match a with
  | USend tmp data => send_bytes inLoop tmp data w
  | USendString msg => send inLoop msg w
  | USendBuffer b => send_buffer inLoop b w
  | UShutdown => shutdown inLoop w
  | UForceClose => forceClose inLoop w
  | UForceCloseWithDelay => forceCloseWithDelay w
  | UStartRead => startRead inLoop w
  | UStopRead => stopRead inLoop w
  | URetrieve n =>
      b ← Buffer.retrieve (Z.min (Z.of_N n) (Buffer.readableBytes (input_buffer_ (conn w)))) (input_buffer_ (conn w));
      Ok (set_conn (set_input b (conn w)) w)
  | URetrieveAll => Ok (set_conn (set_input (Buffer.retrieveAll (input_buffer_ (conn w))) (conn w)) w)
  | UQuit => Ok (on_loop (quit inLoop) w)
  end.

Variable behaviour : user_event → world → list user_call.

Definition user (e : user_event) (w : world) : result world := foldM (exec_call true) (behaviour e w) w.

(** [close_callback_], which reports to the server or client that owns the connection. *)
Definition close_callback (w : world) : world :=
  mkWorld (loop_ w) (conn w) (strings w) (buffers w) (calls w) (written w) (write_shutdown w) (S (closed_calls w)).

(** [src/net/TcpConnection.cpp:207-216 TcpConnection::connectEstablished] *)
Definition connectEstablished (inLoop : bool) (self : loc) (w : world) : result world :=
  assertInLoopThread inLoop;;
  assert! (bool_decide (state_ (conn w) = kConnecting));
  let w := set_conn (setState kConnected (conn w)) w in
  c ← channel w;
  let w := on_loop (fun lp => set_poller (<[channel_ (conn w) := Channel.tie self c]> (channels lp)) (poller_ lp) lp) w in
  w ← change_channel Channel.EnableReading w;
  user OnConnection w.

(** [src/net/TcpConnection.cpp:218-237 TcpConnection::connectDestroyed] *)
Definition connectDestroyed (inLoop : bool) (w : world) : result world :=
  assertInLoopThread inLoop;;
  w ← (if decide (state_ (conn w) = kConnected) then
         w ← change_channel Channel.DisableAll (set_conn (setState kDisconnected (conn w)) w);
         user OnConnection w
       else Ok w);
  lp ← remove true (channel_ (conn w)) (loop_ w);
  Ok (with_loop lp w).

(** [src/net/TcpConnection.cpp:276-288 TcpConnection::handleClose] *)
Definition handleClose (inLoop : bool) (w : world) : result world :=
  assertInLoopThread inLoop;;
  assert! (bool_decide (state_ (conn w) = kConnected ∨ state_ (conn w) = kDisconnecting));
  w ← change_channel Channel.DisableAll (set_conn (setState kDisconnected (conn w)) w);
  w ← user OnConnection w;
  Ok (close_callback w).

(** [src/net/TcpConnection.cpp:290-294 TcpConnection::handleError] It reads the socket's error and logs it. *)
Definition handleError (w : world) : result world := Ok w.

(** [src/net/TcpConnection.cpp:165-169 TcpConnection::forceCloseInLoop] *)
Definition forceCloseInLoop (inLoop : bool) (w : world) : result world :=
  assertInLoopThread inLoop;;
  if decide (state_ (conn w) = kConnected ∨ state_ (conn w) = kDisconnecting)
  then handleClose inLoop w
  else Ok w.

(** [src/net/TcpConnection.cpp:239-252 TcpConnection::handleRead] *)
Definition handleRead (inLoop : bool) (receiveTime : Z) (w : world) : result world :=
  assertInLoopThread inLoop;;
  '(n, _, input) ← Buffer.readFd (sys_readv (calls w)) (input_buffer_ (conn w));
  let w := mkWorld (loop_ w) (set_input input (conn w)) (strings w) (buffers w) (S (calls w)) (written w)
             (write_shutdown w) (closed_calls w) in
  if 0 <? n then user (OnMessage receiveTime) w
  else if n =? 0 then handleClose inLoop w
  else handleError w.

(** [src/net/TcpConnection.cpp:254-274 TcpConnection::handleWrite] *)
Definition handleWrite (inLoop : bool) (w : world) : result world :=
  assertInLoopThread inLoop;;
  c ← channel w;
  if Channel.isWriting c then
    data ← Buffer.toString (output_buffer_ (conn w));
    let '(o, w) := write data w in
    match o with
    | Wrote n =>
        if 0 <? n then
          out ← Buffer.retrieve n (output_buffer_ (conn w));
          let w := set_conn (set_output out (conn w)) w in
          if Buffer.readableBytes out =? 0 then
            w ← change_channel Channel.DisableWriting w;
            let w := if write_complete_callback_ (conn w) then queue inLoop FWriteComplete w else w in
            if decide (state_ (conn w) = kDisconnecting) then shutdownInLoop inLoop w else Ok w
          else Ok w
        else Ok w
    | WriteErr _ => Ok w
    end
  else Ok w.

(** A functor of the loop's queue, run by the loop. *)
Definition run_functor (f : functor) (w : world) : result world :=
  match f with
  | FSendString msg => send true msg w
  | FSendBuffer b =>
      match get_buffer b w with
      | Some buf =>
          '(data, buf) ← Buffer.retrieveAllAsString buf;
          let w := put_buffer b buf w in
          if decide (state_ (conn w) = kConnected) then sendInLoop true data w else Ok w
      | None => Fault UseAfterFree
      end
  | FWriteComplete => user OnWriteComplete w
  | FHighWaterMark n => user (OnHighWaterMark n) w
  | FShutdownInLoop => shutdownInLoop true w
  | FForceCloseInLoop => forceCloseInLoop true w
  | FStartReadInLoop => startReadInLoop true w
  | FStopReadInLoop => stopReadInLoop true w
  | FConnectDestroyed => connectDestroyed true w
  end.

(** A callback of the connection's channel. *)
Definition run_callback (cb : channel_cb) (t : Z) (w : world) : result world :=
  match cb with
  | CbRead => handleRead true t w
  | CbWrite => handleWrite true w
  | CbClose => handleClose true w
  | CbError => handleError w
  end.

(** [src/net/TcpConnection.cpp:55-60 TcpConnection::~TcpConnection] with the destructor of the channel. *)
Definition destroyConnection (inLoop : bool) (w : world) : result world :=
  assert! (bool_decide (state_ (conn w) = kDisconnected));
  lp ← destroyChannel inLoop (channel_ (conn w)) (loop_ w);
  Ok (with_loop lp w).
End Operations.

(** [src/net/TcpConnection.cpp:24-27 defaultMessageCallback] *)
Definition defaultMessageCallback (b : Buffer.Buffer) : Buffer.Buffer := Buffer.retrieveAll b.

End TcpConnection.
