(* ===== verification/TcpConnectionSpec.v ===== *)
(** * What a connection promises

    The bytes accepted by [send] reach the kernel in order, none lost and none twice, and
    the write side is shut down only behind the last of them; the state only moves forward
    and the close callback runs once; writing is watched for exactly while bytes are waiting.
    And the ways in which the interface, used from another thread, breaks these promises. *)
From stdpp Require Import base list gmap numbers strings.
From Stdlib Require Import ZArith Lia Init.Byte.
From S2P Require Import Prelude.
From S2P Require Import ByteBuffer.
From S2P Require Import Channel.
From S2P Require Import Poller.
From S2P Require Import EventLoop.
From S2P Require Import TcpConnection.
Import EventLoop.EventLoop TcpConnection.TcpConnection.
#[local] Open Scope Z_scope.
#[local] Open Scope fm_scope.

(** ** Event masks *)

Lemma has_bits_lor_self e m : m ≠ 0 → has_bits (Z.lor e m) m = true.
Proof.
  intros Hm. unfold has_bits. rewrite Z.land_lor_distr_l, Z.land_diag.
  apply negb_true_iff, Z.eqb_neq. intros [_ ?]%Z.lor_eq_0_iff. done.
Qed.

Lemma has_bits_lor_other e m m' : Z.land m m' = 0 → has_bits (Z.lor e m) m' = has_bits e m'.
Proof. intros Hm. unfold has_bits. by rewrite Z.land_lor_distr_l, Hm, Z.lor_0_r. Qed.

Lemma has_bits_ldiff_other e m m' : Z.land (Z.lnot m) m' = m' → has_bits (Z.land e (Z.lnot m)) m' = has_bits e m'.
Proof. intros Hm. unfold has_bits. by rewrite <- Z.land_assoc, Hm. Qed.

Lemma isWriting_changed i (c : Channel channel_cb) :
  Channel.isWriting (changed i c) =
  match i with
  | Channel.EnableWriting => true
  | Channel.DisableWriting | Channel.DisableAll => false
  | _ => Channel.isWriting c
  end.
Proof.
  unfold Channel.isWriting, changed. cbn [Channel.events_ Channel.set_index Channel.set_added_to_loop Channel.set_events].
  destruct i; cbn [Channel.change_events].
  - by apply has_bits_lor_other.
  - by apply has_bits_lor_self.
  - by apply has_bits_ldiff_other.
  - unfold has_bits. rewrite <- Z.land_assoc.
    change (Z.land (Z.lnot Channel.kWriteEvent) Channel.kWriteEvent) with 0. by rewrite Z.land_0_r.
  - done.
Qed.

Lemma index_changed i (c : Channel channel_cb) : Channel.index_ (changed i c) ≠ Epoller.kNew.
Proof. unfold changed. cbn [Channel.index_ Channel.set_index]. by destruct (_ && _). Qed.

(** ** The invariant *)

Definition out (w : world) : list byte := Buffer.content (output_buffer_ (conn w)).

(** Everything accepted so far: what the kernel took, then what waits. *)
Definition stream (w : world) : list byte := written w ++ out w.

Definition rank (s : StateE) : nat :=
  match s with kConnecting => 0 | kConnected => 1 | kDisconnecting => 2 | kDisconnected => 3 end.

(** The channel in each state of the connection. *)
Definition channel_fits (s : StateE) (waiting : list byte) (c : Channel channel_cb) (lp : EventLoop functor channel_cb) : Prop :=
  match s with
  | kConnecting => Channel.index_ c = Epoller.kNew ∧ Epoller.channels_ (poller_ lp) !! Channel.fd_ c = None ∧
                   waiting = [] ∧ Channel.events_ c = 0
  | kConnected | kDisconnecting => Channel.index_ c ≠ Epoller.kNew ∧ (Channel.isWriting c = true ↔ waiting ≠ [])
  | kDisconnected => Channel.index_ c ≠ Epoller.kNew ∧ Channel.isNoneEvent c = true
  end.

(** The strings and buffers a queued functor refers to exist. *)
Definition functor_fits (w : world) (f : functor) : Prop :=
  match f with
  | FSendString p => is_Some (strings w !! p)
  | FSendBuffer b => is_Some (get_buffer b w)
  | FShutdownInLoop => (2 ≤ rank (state_ (conn w)))%nat
  | FStopReadInLoop => (1 ≤ rank (state_ (conn w)))%nat
  | FStartReadInLoop | FConnectDestroyed => False
  | FWriteComplete | FHighWaterMark _ | FForceCloseInLoop => True
  end.

Record cinv (w : world) : Prop := {
  ci_loop : ok (loop_ w);
  ci_in : Buffer.wf (input_buffer_ (conn w));
  ci_out : Buffer.wf (output_buffer_ (conn w));
  ci_strings : ∀ p s, strings w !! p = Some s → zlen s ≤ Buffer.max_size;
  ci_buffers : ∀ p b, buffers w !! p = Some b → Buffer.wf b;
  ci_pending : Forall (functor_fits w) (pending_functors_ (loop_ w));
  ci_channel : ∃ c, channels (loop_ w) !! channel_ (conn w) = Some c ∧
                 channel_fits (state_ (conn w)) (out w) c (loop_ w);
  ci_shut : write_shutdown w = true →
    state_ (conn w) = kDisconnected ∨ (state_ (conn w) = kDisconnecting ∧ out w = []);
  ci_closed : (closed_calls w ≤ 1)%nat ∧ (closed_calls w = 1%nat → state_ (conn w) = kDisconnected)
}.

(** What no step takes back. *)
Record evolves (w w' : world) : Prop := {
  ev_stream : stream w `prefix_of` stream w';
  ev_written : written w `prefix_of` written w';
  ev_rank : (rank (state_ (conn w)) ≤ rank (state_ (conn w')))%nat;
  ev_closed : (closed_calls w ≤ closed_calls w')%nat;
  ev_shut : write_shutdown w = true → write_shutdown w' = true;
  ev_frozen : (2 ≤ rank (state_ (conn w)))%nat → stream w' = stream w
}.

#[export] Instance evolves_preorder : PreOrder evolves.
Proof.
  split.
  - intros w. constructor; done.
  - intros w1 w2 w3 [] []. constructor; [by etrans | by etrans | lia | lia | auto |].
    intros Hr. transitivity (stream w2); [|auto]. apply ev_frozen1. lia.
Qed.

(** What the calls of a callback leave alone. *)
Record quiet (w w' : world) : Prop := {
  qu_strings : strings w' = strings w;
  qu_buffers : dom (buffers w') = dom (buffers w);
  qu_closed : closed_calls w' = closed_calls w;
  qu_down : state_ (conn w') = kDisconnected ↔ state_ (conn w) = kDisconnected;
  qu_pending : ∃ fs, pending_functors_ (loop_ w') = pending_functors_ (loop_ w) ++ fs
}.

#[export] Instance quiet_preorder : PreOrder quiet.
Proof.
  split.
  - intros w. constructor; try done. exists []. by rewrite app_nil_r.
  - intros w1 w2 w3 [H1 H2 H3 H4 [f1 H5]] [G1 G2 G3 G4 [f2 G5]]. constructor; [congruence..| |].
    + by rewrite G4.
    + exists (f1 ++ f2). by rewrite G5, H5, app_assoc.
Qed.

(** A step that is fine: it keeps the invariant and takes nothing back. *)
Definition good (w w' : world) : Prop := cinv w' ∧ evolves w w'.
Definition good_quiet (w w' : world) : Prop := cinv w' ∧ evolves w w' ∧ quiet w w'.

Lemma good_quiet_good w w' : good_quiet w w' → good w w'.
Proof. by intros (? & ? & _). Qed.

Lemma good_quiet_trans w1 w2 w3 : good_quiet w1 w2 → good_quiet w2 w3 → good_quiet w1 w3.
Proof. intros (? & ? & ?) (? & ? & ?). split; [done|]. split; by etrans. Qed.

(** Functors that refer to nothing. *)
Definition free_functor (f : functor) : Prop :=
  match f with FWriteComplete | FHighWaterMark _ => True | _ => False end.

(** A step that neither sends nor touches what others own; it may queue callbacks. *)
Record steady (w w' : world) : Prop := {
  sy_stream : stream w' = stream w;
  sy_strings : strings w' = strings w;
  sy_pending : ∃ fs, pending_functors_ (loop_ w') = pending_functors_ (loop_ w) ++ fs ∧ Forall free_functor fs
}.

#[export] Instance steady_preorder : PreOrder steady.
Proof.
  split.
  - intros w. constructor; try done. exists []. by rewrite app_nil_r.
  - intros w1 w2 w3 [H1 H2 (f1 & H3 & Hf1)] [G1 G2 (f2 & G3 & Hf2)]. constructor; [congruence..|].
    exists (f1 ++ f2). rewrite G3, H3, app_assoc. split; [done|]. by apply Forall_app.
Qed.

Lemma steady_same w w' :
  stream w' = stream w → strings w' = strings w → pending_functors_ (loop_ w') = pending_functors_ (loop_ w) → steady w w'.
Proof. intros. constructor; try done. exists []. by rewrite app_nil_r. Qed.

Definition same_state (w w' : world) : Prop :=
  state_ (conn w') = state_ (conn w) ∧ input_buffer_ (conn w') = input_buffer_ (conn w).

Section Connection.
Variable sys_write : nat → list byte → write_outcome.
Hypothesis write_bounded : ∀ n d k, sys_write n d = Wrote k → 0 ≤ k ≤ zlen d.

Lemma channel_lookup w c : channels (loop_ w) !! channel_ (conn w) = Some c → channel w = Ok c.
Proof. intros Hc. unfold channel, getChannel. by apply Epoller.deref_lookup. Qed.

(** A change of interest on a registered channel. *)
Lemma change_channel_ok i w c :
  ok (loop_ w) → channels (loop_ w) !! channel_ (conn w) = Some c → fd_free c (loop_ w) →
  ∃ lp, change_channel i w = Ok (with_loop lp w) ∧ ok lp ∧
    channels lp !! channel_ (conn w) = Some (changed i c) ∧
    pending_functors_ lp = pending_functors_ (loop_ w).
Proof.
  intros Hok Hc Hf. unfold change_channel.
  destruct (change_ok (loop_ w) (channel_ (conn w)) c i Hok Hc Hf) as (ep & -> & Hok' & _).
  rewrite bind_Ok. eexists. split; [done|]. split; [done|]. cbn [channels set_poller pending_functors_].
  by rewrite lookup_insert_eq.
Qed.

Lemma fd_free_registered (c : Channel channel_cb) (lp : EventLoop functor channel_cb) :
  Channel.index_ c ≠ Epoller.kNew → fd_free c lp.
Proof. by intros ? ?. Qed.

(** ** sendInLoop *)

Definition fatal (e : Z) : bool := negb (e =? EWOULDBLOCK) && ((e =? EPIPE) || (e =? ECONNRESET)).

(** What [sendInLoop] makes of a message: the bytes written at once, the bytes kept, and the
    functors queued. *)
Definition direct_part (w : world) (msg : list byte) : list byte * list byte * list functor :=
  if decide (out w = []) then
    match sys_write (calls w) msg with
    | Wrote n => (ztake n msg, zdrop n msg,
                  if (zlen (zdrop n msg) =? 0) && write_complete_callback_ (conn w) then [FWriteComplete] else [])
    | WriteErr e => ([], if fatal e then [] else msg, [])
    end
  else ([], msg, []).

Definition high_water (w : world) (kept : list byte) : list functor :=
  if (0 <? zlen kept) && (high_water_mark_ (conn w) <=? zlen (out w) + zlen kept)
     && (zlen (out w) <? high_water_mark_ (conn w)) && high_water_mark_callback_ (conn w)
  then [FHighWaterMark (zlen (out w) + zlen kept)] else [].

Record sent (msg : list byte) (w w' : world) : Prop := {
  se_written : written w' = written w ++ (direct_part w msg).1.1;
  se_out : out w' = out w ++ (direct_part w msg).1.2;
  se_pending : pending_functors_ (loop_ w') =
    pending_functors_ (loop_ w) ++ (direct_part w msg).2 ++ high_water w (direct_part w msg).1.2;
  se_channel : ∃ c, channels (loop_ w') !! channel_ (conn w') = Some c ∧ Channel.index_ c ≠ Epoller.kNew ∧
    (Channel.isWriting c = true ↔ out w' ≠ []);
  se_loop : ok (loop_ w');
  se_buf : Buffer.wf (output_buffer_ (conn w'));
  se_conn : ∃ o, conn w' = set_output o (conn w);
  se_rest : strings w' = strings w ∧ buffers w' = buffers w ∧ closed_calls w' = closed_calls w ∧
            write_shutdown w' = write_shutdown w
}.

(** The registered channel of a connection that is up. *)
Definition registered_channel (w : world) : Prop :=
  ∃ c, channels (loop_ w) !! channel_ (conn w) = Some c ∧ Channel.index_ c ≠ Epoller.kNew ∧
       (Channel.isWriting c = true ↔ out w ≠ []).

(** The tail of [sendInLoop]: keeping bytes. *)
Definition keep (remaining : Z) (kept : list byte) (w : world) : result world :=
  let oldLen := Buffer.readableBytes (output_buffer_ (conn w)) in
  let w := if (high_water_mark_ (conn w) <=? oldLen + remaining) && (oldLen <? high_water_mark_ (conn w))
                && high_water_mark_callback_ (conn w)
           then queue true (FHighWaterMark (oldLen + remaining)) w else w in
  o ← Buffer.append kept (output_buffer_ (conn w));
  let w := set_conn (set_output o (conn w)) w in
  c ← channel w;
  if negb (Channel.isWriting c) then change_channel Channel.EnableWriting w else Ok w.

Lemma keep_ok w kept :
  ok (loop_ w) → Buffer.wf (output_buffer_ (conn w)) → registered_channel w →
  0 < zlen kept ≤ Buffer.max_size →
  fine (fun w' => written w' = written w ∧ out w' = out w ++ kept ∧
          pending_functors_ (loop_ w') = pending_functors_ (loop_ w) ++ high_water w kept ∧
          registered_channel w' ∧ ok (loop_ w') ∧ Buffer.wf (output_buffer_ (conn w')) ∧
          (∃ o, conn w' = set_output o (conn w)) ∧ strings w' = strings w ∧ buffers w' = buffers w ∧
          closed_calls w' = closed_calls w ∧ write_shutdown w' = write_shutdown w)
    (keep (zlen kept) kept w).
Proof.
  intros Hok Hb (c & Hc & Hi & Hw) Hk. unfold keep.
  rewrite <- (Buffer.zlen_content (output_buffer_ (conn w))) by done. fold (out w).
  set (w1 := if (_ : bool) then queue true _ w else w).
  assert (H1 : conn w1 = conn w ∧ written w1 = written w ∧ strings w1 = strings w ∧ buffers w1 = buffers w ∧
     closed_calls w1 = closed_calls w ∧ write_shutdown w1 = write_shutdown w ∧
     channels (loop_ w1) = channels (loop_ w) ∧ poller_ (loop_ w1) = poller_ (loop_ w) ∧
     pending_functors_ (loop_ w1) = pending_functors_ (loop_ w) ++ high_water w kept).
  { unfold w1, high_water. rewrite (proj2 (Z.ltb_lt 0 (zlen kept))) by lia. cbn [andb].
    destruct (_ && _ && _); [|by rewrite app_nil_r].
    destruct (queueInLoop_frame true (FHighWaterMark (zlen (out w) + zlen kept)) (loop_ w)) as (? & ? & ?). done. }
  clearbody w1. destruct H1 as (Hconn & Hwr & Hst & Hbu & Hcl & Hsh & Hch & Hpo & Hpe). rewrite Hconn.
  eapply fine_bind; [apply Buffer.append_fine; [done|lia]|]. intros o [Ho Hco]. cbv zeta.
  set (w2 := set_conn (set_output o (conn w)) w1).
  assert (Hc2 : channels (loop_ w2) !! channel_ (conn w2) = Some c) by (unfold w2; cbn [loop_ set_conn conn channel_ set_output]; by rewrite Hch).
  assert (Hok2 : ok (loop_ w2)) by (unfold ok, w2; cbn [loop_ set_conn]; by rewrite Hch, Hpo).
  rewrite (channel_lookup w2 c) by done. rewrite bind_Ok.
  assert (Hne : out w ++ kept ≠ []) by (intros [_ ->]%app_nil; unfold zlen in Hk; simpl in Hk; lia).
  assert (Hout2 : out w2 = out w ++ kept) by done.
  destruct (Channel.isWriting c) eqn:Hwr'; cbn [negb].
  - cbn [fine]. rewrite Hout2. split_and!; try done; [|by exists o].
    exists c. split; [done|]. split; [done|]. by rewrite Hwr', Hout2.
  - destruct (change_channel_ok Channel.EnableWriting w2 c Hok2 Hc2 (fd_free_registered _ _ Hi))
      as (lp & -> & Hok3 & Hc3 & Hp3).
    cbn [fine written with_loop world_HasLoop loop_ conn strings buffers closed_calls write_shutdown].
    split_and!; try done.
    + rewrite Hp3. done.
    + exists (changed Channel.EnableWriting c). split; [done|]. split; [apply index_changed|].
      rewrite isWriting_changed. split; [intros _; rewrite <- Hout2 in Hne; exact Hne | done].
    + by exists o.
Qed.

(** Between the two halves of [sendInLoop]: [wr] has been written, [kept] remains, [fs] is queued. *)
Record offered (msg : list byte) (w : world) (wr kept : list byte) (fs : list functor) (w1 : world) : Prop := {
  of_part : direct_part w msg = (wr, kept, fs);
  of_conn : conn w1 = conn w;
  of_written : written w1 = written w ++ wr;
  of_loop : channels (loop_ w1) = channels (loop_ w) ∧ poller_ (loop_ w1) = poller_ (loop_ w);
  of_pending : pending_functors_ (loop_ w1) = pending_functors_ (loop_ w) ++ fs;
  of_rest : strings w1 = strings w ∧ buffers w1 = buffers w ∧ closed_calls w1 = closed_calls w ∧
            write_shutdown w1 = write_shutdown w
}.

(** The second half. *)
Lemma offered_sent msg w wr kept fs w1 :
  ok (loop_ w) → Buffer.wf (output_buffer_ (conn w)) → registered_channel w → zlen kept ≤ Buffer.max_size →
  offered msg w wr kept fs w1 →
  fine (sent msg w) (if 0 <? zlen kept then keep (zlen kept) kept w1 else Ok w1).
Proof.
  intros Hok Hb (c & Hc & Hi & Hw) Hlen [Hd Hcn Hwr [Hch Hpo] Hpe (Hst & Hbu & Hcl & Hsh)].
  assert (Hout : out w1 = out w) by (unfold out; by rewrite Hcn).
  assert (Hhw : high_water w1 kept = high_water w kept) by (unfold high_water; by rewrite Hout, Hcn).
  assert (Hok1 : ok (loop_ w1)) by (unfold ok; by rewrite Hch, Hpo).
  assert (Hreg : registered_channel w1) by (exists c; rewrite Hch, Hcn, Hout; done).
  destruct (Z.ltb_spec 0 (zlen kept)) as [Hpos|Hzero].
  - eapply fine_impl; [apply keep_ok; [done | by rewrite Hcn | done | lia]|].
    intros w' (Hw' & Ho' & Hp' & Hreg' & Hok' & Hb' & [o Hcn'] & ? & ? & ? & ?). constructor; rewrite ?Hd; cbn [fst snd].
    + congruence.
    + by rewrite Ho', Hout.
    + by rewrite Hp', Hpe, Hhw, <- app_assoc.
    + done.
    + done.
    + done.
    + exists o. congruence.
    + split_and!; congruence.
  - assert (kept = []) as -> by (destruct kept; [done | rewrite zlen_cons in Hzero; pose proof (zlen_nonneg kept); lia]).
    constructor; rewrite ?Hd; cbn [fst snd]; rewrite ?app_nil_r; try done.
    + by rewrite Hcn.
    + exists (output_buffer_ (conn w)). rewrite Hcn. by destruct (conn w).
Qed.

(** The first half, when nothing is waiting. *)
Lemma direct_write_offered w msg :
  out w = [] → zlen msg ≤ Buffer.max_size →
  let '(n, remaining, fault, w1) := direct_write sys_write true msg w in
  remaining ≤ zlen msg ∧ ∃ wr kept fs, offered msg w wr kept fs w1 ∧
    if (fault : bool) then kept = [] else remaining = zlen kept ∧ zslice n (n + remaining) msg = kept.
Proof.
  intros Ho Hm. pose proof (zlen_nonneg msg) as Hm0. unfold direct_write, write.
  destruct (sys_write (calls w) msg) as [n|e] eqn:Hsys; cbv beta iota zeta.
  - pose proof (write_bounded _ _ _ Hsys) as Hn. rewrite sub64_small by (unfold Buffer.max_size, two64 in *; lia).
    assert (Hkl : zlen (zdrop n msg) = zlen msg - n) by (by apply zlen_zdrop). rewrite <- Hkl. split; [lia|].
    exists (ztake n msg), (zdrop n msg),
      (if (zlen (zdrop n msg) =? 0) && write_complete_callback_ (conn w) then [FWriteComplete] else []).
    split; [|split; [done | unfold zslice; rewrite ztake_all by lia; done]].
    set (w0 := mkWorld _ _ _ _ _ _ _ _).
    change (write_complete_callback_ (conn w0)) with (write_complete_callback_ (conn w)).
    assert (Hd : direct_part w msg = (ztake n msg, zdrop n msg, if (zlen (zdrop n msg) =? 0) && write_complete_callback_ (conn w)
       then [FWriteComplete] else [])) by (unfold direct_part; by rewrite decide_True, Hsys).
    destruct (_ && _); [|constructor; try done; by rewrite app_nil_r].
    destruct (queueInLoop_frame true FWriteComplete (loop_ w)) as (? & ? & ?). by constructor.
  - split; [lia|]. exists [], (if fatal e then [] else msg), []. fold (fatal e). split.
    + constructor; try done; [unfold direct_part; by rewrite decide_True, Hsys | by rewrite app_nil_r..].
    + destruct (fatal e); [done|]. split; [done|]. unfold zslice. by rewrite zdrop_0, ztake_all by lia.
Qed.

Lemma sendInLoop_sent w msg :
  ok (loop_ w) → Buffer.wf (output_buffer_ (conn w)) → registered_channel w →
  state_ (conn w) ≠ kDisconnected → zlen msg ≤ Buffer.max_size →
  fine (sent msg w) (sendInLoop sys_write true msg w).
Proof.
  intros Hok Hb Hreg Hs Hm. pose proof Hreg as (c & Hc & Hi & Hw). unfold sendInLoop. cbn [assertInLoopThread ensure].
  rewrite bind_Ok, decide_False by done. rewrite (channel_lookup w c), bind_Ok by done.
  rewrite <- Buffer.zlen_content by done. fold (out w).
  assert (Hdirect : negb (Channel.isWriting c) && (zlen (out w) =? 0) = bool_decide (out w = [])).
  { destruct (decide (out w = [])) as [Ho|Ho].
    - rewrite (bool_decide_eq_true_2 _ Ho). destruct (Channel.isWriting c); [by apply Hw in Ho|]. by rewrite Ho.
    - rewrite (bool_decide_eq_false_2 _ Ho). by rewrite (proj2 Hw Ho). }
  rewrite Hdirect. case_bool_decide as Ho.
  - pose proof (direct_write_offered w msg Ho Hm) as Hof.
    destruct (direct_write sys_write true msg w) as [[[n remaining] fault] w1].
    destruct Hof as (Hle & wr & kept & fs & Hof & Hk). rewrite (proj2 (Z.leb_le remaining _)) by done.
    cbn [ensure]. rewrite bind_Ok. destruct fault; cbn [negb andb].
    + subst kept. by apply (offered_sent msg w wr [] fs w1) in Hof.
    + destruct Hk as [-> Hsl]. rewrite Hsl. apply (offered_sent msg w wr kept fs w1); try done. lia.
  - rewrite (proj2 (Z.leb_le (zlen msg) (zlen msg))) by lia. cbn [ensure negb andb]. rewrite bind_Ok.
    rewrite Z.add_0_l. replace (zslice 0 (zlen msg) msg) with msg by (unfold zslice; by rewrite zdrop_0, ztake_all by lia).
    apply (offered_sent msg w [] msg [] w); try done.
    constructor; rewrite ?app_nil_r; try done. unfold direct_part. by rewrite decide_False.
Qed.

(** ** Steps that keep the promises *)

Lemma sent_stream msg w w' :
  sent msg w w' → stream w' = stream w ++ (direct_part w msg).1.1 ++ (direct_part w msg).1.2.
Proof.
  intros [Hw Ho _ _ _ _ _ _]. unfold stream. rewrite Hw, Ho. unfold direct_part. case_decide as He.
  - rewrite He, !app_nil_r. cbn [app]. by rewrite <- app_assoc.
  - cbn [fst snd app]. by rewrite !app_nil_r, app_assoc.
Qed.

Lemma sent_functors msg w w' :
  sent msg w w' →
  ∃ fs, pending_functors_ (loop_ w') = pending_functors_ (loop_ w) ++ fs ∧ Forall free_functor fs.
Proof.
  intros [_ _ Hp _ _ _ _ _]. eexists. split; [exact Hp|]. apply Forall_app. split.
  - unfold direct_part. case_decide; [|constructor]. destruct (sys_write _ _); [|constructor].
    cbn [snd]. destruct (_ && _); repeat constructor.
  - unfold high_water. destruct (_ && _); repeat constructor.
Qed.

(** The message is accepted whole, unless the peer is found to be gone. *)
Definition accepted (msg : list byte) (w w' : world) : Prop :=
  stream w' = stream w ++ msg ∨
  (out w = [] ∧ (sys_write (calls w) msg = WriteErr EPIPE ∨ sys_write (calls w) msg = WriteErr ECONNRESET) ∧
   stream w' = stream w).

Lemma sent_accepted msg w w' : sent msg w w' → accepted msg w w'.
Proof.
  intros Hs. apply sent_stream in Hs. unfold accepted. rewrite Hs. unfold direct_part.
  case_decide as Ho; [|by left].
  destruct (sys_write (calls w) msg) as [n|e]; cbn [fst snd].
  - left. by rewrite ztake_zdrop.
  - destruct (fatal e) eqn:Hf; [right | by left]. split; [done|]. split; [|by rewrite !app_nil_r].
    unfold fatal, EWOULDBLOCK, EPIPE, ECONNRESET in *.
    destruct (Z.eqb_spec e 32) as [E|]; [left; by rewrite E|]. destruct (Z.eqb_spec e 104) as [E|]; [right; by rewrite E|].
    by rewrite andb_false_r in Hf.
Qed.

Lemma functor_fits_mono w w' f :
  (∀ p, is_Some (strings w !! p) → is_Some (strings w' !! p)) →
  (∀ p, is_Some (buffers w !! p) → is_Some (buffers w' !! p)) →
  (rank (state_ (conn w)) ≤ rank (state_ (conn w')))%nat → functor_fits w f → functor_fits w' f.
Proof. intros Hs Hb Hr. destruct f as [|[]| | | | | | |]; simpl; eauto; lia. Qed.

Lemma sent_good msg w w' :
  cinv w → state_ (conn w) = kConnected → sent msg w w' → good_quiet w w'.
Proof.
  intros Hi Hs Hsent. pose proof (sent_stream _ _ _ Hsent) as Hstr.
  destruct Hsent as [Hw Ho Hp (c & Hc & Hix & Hwr) Hl Hb [o Hcn] (Hst & Hbu & Hcl & Hsh)].
  assert (Hstate : state_ (conn w') = kConnected) by (rewrite Hcn; done).
  split_and!.
  - constructor; rewrite ?Hst, ?Hbu, ?Hcl, ?Hsh, ?Hstate; try apply Hi; try done.
    + rewrite Hcn. apply Hi.
    + rewrite Hp. apply Forall_app. split.
      * eapply Forall_impl; [apply Hi|]. intros f. apply functor_fits_mono; rewrite ?Hst, ?Hbu, ?Hstate, ?Hs; done.
      * apply Forall_app. split.
        -- unfold direct_part. case_decide; [|constructor]. destruct (sys_write _ _); [|constructor].
           cbn [snd]. destruct (_ && _); repeat constructor.
        -- unfold high_water. destruct (_ && _); repeat constructor.
    + exists c. done.
    + intros Hshut. apply (ci_shut _ Hi) in Hshut. rewrite Hs in Hshut. naive_solver.
    + rewrite <- Hs. apply (ci_closed _ Hi).
  - constructor; rewrite ?Hstate, ?Hs, ?Hcl, ?Hsh; try done.
    + rewrite Hstr. by eexists.
    + rewrite Hw. by eexists.
    + simpl. lia.
  - constructor; rewrite ?Hstate, ?Hs; try done; [by rewrite Hbu | by eexists].
Qed.

(** Reaching a string from a temporary does not matter. *)
Lemma sent_tmp msg w w' m :
  sent msg (set_strings m w) w' → sent msg w (set_strings (strings w) w').
Proof.
  intros [Hw Ho Hp Hc Hl Hb Hcn (Hst & Hbu & Hcl & Hsh)]. constructor; try done.
Qed.

(** What a callback may be asked to do in a state: temporaries are fresh, strings and buffers exist,
    reading is switched on only while the connection is up. *)
Definition allowed (a : user_call) (w : world) : Prop :=
  match a with
  | USend tmp _ => strings w !! tmp = None
  | USendString p => is_Some (strings w !! p)
  | USendBuffer b => is_Some (get_buffer b w)
  | UStartRead => state_ (conn w) = kConnected ∨ state_ (conn w) = kDisconnecting
  | UStopRead => (1 ≤ rank (state_ (conn w)))%nat
  | _ => True
  end.

Lemma allowed_quiet a w w' : good_quiet w w' → allowed a w → allowed a w'.
Proof.
  intros (_ & [_ _ Hr _ _] & [Hs Hb _ Hd _]). destruct a as [| |[b|]| | | | | | | |]; simpl; rewrite ?Hs; eauto.
  - intros Hbs. apply elem_of_dom. rewrite Hb. by apply elem_of_dom.
  - intros [Hst|Hst]; rewrite Hst in *; destruct (state_ (conn w')); simpl in *; auto; try lia;
      discriminate (proj1 Hd eq_refl).
  - lia.
Qed.

Lemma registered_cinv w :
  cinv w → state_ (conn w) = kConnected ∨ state_ (conn w) = kDisconnecting → registered_channel w.
Proof.
  intros Hi Hs. destruct (ci_channel _ Hi) as (c & Hc & Hf). exists c. split; [done|].
  by destruct Hs as [Hs|Hs]; rewrite Hs in Hf.
Qed.

Lemma send_connected_ok w s :
  cinv w → state_ (conn w) = kConnected → zlen s ≤ Buffer.max_size →
  fine (sent s w) (sendInLoop sys_write true s w).
Proof.
  intros Hi Hs Hl. apply sendInLoop_sent; [apply Hi | apply Hi | | by rewrite Hs | done].
  apply registered_cinv; auto.
Qed.

Lemma send_ok w p : cinv w → is_Some (strings w !! p) → fine (good_quiet w) (send sys_write true p w).
Proof.
  intros Hi [s Hs]. unfold send. case_decide as Hst; [|by split_and!].
  rewrite Hs. eapply fine_impl; [apply send_connected_ok; [done..|by eapply ci_strings]|].
  intros w'. by apply sent_good.
Qed.

Lemma send_bytes_ok w tmp data :
  cinv w → strings w !! tmp = None → fine (good_quiet w) (send_bytes sys_write true tmp data w).
Proof.
  intros Hi Htmp. unfold send_bytes. destruct (Z.leb_spec (zlen data) Buffer.max_size) as [Hd|]; [|done].
  cbn [ensure]. rewrite bind_Ok. unfold send. cbn [conn set_strings]. case_decide as Hst.
  - cbn [strings set_strings]. rewrite lookup_insert_eq.
    set (w1 := set_strings _ w).
    eapply (fine_bind (sent data w1)).
    + apply sendInLoop_sent; [apply Hi | apply Hi | | unfold w1; simpl; by rewrite Hst | done].
      apply (registered_cinv w Hi). auto.
    + intros w2 Hsent. cbn [fine]. pose proof (se_rest _ _ _ Hsent) as (Hs2 & _). rewrite Hs2.
      unfold w1 in Hsent |- *. cbn [strings set_strings]. rewrite delete_insert_id by done.
      apply (sent_good data); [done..|]. by eapply sent_tmp.
  - rewrite bind_Ok. cbn [fine strings set_strings]. rewrite delete_insert_id by done.
    replace (set_strings (strings w) _) with w by (by destruct w). by split_and!.
Qed.

(** Replacing what a buffer holds. *)
Lemma put_buffer_good r buf w :
  cinv w → Buffer.wf buf → is_Some (get_buffer r w) → good_quiet w (put_buffer r buf w).
Proof.
  intros [Hl Hin Ho Hs Hbs Hp Hc Hsh Hcl] Hwf Hr.
  assert (Hdom : dom (buffers (put_buffer r buf w)) = dom (buffers w)).
  { destruct r as [b|]; [|done]. cbn [put_buffer buffers set_buffers]. rewrite dom_insert_L.
    by apply subseteq_union_1_L, singleton_subseteq_l, elem_of_dom. }
  split_and!.
  - destruct r as [b|]; constructor; try done.
    + intros p b0. cbn [put_buffer buffers set_buffers]. destruct (decide (p = b)) as [->|Hne].
      * rewrite lookup_insert_eq. by intros [= <-].
      * rewrite lookup_insert_ne by done. apply Hbs.
    + eapply Forall_impl; [exact Hp|]. intros f. apply functor_fits_mono; [done| |done].
      intros p. by rewrite <- !elem_of_dom, Hdom.
    + eapply Forall_impl; [exact Hp|]. intros f. by apply functor_fits_mono.
  - destruct r; by constructor.
  - constructor; [by destruct r | exact Hdom | by destruct r | by destruct r |].
    exists []. rewrite app_nil_r. by destruct r.
Qed.

Lemma get_buffer_ok r buf w :
  cinv w → get_buffer r w = Some buf → Buffer.wf buf ∧ zlen (Buffer.content buf) ≤ Buffer.max_size.
Proof.
  intros Hi Hr. assert (Hwf : Buffer.wf buf).
  { destruct r as [b|]; simpl in Hr; [by eapply ci_buffers|]. injection Hr as <-. apply Hi. }
  split; [done|]. rewrite Buffer.zlen_content, Buffer.readable_wf by done. destruct Hwf. lia.
Qed.

Lemma send_buffer_ok w b :
  cinv w → is_Some (get_buffer b w) → fine (good_quiet w) (send_buffer sys_write true b w).
Proof.
  intros Hi [buf Hb]. unfold send_buffer. case_decide as Hst; [|by split_and!]. rewrite Hb.
  destruct (get_buffer_ok _ _ _ Hi Hb) as [Hwf Hlen]. rewrite Buffer.toString_content, bind_Ok by done.
  eapply fine_bind; [by apply send_connected_ok|]. intros w1 Hsent. cbn [fine].
  pose proof (sent_good _ _ _ Hi Hst Hsent) as Hg1. destruct (se_rest _ _ _ Hsent) as (_ & Hbu & _).
  eapply good_quiet_trans; [exact Hg1|]. apply put_buffer_good; [apply Hg1 | by apply Buffer.retrieveAll_spec |].
  destruct b; simpl in *; [by rewrite Hbu | by eexists].
Qed.

(** Moving on to [kDisconnecting]. *)
Lemma disconnecting_good w :
  cinv w → state_ (conn w) = kConnected ∨ state_ (conn w) = kDisconnecting →
  good_quiet w (set_conn (setState kDisconnecting (conn w)) w).
Proof.
  intros Hi Hs. set (w1 := set_conn _ w).
  assert (Hrank : (rank (state_ (conn w)) ≤ 2)%nat) by (destruct Hs as [-> | ->]; simpl; lia).
  split_and!.
  - destruct Hi as [Hl Hin Ho Hst Hbs Hp (c & Hc & Hf) Hsh Hcl]. constructor; try done.
    + eapply Forall_impl; [exact Hp|]. intros f. by apply functor_fits_mono.
    + exists c. split; [done|]. by destruct Hs as [Hs|Hs]; rewrite Hs in Hf.
    + intros Hshut. apply Hsh in Hshut. right. destruct Hs as [Hs|Hs]; rewrite Hs in Hshut; naive_solver.
    + split; [apply Hcl|]. intros H1. apply Hcl in H1. destruct Hs as [Hs|Hs]; by rewrite Hs in H1.
  - by constructor.
  - constructor; try done.
    + cbn [w1 conn set_conn state_ setState]. destruct Hs as [-> | ->]; done.
    + exists []. by rewrite app_nil_r.
Qed.

Lemma shutdownInLoop_ok w :
  cinv w → (2 ≤ rank (state_ (conn w)))%nat → fine (good_quiet w) (shutdownInLoop true w).
Proof.
  intros Hi Hr. unfold shutdownInLoop. cbn [assertInLoopThread ensure]. rewrite bind_Ok.
  destruct (ci_channel _ Hi) as (c & Hc & Hf). rewrite (channel_lookup w c), bind_Ok by done.
  destruct (Channel.isWriting c) eqn:Hw; cbn [negb fine]; [by split_and!|].
  assert (Hempty : state_ (conn w) = kDisconnected ∨ (state_ (conn w) = kDisconnecting ∧ out w = [])).
  { destruct (state_ (conn w)); simpl in Hr; [by left | lia | lia | right]. split; [done|].
    destruct Hf as [_ Hf]. destruct (decide (out w = [])) as [|Hne]; [done|]. by rewrite (proj2 Hf Hne) in Hw. }
  split_and!; [|constructor; try done|constructor; try done; exists []; by rewrite app_nil_r].
  destruct Hi. constructor; try done.
Qed.

Lemma queue_good inLoop f w :
  cinv w → functor_fits w f → good_quiet w (queue inLoop f w).
Proof.
  intros Hi Hf. destruct (queueInLoop_frame inLoop f (loop_ w)) as (Hch & Hpo & Hpe).
  split_and!.
  - destruct Hi as [Hl Hin Ho Hst Hbs Hp (c & Hc & Hfit) Hsh Hcl].
    constructor; cbn [queue on_loop with_loop world_HasLoop loop_of loop_ conn strings buffers]; try done.
    + unfold ok. by rewrite Hch, Hpo.
    + rewrite Hpe. apply Forall_app. split; [exact Hp|]. repeat constructor. exact Hf.
    + exists c. rewrite Hch. split; [done|]. unfold channel_fits in *. rewrite Hpo. exact Hfit.
  - by constructor.
  - constructor; try done. exists [f]. exact Hpe.
Qed.

Lemma shutdown_ok w : cinv w → fine (good_quiet w) (shutdown true w).
Proof.
  intros Hi. unfold shutdown. case_decide as Hs; [|by split_and!].
  pose proof (disconnecting_good w Hi (or_introl Hs)) as Hg.
  eapply fine_impl; [apply shutdownInLoop_ok; [apply Hg | simpl; lia]|].
  intros w'. by apply good_quiet_trans.
Qed.

Lemma forceClose_ok inLoop w : cinv w → fine (good_quiet w) (forceClose inLoop w).
Proof.
  intros Hi. unfold forceClose. case_decide as Hs; [|by split_and!].
  pose proof (disconnecting_good w Hi Hs) as Hg. eapply good_quiet_trans; [exact Hg|].
  apply queue_good; [apply Hg | done].
Qed.

Lemma forceCloseWithDelay_ok w : cinv w → fine (good_quiet w) (forceCloseWithDelay w).
Proof.
  intros Hi. unfold forceCloseWithDelay. case_decide as Hs; [|by split_and!]. by apply disconnecting_good.
Qed.

(** Switching reading on or off. *)
Lemma reading_good i b w :
  i = Channel.EnableReading ∧ (state_ (conn w) = kConnected ∨ state_ (conn w) = kDisconnecting) ∨
  i = Channel.DisableReading ∧ (1 ≤ rank (state_ (conn w)))%nat →
  cinv w →
  fine (good_quiet w) (w ← change_channel i w; Ok (set_conn (set_reading b (conn w)) w)).
Proof.
  intros Hcase Hi. pose proof Hi as [Hl Hin Ho Hst Hbs Hp (c & Hc & Hfit) Hsh Hcl].
  assert (Hidx : Channel.index_ c ≠ Epoller.kNew).
  { destruct Hcase as [[_ [Hs|Hs]]|[_ Hs]]; [by rewrite Hs in Hfit; apply Hfit..|].
    destruct (state_ (conn w)); simpl in *; try apply Hfit. lia. }
  destruct (change_channel_ok i w c Hl Hc (fd_free_registered _ _ Hidx)) as (lp & -> & Hok & Hc' & Hp').
  rewrite bind_Ok. cbn [fine]. set (w1 := set_conn _ _).
  assert (Hwr : Channel.isWriting (changed i c) = Channel.isWriting c)
    by (rewrite isWriting_changed; destruct Hcase as [[-> _]|[-> _]]; done).
  split_and!.
  - constructor; try done.
    + unfold w1. cbn [loop_ set_conn with_loop world_HasLoop]. rewrite Hp'.
      eapply Forall_impl; [exact Hp|]. intros f. by apply functor_fits_mono.
    + exists (changed i c). split; [exact Hc'|]. unfold w1. cbn [conn set_conn with_loop world_HasLoop state_ set_reading].
      destruct (state_ (conn w)) eqn:Hstate; simpl in Hfit |- *.
      * split; [apply index_changed|]. destruct Hcase as [[_ [Hs|Hs]]|[-> _]]; [done..|].
        destruct Hfit as [_ Hn]. unfold Channel.isNoneEvent in *. apply Z.eqb_eq in Hn.
        unfold changed. cbn [Channel.events_ Channel.set_index Channel.set_added_to_loop Channel.set_events Channel.change_events].
        by rewrite Hn.
      * destruct Hcase as [[_ [Hs|Hs]]|[_ Hs]]; [done..| simpl in Hs; lia].
      * split; [apply index_changed|]. rewrite Hwr. apply Hfit.
      * split; [apply index_changed|]. rewrite Hwr. apply Hfit.
  - by constructor.
  - constructor; try done. exists []. rewrite app_nil_r. exact Hp'.
Qed.

Lemma startReadInLoop_ok w :
  cinv w → state_ (conn w) = kConnected ∨ state_ (conn w) = kDisconnecting →
  fine (good_quiet w) (startReadInLoop true w).
Proof.
  intros Hi Hs. unfold startReadInLoop. cbn [assertInLoopThread ensure]. rewrite bind_Ok.
  destruct (ci_channel _ Hi) as (c & Hc & _). rewrite (channel_lookup w c), bind_Ok by done.
  destruct (_ || _); [|by split_and!]. apply reading_good; auto.
Qed.

Lemma stopReadInLoop_ok w :
  cinv w → (1 ≤ rank (state_ (conn w)))%nat → fine (good_quiet w) (stopReadInLoop true w).
Proof.
  intros Hi Hs. unfold stopReadInLoop. cbn [assertInLoopThread ensure]. rewrite bind_Ok.
  destruct (ci_channel _ Hi) as (c & Hc & _). rewrite (channel_lookup w c), bind_Ok by done.
  destruct (_ || _); [|by split_and!]. apply reading_good; auto.
Qed.

Lemma set_input_good b w : cinv w → Buffer.wf b → good_quiet w (set_conn (set_input b (conn w)) w).
Proof. intros Hi Hb. apply (put_buffer_good InputBuffer); [done..|by eexists]. Qed.

Lemma quit_good inLoop w : cinv w → good_quiet w (on_loop (quit inLoop) w).
Proof.
  intros Hi. assert (Hq : channels (quit inLoop (loop_ w)) = channels (loop_ w) ∧
    poller_ (quit inLoop (loop_ w)) = poller_ (loop_ w) ∧
    pending_functors_ (quit inLoop (loop_ w)) = pending_functors_ (loop_ w)).
  { unfold quit, quit_rest, wakeup. destruct inLoop; [done|]. by destruct (_ <=? _). }
  destruct Hq as (Hch & Hpo & Hpe). split_and!.
  - destruct Hi as [Hl Hin Ho Hst Hbs Hp (c & Hc & Hfit) Hsh Hcl].
    constructor; cbn [on_loop with_loop world_HasLoop loop_of loop_ conn strings buffers]; try done.
    + unfold ok. by rewrite Hch, Hpo.
    + rewrite Hpe. eapply Forall_impl; [exact Hp|]. intros f. by apply functor_fits_mono.
    + exists c. rewrite Hch. split; [done|]. unfold channel_fits in *. rewrite Hpo. exact Hfit.
  - by constructor.
  - constructor; try done. exists []. rewrite app_nil_r. exact Hpe.
Qed.

Lemma exec_call_ok a w : cinv w → allowed a w → fine (good_quiet w) (exec_call sys_write true a w).
Proof.
  intros Hi Ha. destruct a; simpl in *.
  - by apply send_bytes_ok.
  - by apply send_ok.
  - by apply send_buffer_ok.
  - by apply shutdown_ok.
  - by apply forceClose_ok.
  - by apply forceCloseWithDelay_ok.
  - by apply startReadInLoop_ok.
  - by apply stopReadInLoop_ok.
  - pose proof (ci_in _ Hi) as Hb.
    destruct (Buffer.retrieve_spec (input_buffer_ (conn w))
      (Z.min (Z.of_N n) (Buffer.readableBytes (input_buffer_ (conn w))))) as (b & -> & Hb' & _); [done | |].
    + pose proof (zlen_nonneg (Buffer.content (input_buffer_ (conn w)))). rewrite <- Buffer.zlen_content by done. lia.
    + rewrite bind_Ok. by apply set_input_good.
  - apply set_input_good; [done|]. by apply Buffer.retrieveAll_spec, Hi.
  - exact (quit_good true w Hi).
Qed.

(** ** Callbacks, events and functors, for any behaviour of the user *)
Section Steps.
Variable behaviour : user_event → world → list user_call.
Hypothesis behaviour_allowed : ∀ e w a, a ∈ behaviour e w → allowed a w.
Variable sys_readv : nat → Buffer.readv_outcome.

Lemma user_ok e w : cinv w → fine (good_quiet w) (user sys_write behaviour e w).
Proof.
  intros Hi. unfold user. apply fine_foldM; [by split_and!|].
  intros a w1 Ha Hg. eapply fine_impl; [apply exec_call_ok; [apply Hg|]|].
  - eapply allowed_quiet; [exact Hg|]. by eapply behaviour_allowed.
  - intros w2. by apply good_quiet_trans.
Qed.

(** Both handlers that take the connection down do this to the channel. *)
Lemma take_down w :
  cinv w → state_ (conn w) = kConnected ∨ state_ (conn w) = kDisconnecting →
  ∃ w1, change_channel Channel.DisableAll (set_conn (setState kDisconnected (conn w)) w) = Ok w1 ∧
    good w w1 ∧ state_ (conn w1) = kDisconnected ∧ closed_calls w1 = 0%nat ∧
    steady w w1 ∧ input_buffer_ (conn w1) = input_buffer_ (conn w).
Proof.
  intros Hi Hs. pose proof Hi as [Hl Hin Ho Hst Hbs Hp (c & Hc & Hfit) Hsh [Hcl1 Hcl2]].
  assert (Hidx : Channel.index_ c ≠ Epoller.kNew) by (destruct Hs as [Hs|Hs]; rewrite Hs in Hfit; apply Hfit).
  assert (Hclosed : closed_calls w = 0%nat).
  { destruct (closed_calls w) as [|[|n]]; [done| |lia]. specialize (Hcl2 eq_refl). destruct Hs; congruence. }
  set (w0 := set_conn (setState kDisconnected (conn w)) w).
  destruct (change_channel_ok Channel.DisableAll w0 c Hl Hc (fd_free_registered _ _ Hidx)) as (lp & -> & Hok & Hc' & Hp').
  eexists. split; [done|]. split; [|by split_and!; [..|apply steady_same|]]. split.
  - constructor; try done.
    + cbn [loop_ with_loop world_HasLoop]. rewrite Hp'. eapply Forall_impl; [exact Hp|].
      intros f. apply functor_fits_mono; [done..|]. simpl. destruct (state_ (conn w)); simpl; lia.
    + exists (changed Channel.DisableAll c). split; [exact Hc'|]. split; [apply (index_changed Channel.DisableAll) | done].
    + intros _. by left.
  - constructor; try done. simpl. destruct (state_ (conn w)); simpl; lia.
Qed.

Lemma handleClose_ok w :
  cinv w → state_ (conn w) = kConnected ∨ state_ (conn w) = kDisconnecting →
  fine (fun w' => good w w' ∧ state_ (conn w') = kDisconnected ∧ closed_calls w' = 1%nat)
    (handleClose sys_write behaviour true w).
Proof.
  intros Hi Hs. unfold handleClose. cbn [assertInLoopThread ensure]. rewrite bind_Ok.
  rewrite bool_decide_eq_true_2 by done. cbn [ensure]. rewrite bind_Ok.
  destruct (take_down w Hi Hs) as (w1 & -> & [Hi1 He1] & Hst1 & Hcl1 & _). rewrite bind_Ok.
  eapply fine_bind; [by apply user_ok|]. intros w2 (Hi2 & He2 & Hq2). cbn [fine].
  assert (Hd2 : state_ (conn w2) = kDisconnected) by (by apply (qu_down _ _ Hq2)).
  assert (Hc2 : closed_calls w2 = 0%nat) by (rewrite (qu_closed _ _ Hq2); done).
  split; [split|split; [done | simpl; by rewrite Hc2]].
  - destruct Hi2. constructor; try done. simpl. rewrite Hc2. split; [lia | done].
  - etrans; [exact He1|]. etrans; [exact He2|]. constructor; try done. simpl. lia.
Qed.

(** [connectEstablished] up to the call of the connection callback. *)
Lemma establish_ok self w :
  cinv w → state_ (conn w) = kConnecting →
  ∃ w1, good w w1 ∧ steady w w1 ∧ state_ (conn w1) = kConnected ∧ input_buffer_ (conn w1) = input_buffer_ (conn w) ∧
    connectEstablished sys_write behaviour true self w = user sys_write behaviour OnConnection w1.
Proof.
  intros Hi Hs. pose proof Hi as [Hl Hin Ho Hst Hbs Hp (c & Hc & Hfit) Hsh [Hcl1 Hcl2]].
  rewrite Hs in Hfit. destruct Hfit as (Hidx & Hfree & Hempty & Hev).
  unfold connectEstablished. cbn [assertInLoopThread ensure]. rewrite bind_Ok, bool_decide_eq_true_2 by done.
  cbn [ensure]. rewrite bind_Ok. cbv zeta. set (w0 := set_conn _ w).
  rewrite (channel_lookup w0 c), bind_Ok by done. set (w1 := on_loop _ w0).
  assert (Hc1 : channels (loop_ w1) !! channel_ (conn w1) = Some (Channel.tie self c)).
  { unfold w1, on_loop. cbn [loop_ with_loop world_HasLoop channels set_poller conn]. by rewrite lookup_insert_eq. }
  assert (Hl1 : ok (loop_ w1)).
  { unfold w1, on_loop. cbn [loop_ with_loop world_HasLoop]. unfold ok. cbn [channels poller_ set_poller].
    eapply Epoller.ok_replace; [exact Hl | exact Hc | done..]. }
  assert (Hf1 : fd_free (Channel.tie self c) (loop_ w1)) by (intros _; exact Hfree).
  destruct (change_channel_ok Channel.EnableReading w1 _ Hl1 Hc1 Hf1) as (lp & -> & Hok & Hc' & Hp'). rewrite bind_Ok.
  set (w2 := with_loop lp w1).
  assert (Hi2 : cinv w2).
  { constructor; try done.
    - unfold w2. cbn [loop_ with_loop world_HasLoop]. rewrite Hp'. eapply Forall_impl; [exact Hp|].
      intros f. apply functor_fits_mono; [done..|]. rewrite Hs. simpl. lia.
    - eexists. split; [exact Hc'|]. split; [apply (index_changed Channel.EnableReading)|].
      rewrite isWriting_changed. unfold Channel.isWriting. simpl. rewrite Hev.
      change (out w2) with (out w). rewrite Hempty. done.
    - intros Hshut. apply Hsh in Hshut. rewrite Hs in Hshut. naive_solver.
    - split; [done|]. intros H1. apply Hcl2 in H1. congruence. }
  exists w2. split; [split; [done|]; constructor; try done; simpl; rewrite Hs; simpl; lia|].
  by split_and!; [apply steady_same|..].
Qed.

Lemma connectEstablished_ok self w :
  cinv w → state_ (conn w) = kConnecting → fine (good w) (connectEstablished sys_write behaviour true self w).
Proof.
  intros Hi Hs. destruct (establish_ok self w Hi Hs) as (w1 & [Hi1 He1] & _ & _ & _ & ->).
  eapply fine_impl; [by apply user_ok|]. intros w2 (Hi2 & He2 & _). split; [done | by etrans].
Qed.

Lemma cinv_call w : cinv w → cinv (mkWorld (loop_ w) (conn w) (strings w) (buffers w) (S (calls w)) (written w)
  (write_shutdown w) (closed_calls w)).
Proof. intros []. by constructor. Qed.

(** What [handleRead] reads and which way it goes on. *)
Lemma handleRead_cases t w :
  cinv w →
  (∀ d, sys_readv (calls w) = Buffer.ReadvData d → zlen d ≤ Buffer.writableBytes (input_buffer_ (conn w))) →
  ∃ w1, good w w1 ∧ steady w w1 ∧ state_ (conn w1) = state_ (conn w) ∧
    Buffer.content (input_buffer_ (conn w1)) = Buffer.content (input_buffer_ (conn w)) ++
      match sys_readv (calls w) with Buffer.ReadvData d => d | Buffer.ReadvErr _ => [] end ∧
    handleRead sys_write sys_readv behaviour true t w =
      match sys_readv (calls w) with
      | Buffer.ReadvData [] => handleClose sys_write behaviour true w1
      | Buffer.ReadvData _ => user sys_write behaviour (OnMessage t) w1
      | Buffer.ReadvErr _ => Ok w1
      end.
Proof.
  intros Hi Hfit. pose proof (ci_in _ Hi) as Hb.
  assert (Hread : ∃ n e input, Buffer.readFd (sys_readv (calls w)) (input_buffer_ (conn w)) = Ok (n, e, input) ∧
    Buffer.wf input ∧ Buffer.content input = Buffer.content (input_buffer_ (conn w)) ++
      match sys_readv (calls w) with Buffer.ReadvData d => d | Buffer.ReadvErr _ => [] end ∧
    n = match sys_readv (calls w) with Buffer.ReadvData d => zlen d | Buffer.ReadvErr _ => -1 end).
  { destruct (sys_readv (calls w)) as [d|e] eqn:Hr.
    - destruct (Buffer.readFd_spec (input_buffer_ (conn w)) d Hb) as (b & -> & Hb' & Hc); [by apply Hfit|].
      by eexists _, _, _.
    - rewrite Buffer.readFd_error. eexists _, _, _. by rewrite app_nil_r. }
  destruct Hread as (n & e & input & Hread & Hb' & Hc & Hn).
  exists (mkWorld (loop_ w) (set_input input (conn w)) (strings w) (buffers w) (S (calls w)) (written w)
            (write_shutdown w) (closed_calls w)).
  split. { split; [|by constructor]. exact (cinv_call _ (proj1 (set_input_good input w Hi Hb'))). }
  split; [by apply steady_same|]. split; [done|]. split; [exact Hc|].
  unfold handleRead. cbn [assertInLoopThread ensure]. rewrite bind_Ok, Hread, bind_Ok. rewrite Hn.
  destruct (sys_readv (calls w)) as [[|b d]|e']; [done| |done].
  rewrite zlen_cons. pose proof (zlen_nonneg d). by rewrite (proj2 (Z.ltb_lt _ _)) by lia.
Qed.

Lemma handleRead_ok t w :
  cinv w → state_ (conn w) = kConnected ∨ state_ (conn w) = kDisconnecting →
  (∀ d, sys_readv (calls w) = Buffer.ReadvData d → zlen d ≤ Buffer.writableBytes (input_buffer_ (conn w))) →
  fine (good w) (handleRead sys_write sys_readv behaviour true t w).
Proof.
  intros Hi Hs Hfit. destruct (handleRead_cases t w Hi Hfit) as (w1 & Hg1 & _ & Hs1 & _ & ->).
  destruct (sys_readv (calls w)) as [[|b d]|e].
  - eapply fine_impl; [apply handleClose_ok; [apply Hg1 | by rewrite Hs1]|]. intros w2 ([Hi2 He2] & _). split; [done|].
    by etrans; [apply Hg1|].
  - eapply fine_impl; [apply user_ok, Hg1|]. intros w2 (Hi2 & He2 & _). split; [done|]. by etrans; [apply Hg1|].
  - exact Hg1.
Qed.

(** ** [handleWrite] moves bytes from the buffer to the kernel *)

(** The state after [write] took [n] bytes and [b] is left. *)
Definition moved (n : Z) (b : Buffer.Buffer) (w : world) : world :=
  set_conn (set_output b (conn w))
    (mkWorld (loop_ w) (conn w) (strings w) (buffers w) (S (calls w)) (written w ++ ztake n (out w))
       (write_shutdown w) (closed_calls w)).

(** What follows when nothing is left. *)
Definition finish (w : world) : result world :=
  w ← change_channel Channel.DisableWriting w;
  let w := if write_complete_callback_ (conn w) then queue true FWriteComplete w else w in
  if decide (state_ (conn w) = kDisconnecting) then shutdownInLoop true w else Ok w.

(** The effect of a report that the socket is writable. *)
Record wrote (n : Z) (w w' : world) : Prop := {
  wr_written : written w' = written w ++ ztake n (out w);
  wr_out : out w' = zdrop n (out w);
  wr_state : state_ (conn w') = state_ (conn w);
  wr_shut : out w' = [] → state_ (conn w) = kDisconnecting → write_shutdown w' = true;
  wr_input : input_buffer_ (conn w') = input_buffer_ (conn w);
  wr_strings : strings w' = strings w;
  wr_pending : ∃ fs, pending_functors_ (loop_ w') = pending_functors_ (loop_ w) ++ fs ∧ Forall free_functor fs
}.

Lemma wrote_steady n w w' : wrote n w w' → steady w w' ∧ same_state w w'.
Proof.
  intros [Hw Ho Hs _ Hin Hst Hp]. split; [|done]. constructor; try done.
  unfold stream. by rewrite Hw, Ho, <- app_assoc, ztake_zdrop.
Qed.

Lemma wrote_evolves n w w' :
  wrote n w w' → (closed_calls w ≤ closed_calls w')%nat → (write_shutdown w = true → write_shutdown w' = true) →
  evolves w w'.
Proof.
  intros Hwr Hc Hsh. destruct (wrote_steady _ _ _ Hwr) as [[Hstr _ _] [Hs _]]. destruct Hwr as [Hw _ _ _ _ _ _].
  constructor; rewrite ?Hstr, ?Hs; try done. rewrite Hw. by eexists.
Qed.

Lemma cinv_moved n b w :
  cinv w → (state_ (conn w) = kConnected ∨ state_ (conn w) = kDisconnecting) → out w ≠ [] → Buffer.wf b →
  ∀ lp c, ok lp → pending_functors_ lp = pending_functors_ (loop_ w) →
  channels lp !! channel_ (conn w) = Some c → Channel.index_ c ≠ Epoller.kNew →
  (Channel.isWriting c = true ↔ Buffer.content b ≠ []) → cinv (with_loop lp (moved n b w)).
Proof.
  intros [Hl Hin Ho Hst Hbs Hp _ Hsh Hcl] Hs Hne Hb lp c Hok Hpe Hc Hi Hw. constructor; try done.
  - cbn [loop_ with_loop world_HasLoop]. rewrite Hpe. eapply Forall_impl; [exact Hp|].
    intros f. by apply functor_fits_mono.
  - exists c. split; [exact Hc|]. change (state_ (conn (with_loop lp (moved n b w)))) with (state_ (conn w)).
    by destruct Hs as [-> | ->].
  - intros Hshut. destruct (Hsh Hshut) as [?|[_ ?]]; [by left | done].
Qed.

Lemma finish_ok n b w c :
  cinv w → (state_ (conn w) = kConnected ∨ state_ (conn w) = kDisconnecting) → out w ≠ [] → Buffer.wf b →
  channels (loop_ w) !! channel_ (conn w) = Some c → Channel.index_ c ≠ Epoller.kNew →
  Buffer.content b = [] → zdrop n (out w) = [] →
  ∃ w', finish (moved n b w) = Ok w' ∧ good w w' ∧ wrote n w w'.
Proof.
  intros Hi Hs Hne Hb Hc Hidx Hcb Hdr. unfold finish.
  destruct (change_channel_ok Channel.DisableWriting (moved n b w) c (ci_loop _ Hi) Hc (fd_free_registered _ _ Hidx))
    as (lp & -> & Hok & Hc' & Hp'). rewrite bind_Ok.
  set (w2 := with_loop lp (moved n b w)).
  assert (Hwr : Channel.isWriting (changed Channel.DisableWriting c) = false) by apply isWriting_changed.
  assert (Hi2 : cinv w2).
  { eapply cinv_moved; [done..| |]; [apply index_changed | by rewrite Hwr, Hcb]. }
  set (w3 := if write_complete_callback_ (conn w2) then _ else w2).
  assert (Hw3 : cinv w3 ∧ conn w3 = conn w2 ∧ written w3 = written w2 ∧ strings w3 = strings w ∧
     closed_calls w3 = closed_calls w2 ∧ channels (loop_ w3) = channels (loop_ w2) ∧ write_shutdown w3 = write_shutdown w2 ∧
     ∃ fs, pending_functors_ (loop_ w3) = pending_functors_ (loop_ w) ++ fs ∧ Forall free_functor fs).
  { unfold w3. destruct (write_complete_callback_ _).
    - destruct (queue_good true FWriteComplete w2 Hi2 I) as (? & _).
      destruct (queueInLoop_frame true FWriteComplete (loop_ w2)) as (? & _ & Hq). split_and!; try done.
      exists [FWriteComplete]. split; [|by repeat constructor]. etrans; [exact Hq|]. exact (f_equal (.++ [FWriteComplete]) Hp').
    - split_and!; try done. exists []. rewrite app_nil_r. split; [exact Hp' | done]. }
  clearbody w3. destruct Hw3 as (Hi3 & Hcn & Hwn & Hst3 & Hcl & Hch & Hsd & Hpe).
  assert (Ho3 : out w3 = zdrop n (out w)) by (unfold out at 1; rewrite Hcn, Hdr; exact Hcb).
  case_decide as Hdis.
  - unfold shutdownInLoop. cbn [assertInLoopThread ensure]. rewrite bind_Ok.
    erewrite channel_lookup by (rewrite Hch, Hcn; exact Hc'). rewrite bind_Ok, Hwr. cbn [negb].
    eexists. split; [done|].
    assert (Hw : wrote n w (mkWorld (loop_ w3) (conn w3) (strings w3) (buffers w3) (calls w3) (written w3) true (closed_calls w3))).
    { constructor; try done; cbn [conn]; by rewrite Hcn. }
    split; [|exact Hw]. split; [|apply (wrote_evolves n); [done | simpl; rewrite Hcl; done | done]].
    destruct Hi3. constructor; try done. intros _. right. split; [done|]. by rewrite <- Hdr.
  - exists w3. split; [done|].
    assert (Hw : wrote n w w3).
    { constructor; try done; [by rewrite Hcn | | by rewrite Hcn].
      intros _ ?. destruct Hdis. by rewrite Hcn. }
    split; [|exact Hw]. split; [done|]. apply (wrote_evolves n); [done | by rewrite Hcl | by rewrite Hsd].
Qed.

(** A connection with bytes waiting is up and watches for writing. *)
Lemma waiting_up w c :
  cinv w → channels (loop_ w) !! channel_ (conn w) = Some c → Channel.isWriting c = true →
  (state_ (conn w) = kConnected ∨ state_ (conn w) = kDisconnecting) ∧ Channel.index_ c ≠ Epoller.kNew ∧ out w ≠ [].
Proof.
  intros Hi Hc Hwr. destruct (ci_channel _ Hi) as (c' & Hc' & Hfit). rewrite Hc in Hc'. injection Hc' as <-.
  unfold channel_fits, Channel.isNoneEvent, Channel.isWriting in *.
  destruct (state_ (conn w)).
  - destruct Hfit as [_ Hn]. apply Z.eqb_eq in Hn. by rewrite Hn in Hwr.
  - destruct Hfit as (_ & _ & _ & Hn). by rewrite Hn in Hwr.
  - split; [by left|]. naive_solver.
  - split; [by right|]. naive_solver.
Qed.

Lemma handleWrite_exact w :
  cinv w →
  ∃ w', handleWrite sys_write true w = Ok w' ∧ good w w' ∧ (steady w w' ∧ same_state w w') ∧
    ((state_ (conn w) = kConnected ∨ state_ (conn w) = kDisconnecting) → out w ≠ [] →
     ∀ n, sys_write (calls w) (out w) = Wrote n → 0 < n → wrote n w w').
Proof.
  intros Hi. unfold handleWrite. cbn [assertInLoopThread ensure]. rewrite bind_Ok.
  destruct (ci_channel _ Hi) as (c & Hc & Hfit). rewrite (channel_lookup w c), bind_Ok by done.
  destruct (Channel.isWriting c) eqn:Hwr.
  2: { exists w. split; [done|]. split; [by split|]. split; [by split|]. intros Hs Hne.
       destruct Hs as [Hs|Hs]; rewrite Hs in Hfit; rewrite (proj2 (proj2 Hfit) Hne) in Hwr; done. }
  destruct (waiting_up w c Hi Hc Hwr) as (Hs & Hidx & Hne). pose proof (ci_out _ Hi) as Ho.
  rewrite Buffer.toString_content, bind_Ok by done. fold (out w). unfold write.
  assert (Hnone : good w (mkWorld (loop_ w) (conn w) (strings w) (buffers w) (S (calls w)) (written w)
                            (write_shutdown w) (closed_calls w))) by (split; [by apply cinv_call | by constructor]).
  assert (Hsame : ∀ n, steady w (mkWorld (loop_ w) (conn w) (strings w) (buffers w) n (written w)
     (write_shutdown w) (closed_calls w)) ∧ same_state w (mkWorld (loop_ w) (conn w) (strings w) (buffers w) n (written w)
     (write_shutdown w) (closed_calls w))) by (intros n; split; [by apply steady_same | done]).
  destruct (sys_write (calls w) (out w)) as [n|e] eqn:Hsys; [|by eexists].
  pose proof (write_bounded _ _ _ Hsys) as Hn. destruct (Z.ltb_spec 0 n) as [Hpos|Hzero].
  2: { assert (n = 0) as -> by lia. rewrite ztake_0, app_nil_r by lia. eexists. split; [done|]. split; [done|].
       split; [apply Hsame|]. intros _ _ n [= <-]. lia. }
  cbn [conn].
  destruct (Buffer.retrieve_spec (output_buffer_ (conn w)) n) as (b & -> & Hb' & Hcb & _); [done | by fold (out w) |].
  rewrite bind_Ok. cbv zeta. rewrite <- (Buffer.zlen_content b) by done. rewrite Hcb. fold (out w). fold (moved n b w).
  destruct (Z.eqb_spec (zlen (zdrop n (out w))) 0) as [Hz|Hnz].
  - assert (Hdr : zdrop n (out w) = []) by (by apply length_zero_iff_nil, Nat2Z.inj).
    destruct (finish_ok n b w c) as (w' & Hf & Hg & Hw); [done..| by rewrite Hcb | done |].
    exists w'. split; [exact Hf|]. split; [done|]. split; [by eapply wrote_steady|]. by intros _ _ n' [= <-].
  - assert (Hleft : Buffer.content b ≠ []) by (rewrite Hcb; fold (out w); intros Hnil; by rewrite Hnil in Hnz).
    assert (Hw : wrote n w (moved n b w)) by (constructor; try done; exists []; by rewrite app_nil_r).
    eexists. split; [done|]. split; [split|split; [by eapply wrote_steady|]].
    + apply (cinv_moved n b w) with (lp := loop_ w) (c := c); try done. apply Hi.
    + by apply (wrote_evolves n).
    + by intros _ _ n' [= <-].
Qed.

Lemma handleWrite_ok w : cinv w → fine (good w) (handleWrite sys_write true w).
Proof. intros Hi. by destruct (handleWrite_exact w Hi) as (w' & -> & Hg & _). Qed.

Lemma send_buffer_functor_ok w b :
  cinv w → is_Some (get_buffer b w) →
  fine (good w) (run_functor sys_write behaviour (FSendBuffer b) w).
Proof.
  intros Hi [buf Hb]. cbn [run_functor]. rewrite Hb. destruct (get_buffer_ok _ _ _ Hi Hb) as [Hwf Hlen].
  destruct (Buffer.retrieveAllAsString_spec buf Hwf) as (b' & -> & Hb' & _). rewrite bind_Ok.
  cbv zeta. assert (Hg1 : good w (put_buffer b b' w)).
  { by apply good_quiet_good, put_buffer_good; [..|eexists]. }
  case_decide as Hs; [|exact Hg1].
  eapply fine_impl; [apply send_connected_ok; [apply Hg1 | done | done]|].
  intros w2 Hsent. pose proof (sent_good _ _ _ (proj1 Hg1) Hs Hsent) as (Hi2 & He2 & _).
  split; [done|]. by etrans; [apply Hg1|].
Qed.

Lemma run_functor_ok f w :
  cinv w → functor_fits w f → fine (good w) (run_functor sys_write behaviour f w).
Proof.
  intros Hi Hf.
  assert (Hq : ∀ r, fine (good_quiet w) r → fine (good w) r)
    by (intros r Hr; eapply fine_impl; [exact Hr|]; apply good_quiet_good).
  destruct f; simpl in Hf; try done.
  - by apply Hq, send_ok.
  - by apply send_buffer_functor_ok.
  - by apply Hq, user_ok.
  - by apply Hq, user_ok.
  - by apply Hq, shutdownInLoop_ok.
  - simpl. unfold forceCloseInLoop. cbn [assertInLoopThread ensure]. rewrite bind_Ok.
    case_decide as Hs; [|by split]. eapply fine_impl; [by apply handleClose_ok|]. by intros w' [? _].
  - by apply Hq, stopReadInLoop_ok.
Qed.

(** ** Any history of a connection *)

(** What happens to a connection between its construction and its removal: it is established, the
    poller reports events, a functor is taken from the loop's queue, somebody calls the interface from the
    loop's thread or from another one. *)
Inductive event :=
  | Establish (self : loc)
  | Report (cb : channel_cb) (t : Z)
  | Functor
  | Call (inLoop : bool) (a : user_call).

Definition perform (e : event) (w : world) : result world :=
  match e with
  | Establish self => connectEstablished sys_write behaviour true self w
  | Report cb t => run_callback sys_write sys_readv behaviour cb t w
  | Functor =>
      match pending_functors_ (loop_ w) with
      | [] => Ok w
      | f :: rest => run_functor sys_write behaviour f (on_loop (set_pending rest) w)
      end
  | Call inLoop a => exec_call sys_write inLoop a w
  end.

(** What the next read delivers fits in the input buffer's free space: a peer that sends more at once - more than 1 KB to a new connection -
    makes [readFd] corrupt the buffer ([readFd_overflow]), and nothing is claimed of the connection from then on. *)
Definition read_fits (w : world) : Prop :=
  ∀ d, sys_readv (calls w) = Buffer.ReadvData d → zlen d ≤ Buffer.writableBytes (input_buffer_ (conn w)).

(** The kernel reports input or a hang-up only for a channel that is watched, and what is read fits ([read_fits]); callers keep to [allowed] -
    the temporary of a [send] is at a fresh address, pointers that are passed are valid, [startRead] is for an open connection -, and from another
    thread what they pass must stay where it is, the input buffer is not touched and reading is not switched on. *)
Definition enabled (e : event) (w : world) : Prop :=
  match e with
  | Establish _ => state_ (conn w) = kConnecting
  | Report CbRead _ =>
      (state_ (conn w) = kConnected ∨ state_ (conn w) = kDisconnecting) ∧ read_fits w
  | Report CbClose _ => state_ (conn w) = kConnected ∨ state_ (conn w) = kDisconnecting
  | Report _ _ => True
  | Functor => True
  | Call true a => allowed a w
  | Call false a =>
      allowed a w ∧ match a with USend _ _ | UStartRead | URetrieve _ | URetrieveAll => False | _ => True end
  end.

Lemma off_loop_ok a w :
  cinv w → enabled (Call false a) w → fine (good w) (exec_call sys_write false a w).
Proof.
  intros Hi [Ha Hn].
  assert (Hq : ∀ f, functor_fits w f → good w (queue false f w))
    by (intros f Hf; apply good_quiet_good; by apply queue_good).
  destruct a; simpl in *; try done.
  - unfold send. case_decide; [by apply Hq | by split].
  - unfold send_buffer. case_decide; [by apply Hq | by split].
  - unfold shutdown. case_decide as Hs; [|by split]. cbn [fine].
    pose proof (disconnecting_good w Hi (or_introl Hs)) as Hg. apply good_quiet_good.
    eapply good_quiet_trans; [exact Hg|]. apply queue_good; [apply Hg | simpl; lia].
  - eapply fine_impl; [by apply forceClose_ok|]. apply good_quiet_good.
  - eapply fine_impl; [by apply forceCloseWithDelay_ok|]. apply good_quiet_good.
  - by apply Hq.
  - apply good_quiet_good. exact (quit_good false w Hi).
Qed.

Lemma cinv_pop w rest :
  cinv w → Forall (functor_fits w) rest → cinv (on_loop (set_pending rest) w).
Proof. intros [Hl Hin Ho Hst Hbs _ (c & Hc & Hfit) Hsh Hcl] Hr. constructor; try done. by exists c. Qed.

Lemma perform_ok e w : cinv w → enabled e w → fine (good w) (perform e w).
Proof.
  intros Hi He. destruct e as [self|[] t| |[|] a]; simpl in He |- *.
  - by apply connectEstablished_ok.
  - destruct He. by apply handleRead_ok.
  - by apply handleWrite_ok.
  - eapply fine_impl; [by apply handleClose_ok|]. by intros w' [? _].
  - by split.
  - destruct (pending_functors_ (loop_ w)) as [|f rest] eqn:Hp; [by split|].
    pose proof (ci_pending _ Hi) as Hall. rewrite Hp in Hall. inversion_clear Hall as [|?? Hf Hrest].
    set (w1 := on_loop (set_pending rest) w).
    assert (Hi1 : cinv w1) by by apply cinv_pop.
    eapply fine_impl; [by apply run_functor_ok|]. intros w2 [Hi2 He2]. split; [done|].
    etrans; [|exact He2]. by constructor.
  - eapply fine_impl; [by apply exec_call_ok|]. apply good_quiet_good.
  - by apply off_loop_ok.
Qed.

Inductive reachable (w0 : world) : world → Prop :=
  | reach_start : reachable w0 w0
  | reach_step e w w' : reachable w0 w → enabled e w → perform e w = Ok w' → reachable w0 w'.

Lemma reachable_good w0 w : cinv w0 → reachable w0 w → good w0 w.
Proof.
  intros Hi. induction 1 as [|e w w' _ [IHi IHe] He Hp]; [by split|].
  pose proof (perform_ok e w IHi He) as Hf. rewrite Hp in Hf. destruct Hf as [? ?].
  split; [done|]. by etrans.
Qed.
End Steps.
End Connection.

(** A new connection on a loop: a fresh channel address and a descriptor that is not registered. *)
Lemma newConnection_cinv name fd l wc hw lp w :
  ok lp → channels lp !! l = None → Epoller.channels_ (poller_ lp) !! fd = None →
  pending_functors_ lp = [] →
  newConnection name fd l wc hw lp = Ok w → cinv w ∧ state_ (conn w) = kConnecting ∧ stream w = [].
Proof.
  intros Hok Hl Hfd Hp Hn. unfold newConnection in Hn.
  destruct (Buffer.new_spec Buffer.kInitialSize) as (b & Hb & Hwf & Hc & _); [done..|].
  rewrite Hb, !bind_Ok in Hn. cbv zeta in Hn. injection Hn as <-.
  assert (Hout : ∀ lp0 cn, out (mkWorld lp0 (mkConn name kConnecting true l wc hw cn b b) ∅ ∅ 0 [] false 0) = [])
    by (intros; exact Hc).
  split; [|split; [done | exact Hc]]. constructor; try done.
  - eapply Epoller.ok_new_channel; done.
  - cbn [loop_ addChannel set_poller pending_functors_]. by rewrite Hp.
  - eexists. cbn [loop_ addChannel set_poller channels conn channel_]. rewrite lookup_insert_eq. split; [done|].
    simpl. split_and!; done.
  - simpl. lia.
Qed.
