(* ===== verification/ConnectionTheorems.v ===== *)
(** * The theorems about connections

    First what a connection guarantees in every history of the events of
    [TcpConnectionSpec]: the byte stream, the state machine, half-close,
    progress, and its removal.  Then the uses of the interface that break the guarantees. *)
From stdpp Require Import base list gmap numbers strings.
From Stdlib Require Import ZArith Lia Init.Byte.
From S2P Require Import Prelude.
From S2P Require Import ByteBuffer.
From S2P Require Import Channel.
From S2P Require Import Poller.
From S2P Require Import EventLoop.
From S2P Require Import EventLoopSpec.
From S2P Require Import TcpConnection.
From S2P Require Import TcpConnectionSpec.
Import EventLoop.EventLoop TcpConnection.TcpConnection.
#[local] Open Scope Z_scope.
#[local] Open Scope fm_scope.

(** ** A connection to try things on

    It writes three bytes per call, reads ["hello"], and its message callback echoes. *)

Definition three_bytes (n : nat) (d : list byte) : write_outcome := Wrote (Z.min 3 (zlen d)).
Definition hello (n : nat) : Buffer.readv_outcome := Buffer.ReadvData (bytes "hello").
Definition echo (e : user_event) (w : world) : list user_call :=
  match e with
  | OnMessage _ => [USend (fresh (dom (strings w))) (Buffer.content (input_buffer_ (conn w))); URetrieveAll]
  | _ => []
  end.

Lemma three_bytes_bounded n d k : three_bytes n d = Wrote k → 0 ≤ k ≤ zlen d.
Proof. intros [= <-]. pose proof (zlen_nonneg d). lia. Qed.

Lemma echo_allowed e w a : a ∈ echo e w → allowed a w.
Proof.
  destruct e; simpl; try by intros ?%elem_of_nil.
  rewrite elem_of_cons, list_elem_of_singleton. intros [-> | ->]; [|done].
  simpl. apply not_elem_of_dom. apply is_fresh.
Qed.

Definition demo_loop : result (EventLoop functor channel_cb) := newLoop 3 4 1 CbError false.
Definition demo : result world := lp ← demo_loop; newConnection (bytes "c") 7 2 true true lp.

Definition from (r : result world) (evs : list event) : result world :=
  w ← r; foldM (perform three_bytes echo hello) evs w.

(** What the theorems about a new connection ask of the loop. *)
Record clean_loop (l : loc) (fd : Z) (lp : EventLoop functor channel_cb) : Prop := {
  cl_ok : ok lp;
  cl_fresh : channels lp !! l = None;
  cl_fd : Epoller.channels_ (poller_ lp) !! fd = None;
  cl_pending : pending_functors_ lp = []
}.

Lemma demo_loop_clean : ∃ lp, demo_loop = Ok lp ∧ clean_loop 2 7 lp.
Proof.
  destruct (newLoop_ok (F := functor) 3 4 1 CbError) as (lp & Hn & Hok & Hp & Hl & Hfd); [lia..|].
  exists lp. split; [done|]. constructor; auto.
Qed.

Lemma demo_ok : ∃ lp w, demo_loop = Ok lp ∧ clean_loop 2 7 lp ∧
  newConnection (bytes "c") 7 2 true true lp = Ok w ∧ demo = Ok w.
Proof.
  destruct demo_loop_clean as (lp & Hlp & Hc).
  destruct (newConnection (bytes "c") 7 2 true true lp) as [w|] eqn:Hn.
  - exists lp, w. split_and!; try done. unfold demo. by rewrite Hlp, bind_Ok.
  - unfold newConnection in Hn. by destruct (Buffer.new Buffer.kInitialSize) eqn:Hb; [|vm_compute in Hb].
Qed.

(** ** Every history of a connection *)
Section History.
Variable sys_write : nat → list byte → write_outcome.
Hypothesis write_bounded : ∀ n d k, sys_write n d = Wrote k → 0 ≤ k ≤ zlen d.
Variable behaviour : user_event → world → list user_call.
Hypothesis behaviour_allowed : ∀ e w a, a ∈ behaviour e w → allowed a w.
Variable sys_readv : nat → Buffer.readv_outcome.
Variables (name : list byte) (fd : Z) (l : loc) (wc hw : bool) (lp : EventLoop functor channel_cb) (w0 : world).
Hypothesis loop_clean : clean_loop l fd lp.
Hypothesis constructed : newConnection name fd l wc hw lp = Ok w0.

Local Notation reachable := (reachable sys_write behaviour sys_readv).
Local Notation perform := (perform sys_write behaviour sys_readv).
Local Notation enabled := (enabled sys_readv).

Lemma start_cinv : cinv w0 ∧ state_ (conn w0) = kConnecting ∧ stream w0 = [].
Proof. by destruct loop_clean; eapply newConnection_cinv. Qed.

Lemma reachable_cinv w : reachable w0 w → cinv w.
Proof. intros Hr. by eapply reachable_good in Hr as [? _]; [..|apply start_cinv]. Qed.

Lemma later_evolves w1 w2 : reachable w0 w1 → reachable w1 w2 → evolves w1 w2.
Proof. intros H1 H2. by eapply reachable_good in H2 as [_ ?]; [..|by apply reachable_cinv]. Qed.

(** C1. The bytes that a connection has accepted - those the kernel took, followed by those
    waiting in the output buffer - only ever grow at the end: at any later point
    of any history the earlier ones are still there in the same order, and what the
    kernel has taken is always an initial part of them. *)
Theorem connection_stream w1 w2 :
  reachable w0 w1 → reachable w1 w2 →
  (∃ more, written w2 ++ out w2 = (written w1 ++ out w1) ++ more) ∧
  (∃ more, written w2 = written w1 ++ more) ∧
  written w1 `prefix_of` written w2 ++ out w2.
Proof.
  intros H1 H2. destruct (later_evolves _ _ H1 H2) as [Hs Hw _ _ _ _].
  split; [exact Hs|]. split; [exact Hw|]. etrans; [exact Hw|]. by eexists.
Qed.

(** C14. The write side is shut down only behind the last byte: at that moment everything accepted has
    been handed to the kernel (or the connection is gone), and nothing that happens
    later adds to the stream or writes again. *)
Theorem half_close w1 w2 :
  reachable w0 w1 → reachable w1 w2 → write_shutdown w1 = true →
  (state_ (conn w1) = kDisconnected ∨ out w1 = []) ∧
  write_shutdown w2 = true ∧
  written w2 ++ out w2 = written w1 ++ out w1 ∧
  (out w1 = [] → written w2 = written w1).
Proof.
  intros H1 H2 Hsh. pose proof (ci_shut _ (reachable_cinv _ H1) Hsh) as Hst.
  destruct (later_evolves _ _ H1 H2) as [_ [more Hw] _ _ Hs Hfrozen].
  assert (Hstr : stream w2 = stream w1) by (apply Hfrozen; destruct Hst as [-> | [-> _]]; simpl; lia).
  split; [tauto|]. split; [auto|]. split; [exact Hstr|].
  intros Hempty. unfold stream in Hstr. rewrite Hempty, app_nil_r, Hw in Hstr.
  rewrite <- app_assoc in Hstr. rewrite <- (app_nil_r (written w1)) in Hstr at 2.
  apply app_inv_head, app_nil in Hstr as [-> _]. by rewrite Hw, app_nil_r.
Qed.

(** While a connection is up its channel watches for writing exactly when bytes are
    waiting, and epoll has been told so: no byte waits without a wake-up to come, and no
    wake-up comes for nothing.  Once it is down nothing is watched. *)
Theorem writing_watched w :
  reachable w0 w → state_ (conn w) ≠ kConnecting →
  ∃ c, channels (loop_ w) !! channel_ (conn w) = Some c ∧
    (if decide (state_ (conn w) = kDisconnected) then Channel.events_ c = 0
     else Channel.isWriting c = true ↔ out w ≠ []) ∧
    ∃ k, Epoller.ctl_run (Epoller.ctl_log (poller_ (loop_ w))) = Some k ∧
      k !! Channel.fd_ c = if decide (Channel.index_ c = Epoller.kAdded) then Some (Channel.events_ c, channel_ (conn w)) else None.
Proof.
  intros Hr Hs. pose proof (reachable_cinv w Hr) as Hi. destruct (ci_channel _ Hi) as (c & Hc & Hfit).
  assert (Hidx : Channel.index_ c ≠ Epoller.kNew) by (destruct (state_ (conn w)); simpl in Hfit; tauto).
  exists c. split; [done|]. split.
  - case_decide as Hd.
    + rewrite Hd in Hfit. destruct Hfit as [_ Hn]. by apply Z.eqb_eq in Hn.
    + destruct (state_ (conn w)); simpl in Hfit; tauto.
  - destruct (Epoller.ok_kernel _ _ (ci_loop _ Hi)) as (k & Hk & Hreg). exists k. split; [done|].
    rewrite Hreg. unfold Epoller.registered.
    destruct (Epoller.ok_index _ _ (ci_loop _ Hi) _ _ Hc Hidx) as [Hfd _]. rewrite Hfd. simpl. rewrite Hc. simpl.
    case_decide as Ha; [by rewrite Ha|]. by rewrite (proj2 (Z.eqb_neq _ _) Ha).
Qed.
End History.


(** ** Sending *)

Lemma high_water_when w kept :
  high_water w kept =
  if decide (kept ≠ [] ∧ zlen (out w) < high_water_mark_ (conn w) ≤ zlen (out w) + zlen kept ∧
             high_water_mark_callback_ (conn w) = true)
  then [FHighWaterMark (zlen (out w) + zlen kept)] else [].
Proof.
  unfold high_water. assert (Hk : (0 <? zlen kept) = bool_decide (kept ≠ [])).
  { destruct kept as [|b kept]; [done|]. rewrite zlen_cons. pose proof (zlen_nonneg kept).
    rewrite bool_decide_eq_true_2 by done. apply Z.ltb_lt. lia. }
  rewrite Hk. destruct (high_water_mark_callback_ (conn w)).
  - rewrite andb_true_r. case_bool_decide; [|by rewrite decide_False by tauto].
    destruct (Z.leb_spec (high_water_mark_ (conn w)) (zlen (out w) + zlen kept)); cbn [andb].
    + destruct (Z.ltb_spec (zlen (out w)) (high_water_mark_ (conn w))).
      * by rewrite decide_True.
      * rewrite decide_False by (intros (_ & ? & _); lia). done.
    + rewrite decide_False by (intros (_ & ? & _); lia). done.
  - rewrite andb_false_r, decide_False; [done|]. naive_solver.
Qed.

Lemma write_complete_when sys_write w msg :
  (∀ n d k, sys_write n d = Wrote k → 0 ≤ k ≤ zlen d) →
  (direct_part sys_write w msg).2 =
  if decide (out w = [] ∧ sys_write (calls w) msg = Wrote (zlen msg) ∧ write_complete_callback_ (conn w) = true)
  then [FWriteComplete] else [].
Proof.
  intros Hb. unfold direct_part. case_decide as Ho; [|by rewrite decide_False by tauto].
  destruct (sys_write (calls w) msg) as [n|e] eqn:Hs; cbn [snd]; [|by rewrite decide_False by naive_solver].
  apply Hb in Hs. rewrite zlen_zdrop by done. destruct (Z.eqb_spec (zlen msg - n) 0) as [Hz|Hz]; cbn [andb].
  - destruct (write_complete_callback_ (conn w)).
    + rewrite decide_True; [done|]. split_and!; try done. f_equal. lia.
    + rewrite decide_False; [done|]. naive_solver.
  - rewrite decide_False; [done|]. intros (_ & [= ->] & _). lia.
Qed.
Section Sending.
Variable sys_write : nat → list byte → write_outcome.
Hypothesis write_bounded : ∀ n d k, sys_write n d = Wrote k → 0 ≤ k ≤ zlen d.
Variables (w : world) (msg : list byte).
Hypothesis inv : cinv w.
Hypothesis up : state_ (conn w) = kConnected.
Hypothesis small : zlen msg ≤ Buffer.max_size.

(** [sendInLoop], case by case.  With bytes waiting it writes nothing and appends the message.
    With none it offers the message to the kernel: what is not taken is
    kept, a message taken whole makes one write-complete call, [EPIPE] and
    [ECONNRESET] drop the message, any other error keeps it.  The high-water-mark
    callback is queued when the waiting bytes cross the mark, with their number. *)
Theorem sendInLoop_cases :
  match sendInLoop sys_write true msg w with
  | Fault f => f = LengthError
  | Ok w' =>
      let kept := zdrop (zlen (out w)) (out w') in
      (if decide (out w = []) then
         match sys_write (calls w) msg with
         | Wrote n => written w' = written w ++ ztake n msg ∧ out w' = zdrop n msg
         | WriteErr e => written w' = written w ∧
             out w' = if decide (e = EPIPE ∨ e = ECONNRESET) then [] else msg
         end
       else written w' = written w ∧ out w' = out w ++ msg) ∧
      pending_functors_ (loop_ w') = pending_functors_ (loop_ w) ++
        (if decide (out w = [] ∧ sys_write (calls w) msg = Wrote (zlen msg) ∧
                    write_complete_callback_ (conn w) = true) then [FWriteComplete] else []) ++
        (if decide (kept ≠ [] ∧ zlen (out w) < high_water_mark_ (conn w) ≤ zlen (out w') ∧
                    high_water_mark_callback_ (conn w) = true) then [FHighWaterMark (zlen (out w'))] else []) ∧
      cinv w' ∧ state_ (conn w') = kConnected
  end.
Proof using write_bounded inv up small.
  pose proof (send_connected_ok sys_write write_bounded w msg inv up small) as Hf.
  destruct (sendInLoop sys_write true msg w) as [w'|f]; [|exact Hf]. simpl in Hf.
  destruct (sent_good sys_write write_bounded msg w w' inv up Hf) as (Hi' & _ & _).
  destruct Hf as [Hw Ho Hp _ _ _ [o Hcn] _]. cbv zeta.
  rewrite Ho, zdrop_app_le, (zdrop_all _ (out w)), zlen_app by lia.
  split; [|split; [|by rewrite Hcn]].
  - rewrite Hw. unfold direct_part. case_decide as He; [|by rewrite app_nil_r].
    rewrite He. destruct (sys_write (calls w) msg) as [n|e]; [done|]. cbn [fst snd app]. rewrite app_nil_r. split; [done|].
    unfold fatal, EWOULDBLOCK, EPIPE, ECONNRESET. case_decide as Hd; [by destruct Hd as [-> | ->]|].
    destruct (Z.eqb_spec e 32); [tauto|]. destruct (Z.eqb_spec e 104); [tauto|]. by rewrite andb_false_r.
  - rewrite Hp. f_equal. f_equal; [by apply write_complete_when | apply high_water_when].
Qed.
End Sending.

(** ** Progress *)
Section Progress.
Variable sys_write : nat → list byte → write_outcome.
Hypothesis write_bounded : ∀ n d k, sys_write n d = Wrote k → 0 ≤ k ≤ zlen d.
(** The kernel takes something each time it says the socket is writable. *)
Hypothesis write_something : ∀ n d, d ≠ [] → ∃ k, sys_write n d = Wrote k ∧ 0 < k.

(** [n] reports that the socket is writable. *)
Definition writable_times (n : nat) (w : world) : result world :=
  foldM (fun _ w => handleWrite sys_write true w) (replicate n tt) w.

Lemma drains w :
  cinv w → (state_ (conn w) = kConnected ∨ state_ (conn w) = kDisconnecting) →
  ∃ n w', (n ≤ length (out w))%nat ∧ writable_times n w = Ok w' ∧
    out w' = [] ∧ written w' = written w ++ out w ∧ state_ (conn w') = state_ (conn w) ∧
    (out w ≠ [] → state_ (conn w) = kDisconnecting → write_shutdown w' = true).
Proof using write_bounded write_something.
  remember (length (out w)) as m eqn:Hm. revert w Hm.
  induction m as [m IH] using lt_wf_ind. intros w Hm Hi Hs.
  destruct (decide (out w = [])) as [He|Hne].
  { exists 0%nat, w. split_and!; try done; [lia | by rewrite He, app_nil_r]. }
  destruct (write_something (calls w) (out w) Hne) as (k & Hk & Hpos).
  destruct (handleWrite_exact sys_write write_bounded w Hi) as (w1 & Hw1 & [Hi1 _] & _ & Hwr).
  destruct (Hwr Hs Hne k Hk Hpos) as [H1 H2 H3 H4 _ _ _]. pose proof (write_bounded _ _ _ Hk) as Hb.
  assert (Hl : (length (out w1) < m)%nat).
  { rewrite H2, Hm. pose proof (zlen_zdrop k (out w) Hb) as Hz. unfold zlen in *. lia. }
  destruct (IH _ Hl w1 eq_refl Hi1) as (n & w2 & Hn & Hrun & Ho & Hwt & Hst & Hsh); [by rewrite H3|].
  exists (S n), w2. split; [lia|]. split.
  { unfold writable_times. cbn [replicate foldM]. rewrite Hw1, bind_Ok. exact Hrun. }
  split; [done|]. split; [rewrite Hwt, H1, H2, <- app_assoc; by rewrite ztake_zdrop|].
  split; [by rewrite Hst|]. intros _ Hd. destruct (decide (out w1 = [])) as [He1|He1].
  - assert (Hn0 : n = 0%nat) by (rewrite He1 in Hn; simpl in Hn; lia). subst n.
    unfold writable_times in Hrun. simpl in Hrun. injection Hrun as <-. by apply H4.
  - apply Hsh; [done | by rewrite H3].
Qed.

(** C15. A connection that is up gets rid of what waits: after at most as many reports
    that the socket is writable as bytes are waiting, all of it has reached
    the kernel in order; and if [shutdown] was called meanwhile, the
    write side is then shut down. *)
Theorem output_drains w :
  cinv w → (state_ (conn w) = kConnected ∨ state_ (conn w) = kDisconnecting) →
  ∃ n w', (n ≤ length (out w))%nat ∧ writable_times n w = Ok w' ∧
    out w' = [] ∧ written w' = written w ++ out w ∧ state_ (conn w') = state_ (conn w) ∧
    (out w ≠ [] → state_ (conn w) = kDisconnecting → write_shutdown w' = true).
Proof using write_bounded write_something. exact (drains w). Qed.
End Progress.

(** ** Removing a connection *)

Lemma taken_apart behaviour sys_write w :
  cinv w → state_ (conn w) = kDisconnected → event_handling_ (loop_ w) = false →
  (∀ c, channels (loop_ w) !! channel_ (conn w) = Some c → Channel.event_handling_ c = false) →
  ∃ w1 w2 c, connectDestroyed sys_write behaviour true w = Ok w1 ∧ destroyConnection true w1 = Ok w2 ∧
    channels (loop_ w) !! channel_ (conn w) = Some c ∧
    channels (loop_ w2) = delete (channel_ (conn w)) (channels (loop_ w)) ∧
    Epoller.channels_ (poller_ (loop_ w2)) = delete (Channel.fd_ c) (Epoller.channels_ (poller_ (loop_ w))) ∧ ok (loop_ w2).
Proof.
  intros Hi Hs Hh Hch. destruct (ci_channel _ Hi) as (c & Hc & Hfit). rewrite Hs in Hfit. destruct Hfit as [Hidx Hnone].
  unfold connectDestroyed. cbn [assertInLoopThread ensure]. rewrite bind_Ok, decide_False by (by rewrite Hs).
  rewrite bind_Ok.
  destruct (remove_ok (loop_ w) (channel_ (conn w)) c (ci_loop _ Hi) Hc Hidx Hnone ltac:(by rewrite Hh))
    as (ep & Hr & Hok & Hm).
  rewrite Hr, bind_Ok. set (w1 := with_loop _ w).
  assert (Hc1 : channels (loop_ w1) !! channel_ (conn w1) =
                Some (Channel.set_index Epoller.kNew (Channel.set_added_to_loop false c))) by apply lookup_insert_eq.
  unfold destroyConnection.
  destruct (destroy_ok (loop_ w1) (channel_ (conn w1)) _ Hok Hc1) as [Hd Hok2]; [done | exact (Hch c Hc) | done |].
  exists w1. eexists. exists c. split; [done|]. rewrite bool_decide_eq_true_2 by exact Hs. cbn [ensure].
  rewrite bind_Ok, Hd, bind_Ok. split; [done|]. split; [done|].
  split; [apply delete_insert_eq|]. split; [exact Hm | exact Hok2].
Qed.

(** Once its close callback has run, a connection can be taken apart: removing its channel and destroying
    the object fail no assertion, the loop's channel map and epoll's list have no trace of
    it, and the loop's other channels are untouched. *)
Theorem destroyed_clean behaviour sys_write w :
  cinv w → state_ (conn w) = kDisconnected → event_handling_ (loop_ w) = false →
  (∀ c, channels (loop_ w) !! channel_ (conn w) = Some c → Channel.event_handling_ c = false) →
  ∃ w1 w2 c, connectDestroyed sys_write behaviour true w = Ok w1 ∧ destroyConnection true w1 = Ok w2 ∧
    channels (loop_ w) !! channel_ (conn w) = Some c ∧
    channels (loop_ w2) = delete (channel_ (conn w)) (channels (loop_ w)) ∧
    Epoller.channels_ (poller_ (loop_ w2)) = delete (Channel.fd_ c) (Epoller.channels_ (poller_ (loop_ w))) ∧
    kernel_in_sync (loop_ w2).
Proof.
  intros Hi Hs Hh Hch. destruct (taken_apart behaviour sys_write w Hi Hs Hh Hch) as (w1 & w2 & c & H1 & H2 & H3 & H4 & H5 & Hok).
  exists w1, w2, c. by split_and!; try apply (Epoller.ok_kernel _ _ Hok).
Qed.

(** ** Uses that go wrong *)
Section Misuse.
Variable sys_write : nat → list byte → write_outcome.
Variable behaviour : user_event → world → list user_call.
Variable sys_readv : nat → Buffer.readv_outcome.
Local Notation perform := (perform sys_write behaviour sys_readv).

Lemma call_step inLoop a w : perform (Call inLoop a) w = exec_call sys_write inLoop a w.
Proof. done. Qed.

Lemma functor_step w f rest :
  pending_functors_ (loop_ w) = f :: rest →
  perform Functor w = run_functor sys_write behaviour f (on_loop (set_pending rest) w).
Proof. intros Hp. unfold TcpConnectionSpec.perform. by rewrite Hp. Qed.

Definition shut (w : world) : world :=
  mkWorld (loop_ w) (conn w) (strings w) (buffers w) (calls w) (written w) true (closed_calls w).

Lemma shutdownInLoop_result w c :
  channels (loop_ w) !! channel_ (conn w) = Some c →
  shutdownInLoop true w = Ok (if Channel.isWriting c then w else shut w).
Proof.
  intros Hc. unfold shutdownInLoop. cbn [assertInLoopThread ensure].
  rewrite bind_Ok, (channel_lookup w c), bind_Ok by done. by destruct (Channel.isWriting c).
Qed.

(** Two functors queued from another thread. *)
Lemma queued_two f1 f2 w :
  pending_functors_ (loop_ w) = [] →
  pending_functors_ (queueInLoop false f2 (queueInLoop false f1 (loop_ w))) = [f1; f2] ∧
  channels (queueInLoop false f2 (queueInLoop false f1 (loop_ w))) = channels (loop_ w).
Proof.
  intros He. destruct (queueInLoop_frame false f1 (loop_ w)) as (Hc1 & _ & Hp1).
  destruct (queueInLoop_frame false f2 (queueInLoop false f1 (loop_ w))) as (Hc2 & _ & Hp2).
  by rewrite Hp2, Hp1, Hc2, Hc1, He.
Qed.

(** A thread other than the loop's that sends a message and then shuts the connection down loses the
    message: [shutdown] leaves the state [kConnected] at once, so the queued [send] finds a
    connection that is going down and does nothing; then the write side is closed. *)
Theorem send_then_shutdown_loses w p s :
  cinv w → state_ (conn w) = kConnected → strings w !! p = Some s → pending_functors_ (loop_ w) = [] →
  ∃ w4, foldM perform [Call false (USendString p); Call false UShutdown; Functor; Functor] w = Ok w4 ∧
    written w4 = written w ∧ out w4 = out w ∧
    write_shutdown w4 = (write_shutdown w || bool_decide (out w = [])) ∧
    pending_functors_ (loop_ w4) = [].
Proof.
  intros Hi Hs Hp He. destruct (queued_two (FSendString p) FShutdownInLoop w He) as [Hpend Hch].
  destruct (ci_channel _ Hi) as (c & Hc & Hfit). rewrite Hs in Hfit. destruct Hfit as [_ Hw].
  cbn [foldM]. rewrite !call_step. cbn [exec_call]. unfold send. rewrite decide_True, bind_Ok by done.
  rewrite call_step. cbn [exec_call]. unfold shutdown. rewrite decide_True, bind_Ok by done.
  rewrite (functor_step _ (FSendString p) [FShutdownInLoop]) by exact Hpend.
  cbn [run_functor]. unfold send. rewrite decide_False, bind_Ok by done.
  rewrite (functor_step _ FShutdownInLoop []) by done. cbn [run_functor].
  erewrite shutdownInLoop_result.
  2: { etrans; [|exact Hc]. exact (f_equal (lookup (channel_ (conn w))) Hch). }
  assert (Hb : bool_decide (out w = []) = negb (Channel.isWriting c)).
  { case_bool_decide as Ho; destruct (Channel.isWriting c); try done; [by apply Hw in Ho|]. destruct Ho.
    destruct (decide (out w = [])) as [|Hne]; [done|]. by apply Hw in Hne. }
  rewrite Hb, bind_Ok. eexists. split; [done|].
  destruct (Channel.isWriting c); cbn [negb]; [by rewrite orb_false_r | by rewrite orb_true_r].
Qed.

(** Sending bytes by address and length from another thread builds a string, queues its
    address, and ends: the loop's thread then reads a string that is gone. *)
Theorem send_temporary_dangles w tmp data :
  cinv w → state_ (conn w) = kConnected → zlen data ≤ Buffer.max_size → pending_functors_ (loop_ w) = [] →
  foldM perform [Call false (USend tmp data); Functor] w = Fault UseAfterFree.
Proof.
  intros Hi Hs Hd He. cbn [foldM]. rewrite call_step. cbn [exec_call]. unfold send_bytes.
  rewrite (proj2 (Z.leb_le _ _)) by done. cbn [ensure]. rewrite bind_Ok.
  unfold send at 1. rewrite decide_True, !bind_Ok by done.
  destruct (queueInLoop_frame false (FSendString tmp) (loop_ w)) as (_ & _ & Hp1). rewrite He in Hp1.
  rewrite (functor_step _ (FSendString tmp) []) by exact Hp1. cbn [run_functor]. unfold send.
  rewrite decide_True by exact Hs. cbn [strings on_loop with_loop world_HasLoop set_strings queue].
  by rewrite lookup_delete_eq.
Qed.

(** [forceCloseWithDelay] does not close: on an idle connection it only changes the
    state, after which neither the loop, nor a writable socket, nor [shutdown], nor a [send] does
    anything; the channel stays registered and the close callback is not called. *)
Theorem delayed_close_sticks w :
  cinv w → state_ (conn w) = kConnected → out w = [] → pending_functors_ (loop_ w) = [] →
  ∃ w1, perform (Call true UForceCloseWithDelay) w = Ok w1 ∧ state_ (conn w1) = kDisconnecting ∧
    closed_calls w1 = closed_calls w ∧ loop_ w1 = loop_ w ∧
    ∀ e, e ∈ [Functor; Report CbWrite 0; Report CbError 0; Call true UShutdown; Call false UShutdown;
              Call true UForceCloseWithDelay; Call false UForceCloseWithDelay] → perform e w1 = Ok w1.
Proof.
  intros Hi Hs Ho Hp. cbn [perform exec_call]. unfold forceCloseWithDelay at 1. rewrite decide_True by auto.
  eexists. split; [done|]. split; [done|]. split; [done|]. split; [done|]. set (w1 := set_conn _ w).
  destruct (ci_channel _ Hi) as (c & Hc & Hfit). rewrite Hs in Hfit. destruct Hfit as [_ Hw].
  assert (Hwr : Channel.isWriting c = false) by (apply not_true_iff_false; rewrite Hw; tauto).
  intros e He. rewrite !elem_of_cons, elem_of_nil in He.
  decompose [or] He; clear He; subst; try done; cbn [perform exec_call run_callback]; try by unfold forceCloseWithDelay.
  - by change (pending_functors_ (loop_ w1)) with (pending_functors_ (loop_ w)); rewrite Hp.
  - unfold handleWrite. cbn [assertInLoopThread ensure]. rewrite bind_Ok, (channel_lookup w1 c), bind_Ok by done.
    by rewrite Hwr.
Qed.

(** A [startRead] that reaches the loop after the connection was closed registers its channel again, and
    removing the connection then fails the assertion that nothing is watched. *)
Theorem startRead_after_close w :
  cinv w → state_ (conn w) = kDisconnected → pending_functors_ (loop_ w) = [] →
  foldM perform [Call false UStartRead; Functor] w ≫= run_functor sys_write behaviour FConnectDestroyed
  = Fault AssertFailed.
Proof.
  intros Hi Hs Hp. destruct (queueInLoop_frame false FStartReadInLoop (loop_ w)) as (Hc1 & Hpo1 & Hp1).
  rewrite Hp in Hp1. cbn [foldM]. rewrite call_step. cbn [exec_call]. unfold startRead. rewrite bind_Ok.
  rewrite (functor_step _ FStartReadInLoop []) by exact Hp1. cbn [run_functor].
  set (w2 := on_loop (set_pending []) _).
  destruct (ci_channel _ Hi) as (c & Hc & Hfit). rewrite Hs in Hfit. destruct Hfit as [Hidx Hnone].
  assert (Hc2 : channels (loop_ w2) !! channel_ (conn w2) = Some c)
    by (etrans; [|exact Hc]; exact (f_equal (lookup (channel_ (conn w))) Hc1)).
  assert (Hok2 : ok (loop_ w2)).
  { unfold ok. change (channels (loop_ w2)) with (channels (queueInLoop false FStartReadInLoop (loop_ w))).
    change (poller_ (loop_ w2)) with (poller_ (queueInLoop false FStartReadInLoop (loop_ w))).
    rewrite Hc1, Hpo1. apply Hi. }
  unfold startReadInLoop. cbn [assertInLoopThread ensure]. rewrite bind_Ok, (channel_lookup w2 c), bind_Ok by done.
  assert (Hrd : Channel.isReading c = false).
  { unfold Channel.isNoneEvent, Channel.isReading in *. apply Z.eqb_eq in Hnone. by rewrite Hnone. }
  rewrite Hrd, orb_true_r.
  destruct (change_channel_ok Channel.EnableReading w2 c Hok2 Hc2 (fd_free_registered _ _ Hidx)) as (lp & -> & _ & Hc3 & _).
  rewrite !bind_Ok. cbn [run_functor]. unfold connectDestroyed. cbn [assertInLoopThread ensure].
  rewrite bind_Ok, decide_False by (change (state_ (conn w) ≠ kConnected); by rewrite Hs). rewrite bind_Ok.
  unfold remove, getChannel. cbn [loop_ set_conn with_loop world_HasLoop conn channel_ set_reading].
  change (channel_ (conn w2)) with (channel_ (conn w)) in *.
  rewrite (Epoller.deref_lookup _ _ _ Hc3), bind_Ok.
  assert (Hn : Channel.isNoneEvent (changed Channel.EnableReading c) = false).
  { unfold Channel.isNoneEvent, changed. unfold Channel.isNoneEvent in Hnone. apply Z.eqb_eq in Hnone.
    cbn [Channel.events_ Channel.set_index Channel.set_added_to_loop Channel.set_events Channel.change_events].
    by rewrite Hnone. }
  by rewrite Hn.
Qed.
End Misuse.

(** ** The example connection in the theorems *)

(** Events one after the other, each enabled when it happens. *)
Fixpoint history (evs : list event) (w w' : world) : Prop :=
  match evs with
  | [] => w = w'
  | e :: evs => enabled hello e w ∧ ∃ w1, perform three_bytes echo hello e w = Ok w1 ∧ history evs w1 w'
  end.

Lemma reachable_trans sw bh sr w0 w1 w2 :
  reachable sw bh sr w0 w1 → reachable sw bh sr w1 w2 → reachable sw bh sr w0 w2.
Proof. intros H1. induction 1; [done|]. by eapply reach_step. Qed.

Lemma history_reachable evs w w' : history evs w w' → reachable three_bytes echo hello w w'.
Proof.
  revert w. induction evs as [|e evs IH]; intros w; simpl; [intros ->; constructor|].
  intros (He & w1 & Hp & Hh). eapply reachable_trans; [|by apply IH].
  eapply reach_step; [constructor | done | done].
Qed.

(** The state after some events. *)
Definition at_events (evs : list event) (P : world → Prop) : Prop :=
  ∃ lp w0 w, clean_loop 2 7 lp ∧ newConnection (bytes "c") 7 2 true true lp = Ok w0 ∧ history evs w0 w ∧ P w.

Ltac compute_history :=
  simpl; repeat (split; [first [ vm_compute; reflexivity | left; vm_compute; reflexivity | vm_compute; exact I
      | split; [left; vm_compute; reflexivity | intros ? [= <-]; vm_compute; discriminate] ]|];
    eexists; split; [vm_compute; reflexivity|]); reflexivity.

(** Established, five bytes read and echoed: three are written, two wait. *)
Lemma echoed : at_events [Establish 9; Report CbRead 0] (fun w =>
  state_ (conn w) = kConnected ∧ written w = bytes "hel" ∧ out w = bytes "lo" ∧ closed_calls w = 0%nat).
Proof.
  destruct demo_ok as (lp & w0 & _ & Hc & Hn & Hd). exists lp, w0.
  vm_compute in Hd. injection Hd as <-.
  eexists. split; [done|]. split; [exact Hn|]. clear Hn Hc. split; [compute_history|]. vm_compute. done.
Qed.

(** The socket becomes writable. *)
Lemma echo_written w :
  state_ (conn w) = kConnected → cinv w → written w = bytes "hel" → out w = bytes "lo" →
  ∃ w', history [Report CbWrite 0] w w' ∧ written w' = bytes "hello" ∧ out w' = [].
Proof.
  intros Hs Hi Hw Ho. destruct (handleWrite_exact three_bytes three_bytes_bounded w Hi) as (w' & Hrun & _ & _ & Hwr).
  destruct (Hwr (or_introl Hs)) with (n := 2) as [H1 H2 _ _ _ _ _]; [by rewrite Ho | by rewrite Ho | done |].
  exists w'. split; [|by rewrite H1, H2, Hw, Ho]. simpl. split; [done|]. exists w'. by split.
Qed.

Lemma connection_stream_witness :
  ∃ w0 w1 w2, history [Establish 9; Report CbRead 0] w0 w1 ∧ history [Report CbWrite 0] w1 w2 ∧
    written w1 = bytes "hel" ∧ out w1 = bytes "lo" ∧ written w2 = bytes "hello" ∧
    (∃ more, written w2 ++ out w2 = (written w1 ++ out w1) ++ more) ∧
    (∃ more, written w2 = written w1 ++ more) ∧ written w1 `prefix_of` written w2 ++ out w2.
Proof.
  destruct echoed as (lp & w0 & w1 & Hc & Hn & Hh & Hs & Hw & Ho & _).
  pose proof (history_reachable _ _ _ Hh) as Hr.
  pose proof (reachable_cinv _ three_bytes_bounded _ echo_allowed _ _ _ _ _ _ _ _ Hc Hn _ Hr) as Hi.
  destruct (echo_written w1 Hs Hi Hw Ho) as (w2 & Hh2 & Hw2 & _).
  exists w0, w1, w2. do 5 (split; [assumption|]).
  exact (connection_stream three_bytes three_bytes_bounded echo echo_allowed hello _ _ _ _ _ lp w0 Hc Hn w1 w2 Hr
           (history_reachable _ _ _ Hh2)).
Defined.


(** Echoed, shut down, drained: the write side closes, and a later [send] changes nothing. *)
Lemma shut_down_demo : at_events [Establish 9; Report CbRead 0; Call true UShutdown; Report CbWrite 0] (fun w =>
  write_shutdown w = true ∧ written w = bytes "hello" ∧ out w = [] ∧ ∃ w2, history [Call true UShutdown; Functor] w w2).
Proof.
  destruct demo_ok as (lp & w0 & _ & Hc & Hn & Hd). exists lp, w0.
  vm_compute in Hd. injection Hd as <-.
  eexists. split; [done|]. split; [exact Hn|]. clear Hn Hc. split; [compute_history|].
  split; [done|]. split; [done|]. split; [done|]. eexists. compute_history.
Qed.

Lemma half_close_witness :
  ∃ w1 w2, write_shutdown w1 = true ∧ history [Call true UShutdown; Functor] w1 w2 ∧
    (state_ (conn w1) = kDisconnected ∨ out w1 = []) ∧ write_shutdown w2 = true ∧
    written w2 ++ out w2 = written w1 ++ out w1 ∧ (out w1 = [] → written w2 = written w1).
Proof.
  destruct shut_down_demo as (lp & w0 & w1 & Hc & Hn & Hh1 & Hs1 & _ & _ & w2 & Hh2).
  exists w1, w2. split; [exact Hs1|]. split; [exact Hh2|].
  exact (half_close three_bytes three_bytes_bounded echo echo_allowed hello _ _ _ _ _ lp w0 Hc Hn w1 w2
    (history_reachable _ _ _ Hh1) (history_reachable _ _ _ Hh2) Hs1).
Defined.

Lemma writing_watched_witness :
  ∃ w c, out w = bytes "lo" ∧ channels (loop_ w) !! channel_ (conn w) = Some c ∧
    (if decide (state_ (conn w) = kDisconnected) then Channel.events_ c = 0
     else Channel.isWriting c = true ↔ out w ≠ []) ∧
    ∃ k, Epoller.ctl_run (Epoller.ctl_log (poller_ (loop_ w))) = Some k ∧
      k !! Channel.fd_ c = if decide (Channel.index_ c = Epoller.kAdded) then Some (Channel.events_ c, channel_ (conn w)) else None.
Proof.
  destruct echoed as (lp & w0 & w1 & Hc & Hn & Hh & Hs & Hw & Ho & _).
  destruct (writing_watched three_bytes three_bytes_bounded echo echo_allowed hello _ _ _ _ _ lp w0 Hc Hn w1
    (history_reachable _ _ _ Hh)) as (c & H); [by rewrite Hs|].
  exists w1, c. split; [exact Ho | exact H].
Defined.

(** Idle and up; a string of the user's is kept at 1. *)
Lemma idle_demo : ∃ w, cinv w ∧ state_ (conn w) = kConnected ∧ out w = [] ∧ written w = [] ∧
  pending_functors_ (loop_ w) = [] ∧ strings w !! 1%positive = Some (bytes "bye").
Proof.
  destruct demo_ok as (lp & w0 & _ & Hc & Hn & Hd).
  pose proof (reachable_cinv _ three_bytes_bounded _ echo_allowed hello _ _ _ _ _ _ _ Hc Hn) as T.
  clear Hn. vm_compute in Hd. injection Hd as Hd. symmetry in Hd.
  assert (H : ∃ w1, history [Establish 9] w0 w1 ∧ state_ (conn w1) = kConnected ∧ out w1 = [] ∧ written w1 = [] ∧
    pending_functors_ (loop_ w1) = []).
  { rewrite Hd. clear T Hd. eexists. split; [compute_history|]. vm_compute. done. }
  destruct H as (w1 & Hh & Hs & Ho & Hw & Hp). pose proof (T _ (history_reachable _ _ _ Hh)) as Hi.
  exists (set_strings {[1%positive := bytes "bye"]} w1). split_and!; try done.
  destruct Hi as [Hl Hin Hout Hst Hbs Hpe (c & Hch & Hfit) Hsh Hcl]. constructor; try done.
  - intros p s Hs1. cbn [strings set_strings] in Hs1. apply lookup_singleton_Some in Hs1 as [_ <-]. vm_compute. discriminate.
  - cbn [loop_ set_strings]. rewrite Hp. constructor.
  - by exists c.
Qed.

Lemma sendInLoop_cases_witness :
  ∃ w, cinv w ∧ out w = [] ∧
  match sendInLoop three_bytes true (bytes "hello") w with
  | Fault f => f = LengthError
  | Ok w' =>
      let kept := zdrop (zlen (out w)) (out w') in
      (if decide (out w = []) then
         match three_bytes (calls w) (bytes "hello") with
         | Wrote n => written w' = written w ++ ztake n (bytes "hello") ∧ out w' = zdrop n (bytes "hello")
         | WriteErr e => written w' = written w ∧
             out w' = if decide (e = EPIPE ∨ e = ECONNRESET) then [] else bytes "hello"
         end
       else written w' = written w ∧ out w' = out w ++ bytes "hello") ∧
      pending_functors_ (loop_ w') = pending_functors_ (loop_ w) ++
        (if decide (out w = [] ∧ three_bytes (calls w) (bytes "hello") = Wrote (zlen (bytes "hello")) ∧
                    write_complete_callback_ (conn w) = true) then [FWriteComplete] else []) ++
        (if decide (kept ≠ [] ∧ zlen (out w) < high_water_mark_ (conn w) ≤ zlen (out w') ∧
                    high_water_mark_callback_ (conn w) = true) then [FHighWaterMark (zlen (out w'))] else []) ∧
      cinv w' ∧ state_ (conn w') = kConnected
  end.
Proof.
  destruct idle_demo as (w & Hi & Hs & Ho & _). exists w. split; [exact Hi|]. split; [exact Ho|].
  apply (sendInLoop_cases three_bytes three_bytes_bounded w (bytes "hello") Hi Hs). vm_compute. discriminate.
Defined.

Lemma three_bytes_some n d : d ≠ [] → ∃ k, three_bytes n d = Wrote k ∧ 0 < k.
Proof.
  intros Hd. eexists. split; [reflexivity|]. destruct d; [done|]. rewrite zlen_cons. pose proof (zlen_nonneg d). lia.
Qed.

Lemma output_drains_witness :
  ∃ w n w', out w = bytes "lo" ∧ (n ≤ length (out w))%nat ∧ writable_times three_bytes n w = Ok w' ∧
    out w' = [] ∧ written w' = written w ++ out w ∧ state_ (conn w') = state_ (conn w) ∧
    (out w ≠ [] → state_ (conn w) = kDisconnecting → write_shutdown w' = true).
Proof.
  destruct echoed as (lp & w0 & w1 & Hc & Hn & Hh & Hs & Hw & Ho & _).
  pose proof (reachable_cinv _ three_bytes_bounded _ echo_allowed _ _ _ _ _ _ _ _ Hc Hn _ (history_reachable _ _ _ Hh)) as Hi.
  destruct (output_drains three_bytes three_bytes_bounded three_bytes_some w1 Hi (or_introl Hs)) as (n & w' & H).
  exists w1, n, w'. split; [exact Ho | exact H].
Defined.

(** Closed by the peer while idle. *)
Lemma closed_demo : ∃ w, cinv w ∧ state_ (conn w) = kDisconnected ∧ event_handling_ (loop_ w) = false ∧
  pending_functors_ (loop_ w) = [] ∧ closed_calls w = 1%nat ∧
  (∀ c, channels (loop_ w) !! channel_ (conn w) = Some c → Channel.event_handling_ c = false).
Proof.
  destruct demo_ok as (lp & w0 & _ & Hc & Hn & Hd).
  pose proof (reachable_cinv _ three_bytes_bounded _ echo_allowed hello _ _ _ _ _ _ _ Hc Hn) as T.
  clear Hn. vm_compute in Hd. injection Hd as Hd. symmetry in Hd.
  assert (H : ∃ w1, history [Establish 9; Report CbClose 0] w0 w1 ∧ state_ (conn w1) = kDisconnected ∧
    event_handling_ (loop_ w1) = false ∧ pending_functors_ (loop_ w1) = [] ∧ closed_calls w1 = 1%nat ∧
    (∀ c, channels (loop_ w1) !! channel_ (conn w1) = Some c → Channel.event_handling_ c = false)).
  { rewrite Hd. clear T Hd. eexists. split; [compute_history|].
    do 4 (split; [vm_compute; reflexivity|]). intros c Hch. vm_compute in Hch. by injection Hch as <-. }
  destruct H as (w1 & Hh & H). exists w1. split; [exact (T _ (history_reachable _ _ _ Hh)) | exact H].
Qed.

Lemma destroyed_clean_witness :
  ∃ w w1 w2 c, closed_calls w = 1%nat ∧
    connectDestroyed three_bytes echo true w = Ok w1 ∧ destroyConnection true w1 = Ok w2 ∧
    channels (loop_ w) !! channel_ (conn w) = Some c ∧
    channels (loop_ w2) = delete (channel_ (conn w)) (channels (loop_ w)) ∧
    Epoller.channels_ (poller_ (loop_ w2)) = delete (Channel.fd_ c) (Epoller.channels_ (poller_ (loop_ w))) ∧
    kernel_in_sync (loop_ w2).
Proof.
  destruct closed_demo as (w & Hi & Hs & Hh & _ & Hcl & Hc).
  destruct (destroyed_clean echo three_bytes w Hi Hs Hh Hc) as (w1 & w2 & c & H).
  exists w, w1, w2, c. split; [exact Hcl | exact H].
Defined.

Lemma send_then_shutdown_loses_witness :
  ∃ w w4, strings w !! 1%positive = Some (bytes "bye") ∧
    foldM (perform three_bytes echo hello) [Call false (USendString 1); Call false UShutdown; Functor; Functor] w = Ok w4 ∧
    written w4 = written w ∧ out w4 = out w ∧
    write_shutdown w4 = (write_shutdown w || bool_decide (out w = [])) ∧
    pending_functors_ (loop_ w4) = [].
Proof.
  destruct idle_demo as (w & Hi & Hs & _ & _ & Hp & Hstr).
  destruct (send_then_shutdown_loses three_bytes echo hello w 1 _ Hi Hs Hstr Hp) as (w4 & H).
  exists w, w4. split; [exact Hstr | exact H].
Defined.

Lemma send_temporary_dangles_witness :
  ∃ w, state_ (conn w) = kConnected ∧
    foldM (perform three_bytes echo hello) [Call false (USend 5 (bytes "bye")); Functor] w = Fault UseAfterFree.
Proof.
  destruct idle_demo as (w & Hi & Hs & _ & _ & Hp & _). exists w. split; [exact Hs|].
  apply (send_temporary_dangles three_bytes echo hello w 5 (bytes "bye") Hi Hs); [vm_compute; discriminate | exact Hp].
Defined.

Lemma delayed_close_sticks_witness :
  ∃ w w1, state_ (conn w) = kConnected ∧
    perform three_bytes echo hello (Call true UForceCloseWithDelay) w = Ok w1 ∧ state_ (conn w1) = kDisconnecting ∧
    closed_calls w1 = closed_calls w ∧ loop_ w1 = loop_ w ∧
    ∀ e, e ∈ [Functor; Report CbWrite 0; Report CbError 0; Call true UShutdown; Call false UShutdown;
              Call true UForceCloseWithDelay; Call false UForceCloseWithDelay] → perform three_bytes echo hello e w1 = Ok w1.
Proof.
  destruct idle_demo as (w & Hi & Hs & Ho & _ & Hp & _).
  destruct (delayed_close_sticks three_bytes echo hello w Hi Hs Ho Hp) as (w1 & H).
  exists w, w1. split; [exact Hs | exact H].
Defined.

Lemma startRead_after_close_witness :
  ∃ w, closed_calls w = 1%nat ∧
    foldM (perform three_bytes echo hello) [Call false UStartRead; Functor] w
      ≫= run_functor three_bytes echo FConnectDestroyed = Fault AssertFailed.
Proof.
  destruct closed_demo as (w & Hi & Hs & _ & Hp & Hcl & _). exists w. split; [exact Hcl|].
  apply (startRead_after_close three_bytes echo hello w Hi Hs Hp).
Defined.
