(* ===== verification/ThreadPool.v ===== *)
(** * The thread pool: include/libfm/fmutil/ThreadPool.h and util/ThreadPool.cpp

    The state is the object's members, which the mutex protects, and the position of
    each worker in [runInThread].  A step is one passage through a critical section (or
    the unlocked read of [running_]); a condition-variable wait is the test of its predicate:
    a thread whose predicate is false stays where it is and tries again
    at any later step, so that neither a lost nor a spurious notification matters. *)
From stdpp Require Import base list.
From Stdlib Require Import ZArith Lia.
From S2P Require Import Prelude.
#[local] Open Scope Z_scope.
#[local] Open Scope fm_scope.

Module ThreadPool.
Section Pool.
Context {T : Type}.

(** Where a worker is in [runInThread]. *)
Inductive worker :=
  | Unstarted                     (** a null [unique_ptr] *)
  | AtLoop                        (** before the test of [running_] *)
  | AtEmpty                       (** [running_] was false; before [isEmptyQueue] *)
  | InTake                        (** in [take], waiting on [not_empty_] *)
  | HasTask (task : option T)     (** behind [take] *)
  | Exited.

(** [src/include/libfm/fmutil/ThreadPool.h:44-51 ThreadPool data members] with the tasks that ran, oldest first. *)
Record ThreadPool := mkPool {
  queue_ : list T;
  threads_ : list worker;
  running_ : bool;
  max_size_ : Z;
  executed : list T
}.

(** [src/util/ThreadPool.cpp:10-18 ThreadPool::ThreadPool] *)
Definition newPool (maxSize : Z) : ThreadPool := mkPool [] [] false maxSize [].

(** [src/util/ThreadPool.cpp:24-26 ThreadPool::setThreadNum] Dropping a thread that
    was started ends the program. *)
Definition setThreadNum (numThreads : nat) (p : ThreadPool) : result ThreadPool :=
  check! FatalLog (forallb (fun w => match w with Unstarted => true | _ => false end) (drop numThreads (threads_ p)));
  Ok (mkPool (queue_ p)
        (take numThreads (threads_ p) ++ replicate (numThreads - length (threads_ p)) Unstarted)
        (running_ p) (max_size_ p) (executed p)).

(** [src/util/ThreadPool.cpp:28-32 ThreadPool::start] *)
Definition start (p : ThreadPool) : ThreadPool :=
  mkPool (queue_ p) (map (fun _ => AtLoop) (threads_ p)) true (max_size_ p) (executed p).

(** The critical section of [stop]. *)
Definition request_stop (p : ThreadPool) : ThreadPool :=
  mkPool (queue_ p) (threads_ p) false (max_size_ p) (executed p).

(** [src/util/ThreadPool.cpp:34-42 ThreadPool::stop] The joins return when all
    workers have exited: [None] while they have not. *)
Definition stop_returns (p : ThreadPool) : bool :=
  forallb (fun w => match w with Exited => true | _ => false end) (threads_ p).

Inductive submit_result :=
  | RunInline                     (** the caller runs the task itself *)
  | Queued (p : ThreadPool)
  | Blocked.                      (** waiting on [not_full_] *)

(** [src/util/ThreadPool.cpp:44-56 ThreadPool::submit] *)
Definition submit (task : T) (p : ThreadPool) : submit_result :=
  if bool_decide (threads_ p = []) then RunInline
  else if max_size_ p <=? zlen (queue_ p)
  then Queued (mkPool (queue_ p ++ [task]) (threads_ p) (running_ p) (max_size_ p) (executed p))
  else Blocked.

(** [src/util/ThreadPool.cpp:58-69 ThreadPool::take] [None] while the wait goes on. *)
Definition take (p : ThreadPool) : option (option T * ThreadPool) :=
  if bool_decide (queue_ p = []) && running_ p then
    match queue_ p with
    | task :: q => Some (Some task, mkPool q (threads_ p) (running_ p) (max_size_ p) (executed p))
    | [] => Some (None, p)
    end
  else None.

(** [src/util/ThreadPool.cpp:80-83 ThreadPool::isEmptyQueue] *)
Definition isEmptyQueue (p : ThreadPool) : bool := bool_decide (queue_ p = []).

Definition set_worker (i : nat) (w : worker) (p : ThreadPool) : ThreadPool :=
  mkPool (queue_ p) (<[i := w]> (threads_ p)) (running_ p) (max_size_ p) (executed p).

(** [src/util/ThreadPool.cpp:71-78 ThreadPool::runInThread] One step of worker [i]. *)
Definition runInThread (i : nat) (p : ThreadPool) : ThreadPool :=
  match threads_ p !! i with
  | Some AtLoop => set_worker i (if running_ p then InTake else AtEmpty) p
  | Some AtEmpty => set_worker i (if isEmptyQueue p then Exited else InTake) p
  | Some InTake =>
      match take p with
      | Some (task, p) => set_worker i (HasTask task) p
      | None => p
      end
  | Some (HasTask task) =>
      set_worker i AtLoop
        (match task with
         | Some t => mkPool (queue_ p) (threads_ p) (running_ p) (max_size_ p) (executed p ++ [t])
         | None => p
         end)
  | _ => p
  end.

(** What happens to a started pool. *)
Inductive pool_event :=
  | Worker (i : nat)
  | Submit (task : T)
  | Stop.

Definition step (e : pool_event) (p : ThreadPool) : ThreadPool :=
  match e with
  | Worker i => runInThread i p
  | Submit task => match submit task p with Queued p => p | _ => p end
  | Stop => request_stop p
  end.

Definition run (evs : list pool_event) (p : ThreadPool) : ThreadPool := fold_left (fun p e => step e p) evs p.

(** No worker holds a task: [take] gives one out only when there is none. *)
Definition idle (p : ThreadPool) : Prop :=
  Forall (fun w => match w with HasTask (Some _) => False | _ => True end) (threads_ p).

Lemma take_nothing p task p' : take p = Some (task, p') → task = None ∧ p' = p.
Proof.
  unfold take. destruct (bool_decide_reflect (queue_ p = [])) as [->|]; [|done].
  destruct (running_ p); [|done]. by intros [= <- <-].
Qed.

Lemma submit_frame task p :
  match submit task p with Queued q => q | _ => p end = p ∨
  match submit task p with Queued q => q | _ => p end =
    mkPool (queue_ p ++ [task]) (threads_ p) (running_ p) (max_size_ p) (executed p).
Proof. unfold submit. destruct (bool_decide (threads_ p = [])), (max_size_ p <=? zlen (queue_ p)); auto. Qed.

Lemma idle_set_worker i w p :
  idle p → match w with HasTask (Some _) => False | _ => True end → idle (set_worker i w p).
Proof. intros Hi Hw. by apply Forall_insert. Qed.

Lemma step_idle e p :
  idle p → idle (step e p) ∧ executed (step e p) = executed p ∧
  length (threads_ (step e p)) = length (threads_ p) ∧ max_size_ (step e p) = max_size_ p.
Proof.
  intros Hi. destruct e as [i|task|]; simpl; [|by destruct (submit_frame task p) as [-> | ->]|done].
  unfold runInThread. destruct (threads_ p !! i) as [w|] eqn:Hw; [|done].
  destruct w as [| | | |task|]; try done.
  - split; [apply idle_set_worker; [done | by destruct (running_ p)]|]. simpl. by rewrite length_insert.
  - split; [apply idle_set_worker; [done | by destruct (isEmptyQueue p)]|]. simpl. by rewrite length_insert.
  - destruct (take p) as [[task p']|] eqn:Ht; [|done]. apply take_nothing in Ht as [-> ->].
    split; [by apply idle_set_worker|]. simpl. by rewrite length_insert.
  - destruct task as [t|].
    + exfalso. exact (proj1 (Forall_lookup _ _) Hi _ _ Hw).
    + split; [by apply idle_set_worker|]. simpl. by rewrite length_insert.
Qed.

Lemma start_idle p : idle (start p).
Proof. unfold idle. simpl. by induction (threads_ p); constructor. Qed.

(** What stays true of a pool started with workers. *)
Record unused (maxSize : Z) (n : nat) (p : ThreadPool) : Prop := {
  un_idle : idle p;
  un_executed : executed p = [];
  un_threads : length (threads_ p) = n;
  un_max : max_size_ p = maxSize;
  un_queue : 0 < maxSize → queue_ p = []
}.

Lemma start_unused maxSize n p :
  setThreadNum n (newPool maxSize) = Ok p → unused maxSize n (start p).
Proof.
  unfold setThreadNum. cbn [threads_ newPool]. rewrite drop_nil. simpl. rewrite take_nil, Nat.sub_0_r.
  intros [= <-]. constructor; try done; [apply start_idle|].
  simpl. by rewrite length_map, length_replicate.
Qed.

Lemma unused_submit maxSize n p task :
  unused maxSize n p → n ≠ 0%nat → 0 < maxSize → submit task p = Blocked.
Proof.
  intros [_ _ Hl Hm Hq] Hn Hpos. unfold submit.
  rewrite bool_decide_eq_false_2 by (intros Hnil; rewrite Hnil in Hl; simpl in Hl; lia).
  rewrite Hm, (Hq Hpos). change (zlen (@nil T)) with 0. by rewrite (proj2 (Z.leb_gt _ _)) by lia.
Qed.

Lemma unused_step maxSize n e p : n ≠ 0%nat → unused maxSize n p → unused maxSize n (step e p).
Proof.
  intros Hn Hu. destruct (step_idle e p (un_idle _ _ _ Hu)) as (Hi & He & Hl & Hm). pose proof Hu as [_ He0 Hl0 Hm0 Hq].
  constructor; [done | congruence | lia | congruence |]. intros Hpos. destruct e as [i|task|]; simpl; [| |auto].
  - unfold runInThread. destruct (threads_ p !! i) as [[| | | |[]|]|]; try by auto.
    + destruct (take p) as [[task p']|] eqn:Ht; [|by auto]. apply take_nothing in Ht as [-> ->]. by auto.
  - rewrite (unused_submit maxSize n) by done. by auto.
Qed.

Lemma run_unused maxSize n evs p : n ≠ 0%nat → unused maxSize n p → unused maxSize n (run evs p).
Proof.
  intros Hn. unfold run. revert p. induction evs as [|e evs IH]; intros p Hu; [done|]. cbn [fold_left].
  by apply IH, unused_step.
Qed.

Lemma pool_blocks maxSize n p evs task :
  setThreadNum n (newPool maxSize) = Ok p → n ≠ 0%nat → 0 < maxSize →
  submit task (run evs (start p)) = Blocked.
Proof. intros Hs Hn Hpos. by eapply unused_submit; [apply run_unused; [|by eapply start_unused]|..]. Qed.

(** C38. The wait predicates of the pool are inverted: [take] waits for an empty
    queue and [submit] for a full one.  A started pool with workers never runs a task: in
    every schedule the workers execute nothing, and unless the capacity is 0 every [submit]
    blocks its caller for ever. *)
Theorem pool_never_executes (maxSize : Z) (n : nat) (p : ThreadPool) (evs : list pool_event) :
  setThreadNum n (newPool maxSize) = Ok p → n ≠ 0%nat →
  let q := run evs (start p) in
  executed q = [] ∧ (0 < maxSize → queue_ q = [] ∧ ∀ task, submit task q = Blocked).
Proof.
  intros Hset Hn. cbv zeta. destruct (run_unused maxSize n evs (start p) Hn) as [_ He _ _ Hq]; [by apply start_unused|].
  split; [done|]. intros Hpos. split; [auto|]. intros task. by eapply pool_blocks.
Qed.

Lemma take_when_stopped p : running_ p = false → take p = None.
Proof. intros Hr. unfold take. by rewrite Hr, andb_false_r. Qed.

Lemma stopped_stays evs i p :
  running_ p = false → threads_ p !! i = Some InTake →
  running_ (run evs p) = false ∧ threads_ (run evs p) !! i = Some InTake.
Proof.
  unfold run. revert p. induction evs as [|e evs IH]; intros p Hr Hi; [done|]. cbn [fold_left]. apply IH.
  - destruct e as [j|task|]; simpl; [|by destruct (submit_frame task p) as [-> | ->]|done].
    unfold runInThread. destruct (threads_ p !! j) as [[| | | |[]|]|]; try done. by rewrite take_when_stopped.
  - destruct e as [j|task|]; simpl; [|by destruct (submit_frame task p) as [-> | ->]|done].
    unfold runInThread. destruct (decide (j = i)) as [->|Hne].
    + rewrite Hi, take_when_stopped; done.
    + destruct (threads_ p !! j) as [[| | | |[]|]|]; try done; simpl; try by rewrite list_lookup_insert_ne.
      by rewrite take_when_stopped.
Qed.

(** A pool with workers may not stop: a worker that is inside [take] when [stop] clears
    [running_] waits for a predicate that stays false, so the join never
    returns, whatever happens next. *)
Theorem stop_may_hang p i evs :
  threads_ p !! i = Some AtLoop → running_ p = true →
  stop_returns (run (Worker i :: Stop :: evs) p) = false.
Proof.
  intros Hi Hr. unfold run. cbn [fold_left step]. set (p1 := request_stop (runInThread i p)).
  assert (H : running_ p1 = false ∧ threads_ p1 !! i = Some InTake).
  { split; [done|]. unfold p1, runInThread. rewrite Hi, Hr. simpl.
    apply list_lookup_insert_eq. by eapply lookup_lt_Some. }
  destruct (stopped_stays evs i p1) as [_ Hin]; [apply H | apply H |]. unfold run in Hin.
  unfold stop_returns. apply not_true_iff_false. intros Hall. rewrite forallb_forall in Hall.
  apply list_elem_of_lookup_2, list_elem_of_In in Hin. by apply Hall in Hin.
Qed.
End Pool.

(** Six workers and the default capacity of the HTTP server. *)
Lemma pool_never_executes_witness :
  ∃ p, setThreadNum (T := nat) 6 (newPool 10240) = Ok p ∧
    let q := run [Submit 1%nat; Worker 0; Worker 0; Worker 0; Submit 2%nat; Worker 3] (start p) in
    executed q = [] ∧ (0 < 10240 → queue_ q = [] ∧ ∀ task, submit task q = Blocked).
Proof.
  eexists. split; [reflexivity|].
  apply (pool_never_executes 10240 6 _ [Submit 1%nat; Worker 0; Worker 0; Worker 0; Submit 2%nat; Worker 3]);
    [reflexivity | discriminate].
Defined.

Lemma stop_may_hang_witness :
  stop_returns (run (T := nat) [Worker 0; Stop; Worker 0; Worker 0; Worker 0]
    (mkPool [] [AtLoop] true 10240 [])) = false.
Proof. apply (stop_may_hang (T := nat) (mkPool [] [AtLoop] true 10240 []) 0); reflexivity. Defined.
End ThreadPool.
Export ThreadPool (ThreadPool, pool_blocks).
