(* ===== verification/HttpService.v ===== *)
(** * The HTTP server: net/http/HttpServer.cpp and include/libfm/fmnet/http/HttpServer.h

    The service of one connection: the connection's world ([TcpConnection]), the parser
    state kept in its [user_context_], and the server's thread pool.  The user's
    [HttpCallback], the iteration order of header maps and what moved-from
    strings hold are parameters.  A result of [None] means that the call does not return (a
    parse that loops, a blocked [submit]).

    A [Buffer] or string local to a function lives at a fresh address of the
    connection's world for the time of the call. *)
From stdpp Require Import base list gmap numbers strings.
From Stdlib Require Import ZArith Lia Init.Byte.
From S2P Require Import Prelude.
From S2P Require Import ByteBuffer.
From S2P Require Import HttpMessage.
From S2P Require Import HttpReply.
From S2P Require Import HttpParser.
From S2P Require Import TcpConnection.
From S2P Require Import ThreadPool.
Import HttpParser.HttpContext.
#[local] Open Scope Z_scope.
#[local] Open Scope fm_scope.

Module HttpServer.
Import TcpConnection.TcpConnection.

(** A task of the server's pool: a request to answer on this connection. *)
Record http := mkHttp {
  net : world;
  user_context_ : option HttpContext;
  threadPool_ : ThreadPool (T := HttpRequest)
}.

Definition set_net (w : world) (s : http) : http := mkHttp w (user_context_ s) (threadPool_ s).
Definition set_context (c : option HttpContext) (s : http) : http := mkHttp (net s) c (threadPool_ s).
Definition set_pool (p : ThreadPool) (s : http) : http := mkHttp (net s) (user_context_ s) p.

(** [src/net/http/HttpServer.cpp:18-22 defaultHttpCallback] *)
Definition defaultHttpCallback (request : HttpRequest) (response : HttpResponse) : result HttpResponse :=
  let response := HttpResponse.setStatusCode HttpResponse.k404NotFound response in
  let response := HttpResponse.setStatusMessage (bytes "Not Found") response in
  Ok (HttpResponse.setCloseConnection true response).

(** [src/net/http/HttpServer.cpp:53-57 HttpServer::onConnection] *)
Definition onConnection (s : http) : http :=
  if isConnected (conn (net s)) then set_context (Some newContext) s else s.

Section Serving.
Variable sys_write : nat → list byte → write_outcome.
Variable iteration : HeaderMap → list (list byte * list byte).
Variable httpCallback : HttpRequest → HttpResponse → result HttpResponse.
(** What is in a moved-from request's strings and map. *)
Variable moved_from : HttpRequest → list byte * list byte * HeaderMap.

(** [src/net/http/HttpServer.cpp:77-88 HttpServer::onRequestInThreadPool] *)
Definition onRequestInThreadPool (inLoop : bool) (request : HttpRequest) (w : world) : result world :=
  let connection := HttpRequest.getHeader (bytes "Connection") request in
  let close := bool_decide (connection = bytes "close") || bool_decide (HttpRequest.version_ request = kHttp10) in
  response ← httpCallback request (HttpResponse.newResponse close);
  buffer ← Buffer.new Buffer.kInitialSize;
  buffer ← HttpResponse.appendToBuffer iteration response buffer;
  let local := fresh (dom (buffers w)) in
  w ← send_buffer sys_write inLoop (UserBuffer local) (set_buffers (<[local := buffer]> (buffers w)) w);
  w ← (if HttpResponse.isCloseConnection response then shutdown inLoop w else Ok w);
  Ok (set_buffers (delete local (buffers w)) w).

(** [src/net/http/HttpServer.cpp:91-96 HttpServer::onRequest] *)
Definition onRequest (request : HttpRequest) (s : http) : option (result http) :=
  match ThreadPool.submit request (threadPool_ s) with
  | ThreadPool.RunInline => Some (w ← onRequestInThreadPool true request (net s); Ok (set_net w s))
  | ThreadPool.Queued p => Some (Ok (set_pool p s))
  | ThreadPool.Blocked => None
  end.

(** [src/net/http/HttpServer.cpp:59-70 HttpServer::onMessage] on the connection's input buffer, with [fuel] for the
    parser's loop. *)
Definition onMessage (fuel : nat) (receivedTime : Z) (s : http) : option (result http) :=
  match user_context_ s with
  | None => Some (Fault NullDeref)
  | Some context =>
      match parseRequest fuel receivedTime context (input_buffer_ (conn (net s))) with
      | None => None
      | Some (Fault f) => Some (Fault f)
      | Some (Ok v) =>
          let s := mkHttp (set_conn (set_input (buf v) (conn (net s))) (net s)) (Some (ctx v)) (threadPool_ s) in
          match (if ok v then Ok s
                 else
                   w ← send_bytes sys_write true (fresh (dom (strings (net s))))
                         (bytes "HTTP/1.1 400 Bad Request" ++ HttpResponse.crlf ++ HttpResponse.crlf) (net s);
                   w ← shutdown true w;
                   Ok (set_net w s)) with
          | Fault f => Some (Fault f)
          | Ok s =>
              if isAllDone (ctx v) then
                let '(request, moved) := HttpRequest.moveRequest (moved_from (request_ (ctx v))) (request_ (ctx v)) in
                match onRequest request s with
                | None => None
                | Some (Fault f) => Some (Fault f)
                | Some (Ok s) => Some (Ok (set_context (Some (reset (mkContext kAllDone moved))) s))
                end
              else Some (Ok s)
          end
      end
  end.
End Serving.
End HttpServer.
