(* ===== verification/ExampleServer.v ===== *)
(** * The example HTTP server: examples/HttpServer/HttpServer.cpp *)
From stdpp Require Import base list gmap numbers strings.
From Stdlib Require Import ZArith Lia Init.Byte.
From S2P Require Import Prelude.
From S2P Require Import HttpMessage.
From S2P Require Import HttpReply.
#[local] Open Scope Z_scope.
#[local] Open Scope fm_scope.

(** The example server's callback and its file cache. *)
Module Example.
#[local] Existing Instance HttpRequest.Method_eq_dec.
Section Files.
Variable files : gmap (list byte) (list byte).

(** [src/examples/HttpServer/HttpServer.cpp:20-37 onRequest] [back] needs a character. *)
Definition onRequest (request : HttpRequest) (resp : HttpResponse) : result HttpResponse :=
  let path := HttpRequest.path_ request in
  match last path with
  | None => Fault OutOfBounds
  | Some c =>
      let path := if decide (c = x2f) then path ++ bytes "index.html" else path in
      let resp := HttpResponse.setVersion (HttpRequest.version_ request) resp in
      let resp := HttpResponse.addHeader (bytes "Server") (bytes "Libfm") resp in
      Ok (match (if decide (HttpRequest.method_ request = HttpRequest.kGet) then files !! path else None) with
          | Some content =>
              let resp := HttpResponse.setStatusCode HttpResponse.k200OK resp in
              let resp := HttpResponse.setStatusMessage (bytes "OK") resp in
              HttpResponse.setBody content resp
          | None =>
              let resp := HttpResponse.setStatusCode HttpResponse.k404NotFound resp in
              let resp := HttpResponse.setStatusMessage (bytes "Not Found") resp in
              HttpResponse.setCloseConnection true resp
          end)
  end.
End Files.
End Example.
