(* ===== verification/HttpServiceSpec.v ===== *)
(** * What the HTTP server promises

    The bytes of a response, the answer to a request on a connection, what the thread
    pool and a response sent from a worker thread do instead, and the
    example server end to end. *)
From stdpp Require Import base list gmap numbers strings.
From Stdlib Require Import ZArith Lia Init.Byte.
From S2P Require Import Prelude.
From S2P Require Import ByteBuffer.
From S2P Require Import HttpMessage.
From S2P Require Import HttpReply.
From S2P Require Import HttpParser.
From S2P Require Import HttpParserSpec.
From S2P Require Import EventLoop.
From S2P Require Import TcpConnection.
From S2P Require Import TcpConnectionSpec.
From S2P Require Import ConnectionTheorems.
From S2P Require Import ThreadPool.
From S2P Require Import HttpService.
From S2P Require Import ExampleServer.
Import EventLoop.EventLoop HttpParser.HttpContext TcpConnection.TcpConnection HttpService.HttpServer.
#[local] Open Scope Z_scope.
#[local] Open Scope fm_scope.

(** ** The bytes of a response *)
Section Wire.
Variable iteration : HeaderMap → list (list byte * list byte).

Definition version_bytes (v : Version) : list byte :=
  match v with
  | kHttp10 => bytes "HTTP/1.0"
  | kHttp11 => bytes "HTTP/1.1"
  | kHttp20 => bytes "HTTP/2.0"
  | kUnknownVersion => []
  end.

(** What a response looks like on the wire, piece by piece. *)
Definition status_pieces (r : HttpResponse) : list (list byte) :=
  [version_bytes (HttpResponse.version_ r) ++ [SP] ++ dec (HttpResponse.status_value (HttpResponse.statusCode_ r)) ++ [SP];
   HttpResponse.statusMessage_ r; HttpResponse.crlf].
Definition connection_pieces (r : HttpResponse) : list (list byte) :=
  if HttpResponse.closeConnection_ r then [bytes "Connection: close" ++ HttpResponse.crlf]
  else [bytes "Content-Length: " ++ dec (zlen (HttpResponse.body_ r)) ++ HttpResponse.crlf;
        bytes "Connection: keep-alive" ++ HttpResponse.crlf].
Definition header_pieces (h : list byte * list byte) : list (list byte) :=
  [fst h; bytes ": "; snd h; HttpResponse.crlf].
Definition pieces (r : HttpResponse) : list (list byte) :=
  status_pieces r ++ connection_pieces r ++ concat (map header_pieces (iteration (HttpResponse.headers_ r))) ++
  [HttpResponse.crlf; HttpResponse.body_ r].
Definition wire (r : HttpResponse) : list byte := concat (pieces r).

(** A response whose strings are strings, whose version is set, and whose length fits the
    32-byte line buffer. *)
Record sendable (r : HttpResponse) : Prop := {
  sb_version : HttpResponse.version_ r ≠ kUnknownVersion;
  sb_message : zlen (HttpResponse.statusMessage_ r) ≤ Buffer.max_size;
  sb_body : zlen (HttpResponse.body_ r) < 10 ^ 13;
  sb_headers : ∀ h, h ∈ iteration (HttpResponse.headers_ r) →
    zlen (fst h) ≤ Buffer.max_size ∧ zlen (snd h) ≤ Buffer.max_size
}.

Lemma foldM_append_concat {H} (f : H → list (list byte)) (step : H → Buffer.Buffer → result Buffer.Buffer) hs b :
  (∀ h b, step h b = foldM Buffer.append (f h) b) →
  foldM step hs b = foldM Buffer.append (concat (map f hs)) b.
Proof.
  intros Hs. revert b. induction hs as [|h hs IH]; intros b; [done|]. cbn [foldM map concat].
  rewrite foldM_app, Hs. destruct (foldM Buffer.append (f h) b); [rewrite !bind_Ok; apply IH | done].
Qed.

Lemma bind_ret (r : result Buffer.Buffer) : r ≫= (fun b => Ok b) = r.
Proof. by destruct r. Qed.

Lemma dec_body_length n : 0 ≤ n < 10 ^ 13 → zlen (dec n) ≤ 13.
Proof. intros. apply (dec_length n 13); [done | lia]. Qed.

(** [appendToBuffer] appends the pieces. *)
Lemma appendToBuffer_pieces r b :
  sendable r → HttpResponse.appendToBuffer iteration r b = foldM Buffer.append (pieces r) b.
Proof.
  intros [Hv _ Hb _]. pose proof (zlen_nonneg (HttpResponse.body_ r)) as Hb0.
  unfold HttpResponse.appendToBuffer.
  assert (Hver : HttpResponse.versionToStr (HttpResponse.version_ r) = Ok (version_bytes (HttpResponse.version_ r)))
    by (by destruct (HttpResponse.version_ r)).
  rewrite Hver, bind_Ok, (snprintf_fits 32 (version_bytes _ ++ _)).
  2: { rewrite !zlen_app. destruct (HttpResponse.version_ r), (HttpResponse.statusCode_ r); reflexivity. }
  unfold pieces. rewrite !foldM_app. cbn [status_pieces foldM].
  destruct (Buffer.append _ b) as [b1|]; [rewrite !bind_Ok | done].
  destruct (Buffer.append _ b1) as [b2|]; [rewrite !bind_Ok | done].
  destruct (Buffer.append _ b2) as [b3|]; [rewrite !bind_Ok | done].
  assert (Hconn : (if HttpResponse.closeConnection_ r
       then Buffer.append (bytes "Connection: close" ++ HttpResponse.crlf) b3
       else b ← Buffer.append (snprintf 32 (bytes "Content-Length: " ++ dec (zlen (HttpResponse.body_ r)) ++ HttpResponse.crlf)) b3;
            Buffer.append (bytes "Connection: keep-alive" ++ HttpResponse.crlf) b) =
     foldM Buffer.append (connection_pieces r) b3).
  { unfold connection_pieces. destruct (HttpResponse.closeConnection_ r); cbn [foldM].
    - by rewrite bind_ret.
    - rewrite snprintf_fits; [by destruct (Buffer.append _ b3); [rewrite !bind_Ok, bind_ret|]|].
      rewrite !zlen_app. change (zlen (bytes "Content-Length: ")) with 16. change (zlen HttpResponse.crlf) with 2.
      pose proof (dec_body_length (zlen (HttpResponse.body_ r))). lia. }
  rewrite Hconn, foldM_app. destruct (foldM _ _ b3) as [b4|]; [rewrite !bind_Ok | done].
  rewrite foldM_app, (foldM_append_concat header_pieces).
  2: { intros h b'. cbn [header_pieces foldM]. destruct (Buffer.append (fst h) b') as [c1|]; [rewrite !bind_Ok | done].
       destruct (Buffer.append _ c1) as [c2|]; [rewrite !bind_Ok | done].
       destruct (Buffer.append _ c2) as [c3|]; [rewrite !bind_Ok | done]. by rewrite bind_ret. }
  destruct (foldM _ _ b4) as [b5|]; [rewrite !bind_Ok | done]. cbn [foldM].
  destruct (Buffer.append _ b5) as [b6|]; [rewrite !bind_Ok | done]. by rewrite bind_ret.
Qed.

Lemma foldM_append_fine ps b :
  Buffer.wf b → Forall (fun d => zlen d ≤ Buffer.max_size) ps →
  fine (fun b' => Buffer.wf b' ∧ Buffer.content b' = Buffer.content b ++ concat ps) (foldM Buffer.append ps b).
Proof.
  intros Hb Hps. revert b Hb. induction Hps as [|d ps Hd _ IH]; intros b Hb; simpl; [by rewrite app_nil_r|].
  eapply fine_bind; [by apply Buffer.append_fine|]. intros b1 [Hb1 Hc1].
  eapply fine_impl; [by apply IH|]. intros b2 [Hb2 Hc2]. by rewrite Hc2, Hc1, app_assoc.
Qed.

Lemma pieces_small r : sendable r → Forall (fun d => zlen d ≤ Buffer.max_size) (pieces r).
Proof.
  intros [Hv Hm Hb Hh]. unfold pieces. pose proof (zlen_nonneg (HttpResponse.body_ r)).
  pose proof (dec_body_length (zlen (HttpResponse.body_ r))). unfold Buffer.max_size in *.
  apply Forall_app. split; [|apply Forall_app; split; [|apply Forall_app; split]].
  - repeat constructor; [|exact Hm|discriminate].
    destruct (HttpResponse.version_ r), (HttpResponse.statusCode_ r); discriminate.
  - unfold connection_pieces. destruct (HttpResponse.closeConnection_ r); repeat constructor; try discriminate.
    rewrite !zlen_app. change (zlen (bytes "Content-Length: ")) with 16. change (zlen HttpResponse.crlf) with 2. lia.
  - apply Forall_concat. apply Forall_map. apply Forall_forall. intros h Hin. destruct (Hh h Hin).
    repeat constructor; try discriminate; done.
  - repeat constructor; [discriminate | lia].
Qed.

(** The response in a fresh buffer. *)
Lemma response_buffer r b :
  sendable r → Buffer.wf b →
  fine (fun b' => Buffer.wf b' ∧ Buffer.content b' = Buffer.content b ++ wire r)
    (HttpResponse.appendToBuffer iteration r b).
Proof.
  intros Hr Hb. rewrite appendToBuffer_pieces by done. apply foldM_append_fine; [done | by apply pieces_small].
Qed.
End Wire.

(** ** Sending a local buffer from the loop's thread *)
Section Respond.
Variable sys_write : nat → list byte → write_outcome.
Hypothesis write_bounded : ∀ n d k, sys_write n d = Wrote k → 0 ≤ k ≤ zlen d.

Lemma cinv_buffers w bs :
  cinv w → (∀ p b, bs !! p = Some b → Buffer.wf b) →
  Forall (functor_fits (set_buffers bs w)) (pending_functors_ (loop_ w)) → cinv (set_buffers bs w).
Proof.
  intros [Hl Hin Ho Hst Hbs Hp (c & Hc & Hfit) Hsh Hcl] Hwf Hf. constructor; try done. by exists c.
Qed.

Lemma cinv_local w l b :
  cinv w → Buffer.wf b → buffers w !! l = None → cinv (set_buffers (<[l := b]> (buffers w)) w).
Proof.
  intros Hi Hb Hl. apply cinv_buffers; [done| |].
  - intros p b'. destruct (decide (p = l)) as [->|Hne].
    + rewrite lookup_insert_eq. by intros [= <-].
    + rewrite lookup_insert_ne by done. apply (ci_buffers _ Hi).
  - eapply Forall_impl; [apply (ci_pending _ Hi)|]. intros f. apply functor_fits_mono; [done| |done].
    intros p Hp. cbn [buffers set_buffers]. destruct (decide (p = l)) as [->|Hne].
    + rewrite lookup_insert_eq. by eexists.
    + by rewrite lookup_insert_ne.
Qed.

(** What becomes of the connection when a response is sent through the buffer at [l]. *)
Record responded (l : positive) (data : list byte) (close : bool) (w w' : world) : Prop := {
  rs_cinv : cinv (set_buffers (delete l (buffers w')) w');
  rs_buffers : delete l (buffers w') = buffers w;
  rs_strings : strings w' = strings w;
  rs_input : input_buffer_ (conn w') = input_buffer_ (conn w);
  rs_stream : accepted sys_write data w w';
  rs_state : state_ (conn w') = if close then kDisconnecting else kConnected;
  rs_shut : close = true → out w' = [] → write_shutdown w' = true;
  rs_pending : ∃ fs, pending_functors_ (loop_ w') = pending_functors_ (loop_ w) ++ fs ∧ Forall free_functor fs
}.

Lemma drop_local_cinv w l w2 fs :
  cinv w → buffers w !! l = None → cinv w2 → delete l (buffers w2) = buffers w → strings w2 = strings w →
  (rank (state_ (conn w)) ≤ rank (state_ (conn w2)))%nat →
  pending_functors_ (loop_ w2) = pending_functors_ (loop_ w) ++ fs → Forall free_functor fs →
  cinv (set_buffers (delete l (buffers w2)) w2).
Proof.
  intros Hi Hl Hi2 Hd Hs Hr Hp Hfs. rewrite Hd. apply cinv_buffers; [done | apply (ci_buffers _ Hi)|].
  rewrite Hp. apply Forall_app. split.
  - eapply Forall_impl; [apply (ci_pending _ Hi)|]. intros f. apply functor_fits_mono; [|done|done].
    intros p. cbn [strings set_buffers]. by rewrite Hs.
  - eapply Forall_impl; [exact Hfs|]. by intros [].
Qed.

(** The state after the [send] alone, with the local buffer still there. *)
Record sent_from (l : positive) (data : list byte) (w w1 : world) : Prop := {
  sf_cinv : cinv w1;
  sf_state : state_ (conn w1) = kConnected;
  sf_buffers : delete l (buffers w1) = buffers w;
  sf_strings : strings w1 = strings w;
  sf_input : input_buffer_ (conn w1) = input_buffer_ (conn w);
  sf_stream : accepted sys_write data w w1;
  sf_pending : ∃ fs, pending_functors_ (loop_ w1) = pending_functors_ (loop_ w) ++ fs ∧ Forall free_functor fs
}.

Lemma send_local_ok w l buf :
  cinv w → state_ (conn w) = kConnected → buffers w !! l = None → Buffer.wf buf →
  fine (sent_from l (Buffer.content buf) w)
    (send_buffer sys_write true (UserBuffer l) (set_buffers (<[l := buf]> (buffers w)) w)).
Proof.
  intros Hi Hs Hl Hb. set (w0 := set_buffers _ w).
  pose proof (cinv_local w l buf Hi Hb Hl) as Hi0. fold w0 in Hi0.
  assert (Hget : get_buffer (UserBuffer l) w0 = Some buf) by apply lookup_insert_eq.
  destruct (get_buffer_ok _ _ _ Hi0 Hget) as [_ Hlen].
  unfold send_buffer. rewrite decide_True by exact Hs. rewrite Hget, Buffer.toString_content, bind_Ok by done.
  eapply fine_bind; [by apply (send_connected_ok sys_write write_bounded w0)|].
  intros w' Hsent. cbn [fine].
  pose proof (sent_good sys_write write_bounded _ _ _ Hi0 Hs Hsent) as (Hi' & _ & _).
  pose proof (sent_accepted _ _ _ _ Hsent) as Hacc. destruct (sent_functors _ _ _ _ Hsent) as (fs & Hfs & Hfree).
  destruct Hsent as [_ _ _ _ _ _ [o Hcn] (Hst & Hbu & _ & _)].
  constructor; try done.
  - apply put_buffer_good; [done | by apply Buffer.retrieveAll_spec |].
    cbn [get_buffer]. rewrite Hbu. unfold w0. cbn [buffers set_buffers]. rewrite lookup_insert_eq. by eexists.
  - cbn [put_buffer conn set_buffers]. by rewrite Hcn.
  - cbn [put_buffer buffers set_buffers]. rewrite Hbu. unfold w0. cbn [buffers set_buffers].
    by rewrite insert_insert_eq, delete_insert_id.
  - cbn [put_buffer conn set_buffers]. by rewrite Hcn.
  - by exists fs.
Qed.

Lemma shutdown_from_ok l data w w1 :
  cinv w → state_ (conn w) = kConnected → buffers w !! l = None → sent_from l data w w1 →
  fine (responded l data true w) (shutdown true w1).
Proof.
  intros Hi Hs Hl [Hi1 Hs1 Hbu Hst Hin Hacc (fs & Hfs & Hfree)]. unfold shutdown. rewrite decide_True by exact Hs1.
  pose proof (disconnecting_good sys_write write_bounded w1 Hi1 (or_introl Hs1)) as (Hi2 & _ & _).
  set (w2 := set_conn _ w1) in *. destruct (ci_channel _ Hi2) as (c & Hc & Hfit). simpl in Hfit.
  pose proof (shutdownInLoop_ok w2 Hi2 ltac:(simpl; lia)) as Hf. rewrite (shutdownInLoop_result w2 c Hc) in Hf |- *.
  set (w3 := if Channel.Channel.isWriting c then w2 else shut w2) in *. cbn [fine] in *.
  assert (H3 : conn w3 = conn w2 ∧ buffers w3 = buffers w1 ∧ strings w3 = strings w1 ∧ loop_ w3 = loop_ w1 ∧
    stream w3 = stream w1) by (unfold w3; by destruct (Channel.Channel.isWriting c)).
  destruct H3 as (Hcn3 & Hb3 & Hst3 & Hlo3 & Hstr3). constructor.
  - eapply (drop_local_cinv w l w3 fs); rewrite ?Hb3, ?Hst3, ?Hlo3, ?Hcn3, ?Hs; try done; [apply Hf | simpl; lia].
  - by rewrite Hb3.
  - by rewrite Hst3.
  - by rewrite Hcn3.
  - unfold accepted in *. by rewrite Hstr3.
  - by rewrite Hcn3.
  - intros _ Hout. unfold w3 in *. destruct (Channel.Channel.isWriting c); [|done].
    destruct Hfit as [_ Hw]. by destruct (proj1 Hw eq_refl).
  - exists fs. by rewrite Hlo3.
Qed.

Lemma respond_ok w l buf (close : bool) :
  cinv w → state_ (conn w) = kConnected → buffers w !! l = None → Buffer.wf buf →
  fine (responded l (Buffer.content buf) close w)
    (w1 ← send_buffer sys_write true (UserBuffer l) (set_buffers (<[l := buf]> (buffers w)) w);
     if close then shutdown true w1 else Ok w1).
Proof.
  intros Hi Hs Hl Hb. eapply fine_bind; [by apply send_local_ok|]. intros w1 Hw1.
  destruct close; [by apply shutdown_from_ok|]. destruct Hw1 as [Hi1 Hs1 Hbu Hst Hin Hacc (fs & Hfs & Hfree)].
  constructor; try done; [|by exists fs]. eapply (drop_local_cinv w l w1 fs); try done. by rewrite Hs1, Hs.
Qed.
End Respond.

(** ** Answering requests *)
Section Serve.
Variable sys_write : nat → list byte → write_outcome.
Hypothesis write_bounded : ∀ n d k, sys_write n d = Wrote k → 0 ≤ k ≤ zlen d.
Variable iteration : HeaderMap → list (list byte * list byte).
Variable httpCallback : HttpRequest → HttpResponse → result HttpResponse.
Variable moved_from : HttpRequest → list byte * list byte * HeaderMap.

(** Whether the client asked for the connection to be closed. *)
Definition wants_close (r : HttpRequest) : bool :=
  bool_decide (HttpRequest.getHeader (bytes "Connection") r = bytes "close") ||
  bool_decide (HttpRequest.version_ r = kHttp10).

(** A parser between two requests. *)
Definition ready (c : HttpContext) : Prop := ∃ r0, c = mkContext kParseRequestLine (HttpRequest.clear r0).

(** A connection that waits for a request. *)
Record serving (s : http) : Prop := {
  sv_inv : cinv (net s);
  sv_up : state_ (conn (net s)) = kConnected;
  sv_context : ∃ c, user_context_ s = Some c ∧ ready c
}.

(** The effect of one answered request. *)
Record answered (rest : list byte) (resp : HttpResponse) (s s' : http) : Prop := {
  an_inv : cinv (net s');
  an_stream : accepted sys_write (wire iteration resp) (net s) (net s');
  an_input : Buffer.content (input_buffer_ (conn (net s'))) = rest;
  an_state : state_ (conn (net s')) = if HttpResponse.isCloseConnection resp then kDisconnecting else kConnected;
  an_shut : HttpResponse.isCloseConnection resp = true → out (net s') = [] → write_shutdown (net s') = true;
  an_context : ∃ c, user_context_ s' = Some c ∧ ready c;
  an_pending : ∃ fs, pending_functors_ (loop_ (net s')) = pending_functors_ (loop_ (net s)) ++ fs ∧ Forall free_functor fs;
  an_buffers : buffers (net s') = buffers (net s) ∧ strings (net s') = strings (net s);
  an_pool : threadPool_ s' = threadPool_ s
}.

Lemma onRequestInThreadPool_ok request resp w :
  cinv w → state_ (conn w) = kConnected →
  httpCallback request (HttpResponse.newResponse (wants_close request)) = Ok resp → sendable iteration resp →
  fine (fun w' => cinv w' ∧ accepted sys_write (wire iteration resp) w w' ∧
          input_buffer_ (conn w') = input_buffer_ (conn w) ∧
          state_ (conn w') = (if HttpResponse.isCloseConnection resp then kDisconnecting else kConnected) ∧
          (HttpResponse.isCloseConnection resp = true → out w' = [] → write_shutdown w' = true) ∧
          buffers w' = buffers w ∧ strings w' = strings w ∧
          ∃ fs, pending_functors_ (loop_ w') = pending_functors_ (loop_ w) ++ fs ∧ Forall free_functor fs)
    (onRequestInThreadPool sys_write iteration httpCallback true request w).
Proof.
  intros Hi Hs Hcb Hr. unfold onRequestInThreadPool. cbv zeta. fold (wants_close request).
  rewrite Hcb, bind_Ok. destruct (Buffer.new_spec Buffer.kInitialSize) as (b0 & -> & Hb0 & Hc0 & _); [done..|].
  rewrite bind_Ok. eapply fine_bind; [by apply response_buffer|]. intros buf [Hbuf Hcontent].
  rewrite Hc0 in Hcontent. cbn [app] in Hcontent. set (l := fresh (dom (buffers w))).
  assert (Hl : buffers w !! l = None) by (apply not_elem_of_dom, is_fresh).
  pose proof (respond_ok sys_write write_bounded w l buf (HttpResponse.isCloseConnection resp) Hi Hs Hl Hbuf) as Hf.
  rewrite Hcontent in Hf.
  rewrite <- bind_assoc. eapply fine_bind; [exact Hf|].
  intros w2 [H1 H2 H3 H4 H5 H6 H7 H8]. cbn [fine]. split_and!; try done.
Qed.

(** A server whose pool has no threads answers a complete request in one call: for every request a
    conforming client prints, and every callback that makes a response, the
    connection's byte stream grows by exactly the response (or not at all, if the kernel reports
    that the peer is gone), what follows the request stays in the input buffer, the parser is
    ready for the next request, and the connection is kept or shut down as the response says. *)
Theorem http_request_served m path query v text hs rest t s resp :
  let req := HttpRequest.mkRequest m v path query t (headers_of hs ∅) in
  m ≠ HttpRequest.kInvalidMethod → path_ok path query → version_text v = Some text → Forall header_ok hs →
  serving s → ThreadPool.threads_ (threadPool_ s) = [] →
  Buffer.content (input_buffer_ (conn (net s))) =
    render (request_line (HttpRequest.methodToString (HttpRequest.set_method m HttpRequest.newRequest)) path query text) hs ++ rest →
  httpCallback req (HttpResponse.newResponse (wants_close req)) = Ok resp → sendable iteration resp →
  match onMessage sys_write iteration httpCallback moved_from
          (enough (Buffer.content (input_buffer_ (conn (net s))))) t s with
  | None => False
  | Some (Fault f) => f = LengthError
  | Some (Ok s') => answered rest resp s s'
  end.
Proof.
  cbv zeta. intros Hm Hp Hv Hhs [Hi Hup (c & Hctx & r0 & ->)] Hpool Hcontent Hcb Hr. unfold onMessage. rewrite Hctx.
  pose proof (parse_feed t (mkContext kParseRequestLine (HttpRequest.clear r0)) _ (ci_in _ Hi)) as H.
  pose proof (feed_render m path query v text hs rest t r0 Hm Hp Hv Hhs) as Hfeed. cbv zeta in Hfeed.
  rewrite <- Hcontent in Hfeed. rewrite Hfeed in H. destruct H as (b' & -> & Hb' & Hc'). cbn [ok ctx buf].
  unfold isAllDone. cbn [state_ request_]. rewrite bool_decide_eq_true_2 by done.
  destruct (HttpRequest.moveRequest _ _) as [req moved] eqn:Hmove.
  assert (req = HttpRequest.mkRequest m v path query t (headers_of hs ∅)) as ->.
  { unfold HttpRequest.moveRequest in Hmove. destruct (moved_from _) as [[? ?] ?]. by injection Hmove as <- _. }
  unfold onRequest, ThreadPool.submit. cbn [threadPool_]. rewrite bool_decide_eq_true_2 by done. cbn [net].
  set (w1 := set_conn _ (net s)).
  assert (Hg : cinv w1) by (apply (set_input_good b' (net s) Hi Hb')).
  pose proof (onRequestInThreadPool_ok _ resp w1 Hg Hup Hcb Hr) as Hf.
  destruct (onRequestInThreadPool _ _ _ true _ w1) as [w2|f]; [|exact Hf].
  destruct Hf as (H1 & H2 & H3 & H4 & H5 & H6 & H7 & H8). rewrite bind_Ok.
  constructor; try done.
  - cbn [net set_context set_net]. by rewrite H3.
  - eexists. split; [done|]. by eexists.
Qed.

(** With worker threads in the pool - [setThreadNum] asks for six by default - the first complete
    request never returns: [submit] waits for a full queue with the I/O thread inside it, for
    whatever is done to the pool before. *)
Theorem http_workers_hang m path query v text hs rest t s maxSize n p evs :
  m ≠ HttpRequest.kInvalidMethod → path_ok path query → version_text v = Some text → Forall header_ok hs →
  serving s →
  ThreadPool.setThreadNum n (ThreadPool.newPool maxSize) = Ok p → n ≠ 0%nat → 0 < maxSize →
  threadPool_ s = ThreadPool.run evs (ThreadPool.start p) →
  Buffer.content (input_buffer_ (conn (net s))) =
    render (request_line (HttpRequest.methodToString (HttpRequest.set_method m HttpRequest.newRequest)) path query text) hs ++ rest →
  onMessage sys_write iteration httpCallback moved_from
    (enough (Buffer.content (input_buffer_ (conn (net s))))) t s = None.
Proof.
  intros Hm Hp Hv Hhs [Hi Hup (c & Hctx & r0 & ->)] Hset Hn Hmax Hpool Hcontent. unfold onMessage. rewrite Hctx.
  pose proof (parse_feed t (mkContext kParseRequestLine (HttpRequest.clear r0)) _ (ci_in _ Hi)) as H.
  pose proof (feed_render m path query v text hs rest t r0 Hm Hp Hv Hhs) as Hfeed. cbv zeta in Hfeed.
  rewrite <- Hcontent in Hfeed. rewrite Hfeed in H. destruct H as (b' & -> & _). cbn [ok ctx buf].
  unfold isAllDone. cbn [state_ request_]. rewrite bool_decide_eq_true_2 by done.
  destruct (HttpRequest.moveRequest _ _) as [req moved]. unfold onRequest. cbn [threadPool_].
  rewrite Hpool. by rewrite (pool_blocks maxSize n p evs).
Qed.

(** A response that a worker thread sends never reaches the client: it is queued by the address of a
    buffer that the function drops when it returns, and the loop's thread then reads a buffer that
    is gone. *)
Theorem worker_response_dangles behaviour request resp w w' :
  cinv w → state_ (conn w) = kConnected → pending_functors_ (loop_ w) = [] →
  httpCallback request (HttpResponse.newResponse (wants_close request)) = Ok resp →
  onRequestInThreadPool sys_write iteration httpCallback false request w = Ok w' →
  stream w' = stream w ∧
  ∃ f rest, pending_functors_ (loop_ w') = f :: rest ∧
    run_functor sys_write behaviour f (on_loop (set_pending rest) w') = Fault UseAfterFree.
Proof.
  intros Hi Hs Hp Hcb. unfold onRequestInThreadPool. cbv zeta. fold (wants_close request). rewrite Hcb, bind_Ok.
  intros (b0 & _ & H)%bind_Ok_inv. apply bind_Ok_inv in H as (buf & _ & H). set (l := fresh (dom (buffers w))) in *.
  unfold send_buffer in H. rewrite decide_True in H by exact Hs. rewrite bind_Ok in H.
  destruct (queueInLoop_frame false (FSendBuffer (UserBuffer l)) (loop_ w)) as (_ & _ & Hq1). rewrite Hp in Hq1. cbn [app] in Hq1.
  assert (Hend : ∃ w2, w' = set_buffers (delete l (buffers w2)) w2 ∧ stream w2 = stream w ∧
    ∃ rest, pending_functors_ (loop_ w2) = FSendBuffer (UserBuffer l) :: rest).
  { destruct (HttpResponse.isCloseConnection resp).
    - unfold shutdown in H. rewrite decide_True in H by exact Hs. rewrite bind_Ok in H. injection H as <-.
      match goal with |- ∃ w2, set_buffers _ ?W = _ ∧ _ => exists W end.
      split; [reflexivity|]. split; [done|]. set (lp1 := queueInLoop false (FSendBuffer (UserBuffer l)) (loop_ w)) in *.
      destruct (queueInLoop_frame false FShutdownInLoop lp1) as (_ & _ & Hq2). rewrite Hq1 in Hq2.
      exists [FShutdownInLoop]. exact Hq2.
    - rewrite bind_Ok in H. injection H as <-. match goal with |- ∃ w2, set_buffers _ ?W = _ ∧ _ => exists W end.
      split; [reflexivity|]. split; [done|]. by exists []. }
  destruct Hend as (w2 & -> & Hst & rest & Hq). split; [exact Hst|]. exists (FSendBuffer (UserBuffer l)), rest. split; [exact Hq|].
  cbn [run_functor get_buffer buffers on_loop with_loop world_HasLoop set_buffers]. by rewrite lookup_delete_eq.
Qed.
End Serve.

(** The default callback leaves the response's version unknown, and printing such a response fails
    an assertion: a server without a callback of its own aborts at the first complete request. *)
Theorem default_callback_aborts sys_write iteration request w inLoop :
  onRequestInThreadPool sys_write iteration defaultHttpCallback inLoop request w = Fault AssertFailed.
Proof.
  unfold onRequestInThreadPool. cbv zeta. unfold defaultHttpCallback at 1. rewrite bind_Ok.
  destruct (Buffer.new_spec Buffer.kInitialSize) as (b0 & -> & _); [done..|]. by rewrite bind_Ok.
Qed.

(** The example server, for every cache of files: the path of the request names the file, a path that
    ends in a slash its index page; a [GET] for a file of the cache is answered with it, anything else
    with 404 and a close; a request without a path makes it read in front of a string. *)
Theorem example_answers files request response :
  let path := HttpRequest.path_ request in
  Example.onRequest files request response =
  if decide (path = []) then Fault OutOfBounds
  else
    let file := if decide (last path = Some x2f) then path ++ bytes "index.html" else path in
    let headers := <[bytes "Server" := bytes "Libfm"]> (HttpResponse.headers_ response) in
    Ok (match HttpRequest.method_ request, files !! file with
        | HttpRequest.kGet, Some content =>
            HttpResponse.mkResponse (HttpRequest.version_ request) HttpResponse.k200OK (bytes "OK") headers
              (HttpResponse.closeConnection_ response) content
        | _, _ =>
            HttpResponse.mkResponse (HttpRequest.version_ request) HttpResponse.k404NotFound (bytes "Not Found") headers
              true (HttpResponse.body_ response)
        end).
Proof.
  cbv zeta. unfold Example.onRequest. destruct (HttpRequest.path_ request) as [|c0 p0] eqn:Hp; [done|].
  rewrite <- Hp. destruct (last (HttpRequest.path_ request)) as [c|] eqn:Hl.
  2: { apply last_None in Hl. by rewrite Hp in Hl. }
  rewrite (decide_False (P := HttpRequest.path_ request = [])) by (by rewrite Hp). cbv zeta. f_equal.
  assert (Hfile : (if decide (c = x2f) then HttpRequest.path_ request ++ bytes "index.html" else HttpRequest.path_ request) =
    (if decide (Some c = Some x2f) then HttpRequest.path_ request ++ bytes "index.html" else HttpRequest.path_ request)).
  { destruct (decide (c = x2f)) as [->|Hne]; [by rewrite decide_True|]. rewrite decide_False; [done | congruence]. }
  rewrite Hfile. destruct (HttpRequest.method_ request); try done; cbn [decide].
  all: by destruct (files !! _).
Qed.

(** ** The example server on the example connection *)

Definition site : gmap (list byte) (list byte) := {[ bytes "/index.html" := bytes "<p>hi</p>" ]}.
Definition nothing_left (r : HttpRequest) : list byte * list byte * HeaderMap := ([], [], ∅).
Definition host : wire_header := mkWire (bytes "Host") (bytes " ") (bytes "h") [].
Definition get_index : list byte :=
  bytes "GET / HTTP/1.1" ++ HttpResponse.crlf ++ bytes "Host: h" ++ HttpResponse.crlf ++ HttpResponse.crlf.
Definition index_page (t : Z) : HttpResponse :=
  HttpResponse.mkResponse kHttp11 HttpResponse.k200OK (bytes "OK") {[ bytes "Server" := bytes "Libfm" ]} false
    (bytes "<p>hi</p>").

(** The connection of [ConnectionTheorems], idle, with input. *)
Definition idle_http (pool : ThreadPool (T := HttpRequest)) (w : world) (b : Buffer.Buffer) : http :=
  mkHttp (set_conn (set_input b (conn w)) w) (Some newContext) pool.

Lemma idle_with_input pool input :
  short input → ∃ w b, pending_functors_ (loop_ w) = [] ∧ serving (idle_http pool w b) ∧
    Buffer.content (input_buffer_ (conn (net (idle_http pool w b)))) = input.
Proof.
  intros Hin. destruct idle_demo as (w & Hi & Hs & _ & _ & Hp & _).
  destruct (Buffer.new_spec 64) as (b & _ & Hwf & Hc & _); [done..|].
  destruct (append_short b input) as (b1 & _ & Hb1 & Hc1); [done | by rewrite Hc|].
  exists w, b1. split; [done|]. split; [|cbn [net idle_http conn set_conn set_input input_buffer_]; by rewrite Hc1, Hc].
  constructor; [apply (set_input_good b1 w Hi Hb1) | exact Hs | exists newContext; split; [done|]].
  by exists HttpRequest.newRequest.
Qed.

Lemma get_index_ok :
  path_ok (bytes "/") [] ∧ Forall header_ok [host] ∧ version_text kHttp11 = Some (bytes "HTTP/1.1") ∧
  get_index = render (request_line (HttpRequest.methodToString (HttpRequest.set_method HttpRequest.kGet HttpRequest.newRequest))
                (bytes "/") [] (bytes "HTTP/1.1")) [host] ++ [].
Proof.
  split; [|split; [|done]].
  - unfold path_ok. split_and!; try (by apply (bool_decide_unpack _)). by left.
  - constructor; [|constructor]. unfold header_ok.
    split_and!; try (by apply (bool_decide_unpack _)); vm_compute; repeat constructor.
Qed.

Lemma index_page_sendable t : sendable map_to_list (index_page t).
Proof.
  constructor; [done | by vm_compute | by vm_compute |].
  intros [k v] Hin%elem_of_map_to_list. unfold index_page in Hin. cbn [HttpResponse.headers_] in Hin.
  apply lookup_singleton_Some in Hin as [<- <-]. by vm_compute.
Qed.

Lemma http_request_served_witness :
  ∃ s, Buffer.content (input_buffer_ (conn (net s))) = get_index ∧
  match onMessage three_bytes map_to_list (Example.onRequest site) nothing_left
          (enough (Buffer.content (input_buffer_ (conn (net s))))) 0 s with
  | None => False
  | Some (Fault f) => f = LengthError
  | Some (Ok s') => answered three_bytes map_to_list [] (index_page 0) s s'
  end.
Proof.
  destruct (idle_with_input (ThreadPool.newPool 10240) get_index) as (w & b & _ & Hs & Hc); [vm_compute; reflexivity|].
  destruct get_index_ok as (Hp & Hh & Hv & Hg). exists (idle_http (ThreadPool.newPool 10240) w b). split; [exact Hc|].
  refine (http_request_served three_bytes three_bytes_bounded map_to_list (Example.onRequest site) nothing_left
    HttpRequest.kGet (bytes "/") [] kHttp11 (bytes "HTTP/1.1") [host] [] 0 _ (index_page 0) _ Hp Hv Hh Hs _ _ _ _).
  - discriminate.
  - reflexivity.
  - rewrite <- Hg. exact Hc.
  - vm_compute. reflexivity.
  - apply index_page_sendable.
Defined.

Lemma http_workers_hang_witness :
  ∃ s p, ThreadPool.setThreadNum 6 (ThreadPool.newPool 10240) = Ok p ∧
    threadPool_ s = ThreadPool.run [ThreadPool.Worker 0] (ThreadPool.start p) ∧
    onMessage three_bytes map_to_list (Example.onRequest site) nothing_left
      (enough (Buffer.content (input_buffer_ (conn (net s))))) 0 s = None.
Proof.
  destruct (ThreadPool.setThreadNum 6 (ThreadPool.newPool (T := HttpRequest) 10240)) as [p|] eqn:Hset; [|discriminate].
  destruct (idle_with_input (ThreadPool.run [ThreadPool.Worker 0] (ThreadPool.start p)) get_index)
    as (w & b & _ & Hs & Hc); [vm_compute; reflexivity|].
  destruct get_index_ok as (Hp & Hh & Hv & Hg).
  exists (idle_http (ThreadPool.run [ThreadPool.Worker 0] (ThreadPool.start p)) w b), p.
  split; [reflexivity|]. split; [reflexivity|].
  refine (http_workers_hang three_bytes map_to_list (Example.onRequest site) nothing_left
    HttpRequest.kGet (bytes "/") [] kHttp11 (bytes "HTTP/1.1") [host] [] 0 _ 10240 6 p [ThreadPool.Worker 0]
    _ Hp Hv Hh Hs Hset _ _ _ _).
  - discriminate.
  - discriminate.
  - reflexivity.
  - reflexivity.
  - rewrite <- Hg. exact Hc.
Defined.

Lemma worker_response_dangles_witness :
  ∃ w w', onRequestInThreadPool three_bytes map_to_list (Example.onRequest site) false
      (HttpRequest.mkRequest HttpRequest.kGet kHttp11 (bytes "/") [] 0 ∅) w = Ok w' ∧
    stream w' = stream w ∧
    ∃ f rest, pending_functors_ (loop_ w') = f :: rest ∧
      run_functor three_bytes echo f (on_loop (set_pending rest) w') = Fault UseAfterFree.
Proof.
  destruct idle_demo as (w & Hi & Hs & _ & _ & Hp & _).
  destruct (onRequestInThreadPool three_bytes map_to_list (Example.onRequest site) false
      (HttpRequest.mkRequest HttpRequest.kGet kHttp11 (bytes "/") [] 0 ∅) w) as [w'|f] eqn:Hrun.
  - exists w, w'. split; [exact Hrun|].
    refine (worker_response_dangles three_bytes map_to_list (Example.onRequest site) echo _ (index_page 0) w w' Hi Hs Hp _ Hrun).
    vm_compute. reflexivity.
  - exfalso. unfold onRequestInThreadPool in Hrun. cbv zeta in Hrun.
    destruct (Buffer.new_spec Buffer.kInitialSize) as (b0 & Hb & _); [done..|].
    rewrite Hb in Hrun. vm_compute in Hb. injection Hb as <-.
    match type of Hrun with ?r ≫= _ = _ => replace r with (Ok (index_page 0)) in Hrun by (vm_compute; reflexivity) end.
    rewrite !bind_Ok in Hrun.
    match type of Hrun with (?r ≫= _) = _ => destruct r as [buf|] eqn:Hbuf; [|vm_compute in Hbuf; discriminate] end.
    rewrite bind_Ok in Hrun. unfold send_buffer in Hrun. rewrite decide_True in Hrun by exact Hs.
    rewrite bind_Ok in Hrun. discriminate.
Defined.
