(* ===== verification/SocketsOps.v ===== *)
(** * Socket operations: net/SocketsOps.{h,cpp}

    A socket address is the family, the port as it lies in memory (in network order), and the
    24 bytes behind them, in which [sin_addr] and [sin6_addr] overlap as they do in the
    union.  [inet_ntop] and [inet_pton] are parameters: what they print and parse is the C
    library's. *)
From stdpp Require Import base list numbers strings.
From Stdlib Require Import ZArith Lia Init.Byte.
From S2P Require Import Prelude.
From S2P Require Import Endian.
From S2P Require Import Channel.
#[local] Open Scope Z_scope.
#[local] Open Scope fm_scope.

Definition AF_INET : Z := 2.
Definition AF_INET6 : Z := 10.
Definition INADDR_LOOPBACK : Z := 2130706433.
Definition INADDR_ANY : Z := 0.
Definition INET6_ADDRSTRLEN : Z := 46.

Record sockaddr := mkAddr {
  sin_family : Z;
  sin_port : Z;
  rest : list byte
}.

(** The two views of what follows the port: [sin_addr] is its first four bytes, [sin6_addr]
    the sixteen behind [sin6_flowinfo]. *)
Definition sin_addr (a : sockaddr) : list byte := zslice 0 4 (rest a).
Definition sin6_addr (a : sockaddr) : list byte := zslice 4 20 (rest a).
Definition set_sin_addr (d : list byte) (a : sockaddr) : sockaddr := mkAddr (sin_family a) (sin_port a) (zwrite 0 d (rest a)).
Definition set_sin6_addr (d : list byte) (a : sockaddr) : sockaddr := mkAddr (sin_family a) (sin_port a) (zwrite 4 d (rest a)).
Definition zero_rest : list byte := replicate 24 x00.

Module sockets.

(** [src/net/SocketsOps.cpp:22-28 sockets::createNonblockingSocketOrDie] for what [socket(2)] returns. *)
Definition createNonblockingSocketOrDie (ret : Z) : result Z :=
  check! FatalLog (0 <=? ret); Ok ret.
(** [src/net/SocketsOps.cpp:34-38 sockets::bindOrDie] for what [bind(2)] returns. *)
Definition bindOrDie (ret : Z) : result unit := ensure FatalLog (0 <=? ret).
(** [src/net/SocketsOps.cpp:40-44 sockets::listenOrDie] for what [listen(2)] returns. *)
Definition listenOrDie (ret : Z) : result unit := ensure FatalLog (0 <=? ret).

Definition EAGAIN : Z := 11.
Definition ECONNABORTED : Z := 103.
Definition EINTR : Z := 4.
Definition EPERM : Z := 1.
Definition EPROTO : Z := 71.
Definition EMFILE : Z := 24.

Inductive accept_outcome :=
  | Accepted (connfd : Z) (addr : sockaddr)
  | AcceptErr (errno : Z).

(** [src/net/SocketsOps.cpp:46-77 sockets::accept] Of the errors six are passed on, all
    others end the program. *)
Definition accept (o : accept_outcome) : result accept_outcome :=
  match o with
  | Accepted _ _ => Ok o
  | AcceptErr e =>
      check! FatalLog (bool_decide (e ∈ [EAGAIN; ECONNABORTED; EINTR; EPERM; EPROTO; EMFILE]));
      Ok o
  end.

(** [src/net/SocketsOps.cpp:162-168 sockets::getSocketError] [Ok]: the value of SO_ERROR. *)
Definition getSocketError (o : Z + Z) : Z :=
  match o with
  | inl optval => optval
  | inr errno => errno
  end.

(** [src/net/SocketsOps.cpp:146-152 sockets::getLocalAddr] The answer of [getsockname(2)]; an error is logged and leaves zeros. *)
Definition getLocalAddr (answer : option sockaddr) : sockaddr := default (mkAddr 0 0 zero_rest) answer.
(** [src/net/SocketsOps.cpp:154-160 sockets::getPeerAddr] The answer of [getpeername(2)], likewise. *)
Definition getPeerAddr (answer : option sockaddr) : sockaddr := default (mkAddr 0 0 zero_rest) answer.

(** [src/net/SocketsOps.cpp:202-216 sockets::isSelfConnect] for the answers of [getsockname(2)] and [getpeername(2)]. *)
Definition isSelfConnect (sockname peername : option sockaddr) : bool :=
  let localaddr := getLocalAddr sockname in
  let peeraddr := getPeerAddr peername in
  if sin_family localaddr =? AF_INET then
    (sin_port localaddr =? sin_port peeraddr) && bool_decide (sin_addr localaddr = sin_addr peeraddr)
  else if sin_family localaddr =? AF_INET6 then
    (sin_port localaddr =? sin_port peeraddr) && bool_decide (sin6_addr localaddr = sin6_addr peeraddr)
  else false.

Section Text.
Context `{HostOrder}.
(** [inet_ntop] and [inet_pton], by family. *)
Variable ntop : Z → list byte → list byte.
Variable pton : Z → list byte → option (list byte).

(** [inet_ntop] into [buf + off]: nothing is written when the text does not fit. *)
Definition inet_ntop (family : Z) (addr : list byte) (off size : Z) (buf : list byte) : list byte :=
  if zlen (ntop family addr) <? size then zwrite off (ntop family addr ++ [x00]) buf else buf.

(** [src/net/SocketsOps.cpp:122-130 sockets::toIpStr] into [buf + off]. *)
Definition toIpStr (addr : sockaddr) (off size : Z) (buf : list byte) : list byte :=
  if sin_family addr =? AF_INET then inet_ntop AF_INET (sin_addr addr) off size buf
  else if sin_family addr =? AF_INET6 then inet_ntop AF_INET6 (sin6_addr addr) off size buf
  else buf.

(** [src/net/SocketsOps.cpp:105-120 sockets::toIpPortStr] *)
Definition toIpPortStr (addr : sockaddr) (size : Z) (buf : list byte) : list byte :=
  if sin_family addr =? AF_INET6 then
    let buf := zwrite 0 [x5b] buf in
    let buf := toIpStr addr 1 (size - 1) buf in
    let endPos := zlen (c_str buf) in
    let port := networkToHost16 (sin_port addr) in
    snprintf_at endPos (bytes "]:" ++ dec port) buf
  else if sin_family addr =? AF_INET then
    let buf := toIpStr addr 0 size buf in
    let endPos := zlen (c_str buf) in
    let port := networkToHost16 (sin_port addr) in
    snprintf_at endPos (bytes ":" ++ dec port) buf
  else buf.

(** [src/net/SocketsOps.cpp:132-137 sockets::fromIpPortStr] *)
Definition fromIpPortStr (ip : list byte) (port : Z) (addr : sockaddr) : sockaddr :=
  let addr := mkAddr AF_INET (hostToNetwork16 port) (rest addr) in
  match pton AF_INET ip with
  | Some a => set_sin_addr a addr
  | None => addr
  end.

(** [src/net/SocketsOps.cpp:139-144 sockets::fromIpPortStr] The IPv6 overload. *)
Definition fromIpPortStr6 (ip : list byte) (port : Z) (addr : sockaddr) : sockaddr :=
  let addr := mkAddr AF_INET6 (hostToNetwork16 port) (rest addr) in
  match pton AF_INET6 ip with
  | Some a => set_sin6_addr a addr
  | None => addr
  end.
End Text.
End sockets.
