(* ===== verification/InetAddress.v ===== *)
(** * Addresses and sockets: include/libfm/fmnet/InetAddress.h, net/InetAddress.cpp and
    net/Socket.{h,cpp}

    The classes over [SocketsOps].  An [InetAddress] is its socket address; a [Socket] sets options by
    [setsockopt(2)], whose arguments are the result here. *)
From stdpp Require Import base list numbers strings.
From Stdlib Require Import ZArith Lia Init.Byte.
From S2P Require Import Prelude.
From S2P Require Import Endian.
From S2P Require Import Channel.
From S2P Require Import SocketsOps.
#[local] Open Scope Z_scope.
#[local] Open Scope fm_scope.

Module Socket.
Definition SOL_SOCKET : Z := 1.
Definition IPPROTO_TCP : Z := 6.
Definition SO_REUSEADDR : Z := 2.
Definition SO_REUSEPORT : Z := 15.
Definition SO_KEEPALIVE : Z := 9.
Definition TCP_NODELAY : Z := 1.

(** A call of [setsockopt(2)] with an [int]: level, option, value, and the length passed. *)
Record sockopt := mkOpt { level : Z; optname : Z; optval : Z; optlen : Z }.

(** [src/net/Socket.cpp:37-41 Socket::setTcpNoDelay] *)
Definition setTcpNoDelay (on : bool) : sockopt := mkOpt IPPROTO_TCP TCP_NODELAY (Z.b2z on) (Z.b2z on).
(** [src/net/Socket.cpp:43-47 Socket::setReuseAddr] *)
Definition setReuseAddr (on : bool) : sockopt := mkOpt SOL_SOCKET SO_REUSEADDR (Z.b2z on) 4.
(** [src/net/Socket.cpp:49-53 Socket::setReusePort] *)
Definition setReusePort (on : bool) : sockopt := mkOpt SOL_SOCKET SO_REUSEPORT (Z.b2z on) 4.
(** [src/net/Socket.cpp:55-59 Socket::setKeepAlive] *)
Definition setKeepAlive (on : bool) : sockopt := mkOpt SOL_SOCKET SO_KEEPALIVE (Z.b2z on) 4.

(** [src/net/Socket.cpp:25-31 Socket::accept] The descriptor and the peer's address. *)
Definition accept (o : sockets.accept_outcome) (peerAddr : sockaddr) : result (Z * sockaddr + Z) :=
  o ← sockets.accept o;
  Ok (match o with
      | sockets.Accepted connfd addr => inl (connfd, addr)
      | sockets.AcceptErr e => inr e
      end).
End Socket.

Module InetAddress.
Section Addresses.
Context `{HostOrder}.
Variable ntop : Z → list byte → list byte.
Variable pton : Z → list byte → option (list byte).

(** [in6addr_loopback] and [in6addr_any]. *)
Definition in6addr_loopback : list byte := replicate 15 x00 ++ [x01].
Definition in6addr_any : list byte := replicate 16 x00.

(** [src/net/InetAddress.cpp:16-27 InetAddress::InetAddress] *)
Definition fromPort (port : Z) (loopBackOnly ipv6 : bool) : sockaddr :=
  if ipv6 then
    set_sin6_addr (if loopBackOnly then in6addr_loopback else in6addr_any)
      (mkAddr AF_INET6 (hostToNetwork16 port) zero_rest)
  else
    set_sin_addr (store 4 (if loopBackOnly then INADDR_LOOPBACK else INADDR_ANY))
      (mkAddr AF_INET (hostToNetwork16 port) zero_rest).

(** [src/net/InetAddress.cpp:29-37 InetAddress::InetAddress] [memset] clears the IPv4 view only up to its end; the
    bytes behind it hold [junk]. *)
Definition fromIp (junk : list byte) (ip : list byte) (port : Z) (ipv6 : bool) : sockaddr :=
  let ip := c_str (ip ++ [x00]) in
  if ipv6 || bool_decide (x3a ∈ ip) then
    sockets.fromIpPortStr6 pton ip port (mkAddr 0 0 zero_rest)
  else
    sockets.fromIpPortStr pton ip port (mkAddr 0 0 (zwrite 0 (replicate 12 x00) junk)).

(** [src/net/InetAddress.cpp:39-43 InetAddress::toIpStr] *)
Definition toIpStr (a : sockaddr) : list byte :=
  c_str (sockets.toIpStr ntop a 0 INET6_ADDRSTRLEN (replicate (Z.to_nat INET6_ADDRSTRLEN) x00)).

(** [src/net/InetAddress.cpp:45-49 InetAddress::toIpPortStr] *)
Definition toIpPortStr (a : sockaddr) : list byte :=
  c_str (sockets.toIpPortStr ntop a 64 (replicate 64 x00)).

(** [src/net/InetAddress.cpp:51-53 InetAddress::port] *)
Definition port (a : sockaddr) : Z := networkToHost16 (sin_port a).

(** [src/net/InetAddress.cpp:59-62 InetAddress::ipv4NetEdian] *)
Definition ipv4NetEdian (a : sockaddr) : result Z :=
  assert! (sin_family a =? AF_INET); Ok (load (sin_addr a)).

(** What [gethostbyname_r] fills in: the address family and length, and the array [h_addr_list] of
    pointers. *)
Record hostent := mkHost { h_addrtype : Z; h_length : Z; h_addr_list : list Z }.

(** [src/net/InetAddress.cpp:67-85 InetAddress::resolve] It copies the first four bytes of
    the array of pointers. *)
Definition resolve (he : option hostent) (r : sockaddr) : result (bool * sockaddr) :=
  match he with
  | Some he =>
      assert! ((h_addrtype he =? AF_INET) && (h_length he =? 4));
      match h_addr_list he with
      | p :: _ => Ok (true, set_sin_addr (ztake 4 (store 8 p)) r)
      | [] => Ok (true, set_sin_addr (ztake 4 (store 8 0)) r)
      end
  | None => Ok (false, r)
  end.

(** ** Printing *)

Lemma c_str_written off text buf :
  0 ≤ off → off + zlen text < zlen buf → x00 ∉ text → x00 ∉ ztake off buf →
  c_str (zwrite off (text ++ [x00]) buf) = ztake off buf ++ text.
Proof.
  intros Ho Hl Ht Hp. unfold c_str, zwrite. rewrite <- !app_assoc, (app_assoc (ztake off buf)).
  cbn [app]. rewrite std_find_app_match by (rewrite elem_of_app; tauto).
  by rewrite ztake_app_le, ztake_all by lia.
Qed.

Lemma zlen_zwrite_text off text buf :
  0 ≤ off → off + zlen text < zlen buf → zlen (zwrite off (text ++ [x00]) buf) = zlen buf.
Proof. intros. apply zlen_zwrite; [done|]. rewrite zlen_app. change (zlen [x00]) with 1. lia. Qed.

Lemma ztake_zwrite_text off text buf :
  0 ≤ off → off + zlen text < zlen buf →
  ztake (off + zlen text) (zwrite off (text ++ [x00]) buf) = ztake off buf ++ text.
Proof.
  intros Ho Hl. pose proof (zlen_nonneg text). unfold zwrite. rewrite <- !app_assoc, (app_assoc (ztake off buf)).
  rewrite ztake_app_le, ztake_all; rewrite ?zlen_app, ?zlen_ztake by lia; lia || done.
Qed.

(** Appending a formatted text behind a C string. *)
Lemma snprintf_behind text more buf :
  0 ≤ zlen text → x00 ∉ text → x00 ∉ more → zlen text + zlen more < zlen buf →
  ztake (zlen text) buf = text →
  c_str (snprintf_at (zlen text) more buf) = text ++ more.
Proof.
  intros Ht Hn Hm Hl Hpre. unfold snprintf_at. rewrite snprintf_fits by lia.
  rewrite c_str_written; rewrite ?Hpre; done || lia.
Qed.

Lemma dec_no_nul z : 0 ≤ z → x00 ∉ dec z.
Proof.
  intros Hz Hin. pose proof (dec_are_digits z Hz) as Hd. rewrite Forall_forall in Hd. apply Hd in Hin.
  change (byte_val x00) with 0 in Hin. lia.
Qed.

Lemma port_range a : 0 ≤ networkToHost16 (sin_port a) < 2 ^ 16.
Proof.
  unfold networkToHost16, htobe, be_val. destruct host_little.
  - pose proof (le_val_range (reverse (le_bytes 2 (sin_port a)))) as Hr.
    unfold zlen in Hr. rewrite length_reverse, length_le_bytes in Hr. exact Hr.
  - apply Z.mod_pos_bound. done.
Qed.

Lemma port_dec_length p : 0 ≤ p < 2 ^ 16 → zlen (dec p) ≤ 5.
Proof. intros Hp. apply (dec_length p 5); [|lia]. change (10 ^ Z.of_nat 5) with 100000. lia. Qed.

(** The texts of the C library have no NULs and the lengths it documents. *)
Definition ntop_documented : Prop :=
  ∀ a, x00 ∉ ntop AF_INET a ∧ zlen (ntop AF_INET a) < 16 ∧ x00 ∉ ntop AF_INET6 a ∧ zlen (ntop AF_INET6 a) < INET6_ADDRSTRLEN.

(** The text that [toIpPortStr] is meant to give. *)
Definition address_text (a : sockaddr) : list byte :=
  if sin_family a =? AF_INET6 then bytes "[" ++ ntop AF_INET6 (sin6_addr a) ++ bytes "]:" ++ dec (port a)
  else if sin_family a =? AF_INET then ntop AF_INET (sin_addr a) ++ bytes ":" ++ dec (port a)
  else [].

Lemma c_str_zeros n : c_str (replicate n x00) = [].
Proof. destruct n; [done|]. unfold c_str. simpl. done. Qed.

Lemma toIpPortStr_address a : ntop_documented → toIpPortStr a = address_text a.
Proof.
  intros Hd. unfold toIpPortStr, address_text, sockets.toIpPortStr, port. pose proof (port_range a) as Hp.
  set (p := networkToHost16 (sin_port a)) in *.
  pose proof (dec_no_nul p (proj1 Hp)) as Hnp. pose proof (port_dec_length p Hp) as Hlp.
  destruct (Z.eqb_spec (sin_family a) AF_INET6) as [H6|H6].
  - cbv zeta. destruct (Hd (sin6_addr a)) as (_ & _ & Hn & Hl). unfold INET6_ADDRSTRLEN in Hl.
    unfold sockets.toIpStr. rewrite H6. change (AF_INET6 =? AF_INET) with false. change (AF_INET6 =? AF_INET6) with true.
    cbv iota. unfold sockets.inet_ntop. set (t := ntop AF_INET6 (sin6_addr a)) in *. pose proof (zlen_nonneg t).
    rewrite (proj2 (Z.ltb_lt (zlen t) (64 - 1))) by lia.
    set (b0 := zwrite 0 [x5b] (replicate 64 x00)).
    assert (Hb0 : zlen b0 = 64) by reflexivity. assert (Ht0 : ztake 1 b0 = [x5b]) by reflexivity.
    rewrite (c_str_written 1 t b0); rewrite ?Ht0, ?Hb0; try done; try lia; [|by apply (bool_decide_unpack (x00 ∉ [x5b]))].
    rewrite (snprintf_behind ([x5b] ++ t)).
    + by rewrite <- app_assoc.
    + apply zlen_nonneg.
    + rewrite elem_of_app. intros [Hi|Hi]; [|done]. revert Hi. by apply (bool_decide_unpack (x00 ∉ [x5b])).
    + rewrite elem_of_app. intros [Hi|Hi]; [|done]. revert Hi. by apply (bool_decide_unpack (x00 ∉ bytes "]:")).
    + rewrite zlen_zwrite_text, Hb0 by lia. rewrite !zlen_app. change (zlen [x5b]) with 1. change (zlen (bytes "]:")) with 2. lia.
    + rewrite zlen_app. change (zlen [x5b]) with 1. rewrite ztake_zwrite_text by lia. by rewrite Ht0.
  - destruct (Z.eqb_spec (sin_family a) AF_INET) as [H4|H4]; [|by apply c_str_zeros].
    cbv zeta. destruct (Hd (sin_addr a)) as (Hn & Hl & _).
    unfold sockets.toIpStr. rewrite H4. change (AF_INET =? AF_INET) with true. cbv iota. unfold sockets.inet_ntop.
    set (t := ntop AF_INET (sin_addr a)) in *. pose proof (zlen_nonneg t).
    rewrite (proj2 (Z.ltb_lt (zlen t) 64)) by lia.
    assert (Hb0 : zlen (replicate 64 x00) = 64) by reflexivity.
    assert (Ht0 : ztake 0 (replicate 64 x00) = []) by reflexivity.
    rewrite (c_str_written 0 t); rewrite ?Ht0, ?Hb0; try done; try lia; [|by apply not_elem_of_nil].
    cbn [app]. rewrite (snprintf_behind t); try done.
    + rewrite elem_of_app. intros [Hi|Hi]; [|done]. revert Hi. by apply (bool_decide_unpack (x00 ∉ bytes ":")).
    + rewrite zlen_zwrite_text, Hb0 by lia. rewrite !zlen_app. change (zlen (bytes ":")) with 1. lia.
    + replace (zlen t) with (0 + zlen t) at 1 by lia. rewrite ztake_zwrite_text, Ht0 by lia. done.
Qed.

Lemma zlen_address_text a : ntop_documented → zlen (address_text a) ≤ 53.
Proof.
  intros Hd. unfold address_text. pose proof (port_range a) as Hp.
  pose proof (port_dec_length (port a) Hp) as Hlp.
  destruct (Hd (sin6_addr a)) as (_ & _ & _ & Hl6). destruct (Hd (sin_addr a)) as (_ & Hl4 & _).
  unfold INET6_ADDRSTRLEN in Hl6.
  destruct (_ =? AF_INET6); [|destruct (_ =? AF_INET); [|done]]; rewrite !zlen_app.
  - change (zlen (bytes "[")) with 1. change (zlen (bytes "]:")) with 2. lia.
  - change (zlen (bytes ":")) with 1. lia.
Qed.
End Addresses.
End InetAddress.

Section AddressTheorems.
Context `{HostOrder}.
Variable ntop : Z → list byte → list byte.
Variable pton : Z → list byte → option (list byte).

Lemma networkToHost_hostToNetwork16 p : 0 ≤ p < 2 ^ 16 → networkToHost16 (hostToNetwork16 p) = p.
Proof.
  intros Hp. unfold networkToHost16, hostToNetwork16, htobe. destruct host_little.
  - unfold be_val. assert (Hl : le_bytes 2 (le_val (reverse (le_bytes 2 p))) = reverse (le_bytes 2 p)).
    { rewrite <- (length_le_bytes 2 p) at 1. rewrite <- length_reverse. apply le_bytes_val. }
    rewrite Hl, reverse_involutive, le_val_bytes. by apply Z.mod_small.
  - change (256 ^ Z.of_nat 2) with (2 ^ 16). by rewrite !Z.mod_small by (rewrite ?Z.mod_small; done).
Qed.

(** C35. Round trip of addresses: an address built from the canonical text of an IPv4 or IPv6 address
    and a port prints as that text (bracketed for IPv6) and that port, and gives the port back,
    on hosts of either byte order. *)
Theorem address_roundtrip ip p a junk (v6 : bool) :
  let family := if v6 then AF_INET6 else AF_INET in
  InetAddress.ntop_documented ntop → zlen junk = 24 → 0 ≤ p < 2 ^ 16 → x00 ∉ ip → (x3a ∈ ip ↔ v6 = true) →
  pton family ip = Some a → ntop family a = ip → zlen a = (if v6 then 16 else 4) →
  InetAddress.toIpPortStr ntop (InetAddress.fromIp pton junk ip p false) =
    (if v6 then bytes "[" ++ ip ++ bytes "]:" ++ dec p else ip ++ bytes ":" ++ dec p) ∧
  InetAddress.port (InetAddress.fromIp pton junk ip p false) = p.
Proof.
  cbv zeta. intros Hd Hj Hp Hn Hc Hpt Hnt Ha. rewrite InetAddress.toIpPortStr_address by done.
  unfold InetAddress.fromIp. cbv zeta.
  assert (Hip : c_str (ip ++ [x00]) = ip).
  { unfold c_str. rewrite std_find_app_match by done. by rewrite ztake_app_le, ztake_all by lia. }
  rewrite Hip. cbn [orb]. destruct v6; cbv iota in Ha.
  - rewrite bool_decide_eq_true_2 by tauto. unfold sockets.fromIpPortStr6. rewrite Hpt.
    unfold InetAddress.address_text, InetAddress.port, set_sin6_addr, sin6_addr. cbn [sin_family sin_port rest].
    change (AF_INET6 =? AF_INET6) with true. cbv iota. rewrite networkToHost_hostToNetwork16 by done.
    assert (Hr : zslice 4 20 (zwrite 4 a zero_rest) = a).
    { replace 20 with (4 + zlen a) by lia. unfold zslice, zwrite. rewrite Ha.
      change (ztake 4 zero_rest) with (replicate 4 x00).
      rewrite zdrop_app_ge by (change (zlen (replicate 4 x00)) with 4; lia). change (4 - zlen (replicate 4 x00)) with 0. rewrite zdrop_0 by lia.
      rewrite ztake_app_le, ztake_all by lia. done. }
    by rewrite Hr, Hnt.
  - rewrite bool_decide_eq_false_2 by naive_solver. unfold sockets.fromIpPortStr. rewrite Hpt.
    unfold InetAddress.address_text, InetAddress.port, set_sin_addr, sin_addr. cbn [sin_family sin_port rest].
    change (AF_INET =? AF_INET6) with false. change (AF_INET =? AF_INET) with true. cbv iota.
    rewrite networkToHost_hostToNetwork16 by done.
    assert (Hr : zslice 0 4 (zwrite 0 a (zwrite 0 (replicate 12 x00) junk)) = a).
    { unfold zlen in Ha. destruct a as [|? [|? [|? [|? [|? ?]]]]]; try (simpl in Ha; lia). done. }
    by rewrite Hr, Hnt.
Qed.

(** The loopback address of the first constructor is 127.0.0.1 on a big-endian host only: the
    constant is stored in host order, so a little-endian host gets 1.0.0.127. *)
Theorem loopback_in_host_order (p : Z) :
  sin_addr (InetAddress.fromPort p true false) =
  if host_little then [x01; x00; x00; x7f] else [x7f; x00; x00; x01].
Proof. unfold InetAddress.fromPort, set_sin_addr, sin_addr, store. by destruct host_little. Qed.
End AddressTheorems.

(** A resolver that knows two addresses. *)
Definition demo_ntop (family : Z) (a : list byte) : list byte :=
  if family =? AF_INET6 then bytes "::1" else bytes "10.0.0.1".
Definition demo_pton (family : Z) (ip : list byte) : option (list byte) :=
  if family =? AF_INET6 then Some (InetAddress.in6addr_loopback) else Some [x0a; x00; x00; x01].

Lemma address_roundtrip_witness :
  let little : HostOrder := true in
  InetAddress.toIpPortStr demo_ntop (InetAddress.fromIp demo_pton (replicate 24 x2a) (bytes "10.0.0.1") 8080 false) =
    bytes "10.0.0.1" ++ bytes ":" ++ dec 8080 ∧
  InetAddress.port (InetAddress.fromIp demo_pton (replicate 24 x2a) (bytes "10.0.0.1") 8080 false) = 8080.
Proof.
  intros little.
  apply (address_roundtrip demo_ntop demo_pton (bytes "10.0.0.1") 8080 [x0a; x00; x00; x01] (replicate 24 x2a) false).
  - intros a. split_and!; try done; by apply (bool_decide_unpack _).
  - reflexivity.
  - lia.
  - by apply (bool_decide_unpack _).
  - split; [|discriminate]. intros Hin. exfalso. revert Hin. by apply (bool_decide_unpack (x3a ∉ bytes "10.0.0.1")).
  - reflexivity.
  - reflexivity.
  - reflexivity.
Defined.
