(* ===== verification/Connector.v ===== *)
(** * The connector: net/Connector.{h,cpp}

    The connector's members, the loop that serves it with the channel of the attempt in
    progress, the timers it has set (their delays in microseconds), and what became of the
    sockets it made: [closed] or [handed] to the new-connection callback.

    [sys_socket] answers with a descriptor that is not registered, [sys_connect] with
    the error of [connect(2)] (0 for success), [so_error] and [self_connect] with what the
    socket reports when it becomes writable. *)
From stdpp Require Import base list gmap numbers.
From Stdlib Require Import ZArith Lia.
From S2P Require Import Prelude.
From S2P Require Import Channel.
From S2P Require Import Poller.
From S2P Require Import EventLoop.
Import EventLoop.EventLoop.
#[local] Open Scope Z_scope.
#[local] Open Scope fm_scope.

Module Connector.

Definition EPERM : Z := 1.
Definition EINTR : Z := 4.
Definition EBADF : Z := 9.
Definition EAGAIN : Z := 11.
Definition EACCES : Z := 13.
Definition EFAULT : Z := 14.
Definition ENOTSOCK : Z := 88.
Definition EAFNOSUPPORT : Z := 97.
Definition EADDRINUSE : Z := 98.
Definition EADDRNOTAVAIL : Z := 99.
Definition ENETUNREACH : Z := 101.
Definition EISCONN : Z := 106.
Definition ECONNREFUSED : Z := 111.
Definition EALREADY : Z := 114.
Definition EINPROGRESS : Z := 115.

(** [src/net/Connector.h:50-50 Connector::kMaxRetryDelayMs] *)
Definition kMaxRetryDelayMs : Z := 30 * 1000.
(** [src/net/Connector.h:51-51 Connector::kInitRetryDelayMs] *)
Definition kInitRetryDelayMs : Z := 500.

(** [src/net/Connector.h:33-33 Connector::State] *)
Inductive State := kDisconnected | kConnecting | kConnected.

#[export] Instance State_eq_dec : EqDecision State.
Proof. solve_decision. Defined.

Inductive channel_cb := CbWrite | CbError.

Inductive functor := FStartInLoop | FStopInLoop | FResetChannel.

#[export] Instance functor_eq_dec : EqDecision functor.
Proof. solve_decision. Defined.

(** [src/net/Connector.h:53-59 Connector data members] *)
Record Connector := mkConnector {
  connect_ : bool;
  state_ : State;
  channel_ : option loc;
  retry_delay_ms_ : Z
}.

Record world := mkWorld {
  loop_ : EventLoop functor channel_cb;
  conn : Connector;
  timers : list Z;
  calls : nat;
  opened : list Z;
  closed : list Z;
  handed : list Z
}.

#[export] Program Instance world_HasLoop : HasLoop world functor channel_cb := {
  loop_of := loop_;
  with_loop lp w := mkWorld lp (conn w) (timers w) (calls w) (opened w) (closed w) (handed w)
}.
Next Obligation. done. Qed.

Definition set_conn (c : Connector) (w : world) : world :=
  mkWorld (loop_ w) c (timers w) (calls w) (opened w) (closed w) (handed w).
Definition set_timers (t : list Z) (w : world) : world :=
  mkWorld (loop_ w) (conn w) t (calls w) (opened w) (closed w) (handed w).
Definition set_connect (b : bool) (w : world) : world :=
  set_conn (mkConnector b (state_ (conn w)) (channel_ (conn w)) (retry_delay_ms_ (conn w))) w.
(** [src/net/Connector.h:34-34 Connector::setState] *)
Definition setState (s : State) (w : world) : world :=
  set_conn (mkConnector (connect_ (conn w)) s (channel_ (conn w)) (retry_delay_ms_ (conn w))) w.
Definition set_channel (c : option loc) (w : world) : world :=
  set_conn (mkConnector (connect_ (conn w)) (state_ (conn w)) c (retry_delay_ms_ (conn w))) w.
Definition set_delay (d : Z) (w : world) : world :=
  set_conn (mkConnector (connect_ (conn w)) (state_ (conn w)) (channel_ (conn w)) d) w.
(** A system call made. *)
Definition called (w : world) : world :=
  mkWorld (loop_ w) (conn w) (timers w) (S (calls w)) (opened w) (closed w) (handed w).

(** [src/net/Connector.cpp:16-23 Connector::Connector] *)
Definition newConnector (lp : EventLoop functor channel_cb) : world :=
  mkWorld lp (mkConnector false kDisconnected None kInitRetryDelayMs) [] 0 [] [] [].

(** [src/net/Connector.cpp:25-28 Connector::~Connector] *)
Definition destroyConnector (w : world) : result unit := ensure AssertFailed (bool_decide (channel_ (conn w) = None)).

Definition close (fd : Z) (w : world) : world :=
  mkWorld (loop_ w) (conn w) (timers w) (calls w) (opened w) (closed w ++ [fd]) (handed w).

(** [new_connection_callback_] *)
Definition new_connection_callback (fd : Z) (w : world) : world :=
  mkWorld (loop_ w) (conn w) (timers w) (calls w) (opened w) (closed w) (handed w ++ [fd]).

Definition queue (inLoop : bool) (f : functor) (w : world) : world := on_loop (queueInLoop inLoop f) w.

Section Operations.
Variable sys_socket : nat → gmap Z loc → Z.
Variable sys_connect : nat → Z.
Variable so_error : nat → Z.
Variable self_connect : nat → bool.

(** [src/net/Connector.cpp:161-173 Connector::retry] The delay is passed on as microseconds. *)
Definition retry (sockfd : Z) (w : world) : world :=
  let w := close sockfd w in
  let w := setState kDisconnected w in
  if connect_ (conn w) then
    let w := set_timers (timers w ++ [retry_delay_ms_ (conn w)]) w in
    set_delay (Z.min (retry_delay_ms_ (conn w) * 2) kMaxRetryDelayMs) w
  else w.

(** [src/net/Connector.cpp:102-109 Connector::connecting] *)
Definition connecting (sockfd : Z) (w : world) : result world :=
  let w := setState kConnecting w in
  assert! (bool_decide (channel_ (conn w) = None));
  let l := fresh (dom (channels (loop_ w))) in
  let c := Channel.newChannel sockfd in
  let c := Channel.setWriteCallback CbWrite c in
  let c := Channel.setErrorCallback CbError c in
  let w := set_channel (Some l) (on_loop (addChannel l c) w) in
  lp ← change true Channel.EnableWriting l (loop_ w);
  Ok (with_loop lp w).

(** What [connect] does with the error. *)
Inductive connect_class := Connecting | Retry | GiveUp.

Definition classify (saved_errno : Z) : connect_class :=
  if decide (saved_errno ∈ [0; EINPROGRESS; EINTR; EISCONN]) then Connecting
  else if decide (saved_errno ∈ [EAGAIN; EADDRINUSE; EADDRNOTAVAIL; ECONNREFUSED; ENETUNREACH]) then Retry
  else GiveUp.

(** [src/net/Connector.cpp:58-92 Connector::connect] *)
Definition connect (w : world) : result world :=
  let sockfd := sys_socket (calls w) (Epoller.channels_ (poller_ (loop_ w))) in
  check! FatalLog (0 <=? sockfd);
  let saved_errno := sys_connect (calls w) in
  let w := mkWorld (loop_ w) (conn w) (timers w) (S (calls w)) (opened w ++ [sockfd]) (closed w) (handed w) in
  match classify saved_errno with
  | Connecting => connecting sockfd w
  | Retry => Ok (retry sockfd w)
  | GiveUp => Ok (close sockfd w)
  end.

(** [src/net/Connector.cpp:35-42 Connector::startInLoop] *)
Definition startInLoop (inLoop : bool) (w : world) : result world :=
  assertInLoopThread inLoop;;
  assert! (bool_decide (state_ (conn w) = kDisconnected));
  if connect_ (conn w) then connect w else Ok w.

(** [src/net/Connector.cpp:30-33 Connector::start] *)
Definition start (inLoop : bool) (w : world) : result world :=
  let w := set_connect true w in
  if inLoop then startInLoop true w else Ok (queue false FStartInLoop w).

(** [src/net/Connector.cpp:44-47 Connector::stop] *)
Definition stop (inLoop : bool) (w : world) : result world :=
  Ok (queue inLoop FStopInLoop (set_connect false w)).

(** [src/net/Connector.cpp:111-117 Connector::removeAndResetChannel] *)
Definition removeAndResetChannel (w : world) : result (Z * world) :=
  match channel_ (conn w) with
  | None => Fault NullDeref
  | Some l =>
      lp ← change true Channel.DisableAll l (loop_ w);
      lp ← remove true l lp;
      c ← getChannel l lp;
      Ok (Channel.fd_ c, queue true FResetChannel (with_loop lp w))
  end.

(** [src/net/Connector.cpp:119-121 Connector::resetChannel] *)
Definition resetChannel (w : world) : result world :=
  match channel_ (conn w) with
  | None => Ok w
  | Some l =>
      lp ← destroyChannel true l (loop_ w);
      Ok (set_channel None (with_loop lp w))
  end.

(** [src/net/Connector.cpp:49-56 Connector::stopInLoop] *)
Definition stopInLoop (inLoop : bool) (w : world) : result world :=
  assertInLoopThread inLoop;;
  if decide (state_ (conn w) = kConnecting) then
    '(sockfd, w) ← removeAndResetChannel (setState kDisconnected w);
    Ok (retry sockfd w)
  else Ok w.

(** [src/net/Connector.cpp:94-100 Connector::restart] *)
Definition restart (inLoop : bool) (w : world) : result world :=
  assertInLoopThread inLoop;;
  let w := setState kDisconnected w in
  let w := set_delay kInitRetryDelayMs w in
  let w := set_connect true w in
  startInLoop inLoop w.

(** [src/net/Connector.cpp:123-147 Connector::handleWrite] *)
Definition handleWrite (w : world) : result world :=
  if decide (state_ (conn w) = kConnecting) then
    '(sockfd, w) ← removeAndResetChannel w;
    let n := calls w in
    let w := called w in
    if negb (so_error n =? 0) then Ok (retry sockfd w)
    else if self_connect n then Ok (retry sockfd w)
    else
      let w := setState kConnected w in
      if connect_ (conn w) then Ok (new_connection_callback sockfd w) else Ok (close sockfd w)
  else
    assert! (bool_decide (state_ (conn w) = kDisconnected)); Ok w.

(** [src/net/Connector.cpp:149-159 Connector::handleError] *)
Definition handleError (w : world) : result world :=
  if decide (state_ (conn w) = kConnecting) then
    '(sockfd, w) ← removeAndResetChannel w;
    Ok (retry sockfd (called w))
  else Ok w.

Definition run_functor (f : functor) (w : world) : result world :=
  match f with
  | FStartInLoop => startInLoop true w
  | FStopInLoop => stopInLoop true w
  | FResetChannel => resetChannel w
  end.

Definition run_callback (cb : channel_cb) (w : world) : result world :=
  match cb with CbWrite => handleWrite w | CbError => handleError w end.

(** ** What happens to a connector *)
Inductive event :=
  | Functor                     (** the loop takes the next functor *)
  | Timer (i : nat)             (** the [i]-th pending retry timer expires *)
  | Report (cb : channel_cb)    (** the loop calls back the channel of the attempt *)
  | Start (inLoop : bool)
  | Stop (inLoop : bool)
  | Restart.

(** The loop handles the events of channel [l]. *)
Definition dispatching (l : loc) (lp : EventLoop functor channel_cb) : EventLoop functor channel_cb :=
  set_current (Some l) (set_active [l] (set_handling true lp)).
Definition dispatched (lp : EventLoop functor channel_cb) : EventLoop functor channel_cb :=
  set_handling false (set_current None lp).

Definition perform (e : event) (w : world) : result world :=
  match e with
  | Functor =>
      match pending_functors_ (loop_ w) with
      | [] => Ok w
      | f :: fs => run_functor f (on_loop (set_pending fs) w)
      end
  | Timer i =>
      match timers w !! i with
      | Some _ => startInLoop true (set_timers (delete i (timers w)) w)
      | None => Ok w
      end
  | Report cb =>
      match channel_ (conn w) with
      | Some l => w ← run_callback cb (on_loop (dispatching l) w); Ok (on_loop dispatched w)
      | None => Ok w
      end
  | Start inLoop => start inLoop w
  | Stop inLoop => stop inLoop w
  | Restart => restart true w
  end.
End Operations.
End Connector.
