(* ===== verification/ConnectorSpec.v ===== *)
(** * What the connector promises

    Used one attempt at a time, it never fails an assertion, and every socket it makes is
    closed once, handed over once, or is the one of the attempt in progress; failed
    attempts are repeated with doubled delays.  And what the interface does when it is used
    otherwise ([start_again_aborts]), or when a retry timer is early ([early_retry_aborts]). *)
From stdpp Require Import base list gmap numbers sorting.
From Stdlib Require Import ZArith Lia.
From S2P Require Import Prelude.
From S2P Require Import Channel.
From S2P Require Import Poller.
From S2P Require Import EventLoop.
From S2P Require Import EventLoopSpec.
From S2P Require Import Connector.
Import EventLoop.EventLoop Connector.Connector.
#[local] Open Scope Z_scope.
#[local] Open Scope fm_scope.

(** The attempts under way or about to be made. *)
Definition starts (w : world) : nat :=
  length (timers w) + length (filter (fun f => f = FStartInLoop) (pending_functors_ (loop_ w))).

Definition resets (w : world) : nat :=
  length (filter (fun f => f = FResetChannel) (pending_functors_ (loop_ w))).

(** The channel in each state: registered while connecting; afterwards removed and waiting to be
    reset, or gone.  [current] is the socket of the attempt. *)
Definition channel_state (w : world) (current : list Z) : Prop :=
  match channel_ (conn w) with
  | None => state_ (conn w) ≠ kConnecting ∧ resets w = 0%nat ∧ current = []
  | Some l => ∃ c, channels (loop_ w) !! l = Some c ∧ Channel.event_handling_ c = false ∧
      if decide (state_ (conn w) = kConnecting)
      then Channel.index_ c ≠ Epoller.kNew ∧ resets w = 0%nat ∧ current = [Channel.fd_ c]
      else Channel.index_ c = Epoller.kNew ∧ Channel.added_to_loop_ c = false ∧ resets w = 1%nat ∧ current = []
  end.

Record cinv (w : world) : Prop := {
  ci_loop : ok (loop_ w);
  ci_idle : event_handling_ (loop_ w) = false;
  ci_starts : (starts w ≤ 1)%nat;
  ci_disconnected : (starts w = 1)%nat → state_ (conn w) = kDisconnected;
  ci_clear : FStartInLoop ∈ pending_functors_ (loop_ w) → channel_ (conn w) = None;
  ci_delay : 0 < retry_delay_ms_ (conn w) ≤ kMaxRetryDelayMs;
  ci_sockets : ∃ current, channel_state w current ∧ opened w ≡ₚ closed w ++ handed w ++ current
}.

(** One attempt at a time: [start] when the connector is disconnected and nothing is under way - not after an attempt that connected, see
    [start_again_aborts] -, [restart] when nothing is under way (the last connection may be up to its end), and a retry timer fires in a later turn of
    the loop than the failure that set it, so that the channel is reset before: with a delay of 500 microseconds the code does not see to
    that, see [early_retry_aborts].  Once it has connected its channel is out of the poller, which does not report to it. *)
Definition nothing_pending (w : world) : Prop :=
  channel_ (conn w) = None ∧ timers w = [] ∧ pending_functors_ (loop_ w) = [].

Definition enabled (e : event) (w : world) : Prop :=
  match e with
  | Start _ => state_ (conn w) = kDisconnected ∧ nothing_pending w
  | Restart => nothing_pending w
  | Timer _ => channel_ (conn w) = None
  | Report CbWrite => state_ (conn w) ≠ kConnected
  | _ => True
  end.

Section Connector.
Variable sys_socket : nat → gmap Z loc → Z.
Hypothesis socket_fresh : ∀ n m, 0 ≤ sys_socket n m ∧ m !! sys_socket n m = None.
Variable sys_connect : nat → Z.
Variable so_error : nat → Z.
Variable self_connect : nat → bool.

Local Notation perform := (perform sys_socket sys_connect so_error self_connect).

(** A start is about to happen and nothing else is under way. *)
Record about_to_start (w : world) : Prop := {
  ab_loop : ok (loop_ w);
  ab_idle : event_handling_ (loop_ w) = false;
  ab_starts : starts w = 0%nat;
  ab_state : state_ (conn w) = kDisconnected;
  ab_channel : channel_ (conn w) = None;
  ab_resets : resets w = 0%nat;
  ab_delay : 0 < retry_delay_ms_ (conn w) ≤ kMaxRetryDelayMs;
  ab_sockets : opened w ≡ₚ closed w ++ handed w
}.

Lemma no_start_pending w : starts w = 0%nat → FStartInLoop ∉ pending_functors_ (loop_ w).
Proof.
  unfold starts. intros Hs Hin.
  assert (FStartInLoop ∈ filter (fun f => f = FStartInLoop) (pending_functors_ (loop_ w)))
    by (by apply list_elem_of_filter).
  destruct (filter (fun f => f = FStartInLoop) _); [by apply elem_of_nil in H | simpl in Hs; lia].
Qed.

Lemma about_cinv w : about_to_start w → cinv w.
Proof.
  intros [Hl Hi Hs Hst Hc Hr Hd Ho]. constructor; try done; [lia | exists []].
  split; [|by rewrite app_nil_r, <- (app_nil_r (handed w)), app_nil_r in *].
  unfold channel_state. rewrite Hc. by rewrite Hst.
Qed.

Lemma permutation_move (x y z : list Z) (a : Z) : x ≡ₚ y ++ z → x ++ [a] ≡ₚ (y ++ [a]) ++ z.
Proof. intros ->. rewrite <- !app_assoc. f_equiv. by rewrite Permutation_app_comm. Qed.

Lemma retry_ok w fd :
  starts w = 0%nat → 0 < retry_delay_ms_ (conn w) ≤ kMaxRetryDelayMs →
  let w' := retry fd w in
  loop_ w' = loop_ w ∧ closed w' = closed w ++ [fd] ∧ handed w' = handed w ∧ opened w' = opened w ∧
  state_ (conn w') = kDisconnected ∧ channel_ (conn w') = channel_ (conn w) ∧ (starts w' ≤ 1)%nat ∧
  0 < retry_delay_ms_ (conn w') ≤ kMaxRetryDelayMs.
Proof.
  intros Hs Hd. cbv zeta. unfold retry. cbv zeta. cbn [conn setState set_conn connect_ close].
  destruct (connect_ (conn w)); cbn; unfold starts, kMaxRetryDelayMs in *.
  - split_and!; try done; try lia. simpl. rewrite length_app. simpl. lia.
  - split_and!; try done; simpl; lia.
Qed.

Lemma connecting_ok w fd :
  ok (loop_ w) → event_handling_ (loop_ w) = false → channel_ (conn w) = None →
  Epoller.channels_ (poller_ (loop_ w)) !! fd = None →
  ∃ lp l c, connecting fd w = Ok (with_loop lp (set_channel (Some l) (setState kConnecting w))) ∧
      channels lp !! l = Some c ∧ Channel.fd_ c = fd ∧ Channel.index_ c ≠ Epoller.kNew ∧
      Channel.event_handling_ c = false ∧ ok lp ∧ event_handling_ lp = false ∧
      pending_functors_ lp = pending_functors_ (loop_ w).
Proof.
  intros Hl Hi Hc Hfd. unfold connecting. cbv zeta.
  rewrite bool_decide_eq_true_2 by exact Hc. cbn [ensure]. rewrite bind_Ok.
  change (loop_ (setState kConnecting w)) with (loop_ w). set (l := fresh _).
  assert (Hfresh : channels (loop_ w) !! l = None) by (apply not_elem_of_dom, is_fresh).
  set (c := Channel.setErrorCallback _ _).
  set (lp0 := addChannel l c (loop_ w)).
  assert (Hok0 : ok lp0) by (eapply Epoller.ok_new_channel; done).
  assert (Hc0 : channels lp0 !! l = Some c) by apply lookup_insert_eq.
  destruct (change_ok lp0 l c Channel.EnableWriting Hok0 Hc0) as (ep & Hch & Hok & _); [by intros _|].
  match goal with |- context [change _ _ _ ?lp] => change lp with lp0 end.
  rewrite Hch, bind_Ok.
  eexists _, l, (changed Channel.EnableWriting c). split; [done|].
  cbn [channels set_poller]. split; [apply lookup_insert_eq|].
  split; [done|]. split; [|split_and!; try done].
  unfold changed. cbn [Channel.index_ Channel.set_index]. by destruct (_ && _).
Qed.

Lemma startInLoop_ok w :
  about_to_start w → ∃ w', startInLoop sys_socket sys_connect true w = Ok w' ∧ cinv w'.
Proof.
  intros Ha. unfold startInLoop. cbn [assertInLoopThread ensure]. rewrite bind_Ok.
  rewrite bool_decide_eq_true_2 by apply Ha. cbn [ensure]. rewrite bind_Ok.
  destruct (connect_ (conn w)); [|exists w; split; [done | by apply about_cinv]].
  unfold connect. set (fd := sys_socket _ _). destruct (socket_fresh (calls w) (Epoller.channels_ (poller_ (loop_ w)))) as [Hpos Hfree].
  fold fd in Hpos, Hfree. rewrite (proj2 (Z.leb_le 0 fd)) by done. cbn [ensure]. rewrite bind_Ok. cbv zeta.
  set (w1 := mkWorld _ _ _ _ _ _ _). pose proof Ha as [Hl Hi Hs Hst Hc Hr Hd Ho].
  destruct (classify (sys_connect (calls w))).
  - destruct (connecting_ok w1 fd) as (lp & l & c & Hrun & Hl' & Hfdc & Hix & Hev & Hok & Hid & Hp); [done..|].
    eexists. split; [exact Hrun|]. set (w2 := with_loop lp _).
    assert (Hst2 : starts w2 = 0%nat) by (rewrite <- Hs; unfold starts; simpl; by rewrite Hp).
    constructor; try done; rewrite ?Hst2; try lia.
    + intros Hin. by apply no_start_pending in Hin.
    + exists [fd]. split; [|simpl; rewrite Ho; by rewrite <- app_assoc].
      exists c. split; [done|]. split; [done|]. rewrite decide_True by done. rewrite Hfdc. split; [done|].
      split; [|done]. unfold resets in *. simpl. by rewrite Hp.
  - eexists. split; [done|].
    destruct (retry_ok w1 fd) as (H1 & H2 & H3 & H4 & H5 & H6 & H7 & H8); [done | done |].
    constructor; rewrite ?H1; try done.
    + rewrite H6. intros _. exact Hc.
    + exists []. rewrite H2, H3, H4, app_nil_r. split.
      * unfold channel_state, resets. rewrite H6, H1. change (channel_ (conn w1)) with (channel_ (conn w)). rewrite Hc, H5. done.
      * by apply permutation_move.
  - eexists. split; [done|]. apply about_cinv. constructor; try done. by apply permutation_move.
Qed.

(** Taking the channel of the attempt out of the loop. *)
Lemma removeAndResetChannel_ok w l c :
  ok (loop_ w) → channel_ (conn w) = Some l → channels (loop_ w) !! l = Some c →
  Channel.index_ c ≠ Epoller.kNew →
  (event_handling_ (loop_ w) = true → current_active_channel_ (loop_ w) = Some l) →
  ∃ lp c', removeAndResetChannel w = Ok (Channel.fd_ c, with_loop lp w) ∧
    channels lp !! l = Some c' ∧ Channel.index_ c' = Epoller.kNew ∧ Channel.added_to_loop_ c' = false ∧
    Channel.event_handling_ c' = Channel.event_handling_ c ∧ ok lp ∧
    event_handling_ lp = event_handling_ (loop_ w) ∧ pending_functors_ lp = pending_functors_ (loop_ w) ++ [FResetChannel].
Proof.
  intros Hok Hl Hc Hi Hd. unfold removeAndResetChannel. rewrite Hl.
  destruct (change_ok (loop_ w) l c Channel.DisableAll Hok Hc) as (ep & -> & Hok1 & _); [by intros ?|].
  rewrite bind_Ok. set (lp1 := set_poller _ ep (loop_ w)) in *.
  assert (Hc1 : channels lp1 !! l = Some (changed Channel.DisableAll c)) by apply lookup_insert_eq.
  destruct (remove_ok lp1 l _ Hok1 Hc1) as (ep2 & -> & Hok2 & _).
  { unfold changed. cbn [Channel.index_ Channel.set_index]. by destruct (_ && _). }
  { done. }
  { intros Hh. left. by apply Hd. }
  rewrite bind_Ok. set (lp2 := set_poller _ ep2 lp1) in *.
  assert (Hc2 : channels lp2 !! l = Some (Channel.set_index Epoller.kNew (Channel.set_added_to_loop false (changed Channel.DisableAll c))))
    by apply lookup_insert_eq.
  unfold getChannel. rewrite (Epoller.deref_lookup _ _ _ Hc2), bind_Ok.
  destruct (queueInLoop_frame true FResetChannel lp2) as (Hq1 & Hq2 & Hq3).
  pose proof (queueInLoop_handling true FResetChannel lp2) as Hq4.
  eexists (queueInLoop true FResetChannel lp2), _. split; [done|]. rewrite Hq1. split; [exact Hc2|].
  do 3 (split; [done|]). split; [unfold ok; by rewrite Hq1, Hq2|]. split; [by rewrite Hq4 | by rewrite Hq3].
Qed.

Lemma filter_snoc_other (P : functor → Prop) `{∀ f, Decision (P f)} fs f : ¬ P f → filter P (fs ++ [f]) = filter P fs.
Proof. intros Hf. rewrite filter_app, filter_cons_False by done. by rewrite filter_nil, app_nil_r. Qed.

Lemma filter_snoc_same (P : functor → Prop) `{∀ f, Decision (P f)} fs f : P f → filter P (fs ++ [f]) = filter P fs ++ [f].
Proof. intros Hf. by rewrite filter_app, filter_cons_True, filter_nil by done. Qed.

(** The world after the attempt on [fd] was given up or won: the channel waits to be reset. *)
Record given_up (fd : Z) (w w' : world) : Prop := {
  gu_conn : conn w' = conn w;
  gu_timers : timers w' = timers w;
  gu_sockets : opened w' = opened w ∧ closed w' = closed w ∧ handed w' = handed w;
  gu_loop : ok (loop_ w');
  gu_handling : event_handling_ (loop_ w') = event_handling_ (loop_ w);
  gu_starts : starts w' = starts w;
  gu_resets : resets w' = S (resets w);
  gu_pending : FStartInLoop ∈ pending_functors_ (loop_ w') → FStartInLoop ∈ pending_functors_ (loop_ w);
  gu_channel : ∃ l c, channel_ (conn w) = Some l ∧ channels (loop_ w') !! l = Some c ∧
    Channel.event_handling_ c = false ∧ Channel.index_ c = Epoller.kNew ∧ Channel.added_to_loop_ c = false;
  gu_queue : pending_functors_ (loop_ w') = pending_functors_ (loop_ w) ++ [FResetChannel]
}.

(** A connector in the middle of an attempt, seen from its own dispatch or from a functor. *)
Record attempting (fd : Z) (w : world) : Prop := {
  at_loop : ok (loop_ w);
  at_starts : starts w = 0%nat;
  at_resets : resets w = 0%nat;
  at_delay : 0 < retry_delay_ms_ (conn w) ≤ kMaxRetryDelayMs;
  at_sockets : opened w ≡ₚ closed w ++ handed w ++ [fd];
  at_channel : ∃ l c, channel_ (conn w) = Some l ∧ channels (loop_ w) !! l = Some c ∧ Channel.fd_ c = fd ∧
    Channel.event_handling_ c = false ∧ Channel.index_ c ≠ Epoller.kNew ∧
    (event_handling_ (loop_ w) = true → current_active_channel_ (loop_ w) = Some l)
}.

Lemma abandon fd w :
  attempting fd w → ∃ w', removeAndResetChannel w = Ok (fd, w') ∧ given_up fd w w'.
Proof.
  intros [Hl Hs Hr Hd Ho (l & c & Hc & Hlk & <- & Hev & Hix & Hact)].
  destruct (removeAndResetChannel_ok w l c Hl Hc Hlk Hix Hact) as (lp & c' & -> & H1 & H2 & H3 & H4 & H5 & H6 & H7).
  eexists. split; [done|]. constructor; try done.
  - unfold starts. cbn [timers loop_ with_loop world_HasLoop]. by rewrite H7, filter_snoc_other.
  - unfold resets. cbn [loop_ with_loop world_HasLoop]. rewrite H7, filter_snoc_same, length_app by done. simpl. lia.
  - cbn [loop_ with_loop world_HasLoop]. rewrite H7, elem_of_app, list_elem_of_singleton. by intros [?|?].
  - exists l, c'. by rewrite H4.
Qed.

(** What the invariant says once an attempt is over; [w] is the world before its end. *)
Lemma over_cinv fd w w1 w2 :
  attempting fd w → given_up fd w w1 → loop_ w2 = dispatched (loop_ w1) ∨ loop_ w2 = loop_ w1 →
  event_handling_ (loop_ w2) = false →
  channel_ (conn w2) = channel_ (conn w1) → state_ (conn w2) ≠ kConnecting →
  (length (timers w2) ≤ 1)%nat → (length (timers w2) = 1%nat → state_ (conn w2) = kDisconnected) →
  0 < retry_delay_ms_ (conn w2) ≤ kMaxRetryDelayMs →
  opened w2 ≡ₚ closed w2 ++ handed w2 → cinv w2.
Proof.
  intros [Hl Hs Hr Hd Ho _] [Hcn Ht _ Hok Hh Hst Hre Hpend (l & c & Hc & Hlk & Hev & Hix & Hadd) _] Hloop Hidle Hch Hstate Hlen Hone Hdelay Hsock.
  assert (Hframe : channels (loop_ w2) = channels (loop_ w1) ∧ poller_ (loop_ w2) = poller_ (loop_ w1) ∧
     pending_functors_ (loop_ w2) = pending_functors_ (loop_ w1)) by (by destruct Hloop as [-> | ->]).
  destruct Hframe as (Hf1 & Hf2 & Hf3).
  assert (Hst0 : length (filter (fun f => f = FStartInLoop) (pending_functors_ (loop_ w1))) = 0%nat).
  { unfold starts in Hst, Hs. lia. }
  constructor; try done.
  - unfold ok. by rewrite Hf1, Hf2.
  - unfold starts. rewrite Hf3, Hst0. lia.
  - unfold starts. rewrite Hf3, Hst0. intros ?. apply Hone. lia.
  - rewrite Hf3. intros Hin. exfalso. apply Hpend in Hin. by apply no_start_pending in Hin.
  - exists []. split; [|by rewrite app_nil_r].
    unfold channel_state. rewrite Hch, Hcn, Hc. exists c. rewrite Hf1. split; [done|]. split; [done|].
    rewrite decide_False by done. split; [done|]. split; [done|]. split; [|done].
    unfold resets. rewrite Hf3. fold (resets w1). by rewrite Hre, Hr.
Qed.

(** Ending an attempt with [retry], after which the loop may still be dispatching. *)
Lemma retry_over fd w w1 w1' w2 :
  attempting fd w → given_up fd w w1 →
  loop_ w1' = loop_ w1 → channel_ (conn w1') = channel_ (conn w1) → retry_delay_ms_ (conn w1') = retry_delay_ms_ (conn w1) →
  timers w1' = timers w1 → opened w1' = opened w1 → closed w1' = closed w1 → handed w1' = handed w1 →
  w2 = retry fd w1' ∧ event_handling_ (loop_ w1) = false ∨ w2 = on_loop dispatched (retry fd w1') → cinv w2.
Proof.
  intros Ha Hg Hl Hc Hd Ht Ho Hcl Hh Hw2.
  assert (Hlen : length (timers w1) = 0%nat).
  { rewrite (gu_timers _ _ _ Hg). pose proof (at_starts _ _ Ha) as H0. unfold starts in H0. lia. }
  assert (Hs1 : starts w1' = 0%nat).
  { rewrite <- (at_starts _ _ Ha), <- (gu_starts _ _ _ Hg). unfold starts. by rewrite Ht, Hl. }
  assert (Hdel : 0 < retry_delay_ms_ (conn w1') ≤ kMaxRetryDelayMs).
  { rewrite Hd, (gu_conn _ _ _ Hg). apply Ha. }
  destruct (retry_ok w1' fd Hs1 Hdel) as (H1 & H2 & H3 & H4 & H5 & H6 & H7 & H8).
  assert (Hsock : opened w1' ≡ₚ (closed w1' ++ [fd]) ++ handed w1').
  { rewrite Ho, Hcl, Hh. destruct (gu_sockets _ _ _ Hg) as (-> & -> & ->). rewrite (at_sockets _ _ Ha).
    rewrite <- app_assoc. f_equiv. apply Permutation_app_comm. }
  assert (Hend : ∀ w3, conn w3 = conn (retry fd w1') → timers w3 = timers (retry fd w1') →
     opened w3 = opened (retry fd w1') → closed w3 = closed (retry fd w1') → handed w3 = handed (retry fd w1') →
     (loop_ w3 = dispatched (loop_ w1) ∨ loop_ w3 = loop_ w1) → event_handling_ (loop_ w3) = false → cinv w3).
  { intros w3 E1 E2 E3 E4 E5 E6 E7. apply (over_cinv fd w w1 w3); try done; rewrite ?E1, ?E2, ?E3, ?E4, ?E5.
    - by rewrite H6.
    - by rewrite H5.
    - unfold starts in H7. lia.
    - by rewrite H5.
    - done.
    - by rewrite H2, H3, H4. }
  destruct Hw2 as [[-> Hid]| ->]; apply Hend; try done.
  - right. by rewrite H1.
  - by rewrite H1, Hl.
  - left. cbn [loop_ on_loop with_loop world_HasLoop loop_of]. by rewrite H1, Hl.
Qed.

Lemma attempting_of w :
  cinv w → state_ (conn w) = kConnecting → ∃ fd l, channel_ (conn w) = Some l ∧ attempting fd w ∧
    attempting fd (on_loop (dispatching l) w).
Proof.
  intros [Hl Hid Hs Hd Hcl Hdel (cur & Hch & Ho)] Hst. unfold channel_state in Hch.
  destruct (channel_ (conn w)) as [l|] eqn:Hc; [|by destruct Hch].
  destruct Hch as (c & Hlk & Hev & Hcase). rewrite decide_True in Hcase by done. destruct Hcase as (Hix & Hr & ->).
  assert (Hs0 : starts w = 0%nat).
  { destruct (starts w) as [|[|n]]; [done | | lia]. rewrite Hst in Hd. by discriminate Hd. }
  exists (Channel.fd_ c), l. split; [done|]. split; constructor; try done.
  - exists l, c. split_and!; try done. by rewrite Hid.
  - exists l, c. done.
Qed.

Lemma handleWrite_connecting fd l w :
  channel_ (conn w) = Some l → attempting fd w → state_ (conn w) = kConnecting →
  ∃ w2, handleWrite so_error self_connect w = Ok w2 ∧ cinv (on_loop dispatched w2).
Proof.
  intros Hc Ha Hst. unfold handleWrite. rewrite decide_True by done.
  destruct (abandon fd w Ha) as (w1 & -> & Hg). rewrite bind_Ok. cbv zeta.
  assert (Hlen : timers w1 = []).
  { rewrite (gu_timers _ _ _ Hg). pose proof (at_starts _ _ Ha) as H0. unfold starts in H0. by destruct (timers w). }
  destruct (negb _).
  { eexists. split; [done|]. eapply (retry_over fd w w1 (called w1)); try done. by right. }
  destruct (self_connect _).
  { eexists. split; [done|]. eapply (retry_over fd w w1 (called w1)); try done. by right. }
  destruct (gu_sockets _ _ _ Hg) as (E1 & E2 & E3). pose proof (at_sockets _ _ Ha) as Ho.
  pose proof (at_delay _ _ Ha) as Hdel. rewrite <- (gu_conn _ _ _ Hg) in Hdel.
  destruct (connect_ _); eexists; (split; [done|]);
    (apply (over_cinv fd w w1); [done | done | by left | done | done | done | | | exact Hdel |]).
  1, 2, 4, 5: simpl; rewrite Hlen; simpl; done || lia.
  - simpl. rewrite E1, E2, E3. exact Ho.
  - simpl. rewrite E1, E2, E3, Ho. rewrite <- app_assoc. f_equiv. apply Permutation_app_comm.
Qed.

Lemma handleError_connecting fd w :
  attempting fd w → state_ (conn w) = kConnecting →
  ∃ w2, handleError w = Ok w2 ∧ cinv (on_loop dispatched w2).
Proof.
  intros Ha Hst. unfold handleError. rewrite decide_True by done.
  destruct (abandon fd w Ha) as (w1 & -> & Hg). rewrite bind_Ok. eexists. split; [done|].
  eapply (retry_over fd w w1 (called w1)); try done. by right.
Qed.

Lemma stopInLoop_ok w : cinv w → ∃ w2, stopInLoop true w = Ok w2 ∧ cinv w2.
Proof.
  intros Hi. unfold stopInLoop. cbn [assertInLoopThread ensure]. rewrite bind_Ok. case_decide as Hst; [|by exists w].
  destruct (attempting_of w Hi Hst) as (fd & l & Hc & Ha & _).
  assert (Ha' : attempting fd (setState kDisconnected w)) by (by destruct Ha).
  destruct (abandon fd _ Ha') as (w1 & -> & Hg). rewrite bind_Ok. eexists. split; [done|].
  eapply (retry_over fd _ w1 w1); try done. left. split; [done|]. rewrite (gu_handling _ _ _ Hg). apply Hi.
Qed.

(** Dispatching without an effect. *)
Lemma dispatch_nothing l w : cinv w → cinv (on_loop dispatched (on_loop (dispatching l) w)).
Proof. intros []. by constructor. Qed.

Lemma set_connect_cinv b w : cinv w → cinv (set_connect b w).
Proof. intros []. by constructor. Qed.

Lemma queue_stop_cinv inLoop w : cinv w → cinv (queue inLoop FStopInLoop w).
Proof.
  intros [Hl Hid Hs Hd Hcl Hdel (cur & Hch & Ho)].
  destruct (queueInLoop_frame inLoop FStopInLoop (loop_ w)) as (Hq1 & Hq2 & Hq3).
  pose proof (queueInLoop_handling inLoop FStopInLoop (loop_ w)) as Hq4.
  assert (Hst : starts (queue inLoop FStopInLoop w) = starts w).
  { unfold starts. cbn [timers loop_ queue on_loop with_loop world_HasLoop loop_of]. by rewrite Hq3, filter_snoc_other. }
  constructor; rewrite ?Hst; try done; cbn [loop_ queue on_loop with_loop world_HasLoop loop_of conn].
  - unfold ok. by rewrite Hq1, Hq2.
  - by rewrite Hq4.
  - rewrite Hq3, elem_of_app, list_elem_of_singleton. intros [?|?]; [auto | done].
  - exists cur. split; [|done]. unfold channel_state, resets in *.
    cbn [loop_ queue on_loop with_loop world_HasLoop loop_of conn]. by rewrite Hq1, Hq3, filter_snoc_other.
Qed.

Lemma about_nothing w :
  cinv w → nothing_pending w → state_ (conn w) = kDisconnected → about_to_start w.
Proof.
  intros [Hl Hid Hs Hd Hcl Hdel (cur & Hch & Ho)] (Hc & Ht & Hp) Hst.
  unfold channel_state in Hch. rewrite Hc in Hch. destruct Hch as (_ & Hr & ->). rewrite app_nil_r in Ho.
  constructor; try done. unfold starts. by rewrite Ht, Hp.
Qed.

(** Before a functor runs, it is taken off the queue. *)
Lemma functor_step_ok w f fs :
  cinv w → pending_functors_ (loop_ w) = f :: fs →
  ∃ w', run_functor sys_socket sys_connect f (on_loop (set_pending fs) w) = Ok w' ∧ cinv w'.
Proof.
  intros Hi Hp. pose proof Hi as [Hl Hid Hs Hd Hcl Hdel (cur & Hch & Ho)].
  set (w1 := on_loop (set_pending fs) w).
  unfold starts in Hs, Hd. unfold channel_state, resets in Hch. rewrite Hp in *.
  destruct f; cbn [run_functor].
  - rewrite filter_cons_True in Hs, Hd by done. rewrite filter_cons_False in Hch by done. cbn [length] in Hs, Hd.
    assert (Hc : channel_ (conn w) = None) by (apply Hcl; by left). rewrite Hc in Hch. destruct Hch as (_ & Hr & ->).
    rewrite app_nil_r in Ho.
    apply startInLoop_ok. constructor; try done; [unfold starts; simpl; lia | apply Hd; lia].
  - rewrite filter_cons_False in Hs, Hd by done. rewrite filter_cons_False in Hch by done.
    apply stopInLoop_ok. constructor; try done; [intros Hin; apply Hcl; by right | by exists cur].
  - rewrite filter_cons_False in Hs, Hd by done. rewrite filter_cons_True in Hch by done. cbn [length] in Hch.
    unfold resetChannel. change (channel_ (conn w1)) with (channel_ (conn w)).
    destruct (channel_ (conn w)) as [l|] eqn:Hc; [|by destruct Hch as (_ & ? & _)].
    destruct Hch as (c & Hlk & Hev & Hcase). case_decide as Hst; [by destruct Hcase as (_ & ? & _)|].
    destruct Hcase as (Hix & Hadd & Hr & ->). rewrite app_nil_r in Ho.
    destruct (destroy_ok (loop_ w1) l c Hl Hlk Hix Hev Hadd) as [-> Hok]. rewrite bind_Ok. eexists. split; [done|].
    constructor; try done. exists []. split; [|simpl; by rewrite app_nil_r].
    split; [done|]. split; [|done]. unfold resets. simpl. lia.
Qed.

Lemma perform_cinv e w : cinv w → enabled e w → ∃ w', perform e w = Ok w' ∧ cinv w'.
Proof.
  intros Hi He. destruct e as [|i|cb|inLoop|inLoop|]; cbn [Connector.perform].
  - destruct (pending_functors_ (loop_ w)) as [|f fs] eqn:Hp; [by exists w|]. by apply functor_step_ok.
  - destruct (timers w !! i) as [d|] eqn:Ht; [|by exists w].
    pose proof Hi as [Hl Hid Hs Hd Hcl Hdel (cur & Hch & Ho)]. simpl in He.
    assert (Hlen : length (timers w) = S (length (delete i (timers w)))).
    { pose proof (lookup_lt_Some _ _ _ Ht). rewrite length_delete; [lia | by eexists]. }
    unfold starts in Hs, Hd. unfold channel_state in Hch. rewrite He in Hch. destruct Hch as (_ & Hr & ->).
    rewrite app_nil_r in Ho. apply startInLoop_ok.
    constructor; try done; [unfold starts; simpl; lia | apply Hd; lia].
  - destruct (channel_ (conn w)) as [l|] eqn:Hc; [|by exists w].
    destruct (decide (state_ (conn w) = kConnecting)) as [Hst|Hst].
    + destruct (attempting_of w Hi Hst) as (fd & l' & Hc' & _ & Ha). rewrite Hc in Hc'. injection Hc' as <-.
      assert (Hrun : ∃ w2, run_callback so_error self_connect cb (on_loop (dispatching l) w) = Ok w2 ∧ cinv (on_loop dispatched w2)).
      { destruct cb; [by apply (handleWrite_connecting fd l) | by apply (handleError_connecting fd)]. }
      destruct Hrun as (w2 & -> & Hi2). rewrite bind_Ok. by eexists.
    + destruct cb; cbn [run_callback].
      * unfold handleWrite. rewrite decide_False by done. simpl in He.
        rewrite bool_decide_eq_true_2 by (simpl; by destruct (state_ (conn w))). cbn [ensure]. rewrite !bind_Ok.
        eexists. split; [done|]. by apply dispatch_nothing.
      * unfold handleError. rewrite decide_False by done. rewrite bind_Ok.
        eexists. split; [done|]. by apply dispatch_nothing.
  - destruct He as [Hst Hn]. unfold start. destruct inLoop.
    + apply startInLoop_ok. by apply (about_nothing (set_connect true w)); [apply set_connect_cinv|..].
    + eexists. split; [done|]. set (w1 := set_connect true w).
      pose proof (about_nothing w Hi Hn Hst) as [Hl Hid Hs _ Hc Hr Hd Ho]. destruct Hn as (_ & Ht & Hp).
      destruct (queueInLoop_frame false FStartInLoop (loop_ w)) as (Hq1 & Hq2 & Hq3).
      pose proof (queueInLoop_handling false FStartInLoop (loop_ w)) as Hq4.
      constructor; cbn [loop_ queue on_loop with_loop world_HasLoop loop_of conn]; try done.
      * unfold ok. change (loop_ w1) with (loop_ w). by rewrite Hq1, Hq2.
      * change (loop_ w1) with (loop_ w). by rewrite Hq4.
      * unfold starts. cbn [timers loop_ queue on_loop with_loop world_HasLoop loop_of].
        change (timers w1) with (timers w). change (loop_ w1) with (loop_ w). by rewrite Ht, Hq3, Hp.
      * exists []. split; [|by rewrite app_nil_r]. unfold channel_state, resets.
        cbn [loop_ queue on_loop with_loop world_HasLoop loop_of conn]. change (loop_ w1) with (loop_ w).
        change (channel_ (conn w1)) with (channel_ (conn w)). rewrite Hc, Hq3, Hp. split; [change (state_ (conn w) ≠ kConnecting); by rewrite Hst | done].
  - unfold stop. eexists. split; [done|]. by apply queue_stop_cinv, set_connect_cinv.
  - unfold restart. cbn [assertInLoopThread ensure]. rewrite bind_Ok. cbv zeta. apply startInLoop_ok.
    destruct He as (Hc & Ht & Hp). pose proof Hi as [Hl Hid Hs Hd Hcl Hdel (cur & Hch & Ho)].
    unfold channel_state in Hch. rewrite Hc in Hch. destruct Hch as (_ & Hr & ->). rewrite app_nil_r in Ho.
    constructor; try done. unfold starts. simpl. by rewrite Ht, Hp.
Qed.
End Connector.

Section Theorems.
Variable sys_socket : nat → gmap Z loc → Z.
Hypothesis socket_fresh : ∀ n m, 0 ≤ sys_socket n m ∧ m !! sys_socket n m = None.
Variable sys_connect : nat → Z.
Variable so_error : nat → Z.
Variable self_connect : nat → bool.
Local Notation perform := (perform sys_socket sys_connect so_error self_connect).

Fixpoint all_enabled (evs : list event) (w : world) : Prop :=
  match evs with
  | [] => True
  | e :: evs => enabled e w ∧ ∀ w', perform e w = Ok w' → all_enabled evs w'
  end.

Lemma history_cinv evs w : cinv w → all_enabled evs w → ∃ w', foldM perform evs w = Ok w' ∧ cinv w'.
Proof using socket_fresh.
  revert w. induction evs as [|e evs IH]; intros w Hi He; [by exists w|]. destruct He as [He Hrest]. cbn [foldM].
  destruct (perform_cinv sys_socket socket_fresh sys_connect so_error self_connect e w Hi He) as (w1 & Hp & Hi1).
  rewrite Hp, bind_Ok. apply IH; [done | by apply Hrest].
Qed.

Lemma newConnector_cinv lp :
  ok lp → event_handling_ lp = false → pending_functors_ lp = [] → cinv (newConnector lp).
Proof.
  intros Hok Hh Hp. constructor; try done; cbn [loop_ newConnector].
  - unfold starts. cbn [timers loop_ newConnector]. rewrite Hp. simpl. lia.
  - exists []. split; [|done]. unfold channel_state, resets. cbn [loop_ newConnector conn channel_]. by rewrite Hp.
Qed.


(** The delay after [k] failures. *)
Definition backoff (k : nat) : Z := Z.min (kInitRetryDelayMs * 2 ^ Z.of_nat k) kMaxRetryDelayMs.

Lemma backoff_S k : Z.min (backoff k * 2) kMaxRetryDelayMs = backoff (S k).
Proof.
  unfold backoff, kInitRetryDelayMs, kMaxRetryDelayMs. rewrite Nat2Z.inj_succ, Z.pow_succ_r by lia. lia.
Qed.

(** ** Attempts that fail *)

(** Which of its callbacks the loop calls when the socket of an attempt becomes ready, by the number of the system call that began the attempt. *)
Variable reported : nat → channel_cb.

(** What follows an attempt that begins with system call [n]: nothing when [connect(2)] fails at once; the report of its failure and, in the same
    turn, the functor that resets the channel when it is found out later. *)
Definition aftermath (n : nat) : list event := match classify (sys_connect n) with Connecting => [Report (reported n); Functor] | _ => [] end.
Definition calls_made (n : nat) : nat := match classify (sys_connect n) with Connecting => 2 | _ => 1 end.

(** An attempt and [k] more, one for each retry timer. *)
Fixpoint failing (k n : nat) : list event :=
  aftermath n ++ match k with O => [] | S k => Timer 0 :: failing k (n + calls_made n) end.

(** After a failed attempt: the next one is due. *)
Record failed (k : nat) (fd : Z) (w w' : world) : Prop := {
  fa_cinv : cinv w';
  fa_idle : channel_ (conn w') = None ∧ pending_functors_ (loop_ w') = [] ∧ state_ (conn w') = kDisconnected ∧ connect_ (conn w') = true;
  fa_timer : timers w' = [backoff k];
  fa_delay : retry_delay_ms_ (conn w') = backoff (S k);
  fa_sockets : opened w' = opened w ++ [fd] ∧ closed w' = closed w ++ [fd];
  fa_calls : calls w' = (calls w + calls_made (calls w))%nat
}.

(** [w1] is [w] when the attempt on [fd] is known to have failed. *)
Lemma retry_fails w1 fd k :
  connect_ (conn w1) = true → retry_delay_ms_ (conn w1) = backoff k →
  let w' := retry fd w1 in
  loop_ w' = loop_ w1 ∧ state_ (conn w') = kDisconnected ∧ connect_ (conn w') = true ∧ channel_ (conn w') = channel_ (conn w1) ∧
  timers w' = timers w1 ++ [backoff k] ∧ retry_delay_ms_ (conn w') = backoff (S k) ∧ opened w' = opened w1 ∧ closed w' = closed w1 ++ [fd] ∧
  calls w' = calls w1.
Proof using. intros Hc Hd. unfold retry. cbn. rewrite Hc. cbn. rewrite Hd. split_and!; try done. apply backoff_S. Qed.

(** An attempt that is refused at once. *)
Lemma refused_fails w k w' :
  classify (sys_connect (calls w)) = Retry → about_to_start w → timers w = [] → pending_functors_ (loop_ w) = [] → connect_ (conn w) = true →
  retry_delay_ms_ (conn w) = backoff k → startInLoop sys_socket sys_connect true w = Ok w' → cinv w' → ∃ fd, failed k fd w w'.
Proof using socket_fresh.
  intros Hr Ha Ht Hp Hc Hd Hs Hi. unfold startInLoop in Hs. cbn [assertInLoopThread ensure] in Hs. rewrite bind_Ok in Hs.
  rewrite bool_decide_eq_true_2 in Hs by apply Ha. cbn [ensure] in Hs. rewrite bind_Ok, Hc in Hs. unfold connect in Hs. set (fd := sys_socket _ _) in Hs.
  destruct (socket_fresh (calls w) (Epoller.channels_ (poller_ (loop_ w)))) as [Hpos _]. fold fd in Hpos.
  rewrite (proj2 (Z.leb_le 0 fd)) in Hs by done. cbn [ensure] in Hs. rewrite bind_Ok in Hs. cbv zeta in Hs. rewrite Hr in Hs. injection Hs as Hs.
  match type of Hs with retry _ ?w1 = _ => destruct (retry_fails w1 fd k Hc Hd) as (H1 & H2 & H3 & H4 & H5 & H6 & H7 & H8 & H9) end.
  rewrite Hs in *. exists fd. constructor; try done.
  - rewrite H4, H1. cbn. split_and!; try done. apply Ha.
  - rewrite H5. cbn. by rewrite Ht.
  - rewrite H9. unfold calls_made. rewrite Hr. cbn. lia.
Qed.

(** The failure of an attempt under way, reported to the connector. *)
Lemma report_fails w l c k cb :
  (∀ n, so_error n ≠ 0 ∨ self_connect n = true) → cinv w → state_ (conn w) = kConnecting → channel_ (conn w) = Some l → channels (loop_ w) !! l = Some c →
  timers w = [] → pending_functors_ (loop_ w) = [] → connect_ (conn w) = true → retry_delay_ms_ (conn w) = backoff k →
  ∃ w', perform (Report cb) w = Ok w' ∧ pending_functors_ (loop_ w') = [FResetChannel] ∧ state_ (conn w') = kDisconnected ∧ connect_ (conn w') = true ∧
    channel_ (conn w') = Some l ∧ timers w' = [backoff k] ∧ retry_delay_ms_ (conn w') = backoff (S k) ∧ opened w' = opened w ∧
    closed w' = closed w ++ [Channel.fd_ c] ∧ calls w' = S (calls w).
Proof using.
  intros Herr Hi Hst Hc Hlk Ht Hp Hcon Hd. cbn [Connector.perform]. rewrite Hc.
  destruct (attempting_of w Hi Hst) as (fd & l' & Hc' & _ & Ha). rewrite Hc in Hc'. injection Hc' as <-.
  assert (Hfd : Channel.fd_ c = fd).
  { destruct (at_channel _ _ Ha) as (l2 & c2 & Hl2 & Hc2 & <- & _). cbn in Hl2, Hc2. congruence. }
  destruct (abandon fd _ Ha) as (w1 & Hab & Hg).
  assert (Hrun : run_callback so_error self_connect cb (on_loop (dispatching l) w) = Ok (retry fd (called w1))).
  { assert (Hn : handleError (on_loop (dispatching l) w) = Ok (retry fd (called w1)))
      by (unfold handleError; rewrite decide_True by done; by rewrite Hab, bind_Ok).
    destruct cb; [|exact Hn]. cbn [run_callback]. unfold handleWrite. rewrite decide_True by done. rewrite Hab, bind_Ok. cbv zeta.
    destruct (Z.eqb_spec (so_error (calls w1)) 0) as [E|]; cbn [negb]; [|done]. destruct (Herr (calls w1)) as [?| ->]; [done|done]. }
  rewrite Hrun, bind_Ok. eexists. split; [done|]. pose proof (gu_conn _ _ _ Hg) as Hcn.
  destruct (retry_fails (called w1) fd k) as (H1 & H2 & H3 & H4 & H5 & H6 & H7 & H8 & H9); [cbn; by rewrite Hcn.. |].
  cbn [on_loop with_loop world_HasLoop loop_of loop_ conn timers opened closed calls]. rewrite H1, H2, H3, H4, H5, H6, H7, H8, H9.
  cbn [called loop_ conn timers opened closed calls]. destruct (gu_sockets _ _ _ Hg) as (-> & -> & _). rewrite (gu_timers _ _ _ Hg), Hcn, Hfd.
  split_and!; try done.
  - cbn. rewrite (gu_queue _ _ _ Hg). cbn. by rewrite Hp.
  - cbn. by rewrite Ht.
  - f_equal. unfold removeAndResetChannel in Hab. cbn [conn on_loop with_loop world_HasLoop] in Hab. rewrite Hc in Hab.
    apply bind_Ok_inv in Hab as (? & _ & Hab). apply bind_Ok_inv in Hab as (? & _ & Hab). apply bind_Ok_inv in Hab as (? & _ & Hab).
    by injection Hab as _ <-.
Qed.

(** The functor that resets the channel. *)
Lemma reset_frame w l :
  cinv w → pending_functors_ (loop_ w) = [FResetChannel] → channel_ (conn w) = Some l → state_ (conn w) = kDisconnected →
  ∃ lp, perform Functor w = Ok (set_channel None (with_loop lp w)) ∧ pending_functors_ lp = [].
Proof using.
  intros Hi Hp Hc Hst. cbn [Connector.perform]. rewrite Hp. cbn [run_functor]. set (w1 := on_loop (set_pending []) w). unfold resetChannel.
  change (channel_ (conn w1)) with (channel_ (conn w)). rewrite Hc.
  destruct (ci_sockets _ Hi) as (cur & Hch & _). unfold channel_state in Hch. rewrite Hc in Hch. destruct Hch as (c & Hlk & Hev & Hcase).
  rewrite decide_False in Hcase by (by rewrite Hst). destruct Hcase as (Hix & Hadd & _).
  pose proof (ci_loop _ Hi) as Hl.
  destruct (destroy_ok (loop_ w1) l c Hl Hlk Hix Hev Hadd) as [-> _]. rewrite bind_Ok. eexists. by split.
Qed.

(** An attempt whose failure is found out later. *)
Lemma later_fails w k :
  (∀ n, so_error n ≠ 0 ∨ self_connect n = true) → classify (sys_connect (calls w)) = Connecting →
  about_to_start w → timers w = [] → pending_functors_ (loop_ w) = [] → connect_ (conn w) = true → retry_delay_ms_ (conn w) = backoff k →
  ∃ fd w', (w1 ← startInLoop sys_socket sys_connect true w; foldM perform (aftermath (calls w)) w1) = Ok w' ∧ failed k fd w w'.
Proof using socket_fresh.
  intros Herr Hcl Ha Ht Hp Hc Hd. destruct (startInLoop_ok sys_socket socket_fresh sys_connect w Ha) as (w1 & Hs & Hi1).
  pose proof Hs as Hrun. unfold startInLoop in Hrun. cbn [assertInLoopThread ensure] in Hrun. rewrite bind_Ok in Hrun.
  rewrite bool_decide_eq_true_2 in Hrun by apply Ha. cbn [ensure] in Hrun. rewrite bind_Ok, Hc in Hrun. unfold connect in Hrun. set (fd := sys_socket _ _) in Hrun.
  destruct (socket_fresh (calls w) (Epoller.channels_ (poller_ (loop_ w)))) as [Hpos Hfree]. fold fd in Hpos, Hfree.
  rewrite (proj2 (Z.leb_le 0 fd)) in Hrun by done. cbn [ensure] in Hrun. rewrite bind_Ok in Hrun. cbv zeta in Hrun. rewrite Hcl in Hrun.
  match type of Hrun with connecting _ ?w0 = _ => destruct (connecting_ok w0 fd) as (lp & l & c & Hco & Hlk & Hfd & _ & _ & _ & _ & Hpe); [apply Ha..|exact Hfree|] end.
  rewrite Hco in Hrun. injection Hrun as <-. rewrite Hs, bind_Ok. unfold aftermath. rewrite Hcl. set (w1 := with_loop lp _) in *.
  destruct (report_fails w1 l c k (reported (calls w)) Herr Hi1) as (w2 & Hr & H1 & H2 & H3 & H4 & H5 & H6 & H7 & H8 & H9); try done.
  { cbn. by rewrite Hpe. }
  destruct (perform_cinv sys_socket socket_fresh sys_connect so_error self_connect (Report (reported (calls w))) w1 Hi1) as (w2' & Hr' & Hi2);
    [by destruct (reported (calls w))|]. assert (w2' = w2) as -> by congruence.
  destruct (reset_frame w2 l Hi2 H1 H4 H2) as (lp' & Hf & Hpe').
  destruct (perform_cinv sys_socket socket_fresh sys_connect so_error self_connect Functor w2 Hi2 I) as (w3 & Hf' & Hi3).
  assert (w3 = set_channel None (with_loop lp' w2)) as -> by congruence. cbn [foldM].
  match goal with |- context [perform (Report _) ?x] => change x with w1 end. rewrite Hr, bind_Ok, Hf, bind_Ok. exists fd. eexists. split; [done|]. constructor; try done.
  - cbn. rewrite H7, H8, Hfd. by split.
  - cbn. rewrite H9. unfold calls_made. rewrite Hcl. cbn. lia.
Qed.

Lemma attempt_fails w k :
  (∀ n, so_error n ≠ 0 ∨ self_connect n = true) → classify (sys_connect (calls w)) ≠ GiveUp →
  about_to_start w → timers w = [] → pending_functors_ (loop_ w) = [] → connect_ (conn w) = true → retry_delay_ms_ (conn w) = backoff k →
  ∃ fd w', (w1 ← startInLoop sys_socket sys_connect true w; foldM perform (aftermath (calls w)) w1) = Ok w' ∧ failed k fd w w'.
Proof using socket_fresh.
  intros Herr Hcl Ha Ht Hp Hc Hd. destruct (classify (sys_connect (calls w))) eqn:E; [by apply later_fails | | done].
  destruct (startInLoop_ok sys_socket socket_fresh sys_connect w Ha) as (w1 & Hs & Hi1).
  destruct (refused_fails w k w1 E Ha Ht Hp Hc Hd Hs Hi1) as [fd Hf]. exists fd, w1. rewrite Hs, bind_Ok. unfold aftermath. by rewrite E.
Qed.

(** The next attempt. *)
Lemma failed_next k fd w w' : failed k fd w w' → about_to_start (set_timers [] w').
Proof using.
  intros [Hi (Hc & Hp & Hs & Hco) Ht Hd _ _]. destruct Hi as [Hl Hid _ _ _ Hdel (cur & Hch & Ho)]. unfold channel_state in Hch. rewrite Hc in Hch.
  destruct Hch as (_ & Hr & ->). rewrite app_nil_r in Ho. constructor; try done. unfold starts. cbn. by rewrite Hp.
Qed.

Lemma failing_run k j w :
  (∀ n, so_error n ≠ 0 ∨ self_connect n = true) → (∀ n, classify (sys_connect n) ≠ GiveUp) →
  about_to_start w → timers w = [] → pending_functors_ (loop_ w) = [] → connect_ (conn w) = true → retry_delay_ms_ (conn w) = backoff j →
  ∃ w' fds, (w1 ← startInLoop sys_socket sys_connect true w; foldM perform (failing k (calls w)) w1) = Ok w' ∧
    cinv w' ∧ timers w' = [backoff (j + k)] ∧ length fds = S k ∧ opened w' = opened w ++ fds ∧ closed w' = closed w ++ fds.
Proof using socket_fresh.
  intros Herr Hcl. revert j w. induction k as [|k IH]; intros j w Ha Ht Hp Hc Hd;
    destruct (attempt_fails w j Herr (Hcl _) Ha Ht Hp Hc Hd) as (fd & w1 & Hrun & Hf); pose proof Hf as [Hi (Hch & Hpe & Hst & Hco) Htm Hde [Ho Hcd] Hca].
  - exists w1, [fd]. cbn [failing]. rewrite app_nil_r, Nat.add_0_r. by split_and!.
  - apply bind_Ok_inv in Hrun as (w0 & Hs & Hrun). destruct (IH (S j) (set_timers [] w1)) as (w' & fds & Hgo & Hi' & Ht' & Hl & Ho' & Hc'); [|done..|].
    { by eapply failed_next. }
    exists w', (fd :: fds). rewrite Hs, bind_Ok. cbn [failing]. rewrite foldM_app, Hrun, bind_Ok. cbn [foldM Connector.perform]. rewrite Htm.
    cbn [lookup list_lookup delete list_delete]. rewrite <- Hca. split; [exact Hgo|]. split; [done|].
    rewrite Ho', Hc'. cbn [opened closed set_timers]. rewrite Ho, Hcd, <- !app_assoc. split_and!; try done; [|cbn; lia].
    by rewrite <- Nat.add_succ_comm.
Qed.


(** Starting needs the state [kDisconnected], and no channel left when the attempt gets going. *)
Lemma start_connected_aborts w :
  state_ (conn w) = kConnected → startInLoop sys_socket sys_connect true w = Fault AssertFailed.
Proof using. intros Hs. unfold startInLoop. cbn [assertInLoopThread ensure]. by rewrite bind_Ok, bool_decide_eq_false_2 by (by rewrite Hs). Qed.

Lemma start_attached_aborts w l :
  state_ (conn w) = kDisconnected → connect_ (conn w) = true → channel_ (conn w) = Some l →
  classify (sys_connect (calls w)) = Connecting → startInLoop sys_socket sys_connect true w = Fault AssertFailed.
Proof using socket_fresh.
  intros Hst Hcon Hc Hcl. unfold startInLoop. cbn [assertInLoopThread ensure].
  rewrite bind_Ok, bool_decide_eq_true_2 by done. cbn [ensure]. rewrite bind_Ok, Hcon. unfold connect.
  destruct (socket_fresh (calls w) (Epoller.channels_ (poller_ (loop_ w)))) as [Hpos _].
  cbv zeta. rewrite (proj2 (Z.leb_le 0 _)) by done. cbn [ensure]. rewrite bind_Ok, Hcl.
  unfold connecting. cbv zeta. rewrite bool_decide_eq_false_2; [done|]. simpl. by rewrite Hc.
Qed.

(** A [stop] that finds an attempt in progress, with a [start] queued behind it: the functor that resets the
    channel comes after that of [start]. *)
Lemma stop_before_start w :
  cinv w → pending_functors_ (loop_ w) = [] → state_ (conn w) = kConnecting →
  ∃ w4 l, foldM perform [Stop false; Start false; Functor] w = Ok w4 ∧
    pending_functors_ (loop_ w4) = [FStartInLoop; FResetChannel] ∧ channel_ (conn w4) = Some l ∧
    state_ (conn w4) = kDisconnected ∧ connect_ (conn w4) = true ∧ calls w4 = calls w.
Proof using.
  intros Hi Hp Hst. destruct (attempting_of w Hi Hst) as (fd & l & Hc & Ha & _).
  set (lp1 := queueInLoop false FStopInLoop (loop_ w)). set (lp2 := queueInLoop false FStartInLoop lp1).
  destruct (queueInLoop_frame false FStopInLoop (loop_ w)) as (Hq1 & Hq2 & Hq3).
  destruct (queueInLoop_frame false FStartInLoop lp1) as (Hr1 & Hr2 & Hr3).
  pose proof (queueInLoop_handling false FStopInLoop (loop_ w)) as Hq4.
  pose proof (queueInLoop_handling false FStartInLoop lp1) as Hr4.
  set (w2 := queue false FStartInLoop (set_connect true (queue false FStopInLoop (set_connect false w)))).
  assert (Hpend : pending_functors_ (loop_ w2) = [FStopInLoop; FStartInLoop])
    by (etrans; [exact Hr3|]; unfold lp1; by rewrite Hq3, Hp).
  change (∃ w4 l, foldM perform [Functor] w2 = Ok w4 ∧
    pending_functors_ (loop_ w4) = [FStartInLoop; FResetChannel] ∧ channel_ (conn w4) = Some l ∧
    state_ (conn w4) = kDisconnected ∧ connect_ (conn w4) = true ∧ calls w4 = calls w).
  cbn [foldM Connector.perform]. rewrite Hpend. cbn [run_functor]. unfold stopInLoop. cbn [assertInLoopThread ensure].
  rewrite bind_Ok, decide_True by exact Hst. set (w3 := setState kDisconnected _).
  destruct Ha as [Hl Hs0 Hr0 Hdel Ho (l' & c & Hc' & Hlk & Hfd & Hev & Hix & _)]. rewrite Hc in Hc'. injection Hc' as <-.
  destruct (removeAndResetChannel_ok w3 l c) as (lp & c' & -> & _ & _ & _ & _ & _ & _ & Hpl).
  - change (Epoller.ok (channels lp2) (poller_ lp2)). unfold lp2. rewrite Hr1, Hr2. unfold lp1. rewrite Hq1, Hq2. exact Hl.
  - exact Hc.
  - change (channels lp2 !! l = Some c). unfold lp2. rewrite Hr1. unfold lp1. by rewrite Hq1.
  - done.
  - change (event_handling_ (loop_ w3)) with (event_handling_ lp2). unfold lp2. rewrite Hr4. unfold lp1. rewrite Hq4.
    by rewrite (ci_idle _ Hi).
  - rewrite !bind_Ok. eexists _, l. split; [done|]. unfold retry. cbn. split_and!; try done.
Qed.

(** A retry timer that fires too early: [runAfter] is given half a millisecond at first, and [TimerQueue::handleRead] asks for the time when it
    runs.  So a timer that an attempt's failure has set can be due when the timerfd's channel has its turn behind the connector's, in the same turn
    of the loop, before the functors - and so the one that resets the channel - run.  The next attempt, if [connect(2)] does not fail at once, then
    finds the old channel: the assertion of [connecting] fails. *)
Theorem early_retry_aborts w cb k :
  cinv w → state_ (conn w) = kConnecting → connect_ (conn w) = true → pending_functors_ (loop_ w) = [] → retry_delay_ms_ (conn w) = backoff k →
  (∀ n, so_error n ≠ 0 ∨ self_connect n = true) → classify (sys_connect (S (calls w))) = Connecting →
  foldM perform [Report cb; Timer 0] w = Fault AssertFailed.
Proof using socket_fresh.
  intros Hi Hst Hcon Hp Hd Herr Hcl. destruct (attempting_of w Hi Hst) as (fd & l & Hc & Ha & _).
  destruct (at_channel _ _ Ha) as (l' & c & Hc' & Hlk & _). assert (l' = l) as -> by congruence.
  assert (Ht : timers w = []) by (pose proof (at_starts _ _ Ha) as H0; unfold starts in H0; by destruct (timers w)).
  destruct (report_fails w l c k cb Herr Hi Hst Hc Hlk Ht Hp Hcon Hd) as (w1 & Hr & _ & H2 & H3 & H4 & H5 & _ & _ & _ & H9).
  cbn [foldM]. rewrite Hr, bind_Ok. cbn [Connector.perform]. rewrite H5. cbn [lookup list_lookup delete list_delete].
  rewrite (start_attached_aborts (set_timers [] w1) l); try done. cbn [calls set_timers]. by rewrite H9.
Qed.

(** [start] is for a disconnected connector only: after a connection was made - also when it is long closed -
    it fails an assertion, and so does a [stop] followed by a [start] from another thread while an
    attempt is in progress, which leaves the functor of [start] in front of the one that resets the
    channel. *)
Theorem start_again_aborts w :
  cinv w → pending_functors_ (loop_ w) = [] →
  match state_ (conn w) with
  | kConnected => ∀ inLoop, foldM perform (if inLoop : bool then [Start true] else [Start false; Functor]) w = Fault AssertFailed
  | kConnecting => classify (sys_connect (calls w)) = Connecting →
      foldM perform [Stop false; Start false; Functor; Functor] w = Fault AssertFailed
  | kDisconnected => True
  end.
Proof using socket_fresh.
  intros Hi Hp. destruct (state_ (conn w)) eqn:Hst; [done| |].
  - intros Hcl. destruct (stop_before_start w Hi Hp Hst) as (w4 & l & Hrun & Hp4 & Hc4 & Hst4 & Hcon4 & Hn4).
    change [Stop false; Start false; Functor; Functor] with ([Stop false; Start false; Functor] ++ [Functor]).
    rewrite foldM_app, Hrun, bind_Ok. cbn [foldM Connector.perform]. rewrite Hp4. cbn [run_functor].
    rewrite (start_attached_aborts _ l); [done..|]. change (classify (sys_connect (calls w4)) = Connecting). by rewrite Hn4.
  - intros inLoop. destruct inLoop; cbn [foldM Connector.perform start]; [by rewrite start_connected_aborts|].
    rewrite bind_Ok. destruct (queueInLoop_frame false FStartInLoop (loop_ w)) as (_ & _ & Hq). rewrite Hp in Hq.
    set (w1 := queue false FStartInLoop _).
    change (pending_functors_ (loop_ w1)) with (pending_functors_ (queueInLoop false FStartInLoop (loop_ w))).
    rewrite Hq. cbn [app run_functor]. by rewrite start_connected_aborts.
Qed.
End Theorems.

(** ** Examples: the lowest attempt succeeds, is refused, or is stopped *)

Definition free_fd (n : nat) (m : gmap Z loc) : Z := Z.of_nat (fresh (set_map (C := gset Z) (D := gset nat) Z.to_nat (dom m))).

Lemma free_fd_fresh n m : 0 ≤ free_fd n m ∧ m !! free_fd n m = None.
Proof.
  unfold free_fd. set (s := set_map _ _). split; [lia|]. apply not_elem_of_dom. intros Hin.
  apply (is_fresh s). unfold s at 2. apply elem_of_map. eexists. split; [|exact Hin]. by rewrite Nat2Z.id.
Qed.

Definition in_progress (n : nat) : Z := EINPROGRESS.
Definition refused (n : nat) : Z := ECONNREFUSED.
Definition no_error (n : nat) : Z := 0.
Definition not_self (n : nat) : bool := false.

Lemma connector_loop : ∃ lp, newLoop (F := functor) 3 4 1 CbError false = Ok lp ∧
  ok lp ∧ event_handling_ lp = false ∧ pending_functors_ lp = [].
Proof.
  destruct (newLoop_ok (F := functor) 3 4 1 CbError) as (lp & Hn & Hok & Hp & _); [lia..|]. exists lp.
  split; [done|]. split; [done|]. split; [|done]. vm_compute in Hn. by injection Hn as <-.
Qed.


(** The failure is found out by either callback in turn. *)
Definition in_turn (n : nat) : channel_cb := if Nat.even (n / 2) then CbWrite else CbError.


Lemma early_retry_aborts_witness :
  ∃ lp w, foldM (perform free_fd in_progress refused not_self) [Start true] (newConnector lp) = Ok w ∧
    foldM (perform free_fd in_progress refused not_self) [Report CbError; Timer 0] w = Fault AssertFailed.
Proof.
  destruct connector_loop as (lp & Hn & Hok & Hh & Hp). exists lp.
  destruct (history_cinv free_fd free_fd_fresh in_progress refused not_self [Start true] (newConnector lp))
    as (w & Hrun & Hi); [by apply newConnector_cinv | by split|].
  exists w. split; [exact Hrun|].
  assert (Hw : state_ (conn w) = kConnecting ∧ connect_ (conn w) = true ∧ pending_functors_ (loop_ w) = [] ∧ retry_delay_ms_ (conn w) = backoff 0).
  { clear Hok Hh Hp Hi. vm_compute in Hn. injection Hn as <-. vm_compute in Hrun. injection Hrun as <-. done. }
  destruct Hw as (H1 & H2 & H3 & H4). by apply (early_retry_aborts free_fd free_fd_fresh in_progress refused not_self w CbError 0); [| | | | |left|].
Defined.

Lemma start_again_aborts_witness :
  ∃ lp w, foldM (perform free_fd in_progress no_error not_self) [Start true; Report CbWrite; Functor] (newConnector lp) = Ok w ∧
    state_ (conn w) = kConnected ∧
  match state_ (conn w) with
  | kConnected => ∀ inLoop, foldM (perform free_fd in_progress no_error not_self)
      (if inLoop : bool then [Start true] else [Start false; Functor]) w = Fault AssertFailed
  | kConnecting => classify (in_progress (calls w)) = Connecting →
      foldM (perform free_fd in_progress no_error not_self) [Stop false; Start false; Functor; Functor] w = Fault AssertFailed
  | kDisconnected => True
  end.
Proof.
  destruct connector_loop as (lp & Hn & Hok & Hh & Hp).
  destruct (history_cinv free_fd free_fd_fresh in_progress no_error not_self [Start true; Report CbWrite; Functor] (newConnector lp))
    as (w & Hrun & Hi); [by apply newConnector_cinv | |].
  - clear Hok Hh Hp. vm_compute in Hn. injection Hn as <-.
    repeat (split; [vm_compute; repeat split; try reflexivity; try discriminate | intros w' Hw'; vm_compute in Hw'; injection Hw' as <-]).
    exact I.
  - exists lp, w. split; [exact Hrun|].
    assert (Hw : state_ (conn w) = kConnected ∧ pending_functors_ (loop_ w) = []).
    { clear Hok Hh Hp Hi. vm_compute in Hn. injection Hn as <-. vm_compute in Hrun. injection Hrun as <-. done. }
    split; [apply Hw|]. apply (start_again_aborts free_fd free_fd_fresh in_progress no_error not_self w Hi). apply Hw.
Defined.
