(* ===== verification/Acceptor.v ===== *)
(** * The acceptor: net/Acceptor.{h,cpp}

    The acceptor's members, the loop that serves it with its channel, the descriptors the process
    has open, and the connections handed to the new-connection callback.  What the system calls answer is
    an argument of the operation. *)
From stdpp Require Import base list gmap numbers.
From Stdlib Require Import ZArith Lia.
From S2P Require Import Prelude.
From S2P Require Import Channel.
From S2P Require Import Poller.
From S2P Require Import EventLoop.
From S2P Require Import EventLoopSpec.
From S2P Require Import SocketsOps.
From S2P Require Import InetAddress.
Import EventLoop.EventLoop.
#[local] Open Scope Z_scope.
#[local] Open Scope fm_scope.

Module Acceptor.
Section Acceptor.
Context {F CB : Type}.

(** [src/net/Acceptor.h:37-42 Acceptor data members] *)
Record acceptor := mkAcceptor {
  loop_ : EventLoop F CB;
  accept_socket_ : Z;
  accept_channel_ : loc;
  has_callback : bool;
  listening_ : bool;
  idle_fd_ : Z;
  open_fds : gset Z;
  handed : list (Z * sockaddr)
}.

Definition set_loop (lp : EventLoop F CB) (a : acceptor) : acceptor :=
  mkAcceptor lp (accept_socket_ a) (accept_channel_ a) (has_callback a) (listening_ a) (idle_fd_ a) (open_fds a) (handed a).
Definition set_fds (s : gset Z) (a : acceptor) : acceptor :=
  mkAcceptor (loop_ a) (accept_socket_ a) (accept_channel_ a) (has_callback a) (listening_ a) (idle_fd_ a) s (handed a).
Definition set_idle (fd : Z) (a : acceptor) : acceptor :=
  mkAcceptor (loop_ a) (accept_socket_ a) (accept_channel_ a) (has_callback a) (listening_ a) fd (open_fds a) (handed a).

(** [src/net/Acceptor.cpp:18-30 Acceptor::Acceptor] for what [socket(2)], [bind(2)] and [open(2)] return; the
    channel is built at [l] with the callback [onRead]. *)
Definition newAcceptor (sock bound idle : Z) (l : loc) (onRead : CB) (open : gset Z) (lp : EventLoop F CB) : result acceptor :=
  sockfd ← sockets.createNonblockingSocketOrDie sock;
  assert! (0 <=? sockfd);
  sockets.bindOrDie bound;;
  Ok (mkAcceptor (addChannel l (Channel.setReadCallback onRead (Channel.newChannel sockfd)) lp) sockfd l false false idle
        (open ∪ {[sockfd; idle]}) []).

(** [src/net/Acceptor.cpp:38-40 Acceptor::setNewConnectionCallback] *)
Definition setNewConnectionCallback (a : acceptor) : acceptor :=
  mkAcceptor (loop_ a) (accept_socket_ a) (accept_channel_ a) true (listening_ a) (idle_fd_ a) (open_fds a) (handed a).

(** [src/net/Acceptor.cpp:42-47 Acceptor::listen] *)
Definition listen (inLoop : bool) (ret : Z) (a : acceptor) : result acceptor :=
  assertInLoopThread inLoop;;
  let a := mkAcceptor (loop_ a) (accept_socket_ a) (accept_channel_ a) (has_callback a) true (idle_fd_ a) (open_fds a) (handed a) in
  sockets.listenOrDie ret;;
  lp ← change inLoop Channel.EnableReading (accept_channel_ a) (loop_ a);
  Ok (set_loop lp a).

Definition close (fd : Z) (a : acceptor) : acceptor := set_fds (open_fds a ∖ {[fd]}) a.
Definition opened (fd : Z) (a : acceptor) : acceptor := set_fds (open_fds a ∪ {[fd]}) a.

(** [src/net/Acceptor.cpp:49-69 Acceptor::handleRead] for what [accept4(2)] answers and, behind [EMFILE], for
    what the second [accept(2)] and [open(2)] return. *)
Definition handleRead (inLoop : bool) (o : sockets.accept_outcome) (second idle : Z) (a : acceptor) : result acceptor :=
  assertInLoopThread inLoop;;
  r ← Socket.accept o (mkAddr 0 0 zero_rest);
  match r with
  | inl (connfd, peerAddr) =>
      let a := opened connfd a in
      if has_callback a
      then Ok (mkAcceptor (loop_ a) (accept_socket_ a) (accept_channel_ a) (has_callback a) (listening_ a) (idle_fd_ a)
                 (open_fds a) (handed a ++ [(connfd, peerAddr)]))
      else Ok (close connfd a)
  | inr errno =>
      if errno =? sockets.EMFILE then
        let a := close (idle_fd_ a) a in
        let a := set_idle second (opened second a) in
        let a := close (idle_fd_ a) a in
        Ok (set_idle idle (opened idle a))
      else Ok a
  end.

(** [src/net/Acceptor.cpp:32-36 Acceptor::~Acceptor] with the destructors of the channel and of the socket. *)
Definition destroyAcceptor (inLoop : bool) (a : acceptor) : result acceptor :=
  lp ← change inLoop Channel.DisableAll (accept_channel_ a) (loop_ a);
  lp ← remove inLoop (accept_channel_ a) lp;
  let a := close (idle_fd_ a) (set_loop lp a) in
  lp ← destroyChannel inLoop (accept_channel_ a) (loop_ a);
  Ok (close (accept_socket_ a) (set_loop lp a)).

(** An acceptor in order: its two descriptors are open, and its channel is the one of its loop. *)
Record wf (a : acceptor) : Prop := {
  wf_loop : ok (loop_ a);
  wf_channel : ∃ c, channels (loop_ a) !! accept_channel_ a = Some c ∧ Channel.fd_ c = accept_socket_ a ∧
    (listening_ a = true ↔ Channel.index_ c ≠ Epoller.kNew) ∧ Channel.event_handling_ c = false;
  wf_idle : idle_fd_ a ∈ open_fds a;
  wf_socket : accept_socket_ a ∈ open_fds a;
  wf_distinct : idle_fd_ a ≠ accept_socket_ a
}.

(** The errors of [accept4] the server survives. *)
Definition survivable (e : Z) : Prop :=
  e ∈ [sockets.EAGAIN; sockets.ECONNABORTED; sockets.EINTR; sockets.EPERM; sockets.EPROTO; sockets.EMFILE].

(** A readable listening socket, case by case: a connection is handed to the callback exactly once with its
    peer's address and its descriptor stays open (without a callback it is closed); the six transient
    errors leave everything as it is; when the process has run out of descriptors the spare one
    is given up, the pending connection accepted and closed, and a spare one opened again, so that the
    number of open descriptors is what it was; any other error ends the program. *)
Theorem handleRead_accepts a o second idle :
  wf a → second ∉ open_fds a ∖ {[idle_fd_ a]} → idle ∉ open_fds a ∖ {[idle_fd_ a]} →
  (∀ connfd addr, o = sockets.Accepted connfd addr → connfd ∉ open_fds a) →
  match o with
  | sockets.Accepted connfd addr =>
      ∃ a', handleRead true o second idle a = Ok a' ∧ wf a' ∧
        handed a' = handed a ++ (if has_callback a then [(connfd, addr)] else []) ∧
        open_fds a' = if has_callback a then open_fds a ∪ {[connfd]} else open_fds a
  | sockets.AcceptErr e =>
      (survivable e → ∃ a', handleRead true o second idle a = Ok a' ∧ wf a' ∧ handed a' = handed a ∧
         size (open_fds a') = size (open_fds a) ∧ (e ≠ sockets.EMFILE → a' = a) ∧
         (e = sockets.EMFILE → idle_fd_ a' = idle)) ∧
      (¬ survivable e → handleRead true o second idle a = Fault FatalLog)
  end.
Proof.
  intros Hwf Hsec Hidle Hconn. pose proof Hwf as [Hok Hch Hi Hso Hne].
  unfold handleRead. cbn [assertInLoopThread ensure]. rewrite bind_Ok.
  destruct o as [connfd addr|e]; cbn [Socket.accept sockets.accept].
  - specialize (Hconn connfd addr eq_refl). unfold Socket.accept. cbn [sockets.accept]. rewrite !bind_Ok. cbv zeta.
    change (has_callback (opened connfd a)) with (has_callback a). destruct (has_callback a).
    + eexists. split; [done|]. split; [|done]. constructor; try done; simpl; set_solver.
    + eexists. split; [done|]. split.
      * constructor; try done; simpl; set_solver.
      * simpl. rewrite app_nil_r. split; [done|]. set_solver.
  - unfold Socket.accept. cbn [sockets.accept]. split.
    + intros Hs. rewrite bool_decide_eq_true_2 by exact Hs. cbn [ensure]. rewrite !bind_Ok.
      destruct (Z.eqb_spec e sockets.EMFILE) as [->|Hn].
      * eexists. split; [done|].
        assert (Hfds : open_fds (set_idle idle (opened idle (close (idle_fd_ (set_idle second (opened second (close (idle_fd_ a) a))))
          (set_idle second (opened second (close (idle_fd_ a) a)))))) = (open_fds a ∖ {[idle_fd_ a]}) ∪ {[idle]}).
        { simpl. set_solver. }
        split_and!; try done.
        -- constructor; try done; rewrite ?Hfds; simpl; set_solver.
        -- rewrite Hfds, size_union, size_difference, !size_singleton by set_solver.
           assert (size (open_fds a) ≠ 0%nat) by (intros Hz%size_empty_inv; set_solver). lia.
      * exists a. done.
    + intros Hs. by rewrite bool_decide_eq_false_2.
Qed.

(** An acceptor that listens can be destroyed: its channel leaves the loop and epoll, and both its
    descriptors are closed. *)
Lemma destroyAcceptor_ok a :
  wf a → listening_ a = true → event_handling_ (loop_ a) = false →
  ∃ a', destroyAcceptor true a = Ok a' ∧ open_fds a' = open_fds a ∖ {[idle_fd_ a]} ∖ {[accept_socket_ a]} ∧
    kernel_in_sync (loop_ a') ∧ channels (loop_ a') = delete (accept_channel_ a) (channels (loop_ a)).
Proof.
  intros [Hok (c & Hc & Hfd & Hl & Hev) Hi Hso Hne] Hlis Hh. unfold destroyAcceptor.
  destruct (change_ok (loop_ a) _ c Channel.DisableAll Hok Hc) as (ep & -> & Hok1 & _); [by intros ?; apply Hl in Hlis|].
  rewrite bind_Ok. set (lp1 := set_poller _ ep _) in *.
  assert (Hc1 : channels lp1 !! accept_channel_ a = Some (changed Channel.DisableAll c)) by apply lookup_insert_eq.
  destruct (remove_ok lp1 _ _ Hok1 Hc1) as (ep2 & -> & Hok2 & _).
  { unfold changed. cbn [Channel.index_ Channel.set_index]. by destruct (_ && _). }
  { done. }
  { intros Hb. change (event_handling_ (loop_ a) = true) in Hb. by rewrite Hh in Hb. }
  rewrite bind_Ok. set (lp2 := set_poller _ ep2 lp1) in *. cbv zeta.
  assert (Hc2 : channels lp2 !! accept_channel_ a = Some (Channel.set_index Epoller.kNew (Channel.set_added_to_loop false (changed Channel.DisableAll c))))
    by apply lookup_insert_eq.
  destruct (destroy_ok lp2 _ _ Hok2 Hc2) as [Hd Hok3]; [done..|].
  cbn [loop_ close set_fds set_loop accept_channel_]. rewrite Hd, bind_Ok. eexists. split; [done|]. split; [done|].
  split; [exact (Epoller.ok_kernel _ _ Hok3)|]. simpl. by rewrite insert_insert_eq, delete_insert_eq.
Qed.
End Acceptor.
End Acceptor.

(** A new acceptor on socket 5 with the spare descriptor 6, out of descriptors. *)
Lemma handleRead_accepts_witness :
  ∃ lp (a : Acceptor.acceptor (F := unit) (CB := unit)), newLoop (F := unit) 3 4 1 tt false = Ok lp ∧
    Acceptor.newAcceptor 5 0 6 2 tt {[3; 4]} lp = Ok a ∧
    (Acceptor.survivable sockets.EMFILE → ∃ a', Acceptor.handleRead true (sockets.AcceptErr sockets.EMFILE) 6 6 a = Ok a' ∧
       Acceptor.wf a' ∧ Acceptor.handed a' = Acceptor.handed a ∧
       size (Acceptor.open_fds a') = size (Acceptor.open_fds a) ∧ (sockets.EMFILE ≠ sockets.EMFILE → a' = a) ∧
       (sockets.EMFILE = sockets.EMFILE → Acceptor.idle_fd_ a' = 6)) ∧
    (¬ Acceptor.survivable sockets.EMFILE → Acceptor.handleRead true (sockets.AcceptErr sockets.EMFILE) 6 6 a = Fault FatalLog).
Proof.
  destruct (newLoop_ok (F := unit) 3 4 1 tt) as (lp & Hn & Hok & _ & Hl & _); [lia..|].
  exists lp. eexists. split; [exact Hn|]. split; [reflexivity|].
  apply (Acceptor.handleRead_accepts _ (sockets.AcceptErr sockets.EMFILE) 6 6).
  - constructor; simpl; [| |set_solver|set_solver|done].
    + eapply Epoller.ok_new_channel; [exact Hok | by apply Hl | done].
    + eexists. rewrite lookup_insert_eq. split; [done|]. done.
  - set_solver.
  - set_solver.
  - discriminate.
Defined.
