(* ===== verification/EventLoopThread.v ===== *)
(** * Loop threads: include/libfm/fmnet/EventLoopThread.h, net/EventLoopThread.cpp and
    net/EventLoopThreadPool.{h,cpp}

    An [EventLoopThread] is two threads that share an object: the owner, who starts and
    destroys it, and the thread that runs the loop.  A step is a stretch of
    one of them up to its next access to shared state.  In the pool, loops are numbered: 0 is the base loop, the
    [i]-th started one is [i]. *)
From stdpp Require Import base list numbers.
From Stdlib Require Import ZArith Lia.
From S2P Require Import Prelude.
#[local] Open Scope Z_scope.
#[local] Open Scope fm_scope.

Module EventLoopThread.

(** Where the thread is in [threadFunc], the owner in [startLoop] and in the destructor. *)
Inductive runner := NotStarted | Constructing | Published | Looping | LoopLeft | Finished.
(** [Quitting], [Waking]: in [EventLoop::quit], before the store of [quit_] and before [wakeup]. *)
Inductive owner := Idle | Waiting | Has | Destroying | Quitting | Waking | Joining | Joined.

#[export] Instance runner_eq_dec : EqDecision runner.
Proof. solve_decision. Defined.
#[export] Instance owner_eq_dec : EqDecision owner.
Proof. solve_decision. Defined.

(** [src/include/libfm/fmnet/EventLoopThread.h:31-35 EventLoopThread data members] with [quit_] of the loop that the
    thread runs, and whether the owner has used that loop, a local variable of [threadFunc], after its end. *)
Record EventLoopThread := mkThread {
  loop_ : bool;           (** whether the pointer is set *)
  exiting_ : bool;
  quit_ : bool;
  run_at : runner;
  own_at : owner;
  used_dead : bool
}.

(** [src/net/EventLoopThread.cpp:13-18 EventLoopThread::EventLoopThread] *)
Definition newThread : EventLoopThread := mkThread false false false NotStarted Idle false.

(** [src/net/EventLoopThread.cpp:28-40 EventLoopThread::startLoop] A step of the owner: the thread is created; then
    the wait for [loop_]. *)
Definition startLoop (t : EventLoopThread) : result EventLoopThread :=
  match own_at t with
  | Idle =>
      assert! (bool_decide (run_at t = NotStarted));
      Ok (mkThread (loop_ t) (exiting_ t) (quit_ t) Constructing Waiting (used_dead t))
  | Waiting => Ok (if loop_ t then mkThread (loop_ t) (exiting_ t) (quit_ t) (run_at t) Has (used_dead t) else t)
  | _ => Ok t
  end.

(** [src/net/EventLoopThread.cpp:42-53 EventLoopThread::threadFunc] A step of the thread: the loop is constructed and its
    address published, [EventLoop::loop] entered (which clears [quit_]), turned while [quit_] is
    not set, and left; the address is taken back. *)
Definition threadFunc (t : EventLoopThread) : EventLoopThread :=
  match run_at t with
  | Constructing => mkThread true (exiting_ t) (quit_ t) Published (own_at t) (used_dead t)
  | Published => mkThread (loop_ t) (exiting_ t) false Looping (own_at t) (used_dead t)
  | Looping => if quit_ t then mkThread (loop_ t) (exiting_ t) (quit_ t) LoopLeft (own_at t) (used_dead t) else t
  | LoopLeft => mkThread false (exiting_ t) (quit_ t) Finished (own_at t) (used_dead t)
  | NotStarted | Finished => t
  end.

(** [src/net/EventLoopThread.cpp:20-26 EventLoopThread::~EventLoopThread] A step of the owner: the test of [loop_]; the two accesses of
    [EventLoop::quit] to the loop (EventLoop.cpp:109-113, called in another thread than the loop's), the store of [quit_] and [wakeup]; the join. *)
Definition destroyThread (t : EventLoopThread) : EventLoopThread :=
  match own_at t with
  | Idle | Has => mkThread (loop_ t) true (quit_ t) (run_at t) Destroying (used_dead t)
  | Destroying => mkThread (loop_ t) (exiting_ t) (quit_ t) (run_at t) (if loop_ t then Quitting else Joined) (used_dead t)
  | Quitting => mkThread (loop_ t) (exiting_ t) true (run_at t) Waking (used_dead t || bool_decide (run_at t = Finished))
  | Waking => mkThread (loop_ t) (exiting_ t) (quit_ t) (run_at t) Joining (used_dead t || bool_decide (run_at t = Finished))
  | Joining => if decide (run_at t = Finished) then mkThread (loop_ t) (exiting_ t) (quit_ t) (run_at t) Joined (used_dead t) else t
  | _ => t
  end.

(** Steps of the two threads in any order. *)
Inductive step := Owner | Runner.

(** The owner starts the loop, and destroys the object when it has it. *)
Definition owner_step (t : EventLoopThread) : EventLoopThread :=
  match own_at t with
  | Idle | Waiting => match startLoop t with Ok t => t | Fault _ => t end
  | _ => destroyThread t
  end.

Definition perform (s : step) (t : EventLoopThread) : EventLoopThread :=
  match s with Owner => owner_step t | Runner => threadFunc t end.

Definition run (ss : list step) (t : EventLoopThread) : EventLoopThread := fold_left (fun t s => perform s t) ss t.

(** A quit that is lost: the owner waits for a thread that is about to enter its loop, or has entered it
    with [quit_] cleared. *)
Definition lost (t : EventLoopThread) : Prop :=
  own_at t = Joining ∧ (run_at t = Published ∨ run_at t = Looping ∧ quit_ t = false).

Lemma lost_for_ever ss t : lost t → lost (run ss t).
Proof.
  unfold run. revert t. induction ss as [|s ss IH]; intros t Hl; [done|]. cbn [fold_left]. apply IH.
  destruct t as [lp ex q r o u]. destruct Hl as (Ho & Hr). cbn in Ho, Hr. subst o. unfold lost.
  destruct s, Hr as [-> | [-> ->]]; cbn; auto.
Qed.

(** What holds at every point of a life of the object. *)
Definition consistent (t : EventLoopThread) : bool :=
  match own_at t, run_at t with
  | Idle, NotStarted | Waiting, Constructing => negb (loop_ t) && negb (quit_ t) && negb (used_dead t)
  | (Waiting | Has | Destroying | Quitting), (Published | Looping) => loop_ t && negb (quit_ t) && negb (used_dead t)
  | Waking, Published => loop_ t && quit_ t && negb (used_dead t)
  | Waking, (Looping | LoopLeft | Finished) => negb (used_dead t)
  | Joining, Published => loop_ t && quit_ t
  | Joining, (Looping | LoopLeft | Finished) => true
  | Joined, (Finished | NotStarted) => true
  | Destroying, NotStarted => negb (loop_ t)
  | _, _ => false
  end.

Lemma consistent_step s t : consistent t = true → consistent (perform s t) = true.
Proof. destruct t as [[] ex [] [] [] []], s; try discriminate; reflexivity. Qed.

Lemma consistent_run ss : consistent (run ss newThread) = true.
Proof.
  unfold run. assert (H : consistent newThread = true) by done. revert H. generalize newThread as t.
  induction ss as [|s ss IH]; intros t Ht; [done|]. cbn [fold_left]. by apply IH, consistent_step.
Qed.

(** C37. Whether the destructor of an [EventLoopThread] returns depends on a race, in every interleaving of owner and
    thread: if the thread has entered its loop when [quit] is called, the loop ends, the thread runs
    out and the join returns; if the thread has published its loop but not yet entered it, the
    loop clears the flag on entry and the join never returns. *)
Theorem destructor_joins ss :
  let t := run ss newThread in
  own_at t = Joining →
  match run_at t with
  | Published => ∀ ss', own_at (run ss' t) ≠ Joined
  | Looping => if quit_ t then own_at (run [Runner; Runner; Owner] t) = Joined else ∀ ss', own_at (run ss' t) ≠ Joined
  | LoopLeft => own_at (run [Runner; Owner] t) = Joined
  | Finished => own_at (run [Owner] t) = Joined
  | NotStarted | Constructing => False
  end.
Proof.
  cbv zeta. pose proof (consistent_run ss) as Hc. destruct (run ss newThread) as [lp ex q r o u]. cbn in *. intros ->.
  assert (Hl : ∀ t ss', lost t → own_at (run ss' t) ≠ Joined) by (intros t ss' Ht; by rewrite (proj1 (lost_for_ever ss' t Ht))).
  destruct r; try done.
  - intros ss'. apply Hl. split; [done | by left].
  - destruct q; [done|]. intros ss'. apply Hl. split; [done | by right].
Qed.

(** The destructor may use the loop after its end: the thread that sees [quit_] set leaves its loop at once, which is destroyed with [threadFunc], while
    [quit] goes on to [wakeup].  That is so exactly when the thread has finished by then; the store of [quit_] always finds the loop alive. *)
Theorem quit_outlives_loop :
  (∀ ss, let t := run ss newThread in own_at t = Quitting → used_dead (perform Owner t) = false) ∧
  (∀ ss, let t := run ss newThread in own_at t = Waking → used_dead (perform Owner t) = bool_decide (run_at t = Finished)) ∧
  ∃ ss, own_at (run ss newThread) = Waking ∧ run_at (run ss newThread) = Finished.
Proof.
  split; [|split].
  - intros ss. cbv zeta. pose proof (consistent_run ss) as Hc. destruct (run ss newThread) as [[] ex [] [] o []]; cbn in *; intros ->; done.
  - intros ss. cbv zeta. pose proof (consistent_run ss) as Hc. destruct (run ss newThread) as [[] ex [] [] o []]; cbn in *; intros ->; done.
  - exists [Owner; Runner; Runner; Owner; Owner; Owner; Owner; Runner; Runner]. by split.
Qed.
End EventLoopThread.

(** Destroyed as soon as it was started: the thread had only published its loop. *)
Lemma destructor_joins_witness :
  let ss := [EventLoopThread.Owner; EventLoopThread.Runner; EventLoopThread.Owner; EventLoopThread.Owner; EventLoopThread.Owner;
    EventLoopThread.Owner; EventLoopThread.Owner] in
  EventLoopThread.run_at (EventLoopThread.run ss EventLoopThread.newThread) = EventLoopThread.Published ∧
  ∀ ss', EventLoopThread.own_at (EventLoopThread.run ss' (EventLoopThread.run ss EventLoopThread.newThread)) ≠ EventLoopThread.Joined.
Proof.
  cbv zeta. split; [reflexivity|].
  apply (EventLoopThread.destructor_joins [EventLoopThread.Owner; EventLoopThread.Runner; EventLoopThread.Owner;
    EventLoopThread.Owner; EventLoopThread.Owner; EventLoopThread.Owner; EventLoopThread.Owner]). reflexivity.
Defined.

Module EventLoopThreadPool.

(** [src/net/EventLoopThreadPool.h:36-42 EventLoopThreadPool data members] The threads are owned along with their loops. *)
Record EventLoopThreadPool := mkPool {
  start_ : bool;
  numThreads_ : nat;
  next_ : nat;
  loops_ : list nat
}.

(** [src/net/EventLoopThreadPool.cpp:14-22 EventLoopThreadPool::EventLoopThreadPool] *)
Definition newPool : EventLoopThreadPool := mkPool false 0 0 [].

(** [src/net/EventLoopThreadPool.h:25-25 EventLoopThreadPool::setThreadNum] *)
Definition setThreadNum (numThreads : nat) (p : EventLoopThreadPool) : EventLoopThreadPool :=
  mkPool (start_ p) numThreads (next_ p) (loops_ p).

(** [src/net/EventLoopThreadPool.cpp:24-34 EventLoopThreadPool::start] *)
Definition start (inLoop : bool) (p : EventLoopThreadPool) : result EventLoopThreadPool :=
  assert! (negb (start_ p));
  check! NotInLoopThread inLoop;
  Ok (mkPool true (numThreads_ p) (next_ p)
        (foldl (fun loops i => loops ++ [S i]) (loops_ p) (seq 0 (numThreads_ p)))).

(** [src/net/EventLoopThreadPool.cpp:36-46 EventLoopThreadPool::getNextLoop] *)
Definition getNextLoop (inLoop : bool) (p : EventLoopThreadPool) : result (nat * EventLoopThreadPool) :=
  check! NotInLoopThread inLoop;
  assert! (start_ p);
  if bool_decide (loops_ p = []) then Ok (0%nat, p)
  else match loops_ p !! next_ p with
       | Some loop => Ok (loop, mkPool (start_ p) (numThreads_ p) (S (next_ p) mod length (loops_ p)) (loops_ p))
       | None => Fault OutOfBounds
       end.

(** [src/net/EventLoopThreadPool.cpp:48-55 EventLoopThreadPool::getLoopForHash] *)
Definition getLoopForHash (inLoop : bool) (hashCode : Z) (p : EventLoopThreadPool) : result nat :=
  check! NotInLoopThread inLoop;
  if bool_decide (loops_ p = []) then Ok 0%nat
  else match loops_ p !! Z.to_nat (hashCode mod zlen (loops_ p)) with
       | Some loop => Ok loop
       | None => Fault OutOfBounds
       end.

(** [src/net/EventLoopThreadPool.cpp:57-61 EventLoopThreadPool::getAllLoops] *)
Definition getAllLoops (inLoop : bool) (p : EventLoopThreadPool) : result (list nat) :=
  check! NotInLoopThread inLoop;
  assert! (start_ p);
  Ok (if bool_decide (loops_ p = []) then [0%nat] else loops_ p).

(** A started pool, [k] loops into its round. *)
Record ready (n k : nat) (p : EventLoopThreadPool) : Prop := {
  rd_start : start_ p = true;
  rd_loops : loops_ p = seq 1 n;
  rd_next : next_ p = (k mod (n `max` 1))%nat
}.

Lemma started_loops n : foldl (fun loops i => loops ++ [S i]) [] (seq 0 n) = seq 1 n.
Proof.
  induction n as [|n IH]; [done|]. by rewrite !seq_S, foldl_app, IH.
Qed.

Lemma start_ready n : ∃ p, start true (setThreadNum n newPool) = Ok p ∧ ready n 0 p.
Proof. eexists. split; [done|]. constructor; [done | apply started_loops | by rewrite Nat.Div0.mod_0_l]. Qed.

(** Round robin: the next loop, and the position behind it. *)
Lemma getNextLoop_ready n k p :
  ready n k p → ∃ p', getNextLoop true p = Ok ((if decide (n = 0) then 0 else S (k mod n))%nat, p') ∧ ready n (S k) p'.
Proof.
  intros [Hs Hl Hn]. unfold getNextLoop. cbn [ensure]. rewrite bind_Ok, Hs. cbn [ensure]. rewrite bind_Ok.
  destruct (decide (n = 0%nat)) as [->|Hne].
  - rewrite bool_decide_eq_true_2 by done. exists p. split; [done|]. constructor; [done | done|].
    rewrite Hn. by rewrite !Nat.mod_1_r.
  - rewrite Nat.max_l in Hn by lia.
    assert (Hlt : (k mod n < n)%nat) by (by apply Nat.mod_upper_bound).
    rewrite bool_decide_eq_false_2 by (rewrite Hl; by destruct n).
    rewrite Hn, Hl, lookup_seq_lt by done. eexists. split; [done|]. constructor; [done | done|].
    cbn [next_]. rewrite length_seq, Nat.max_l by lia. by rewrite <- Nat.add_1_r, Nat.Div0.add_mod_idemp_l, Nat.add_1_r.
Qed.

(** The loops of [m] connections in a row. *)
Fixpoint take_loops (m : nat) (p : EventLoopThreadPool) : result (list nat * EventLoopThreadPool) :=
  match m with
  | O => Ok ([], p)
  | S m => '(l, p) ← getNextLoop true p; '(ls, p) ← take_loops m p; Ok (l :: ls, p)
  end.

(** Connections are dealt out in turn: whatever the number of loop threads, the [i]-th loop taken from a started
    pool is the one of thread [i mod n] - the base loop when there are none - and every
    access is within the vector; all loops get the same number of connections, up to one. *)
Theorem round_robin n m p :
  start true (setThreadNum n newPool) = Ok p →
  ∃ ls p', take_loops m p = Ok (ls, p') ∧ length ls = m ∧
    ∀ i, (i < m)%nat → ls !! i = Some (if decide (n = 0) then 0 else S (i mod n))%nat.
Proof.
  destruct (start_ready n) as (p0 & Hp0 & Hr). rewrite Hp0. intros [= <-].
  enough (H : ∀ m k p, ready n k p → ∃ ls p', take_loops m p = Ok (ls, p') ∧ length ls = m ∧
    ∀ i, (i < m)%nat → ls !! i = Some (if decide (n = 0) then 0 else S ((k + i) mod n))%nat) by (apply (H m 0%nat p0 Hr)).
  clear. intros m. induction m as [|m IH]; intros k p Hr; [exists [], p; split; [done | split; [done | lia]]|]. cbn [take_loops].
  destruct (getNextLoop_ready n k p Hr) as (p1 & -> & Hr1). rewrite bind_Ok.
  destruct (IH _ _ Hr1) as (ls & p2 & -> & Hl & Hi). rewrite bind_Ok.
  eexists _, p2. split; [done|]. split; [simpl; lia|]. intros [|i] Hlt; cbn [lookup list_lookup].
  - by rewrite Nat.add_0_r.
  - fold (lookup (M := list nat) i ls). rewrite Hi by lia. by rewrite Nat.add_succ_r, Nat.add_succ_l.
Qed.
End EventLoopThreadPool.

Lemma round_robin_witness :
  ∃ p, EventLoopThreadPool.start true (EventLoopThreadPool.setThreadNum 3 EventLoopThreadPool.newPool) = Ok p ∧
  ∃ ls p', EventLoopThreadPool.take_loops 7 p = Ok (ls, p') ∧ length ls = 7%nat ∧
    ∀ i, (i < 7)%nat → ls !! i = Some (if decide (3 = 0) then 0 else S (i mod 3))%nat.
Proof. eexists. split; [reflexivity|]. by apply (EventLoopThreadPool.round_robin 3 7). Defined.
