(* ===== verification/TcpServer.v ===== *)
(** * The server: include/libfm/fmnet/TcpServer.h and net/TcpServer.cpp

    The server's members, and around them what it shares with the loops: the connections
    it has made, each with its loop and how far it has come, and the functors posted to the loops, in
    order, which each loop runs first come first served.  Loop 0 is the base loop.

    Of a connection only what the server relies on is kept: [connectEstablished] once, then its close
    callback once, then [connectDestroyed] (see [connection_safe] and [destroyed_clean] of [ConnectionTheorems]). *)
From stdpp Require Import base list gmap numbers strings.
From Stdlib Require Import ZArith Lia Init.Byte.
From S2P Require Import Prelude.
From S2P Require Import Channel.
From S2P Require Import EventLoopThread.
Import EventLoopThread.EventLoopThreadPool.
#[local] Open Scope Z_scope.
#[local] Open Scope fm_scope.

Module TcpServer.

(** [src/include/libfm/fmnet/TcpServer.h:23-23 TcpServer::Option] *)
Inductive Option := kNoReusePort | kReusePort.
#[export] Instance Option_eq_dec : EqDecision Option.
Proof. solve_decision. Defined.

(** How far a connection has come. *)
Inductive stage := Created | Up | Down | Destroyed.
#[export] Instance stage_eq_dec : EqDecision stage.
Proof. solve_decision. Defined.

Record connection := mkConnection {
  cname : list byte;
  getLoop : nat;
  at_stage : stage
}.

(** The functors the server posts. *)
Inductive task :=
  | TListen
  | TEstablished (c : loc)     (** [[conn] { conn->connectEstablished(); }] *)
  | TRemove (c : loc)          (** [[this, conn] { this->removeConnectionInLoop(conn); }] *)
  | TDestroyed (c : loc).      (** [[conn] { conn->connectDestroyed(); }] *)

#[export] Instance task_eq_dec : EqDecision task.
Proof. solve_decision. Defined.

(** [src/include/libfm/fmnet/TcpServer.h:54-66 TcpServer data members] and the world around them.  [alive] says
    whether the server object exists. *)
Record server := mkServer {
  ip_port_ : list byte;
  name_ : list byte;
  reuse_port : bool;
  listening : bool;
  thread_pool_ : EventLoopThreadPool;
  start_ : bool;
  next_conn_id_ : Z;
  connections_ : gmap (list byte) loc;
  conns : gmap loc connection;
  posted : list (nat * task);
  alive : bool
}.

Definition set_pool (p : EventLoopThreadPool) (s : server) : server :=
  mkServer (ip_port_ s) (name_ s) (reuse_port s) (listening s) p (start_ s) (next_conn_id_ s) (connections_ s) (conns s) (posted s) (alive s).
Definition set_start (s : server) : server :=
  mkServer (ip_port_ s) (name_ s) (reuse_port s) (listening s) (thread_pool_ s) true (next_conn_id_ s) (connections_ s) (conns s) (posted s) (alive s).
Definition set_listening (s : server) : server :=
  mkServer (ip_port_ s) (name_ s) (reuse_port s) true (thread_pool_ s) (start_ s) (next_conn_id_ s) (connections_ s) (conns s) (posted s) (alive s).
Definition set_connections (m : gmap (list byte) loc) (s : server) : server :=
  mkServer (ip_port_ s) (name_ s) (reuse_port s) (listening s) (thread_pool_ s) (start_ s) (next_conn_id_ s) m (conns s) (posted s) (alive s).
Definition set_conns (m : gmap loc connection) (s : server) : server :=
  mkServer (ip_port_ s) (name_ s) (reuse_port s) (listening s) (thread_pool_ s) (start_ s) (next_conn_id_ s) (connections_ s) m (posted s) (alive s).
Definition set_posted (l : list (nat * task)) (s : server) : server :=
  mkServer (ip_port_ s) (name_ s) (reuse_port s) (listening s) (thread_pool_ s) (start_ s) (next_conn_id_ s) (connections_ s) (conns s) l (alive s).
Definition set_next_id (n : Z) (s : server) : server :=
  mkServer (ip_port_ s) (name_ s) (reuse_port s) (listening s) (thread_pool_ s) (start_ s) n (connections_ s) (conns s) (posted s) (alive s).
Definition set_dead (s : server) : server :=
  mkServer (ip_port_ s) (name_ s) (reuse_port s) (listening s) (thread_pool_ s) (start_ s) (next_conn_id_ s) (connections_ s) (conns s) (posted s) false.

(** [src/net/TcpServer.cpp:16-31 TcpServer::TcpServer] [ip] is [listenAddr.toIpStr()].  The acceptor's [reusePort] is
    [option == kNoReusePort]. *)
Definition newServer (ip name : list byte) (option : Option) : server :=
  mkServer ip name (bool_decide (option = kNoReusePort)) false newPool false 1 ∅ ∅ [] true.

(** [src/net/TcpServer.cpp:45-48 TcpServer::setThreadNum] *)
Definition setThreadNum (numThreads : Z) (s : server) : result server :=
  assert! (0 <=? numThreads);
  Ok (set_pool (EventLoopThreadPool.setThreadNum (Z.to_nat numThreads) (thread_pool_ s)) s).

(** ** The life of a connection *)

Definition set_stage (c : loc) (k : connection) (st : stage) (s : server) : server :=
  set_conns (<[c := mkConnection (cname k) (getLoop k) st]> (conns s)) s.

Definition with_conn (c : loc) (k : connection → result server) (s : server) : result server :=
  match conns s !! c with Some x => k x | None => Fault UseAfterFree end.

Definition connectEstablished (c : loc) (s : server) : result server :=
  with_conn c (fun k => assert! (bool_decide (at_stage k = Created)); Ok (set_stage c k Up s)) s.

Definition connectDestroyed (c : loc) (s : server) : result server :=
  with_conn c (fun k => assert! (bool_decide (at_stage k = Up ∨ at_stage k = Down)); Ok (set_stage c k Destroyed s)) s.

(** [queueInLoop] *)
Definition post (loop : nat) (t : task) (s : server) : server := set_posted (posted s ++ [(loop, t)]) s.

(** [src/net/TcpServer.cpp:94-109 TcpServer::removeConnectionInLoop] *)
Definition removeConnectionInLoop (inLoop : bool) (c : loc) (s : server) : result server :=
  check! UseAfterFree (alive s);
  check! NotInLoopThread inLoop;
  with_conn c (fun k =>
    let n := if connections_ s !! cname k then 1 else 0 in
    let s := set_connections (delete (cname k) (connections_ s)) s in
    assert! (n =? 1);
    Ok (post (getLoop k) (TDestroyed c) s)) s.

(** A functor, run by its loop. *)
Definition run_task (t : task) (s : server) : result server :=
  match t with
  | TListen => check! UseAfterFree (alive s); Ok (set_listening s)
  | TEstablished c => connectEstablished c s
  | TRemove c => removeConnectionInLoop true c s
  | TDestroyed c => connectDestroyed c s
  end.

(** [runInLoop], called in the thread of loop [here]. *)
Definition runInLoop (here loop : nat) (t : task) (s : server) : result server :=
  if decide (here = loop) then run_task t s else Ok (post loop t s).

(** [src/net/TcpServer.cpp:50-57 TcpServer::start] called in the base loop's thread. *)
Definition start (s : server) : result server :=
  if start_ s then Ok s
  else
    let s := set_start s in
    p ← EventLoopThreadPool.start true (thread_pool_ s);
    let s := set_pool p s in
    assert! (negb (listening s));
    runInLoop 0 0 TListen s.

(** [src/net/TcpServer.cpp:59-81 TcpServer::newConnection] up to the callbacks: the loop, the connection - made at a free address - and
    the server that has it in its map. *)
Definition addConnection (inLoop : bool) (s : server) : result (nat * loc * server) :=
  check! NotInLoopThread inLoop;
  '(ioLoop, p) ← getNextLoop true (thread_pool_ s);
  let s := set_pool p s in
  let buf := snprintf 64 (bytes "-" ++ ip_port_ s ++ bytes "#" ++ dec (next_conn_id_ s)) in
  let s := set_next_id (next_conn_id_ s + 1) s in
  let connName := name_ s ++ buf in
  let conn := fresh (dom (conns s)) in
  let s := set_conns (<[conn := mkConnection connName ioLoop Created]> (conns s)) s in
  let s := set_connections (<[connName := conn]> (connections_ s)) s in
  Ok (ioLoop, conn, s).

(** [src/net/TcpServer.cpp:59-86 TcpServer::newConnection] *)
Definition newConnection (inLoop : bool) (s : server) : result server :=
  '(ioLoop, conn, s) ← addConnection inLoop s;
  runInLoop 0 ioLoop (TEstablished conn) s.

(** [src/net/TcpServer.cpp:88-92 TcpServer::removeConnection] The close callback, in the thread of the connection's loop. *)
Definition removeConnection (here : nat) (c : loc) (s : server) : result server :=
  check! UseAfterFree (alive s);
  runInLoop here 0 (TRemove c) s.

Section Destructor.
(** The order in which a range-for loop meets the connections. *)
Variable iteration : gmap (list byte) loc → list (list byte * loc).

(** [src/net/TcpServer.cpp:33-43 TcpServer::~TcpServer] *)
Definition destroyServer (inLoop : bool) (s : server) : result server :=
  check! NotInLoopThread inLoop;
  s ← foldM (fun item s => with_conn (snd item) (fun k => runInLoop 0 (getLoop k) (TDestroyed (snd item)) s) s)
        (iteration (connections_ s)) s;
  Ok (set_dead s).
End Destructor.

(** ** What happens to a server *)
Inductive event :=
  | Accept                       (** a connection is accepted *)
  | Close (c : loc)              (** a connection that is up is closed *)
  | Run (loop : nat).            (** a loop takes its next functor *)

(** The first functor of a loop. *)
Fixpoint take_first (loop : nat) (l : list (nat * task)) : option (task * list (nat * task)) :=
  match l with
  | [] => None
  | (lp, t) :: l =>
      if decide (lp = loop) then Some (t, l)
      else match take_first loop l with
           | Some (u, l') => Some (u, (lp, t) :: l')
           | None => None
           end
  end.

Definition perform (e : event) (s : server) : result server :=
  match e with
  | Accept => newConnection true s
  | Close c => with_conn c (fun k => removeConnection (getLoop k) c (set_stage c k Down s)) s
  | Run loop =>
      match take_first loop (posted s) with
      | Some (t, rest) => run_task t (set_posted rest s)
      | None => Ok s
      end
  end.

(** A connection is closed while it is up; connections are accepted while their number is
    an [int]. *)
Definition enabled (e : event) (s : server) : Prop :=
  match e with
  | Accept => next_conn_id_ s < 2 ^ 31 - 1
  | Close c => ∃ k, conns s !! c = Some k ∧ at_stage k = Up
  | Run _ => True
  end.
End TcpServer.
