(* ===== verification/TcpServerSpec.v ===== *)
(** * What the server promises

    Every connection is established, removed from the server's map and destroyed once, in this
    order, whichever loops run when; names are unique.  And what a destructor that races with a close
    does. *)
From stdpp Require Import base list gmap numbers strings.
From Stdlib Require Import ZArith Lia Init.Byte.
From S2P Require Import Prelude.
From S2P Require Import Channel.
From S2P Require Import EventLoopThread.
From S2P Require Import TcpServer.
Import EventLoopThread.EventLoopThreadPool TcpServer.TcpServer.
#[local] Open Scope Z_scope.
#[local] Open Scope fm_scope.

(** The functors that concern a connection. *)
Definition about (c : loc) (x : nat * task) : bool :=
  match snd x with
  | TListen => false
  | TEstablished c' | TRemove c' | TDestroyed c' => bool_decide (c = c')
  end.

Definition tasks_of (c : loc) (l : list (nat * task)) : list (nat * task) := filter (fun x => about c x = true) l.

Lemma tasks_of_app c l1 l2 : tasks_of c (l1 ++ l2) = tasks_of c l1 ++ tasks_of c l2.
Proof. apply filter_app. Qed.

(** Taking the first functor of a loop leaves those of other connections alone. *)
Lemma take_first_split loop l t rest :
  take_first loop l = Some (t, rest) →
  ∃ l1 l2, l = l1 ++ (loop, t) :: l2 ∧ rest = l1 ++ l2 ∧ Forall (fun x => fst x ≠ loop) l1.
Proof.
  revert rest. induction l as [|[lp u] l IH]; intros rest; simpl; [done|]. case_decide as Hlp.
  - intros [= -> ->]. subst lp. exists [], rest. by split_and!.
  - destruct (take_first loop l) as [[u' l']|]; [|done]. intros [= -> <-].
    destruct (IH _ eq_refl) as (l1 & l2 & -> & -> & Hf). exists ((lp, u) :: l1), l2. split_and!; try done. by constructor.
Qed.

(** The names the server gives. *)
Definition conn_name (s : server) (id : Z) : list byte := name_ s ++ bytes "-" ++ ip_port_ s ++ bytes "#" ++ dec id.

Lemma conn_name_inj s i j : 0 ≤ i → 0 ≤ j → conn_name s i = conn_name s j → i = j.
Proof. intros Hi Hj Heq. unfold conn_name in Heq. simplify_list_eq. by apply dec_inj. Qed.

(** Where a connection stands: the functors under way for it, and whether the map has it. *)
Definition conn_ok (s : server) (c : loc) (k : connection) : Prop :=
  match at_stage k with
  | Created => tasks_of c (posted s) = [(getLoop k, TEstablished c)] ∧ connections_ s !! cname k = Some c
  | Up => tasks_of c (posted s) = [] ∧ connections_ s !! cname k = Some c
  | Down => (tasks_of c (posted s) = [(0%nat, TRemove c)] ∧ connections_ s !! cname k = Some c) ∨
            (tasks_of c (posted s) = [(getLoop k, TDestroyed c)] ∧ connections_ s !! cname k = None)
  | Destroyed => tasks_of c (posted s) = [] ∧ connections_ s !! cname k = None
  end.

Record inv (s : server) : Prop := {
  iv_alive : alive s = true;
  iv_ip : zlen (ip_port_ s) ≤ 45;
  iv_next : 1 ≤ next_conn_id_ s < 2 ^ 31;
  iv_pool : ∃ n k, ready n k (thread_pool_ s);
  iv_conns : ∀ c k, conns s !! c = Some k → conn_ok s c k;
  iv_names : ∀ c k, conns s !! c = Some k → ∃ i, 1 ≤ i < next_conn_id_ s ∧ cname k = conn_name s i;
  iv_distinct : ∀ c1 c2 k1 k2, conns s !! c1 = Some k1 → conns s !! c2 = Some k2 → cname k1 = cname k2 → c1 = c2;
  iv_map : ∀ n c, connections_ s !! n = Some c → ∃ k, conns s !! c = Some k ∧ cname k = n;
  iv_tasks : ∀ c x, x ∈ posted s → about c x = true → is_Some (conns s !! c)
}.

(** A step that concerns one connection: the others see nothing of it. *)
Lemma inv_update s s' c k k' :
  inv s → conns s !! c = Some k → cname k' = cname k →
  conns s' = <[c := k']> (conns s) →
  alive s' = true → ip_port_ s' = ip_port_ s → name_ s' = name_ s → next_conn_id_ s' = next_conn_id_ s →
  thread_pool_ s' = thread_pool_ s →
  (∀ c', c' ≠ c → tasks_of c' (posted s') = tasks_of c' (posted s)) →
  (∀ n, n ≠ cname k → connections_ s' !! n = connections_ s !! n) →
  (∀ n c', connections_ s' !! n = Some c' → connections_ s !! n = Some c') →
  (∀ c' x, x ∈ posted s' → about c' x = true → x ∈ posted s ∨ c' = c) →
  conn_ok s' c k' → inv s'.
Proof.
  intros [Ha Hip Hn Hp Hc Hna Hd Hm Ht] Hk Hname Hconns Ha' Hip' Hnm' Hn' Hp' Htasks Hother Hsub Hpost Hok.
  constructor; rewrite ?Hip', ?Hn', ?Hp'; try done.
  - intros c' k0. rewrite Hconns. destruct (decide (c' = c)) as [->|Hne].
    + rewrite lookup_insert_eq. by intros [= <-].
    + rewrite lookup_insert_ne by done. intros Hk0. pose proof (Hc _ _ Hk0) as H0. unfold conn_ok in *.
      rewrite (Htasks c' Hne), Hother; [done|]. intros Heq. apply Hne. by eapply Hd.
  - unfold conn_name. rewrite Hnm', Hip'. intros c' k0. rewrite Hconns. destruct (decide (c' = c)) as [->|Hne].
    + rewrite lookup_insert_eq. intros [= <-]. rewrite Hname. by apply (Hna c).
    + rewrite lookup_insert_ne by done. apply Hna.
  - intros c1 c2 k1 k2. rewrite Hconns.
    assert (H : ∀ c0 k0, <[c := k']> (conns s) !! c0 = Some k0 → ∃ k1, conns s !! c0 = Some k1 ∧ cname k1 = cname k0).
    { intros c0 k0. destruct (decide (c0 = c)) as [->|Hne].
      - rewrite lookup_insert_eq. intros [= <-]. by exists k.
      - rewrite lookup_insert_ne by done. by exists k0. }
    intros H1 H2 Heq. destruct (H _ _ H1) as (k1' & Hk1 & E1). destruct (H _ _ H2) as (k2' & Hk2 & E2).
    eapply Hd; [exact Hk1 | exact Hk2 | congruence].
  - intros n c' Hin. destruct (Hm n c' (Hsub _ _ Hin)) as (k0 & Hk0 & Hn0). rewrite Hconns.
    destruct (decide (c' = c)) as [->|Hne].
    + rewrite lookup_insert_eq. exists k'. split; [done|]. rewrite Hname. congruence.
    + rewrite lookup_insert_ne by done. by exists k0.
  - intros c' x Hx Hab. rewrite Hconns. destruct (Hpost c' x Hx Hab) as [Hin | ->].
    + destruct (decide (c' = c)) as [->|Hne]; [rewrite lookup_insert_eq; by eexists|].
      rewrite lookup_insert_ne by done. by eapply Ht.
    + rewrite lookup_insert_eq. by eexists.
Qed.

(** The functor that concerns a connection. *)
Definition concerns (t : task) (c : loc) : Prop := t = TEstablished c ∨ t = TRemove c ∨ t = TDestroyed c.

Lemma concerns_about t c loop : concerns t c → about c (loop, t) = true.
Proof. intros [-> | [-> | ->]]; unfold about; cbn [snd]; by rewrite bool_decide_eq_true_2. Qed.

Lemma concerns_mk c : concerns (TEstablished c) c ∧ concerns (TRemove c) c ∧ concerns (TDestroyed c) c.
Proof. unfold concerns. auto. Qed.
#[local] Hint Unfold concerns : core.

Lemma tasks_of_other c c' loop t :
  c' ≠ c → concerns t c → tasks_of c' [(loop, t)] = [].
Proof.
  intros Hne Ht. unfold tasks_of. rewrite filter_cons_False; [done|].
  unfold about. destruct Ht as [-> | [-> | ->]]; cbn [snd]; by rewrite bool_decide_eq_false_2.
Qed.

Lemma tasks_of_same c loop t :
  concerns t c → tasks_of c [(loop, t)] = [(loop, t)].
Proof.
  intros Ht. unfold tasks_of. rewrite filter_cons_True; [done|].
  unfold about. destruct Ht as [-> | [-> | ->]]; cbn [snd]; by rewrite bool_decide_eq_true_2.
Qed.

(** A functor under way tells the stage of its connection. *)
Lemma task_stage s c k x :
  inv s → conns s !! c = Some k → x ∈ tasks_of c (posted s) →
  (at_stage k = Created ∧ x = (getLoop k, TEstablished c) ∧ connections_ s !! cname k = Some c) ∨
  (at_stage k = Down ∧ x = (0%nat, TRemove c) ∧ connections_ s !! cname k = Some c) ∨
  (at_stage k = Down ∧ x = (getLoop k, TDestroyed c) ∧ connections_ s !! cname k = None).
Proof.
  intros Hi Hk Hx. pose proof (iv_conns _ Hi _ _ Hk) as Hok. unfold conn_ok in Hok.
  destruct (at_stage k); [| |destruct Hok as [Hok|Hok]|]; destruct Hok as [Ht Hm]; rewrite Ht in Hx;
    try by apply elem_of_nil in Hx.
  all: apply list_elem_of_singleton in Hx; subst x; auto.
Qed.

(** Taking a functor that concerns a connection leaves the other connections' functors, and none for
    this one. *)
Lemma taken_one s loop t l1 l2 c k :
  inv s → posted s = l1 ++ (loop, t) :: l2 → concerns t c → conns s !! c = Some k →
  (loop, t) ∈ tasks_of c (posted s) ∧ tasks_of c (l1 ++ l2) = [] ∧
  (∀ c', c' ≠ c → tasks_of c' (l1 ++ l2) = tasks_of c' (posted s)).
Proof.
  intros Hi Hp Ht Hk.
  assert (Hx : (loop, t) ∈ tasks_of c (posted s)).
  { rewrite Hp, (cons_middle (loop, t)), !tasks_of_app, (tasks_of_same c) by done. set_solver. }
  assert (Hone : ∃ y, tasks_of c (posted s) = [y]).
  { pose proof (iv_conns _ Hi _ _ Hk) as Hok. unfold conn_ok in Hok.
    destruct (at_stage k); [| |destruct Hok as [Hok|Hok]|]; destruct Hok as [Ht' _]; rewrite Ht' in Hx |- *;
      try by apply elem_of_nil in Hx.
    all: by eexists. }
  split_and!; [done| |].
  - destruct Hone as [y Hy]. rewrite Hy in Hx. apply list_elem_of_singleton in Hx as <-.
    rewrite Hp, (cons_middle (loop, t)), !tasks_of_app, (tasks_of_same c) in Hy by done.
    rewrite tasks_of_app. destruct (tasks_of c l1) as [|? [|??]]; [|discriminate..].
    by destruct (tasks_of c l2).
  - intros c' Hne. rewrite Hp, (cons_middle (loop, t)), !tasks_of_app, (tasks_of_other c) by done. done.
Qed.

Lemma taken_conn s loop t l1 l2 c :
  inv s → posted s = l1 ++ (loop, t) :: l2 → concerns t c → ∃ k, conns s !! c = Some k.
Proof.
  intros Hi Hp Ht. apply (iv_tasks _ Hi c (loop, t)); [rewrite Hp; set_solver|]. by apply concerns_about.
Qed.

(** A connection whose last functor has run moves to a stage without one. *)
Lemma inv_settled s l c k st :
  inv s → conns s !! c = Some k → tasks_of c l = [] → (∀ c', c' ≠ c → tasks_of c' l = tasks_of c' (posted s)) →
  (∀ x, x ∈ l → x ∈ posted s) →
  (st = Up ∧ connections_ s !! cname k = Some c ∨ st = Destroyed ∧ connections_ s !! cname k = None) →
  inv (set_stage c k st (set_posted l s)).
Proof.
  intros Hi Hk Hnil Hother Hin Hst.
  apply (inv_update s _ c k (mkConnection (cname k) (getLoop k) st)); try done.
  - apply Hi.
  - intros c' x Hx _. left. by apply Hin.
  - unfold conn_ok. cbn [at_stage posted set_stage set_conns set_posted connections_ cname].
    destruct Hst as [[-> ?]|[-> ?]]; by split.
Qed.

Lemma listen_ok s loop l1 l2 :
  inv s → posted s = l1 ++ (loop, TListen) :: l2 → inv (set_listening (set_posted (l1 ++ l2) s)).
Proof.
  intros Hi Hp. destruct Hi as [Ha Hip Hn Hpl Hc Hna Hd Hm Ht].
  assert (Hall : ∀ c, tasks_of c (l1 ++ l2) = tasks_of c (posted s)).
  { intros c. rewrite Hp, (cons_middle (loop, TListen)), !tasks_of_app. done. }
  constructor; try done.
  - intros c k Hk. specialize (Hc c k Hk). unfold conn_ok in *.
    cbn [posted set_listening set_posted connections_]. by rewrite Hall.
  - intros c x Hx. apply Ht. rewrite Hp. cbn [posted set_listening set_posted] in Hx. set_solver.
Qed.

(** [removeConnectionInLoop], with no other functor for the connection under way. *)
Lemma removeConnectionInLoop_ok s s0 c k :
  inv s → conns s !! c = Some k → at_stage k = Down → connections_ s !! cname k = Some c →
  s0 = set_posted (posted s0) s → tasks_of c (posted s0) = [] →
  (∀ c', c' ≠ c → tasks_of c' (posted s0) = tasks_of c' (posted s)) →
  (∀ x, x ∈ posted s0 → x ∈ posted s) →
  ∃ s', removeConnectionInLoop true c s0 = Ok s' ∧ inv s'.
Proof.
  intros Hi Hk Hst Hmap Hs0 Hnil Hother Hin. remember (posted s0) as l eqn:Hl. subst s0. clear Hl.
  unfold removeConnectionInLoop, with_conn. change (alive (set_posted l s)) with (alive s).
  rewrite (iv_alive _ Hi). cbn [ensure]. rewrite !bind_Ok. change (conns (set_posted l s)) with (conns s). rewrite Hk.
  change (connections_ (set_posted l s)) with (connections_ s). rewrite Hmap. cbn [ensure Z.eqb Pos.eqb].
  rewrite bind_Ok. eexists. split; [done|].
  apply (inv_update s _ c k k); try done.
  - cbn [conns post set_posted set_connections]. by rewrite insert_id.
  - apply Hi.
  - intros c' Hne. cbn [posted post set_posted set_connections].
    rewrite tasks_of_app, (tasks_of_other c c' (getLoop k) (TDestroyed c)) by auto. rewrite app_nil_r. by apply Hother.
  - intros n Hn. cbn [connections_ post set_posted set_connections]. by rewrite lookup_delete_ne.
  - intros n c'. cbn [connections_ post set_posted set_connections]. rewrite lookup_delete_Some. tauto.
  - intros c' x. cbn [posted post set_posted set_connections]. rewrite elem_of_app, list_elem_of_singleton.
    intros [Hx'| ->]; [left; by apply Hin|]. unfold about. cbn [snd]. intros Hd%bool_decide_eq_true. by right.
  - unfold conn_ok. rewrite Hst. right. cbn [posted post set_posted set_connections connections_].
    rewrite tasks_of_app, Hnil, (tasks_of_same c) by auto. split; [done | apply lookup_delete_eq].
Qed.

(** Running a functor taken off a queue. *)
Lemma run_task_ok s loop t rest l1 l2 :
  inv s → posted s = l1 ++ (loop, t) :: l2 → rest = l1 ++ l2 →
  ∃ s', run_task t (set_posted rest s) = Ok s' ∧ inv s'.
Proof.
  intros Hi Hp ->. assert (Hin : ∀ x, x ∈ l1 ++ l2 → x ∈ posted s) by (rewrite Hp; set_solver).
  destruct (decide (t = TListen)) as [->|Hlis].
  { cbn [run_task]. change (alive (set_posted (l1 ++ l2) s)) with (alive s). rewrite (iv_alive _ Hi).
    cbn [ensure]. rewrite bind_Ok. eexists. split; [done|]. by eapply listen_ok. }
  assert (∃ c, concerns t c) as [c Hc] by (destruct t as [|c|c|c]; [done|exists c; unfold concerns; auto..]).
  destruct (taken_conn s loop t l1 l2 c) as [k Hk]; [done..|].
  destruct (taken_one s loop t l1 l2 c k) as (Hat & Hnil & Hother); [done..|].
  destruct (task_stage s c k _ Hi Hk Hat) as [(Hst & Hx & Hmap)|[(Hst & Hx & Hmap)|(Hst & Hx & Hmap)]];
    injection Hx as _ ->; cbn [run_task].
  - unfold connectEstablished, with_conn. change (conns (set_posted (l1 ++ l2) s)) with (conns s). rewrite Hk.
    rewrite bool_decide_eq_true_2 by done. cbn [ensure]. rewrite bind_Ok. eexists. split; [done|].
    apply inv_settled; auto.
  - by apply (removeConnectionInLoop_ok s _ c k).
  - unfold connectDestroyed, with_conn. change (conns (set_posted (l1 ++ l2) s)) with (conns s). rewrite Hk.
    rewrite bool_decide_eq_true_2 by auto. cbn [ensure]. rewrite bind_Ok. eexists. split; [done|].
    apply inv_settled; auto.
Qed.

(** ** Accepting and closing *)

(** Computes the members of a server that has been changed. *)
Ltac members := cbn [at_stage cname getLoop alive ip_port_ next_conn_id_ thread_pool_ conns connections_ posted name_
       set_posted set_connections set_conns set_next_id set_pool set_stage post].

(** The server with a new connection, its name in the map. *)
Definition accepted (loop : nat) (p : EventLoopThreadPool) (s : server) : server :=
  let c := fresh (dom (conns s)) in
  let nm := conn_name s (next_conn_id_ s) in
  set_connections (<[nm := c]> (connections_ s))
    (set_conns (<[c := mkConnection nm loop Created]> (conns s)) (set_next_id (next_conn_id_ s + 1) (set_pool p s))).

(** The array for the name's tail is large enough. *)
Lemma name_fits s :
  inv s → snprintf 64 (bytes "-" ++ ip_port_ s ++ bytes "#" ++ dec (next_conn_id_ s)) =
          bytes "-" ++ ip_port_ s ++ bytes "#" ++ dec (next_conn_id_ s).
Proof.
  intros Hi. apply snprintf_fits. rewrite !zlen_app.
  change (zlen (bytes "-")) with 1. change (zlen (bytes "#")) with 1.
  pose proof (dec_length (next_conn_id_ s) 10). pose proof (iv_next _ Hi). pose proof (iv_ip _ Hi).
  change (10 ^ Z.of_nat 10) with 10000000000 in *. lia.
Qed.

Lemma addConnection_accepted s :
  inv s → ∃ loop p, (∃ n k, ready n k p) ∧
    addConnection true s = Ok (loop, fresh (dom (conns s)), accepted loop p s).
Proof.
  intros Hi. destruct (iv_pool _ Hi) as (n & k & Hr). destruct (getNextLoop_ready n k _ Hr) as (p & Hg & Hr').
  eexists _, p. split; [by exists n, (S k)|]. unfold addConnection. cbn [ensure]. rewrite bind_Ok, Hg, bind_Ok.
  change (ip_port_ (set_pool p s)) with (ip_port_ s).
  change (next_conn_id_ (set_pool p s)) with (next_conn_id_ s). rewrite name_fits by done. reflexivity.
Qed.

Lemma newConnection_accepted s :
  inv s → ∃ loop p, (∃ n k, ready n k p) ∧
    newConnection true s = runInLoop 0 loop (TEstablished (fresh (dom (conns s)))) (accepted loop p s).
Proof.
  intros Hi. destruct (addConnection_accepted s Hi) as (loop & p & Hp & Ha). exists loop, p. split; [done|].
  unfold newConnection. by rewrite Ha, bind_Ok.
Qed.

Lemma fresh_conn s : conns s !! fresh (dom (conns s)) = None.
Proof. apply not_elem_of_dom. apply is_fresh. Qed.

(** No functor is about a connection that does not exist, and no name is used twice. *)
Lemma no_task_fresh s c : inv s → conns s !! c = None → tasks_of c (posted s) = [].
Proof.
  intros Hi Hc. unfold tasks_of. destruct (filter _ _) as [|x l] eqn:Hf; [done|].
  assert (Hx : x ∈ filter (fun x => about c x = true) (posted s)) by (rewrite Hf; set_solver).
  apply list_elem_of_filter in Hx as [Hx Hin]. destruct (iv_tasks _ Hi c x Hin Hx) as [k Hk]. congruence.
Qed.

Lemma new_name_unused s c k : inv s → conns s !! c = Some k → cname k ≠ conn_name s (next_conn_id_ s).
Proof.
  intros Hi Hk Heq. destruct (iv_names _ Hi c k Hk) as (i & Hi' & Hn). rewrite Hn in Heq.
  apply conn_name_inj in Heq; pose proof (iv_next _ Hi); lia.
Qed.

(** The server between the insertion and the call of [runInLoop]: all is well but for the missing functor. *)
Lemma accepted_inv s loop p c :
  inv s → next_conn_id_ s < 2 ^ 31 - 1 → (∃ n k, ready n k p) → c = fresh (dom (conns s)) →
  inv (post loop (TEstablished c) (accepted loop p s)).
Proof.
  intros Hi Hn Hp Hcf. pose proof (fresh_conn s) as Hfr. rewrite <- Hcf in Hfr.
  assert (Hne : ∀ c' k', conns s !! c' = Some k' → c' ≠ c) by congruence.
  unfold accepted, post. rewrite <- Hcf. pose proof Hi as [Ha Hip Hnx Hpl Hc Hna Hd Hm Ht].
  constructor; members; try done; [lia|..].
  - intros c' k'. destruct (decide (c' = c)) as [->|Hc'].
    + rewrite lookup_insert_eq. intros [= <-]. unfold conn_ok. members.
      rewrite tasks_of_app, no_task_fresh, (tasks_of_same c) by auto. split; [done | apply lookup_insert_eq].
    + rewrite lookup_insert_ne by done. intros Hk'. pose proof (Hc _ _ Hk') as H0. unfold conn_ok in *. members.
      rewrite tasks_of_app, (tasks_of_other c c') by auto. rewrite app_nil_r, lookup_insert_ne; [done|].
      intros Heq. symmetry in Heq. by apply (new_name_unused s c' k') in Heq.
  - intros c' k'. change (conn_name _ ?i) with (conn_name s i). destruct (decide (c' = c)) as [->|Hc'].
    + rewrite lookup_insert_eq. intros [= <-]. exists (next_conn_id_ s). members. split; [lia | done].
    + rewrite lookup_insert_ne by done. intros Hk'. destruct (Hna _ _ Hk') as (i & Hi' & ?). exists i. split; [lia | done].
  - intros c1 c2 k1 k2 [[<- <-]|[? H1]]%lookup_insert_Some [[<- <-]|[? H2]]%lookup_insert_Some Heq; cbn in Heq; try done.
    + symmetry in Heq. by eapply new_name_unused in Heq.
    + by eapply new_name_unused in Heq.
    + by eapply Hd.
  - intros n c' [[<- <-]|[? H1]]%lookup_insert_Some.
    + rewrite lookup_insert_eq. by eexists.
    + destruct (Hm _ _ H1) as (k' & Hk' & <-). exists k'. rewrite lookup_insert_ne; [done|]. intros ->. by apply Hne in Hk'.
  - intros c' x. rewrite elem_of_app, list_elem_of_singleton. intros [Hx | ->] Hab.
    + rewrite lookup_insert_is_Some. destruct (decide (c = c')) as [|Hc']; [by left | right]. split; [done | by apply (Ht c' x)].
    + unfold about in Hab. cbn [snd] in Hab. apply bool_decide_eq_true in Hab as ->. rewrite lookup_insert_eq. by eexists.
Qed.

(** A functor that [runInLoop] runs at once, or posts: the one as if it were the last on the queue. *)
Lemma runInLoop_ok here loop t s :
  inv (post loop t s) → ∃ s', runInLoop here loop t s = Ok s' ∧ inv s'.
Proof.
  intros Hi. unfold runInLoop. destruct (decide (here = loop)) as [->|]; [|by eexists].
  replace s with (set_posted (posted s) (post loop t s)) by by destruct s.
  apply (run_task_ok _ loop t _ (posted s) []); [done | done | by rewrite app_nil_r].
Qed.

Lemma close_inv s c k :
  inv s → conns s !! c = Some k → at_stage k = Up → inv (post 0 (TRemove c) (set_stage c k Down s)).
Proof.
  intros Hi Hk Hst. pose proof (iv_conns _ Hi _ _ Hk) as Hok. unfold conn_ok in Hok. rewrite Hst in Hok.
  destruct Hok as [Hnil Hmap].
  apply (inv_update s _ c k (mkConnection (cname k) (getLoop k) Down)); try done.
  - apply Hi.
  - intros c' Hne. cbn [posted post set_posted set_stage set_conns].
    rewrite tasks_of_app, (tasks_of_other c c') by auto. apply app_nil_r.
  - intros c' x. cbn [posted post set_posted set_stage set_conns]. rewrite elem_of_app, list_elem_of_singleton.
    intros [Hx'| ->]; [by left|]. unfold about. cbn [snd]. intros Hd%bool_decide_eq_true. by right.
  - left. cbn [posted post set_posted set_stage set_conns cname connections_ getLoop].
    rewrite tasks_of_app, Hnil, (tasks_of_same c) by auto. done.
Qed.

Lemma perform_inv e s : inv s → enabled e s → ∃ s', perform e s = Ok s' ∧ inv s'.
Proof.
  intros Hi. destruct e as [|c|loop]; cbn [enabled perform].
  - intros Hn. destruct (newConnection_accepted s Hi) as (loop & p & Hp & ->).
    apply runInLoop_ok. by apply accepted_inv.
  - intros (k & Hk & Hst). unfold with_conn. rewrite Hk. unfold removeConnection.
    change (alive (set_stage c k Down s)) with (alive s). rewrite (iv_alive _ Hi). cbn [ensure]. rewrite bind_Ok.
    apply runInLoop_ok. by apply close_inv.
  - intros _. destruct (take_first loop (posted s)) as [[t rest]|] eqn:Ht; [|by exists s].
    apply take_first_split in Ht as (l1 & l2 & Hp & -> & _). by apply (run_task_ok s loop t _ l1 l2).
Qed.

(** ** The promises *)

(** A server that has been started with [n] loop threads. *)
Definition started (ip name : list byte) (option : Option) (n : Z) : result server :=
  s ← TcpServer.setThreadNum n (newServer ip name option);
  s ← TcpServer.start s;
  Ok s.

Lemma started_inv ip name option n :
  zlen ip ≤ 45 → 0 ≤ n → ∃ s, started ip name option n = Ok s ∧ inv s ∧ listening s = true.
Proof.
  intros Hip Hn. unfold started, TcpServer.setThreadNum. rewrite (proj2 (Z.leb_le 0 n)) by done. cbn [ensure]. rewrite !bind_Ok.
  destruct (start_ready (Z.to_nat n)) as (p & Hp & Hr).
  unfold TcpServer.start. cbn [TcpServer.start_ newServer set_pool set_start thread_pool_]. rewrite Hp, bind_Ok.
  cbn [ensure negb listening set_pool set_start].
  unfold runInLoop. rewrite decide_True by done. cbn [run_task ensure alive set_pool set_start newServer].
  eexists. split; [done|]. split; [|done].
  constructor; members; try done; [by exists (Z.to_nat n), 0%nat | intros c x []%elem_of_nil].
Qed.

(** The events of a history are possible when their turn comes. *)
Fixpoint history (evs : list event) (s : server) : Prop :=
  match evs with
  | [] => True
  | e :: evs => enabled e s ∧ ∀ s', perform e s = Ok s' → history evs s'
  end.

Lemma history_inv evs s : inv s → history evs s → ∃ s', foldM perform evs s = Ok s' ∧ inv s'.
Proof.
  revert s. induction evs as [|e evs IH]; intros s Hi Hh; [by exists s|]. destruct Hh as [He Hh].
  destruct (perform_inv e s Hi He) as (s1 & H1 & Hi1). cbn [foldM]. rewrite H1, bind_Ok.
  apply IH; [done | by apply Hh].
Qed.

(** C9. A started server handles every history of accepted and closed connections without a fault, whatever the
    number of loop threads and whichever loop runs its functors next; no two of its
    connections have the same name; and once no functor is under way, the map holds exactly the connections that are up,
    each under its name, and every other connection has been removed and destroyed. *)
Theorem server_safe ip name option n evs s :
  zlen ip ≤ 45 → 0 ≤ n → started ip name option n = Ok s → history evs s →
  ∃ s', foldM perform evs s = Ok s' ∧
    (∀ c1 c2 k1 k2, conns s' !! c1 = Some k1 → conns s' !! c2 = Some k2 → cname k1 = cname k2 → c1 = c2) ∧
    (posted s' = [] →
      (∀ nm c, connections_ s' !! nm = Some c ↔ ∃ k, conns s' !! c = Some k ∧ cname k = nm ∧ at_stage k = Up) ∧
      (∀ c k, conns s' !! c = Some k → at_stage k = Up ∨ at_stage k = Destroyed)).
Proof.
  intros Hip Hn Hs Hh. destruct (started_inv ip name option n Hip Hn) as (s0 & Hs0 & Hi & _).
  assert (s0 = s) as -> by congruence. destruct (history_inv evs s Hi Hh) as (s' & Hr & Hi').
  exists s'. split; [done|]. split; [apply (iv_distinct _ Hi')|]. intros Hp.
  assert (Hst : ∀ c k, conns s' !! c = Some k →
    at_stage k = Up ∧ connections_ s' !! cname k = Some c ∨ at_stage k = Destroyed ∧ connections_ s' !! cname k = None).
  { intros c k Hk. pose proof (iv_conns _ Hi' _ _ Hk) as Hok. unfold conn_ok in Hok. rewrite Hp in Hok.
    destruct (at_stage k); [|left|destruct Hok as [Hok|Hok]|right]; destruct Hok as [Ht Hm]; try discriminate; done. }
  split.
  - intros nm c. split.
    + intros Hin. destruct (iv_map _ Hi' _ _ Hin) as (k & Hk & Hnm). exists k. split_and!; [done..|].
      destruct (Hst _ _ Hk) as [[? _]|[_ Hno]]; [done | congruence].
    + intros (k & Hk & <- & Hup). destruct (Hst _ _ Hk) as [[_ ?]|[? _]]; [done | congruence].
  - intros c k Hk. destruct (Hst _ _ Hk) as [[? _]|[? _]]; auto.
Qed.

Lemma take_first_app loop l t rest :
  take_first loop l = None → take_first loop (l ++ (loop, t) :: rest) = Some (t, l ++ rest).
Proof.
  induction l as [|[lp u] l IH]; simpl; [by rewrite decide_True by done|].
  case_decide; [done|]. destruct (take_first loop l) as [[]|]; [done|]. intros _. by rewrite IH.
Qed.

Lemma runInLoop_post here loop t s : here ≠ loop → runInLoop here loop t s = Ok (post loop t s).
Proof. intros. unfold runInLoop. by rewrite decide_False. Qed.

Lemma with_conn_Some c k f s : conns s !! c = Some k → with_conn c f s = f k.
Proof. unfold with_conn. by intros ->. Qed.

(** The destructor posts only to loops other than the base loop, and drops no functor. *)
Lemma destroy_posts items s :
  (∀ x : list byte * loc, x ∈ items → ∃ k, conns s !! snd x = Some k ∧ getLoop k ≠ 0%nat) →
  ∃ l, foldM (fun item s => with_conn (snd item) (fun k => runInLoop 0 (getLoop k) (TDestroyed (snd item)) s) s) items s =
       Ok (set_posted (posted s ++ l) s).
Proof.
  revert s. induction items as [|x items IH]; intros s Hin.
  - exists []. rewrite app_nil_r. by destruct s.
  - destruct (Hin x) as (k & Hk & Hl); [set_solver|]. cbn [foldM]. rewrite (with_conn_Some _ k) by done.
    rewrite runInLoop_post, bind_Ok by done.
    destruct (IH (post (getLoop k) (TDestroyed (snd x)) s)) as [l ->].
    { intros y Hy. apply Hin. set_solver. }
    eexists. unfold post. members. by rewrite <- app_assoc.
Qed.

(** The close callback posts a functor with the bare address of the server to the base loop. When a
    connection of another thread closes and the server is destroyed before the base loop runs that
    functor, running it uses the server after its destruction. *)
Theorem remove_after_destructor iteration s c k :
  (∀ m, iteration m ≡ₚ map_to_list m) →
  inv s → conns s !! c = Some k → at_stage k = Up → (∀ c k, conns s !! c = Some k → getLoop k ≠ 0%nat) →
  take_first 0 (posted s) = None →
  ∃ s1 s2, perform (Close c) s = Ok s1 ∧ destroyServer iteration true s1 = Ok s2 ∧ perform (Run 0) s2 = Fault UseAfterFree.
Proof.
  intros Hit Hi Hk Hup Hloops Hnone. pose proof (close_inv s c k Hi Hk Hup) as Hi1.
  set (s1 := post 0 (TRemove c) (set_stage c k Down s)) in *.
  exists s1. destruct (destroy_posts (iteration (connections_ s1)) s1) as [l Hl].
  { intros [nm c'] Hx. rewrite Hit, elem_of_map_to_list in Hx. destruct (iv_map _ Hi1 _ _ Hx) as (k' & Hk' & _).
    exists k'. split; [done|]. cbn [snd] in *. unfold s1 in Hk'. revert Hk'. members.
    intros [[<- <-]|[_ ?]]%lookup_insert_Some; [exact (Hloops c k Hk) | by eapply Hloops]. }
  eexists. split_and!.
  - unfold perform, with_conn. rewrite Hk. unfold removeConnection.
    change (alive (set_stage c k Down s)) with (alive s). rewrite (iv_alive _ Hi). cbn [ensure]. rewrite bind_Ok.
    apply runInLoop_post. by apply (Hloops c).
  - unfold destroyServer. cbn [ensure]. by rewrite bind_Ok, Hl, bind_Ok.
  - cbn [perform]. change (posted (set_dead _)) with ((posted s ++ [(0%nat, TRemove c)]) ++ l).
    rewrite <- app_assoc. cbn [app]. by rewrite take_first_app.
Qed.

(** ** The promises at concrete servers *)

Definition demo_ip : list byte := bytes "127.0.0.1".

Lemma history_step e evs s s1 : enabled e s → perform e s = Ok s1 → history evs s1 → history (e :: evs) s.
Proof. intros He Hs Hh. split; [done|]. intros s'. by rewrite Hs; intros [= <-]. Qed.

#[local] Ltac run_history :=
  repeat lazymatch goal with
  | |- history (_ :: _) _ => eapply history_step;
      [first [vm_compute; exact I | vm_compute; reflexivity | vm_compute; eexists; split; reflexivity] | vm_compute; reflexivity |]
  | |- history [] _ => exact I
  end.

Definition demo_history : list event := [Accept; Run 1; Accept; Close 1%positive; Run 2; Run 0; Run 1].

Lemma demo_run : ∃ s s', started demo_ip (bytes "srv") kNoReusePort 2 = Ok s ∧
  history demo_history s ∧ foldM perform demo_history s = Ok s' ∧ posted s' = [].
Proof.
  eexists _, _. split; [vm_compute; reflexivity|]. split; [|split; [vm_compute; reflexivity | vm_compute; reflexivity]].
  unfold demo_history. run_history.
Qed.

Lemma server_safe_witness :
  ∃ s, started demo_ip (bytes "srv") kNoReusePort 2 = Ok s ∧
  ∃ c s', foldM perform [Accept; Run 1; Accept; Close c; Run 2; Run 0; Run 1] s = Ok s' ∧
    posted s' = [] ∧
    (∀ nm c, connections_ s' !! nm = Some c ↔ ∃ k, conns s' !! c = Some k ∧ cname k = nm ∧ at_stage k = Up).
Proof.
  destruct demo_run as (s & s' & Hs & Hh & Hf & Hp). exists s. split; [done|]. exists (1%positive : loc), s'. split; [done|]. split; [done|].
  destruct (server_safe demo_ip (bytes "srv") kNoReusePort 2 _ s ltac:(done) ltac:(done) Hs Hh) as (s2 & Hf2 & _ & Hd).
  rewrite Hf in Hf2. injection Hf2 as <-. by apply Hd.
Defined.

Lemma remove_after_destructor_witness :
  ∃ s s1 s2, (∃ s0, started demo_ip (bytes "srv") kNoReusePort 1 = Ok s0 ∧ foldM perform [Accept; Run 1] s0 = Ok s) ∧
  perform (Close 1%positive) s = Ok s1 ∧ destroyServer map_to_list true s1 = Ok s2 ∧ perform (Run 0) s2 = Fault UseAfterFree.
Proof.
  destruct (started_inv demo_ip (bytes "srv") kNoReusePort 1 ltac:(done) ltac:(done)) as (s0 & Hs0 & Hi0 & _).
  vm_compute in Hs0. injection Hs0 as Hs0.
  destruct (history_inv [Accept; Run 1] s0 Hi0) as (s & Hs & Hi).
  { subst s0. run_history. }
  assert (Hs' := Hs). subst s0. vm_compute in Hs'. injection Hs' as Hs'.
  destruct (remove_after_destructor map_to_list s 1%positive (mkConnection (bytes "srv-127.0.0.1#1") 1 Up))
    as (s1 & s2 & H1 & H2 & H3); try done; try (by subst s).
  - intros c k. subst s. intros Hk. destruct c; vm_compute in Hk; [by destruct c|by destruct c|by injection Hk as <-].
  - exists s, s1, s2. split; [|done]. eexists. split; [|exact Hs]. reflexivity.
Defined.
