(* ===== verification/LogLine.v ===== *)
(** * Log lines: include/libfm/fmutil/LogLine.h and util/LogLine.cpp

    A line is a byte buffer - an array in the object, or a larger one on the heap -
    into which the header fields and then tagged values are copied, and from which [stringify] prints
    them later.  Objects are stored in the byte order of the host (see [Endian]).  Addresses are numbers; [objects] gives
    the bytes from an address to the end of its object, if an object is alive there. *)
From stdpp Require Import base list numbers strings.
From Stdlib Require Import ZArith Lia Init.Byte.
From S2P Require Import Prelude.
From S2P Require Import Endian.
From S2P Require Import Time.
#[local] Open Scope Z_scope.
#[local] Open Scope fm_scope.

Module LogLine.

(** [src/include/libfm/fmutil/LogLine.h:13-16 LogLevel] *)
Inductive LogLevel := kCLOSE | kFATAL | kINFO | kWARN | kERROR | kDEBUG.
#[export] Instance LogLevel_eq_dec : EqDecision LogLevel.
Proof. solve_decision. Defined.

Definition level_val (l : LogLevel) : Z :=
  match l with kCLOSE => 0 | kFATAL => 1 | kINFO => 2 | kWARN => 3 | kERROR => 4 | kDEBUG => 5 end.

(** [src/util/LogLine.cpp:31-40 SupportedTypes] *)
Inductive SupportedTypes := kChar | kUInt32 | kUInt64 | kInt32 | kInt64 | kDouble | kStrView | kRawStr.

Definition type_val (t : SupportedTypes) : Z :=
  match t with
  | kChar => 0 | kUInt32 => 1 | kUInt64 => 2 | kInt32 => 3 | kInt64 => 4 | kDouble => 5 | kStrView => 6 | kRawStr => 7
  end.

(** The type for a byte read back, if it is one. *)
Definition type_of (z : Z) : option SupportedTypes :=
  match z with
  | 0 => Some kChar | 1 => Some kUInt32 | 2 => Some kUInt64 | 3 => Some kInt32
  | 4 => Some kInt64 | 5 => Some kDouble | 6 => Some kStrView | 7 => Some kRawStr
  | _ => None
  end.

(** [src/util/LogLine.cpp:42-58 logLevelToString] of the byte read back. *)
Definition logLevelToString (z : Z) : list byte :=
  match z with
  | 2 => bytes "INFO"
  | 3 => bytes "WARN"
  | 4 => bytes "ERROR"
  | 5 => bytes "DEBUG"
  | 1 => bytes "FATAL"
  | 0 => bytes "CLOSE"
  | _ => bytes "UNKNOWN"
  end.

(** [src/include/libfm/fmutil/LogLine.h:91-94 LogLine data members] *)
Record LogLine := mkLine {
  used_bytes_ : Z;
  buffer_size_ : Z;
  heap_buffer_ : option (list byte);
  stack_buffer_ : list byte
}.

(** [src/include/libfm/fmutil/LogLine.h:89-89 LogLine::kLogLineSize] *)
Definition kLogLineSize : Z := 128.
(** What the other members leave of it. *)
Definition stack_size : Z := kLogLineSize - 8 * 2 - 8.

(** [src/include/libfm/fmutil/LogLine.h:23-25 LogLine::LogLine] *)
Definition noLine : LogLine := mkLine 0 stack_size None (replicate (Z.to_nat stack_size) x00).

(** [src/include/libfm/fmutil/LogLine.h:32-33 LogLine::LogLine] The new line, and what is left of the old. *)
Definition move (l : LogLine) : LogLine * LogLine :=
  (l, mkLine (used_bytes_ l) (buffer_size_ l) None (stack_buffer_ l)).

(** The array in use: [buffer()] is [used_bytes_] behind its start. [src/util/LogLine.cpp:60-62 LogLine::buffer] *)
Definition storage (l : LogLine) : list byte := default (stack_buffer_ l) (heap_buffer_ l).

Definition set_storage (buf : list byte) (l : LogLine) : LogLine :=
  match heap_buffer_ l with
  | Some _ => mkLine (used_bytes_ l) (buffer_size_ l) (Some buf) (stack_buffer_ l)
  | None => mkLine (used_bytes_ l) (buffer_size_ l) None buf
  end.

(** A copy to [buffer() + off]. *)
Definition poke (off : Z) (bs : list byte) (l : LogLine) : result LogLine :=
  check! OutOfBounds ((0 <=? used_bytes_ l + off) && (used_bytes_ l + off + zlen bs <=? zlen (storage l)));
  Ok (set_storage (zwrite (used_bytes_ l + off) bs (storage l)) l).

Definition add_used (n : Z) (l : LogLine) : LogLine :=
  mkLine (used_bytes_ l + n) (buffer_size_ l) (heap_buffer_ l) (stack_buffer_ l).

(** [src/util/LogLine.cpp:64-68 LogLine::encode] of the object with the bytes [bs]. *)
Definition encode (bs : list byte) (l : LogLine) : result LogLine :=
  l ← poke 0 bs l;
  Ok (add_used (zlen bs) l).

(** [src/util/LogLine.cpp:165-179 LogLine::resizeBufferIfNeeded] *)
Definition resizeBufferIfNeeded (needed_bytes : Z) (l : LogLine) : result LogLine :=
  let required_size := used_bytes_ l + needed_bytes in
  if required_size <=? buffer_size_ l then Ok l
  else
    match heap_buffer_ l with
    | None =>
        let size := Z.max 512 required_size in
        check! OutOfBounds (used_bytes_ l <=? zlen (stack_buffer_ l));
        Ok (mkLine (used_bytes_ l) size
              (Some (zwrite 0 (ztake (used_bytes_ l) (stack_buffer_ l)) (replicate (Z.to_nat size) x00))) (stack_buffer_ l))
    | Some buf =>
        let size := Z.max (2 * buffer_size_ l) required_size in
        check! OutOfBounds (used_bytes_ l <=? zlen buf);
        Ok (mkLine (used_bytes_ l) size
              (Some (zwrite 0 (ztake (used_bytes_ l) buf) (replicate (Z.to_nat size) x00))) (stack_buffer_ l))
    end.

(** [src/util/LogLine.cpp:70-75 LogLine::encode] with a type in front. *)
Definition encode_typed (type : SupportedTypes) (bs : list byte) (l : LogLine) : result LogLine :=
  l ← resizeBufferIfNeeded (1 + zlen bs) l;
  l ← encode [byte_of (type_val type)] l;
  encode bs l.

(** [src/util/LogLine.cpp:81-89 LogLine::encodeString] of a view of a C string: the copy takes the NUL behind it too. *)
Definition encodeString (sv : list byte) (l : LogLine) : result LogLine :=
  if zlen sv =? 0 then Ok l
  else
    l ← resizeBufferIfNeeded (1 + zlen sv + 1) l;
    l ← poke 0 [byte_of (type_val kRawStr)] l;
    l ← poke 1 (sv ++ [x00]) l;
    Ok (add_used (1 + zlen sv + 1) l).

Section Objects.
Context `{HostOrder}.

(** A [std::string_view] object: length and address. *)
Definition view_object (p n : Z) : list byte := store 8 n ++ store 8 p.

(** [src/util/LogLine.cpp:77-79 LogLine::encodeStrView] *)
Definition encodeStrView (p n : Z) (l : LogLine) : result LogLine := encode_typed kStrView (view_object p n) l.

(** [src/util/LogLine.cpp:110-123 LogLine::LogLine] [now] is the reading of the clock; [file] and [func] are the
    addresses and lengths of the two string literals. *)
Definition newLine (now thread_id : Z) (level : LogLevel) (old_errno : Z) (file func : Z * Z) (line : Z) : result LogLine :=
  l ← encode (store 8 now) noLine;
  l ← encode (store 4 thread_id) l;
  l ← encode [byte_of (level_val level)] l;
  l ← encode (view_object (fst file) (snd file)) l;
  l ← encode (view_object (fst func) (snd func)) l;
  l ← encode (store 4 line) l;
  encode (store 4 old_errno) l.

(** ** The insertion operators *)

(** [src/util/LogLine.cpp:181-184 LogLine::operator<<(char)] *)
Definition insert_char (c : byte) (l : LogLine) : result LogLine := encode_typed kChar [c] l.
(** [src/util/LogLine.cpp:186-189 LogLine::operator<<(int32_t)] *)
Definition insert_int32 (i32 : Z) (l : LogLine) : result LogLine := encode_typed kInt32 (store 4 i32) l.
(** [src/util/LogLine.cpp:191-194 LogLine::operator<<(int64_t)] *)
Definition insert_int64 (i64 : Z) (l : LogLine) : result LogLine := encode_typed kInt64 (store 8 i64) l.
(** [src/util/LogLine.cpp:196-199 LogLine::operator<<(uint32_t)] *)
Definition insert_uint32 (u32 : Z) (l : LogLine) : result LogLine := encode_typed kUInt32 (store 4 u32) l.
(** [src/util/LogLine.cpp:201-204 LogLine::operator<<(uint64_t)] *)
Definition insert_uint64 (u64 : Z) (l : LogLine) : result LogLine := encode_typed kUInt64 (store 8 u64) l.
(** [src/util/LogLine.cpp:206-209 LogLine::operator<<(double)] of the representation [d]. *)
Definition insert_double (d : Z) (l : LogLine) : result LogLine := encode_typed kDouble (store 8 d) l.
(** [src/util/LogLine.cpp:211-214 LogLine::operator<<(const std::string &)] The string is passed on as a C string. *)
Definition insert_string (str : list byte) (l : LogLine) : result LogLine := encodeString (c_str (str ++ [x00])) l.
(** [src/util/LogLine.cpp:216-219 LogLine::operator<<(std::string_view)] *)
Definition insert_view (p n : Z) (l : LogLine) : result LogLine := encodeStrView p n l.
(** [src/util/LogLine.cpp:221-224 LogLine::operator<<] of a pointer. *)
Definition insert_pointer (vp : Z) (l : LogLine) : result LogLine := encode_typed kUInt64 (store 8 vp) l.

(** ** Reading back *)

Definition fetch (n : Z) (b : Z) (buf : list byte) : result (list byte) :=
  check! OutOfBounds ((0 <=? b) && (b + n <=? zlen buf));
  Ok (zslice b (b + n) buf).

Section Printing.
Variable objects : Z → option (list byte).
(** What the C++ library prints for a [double], and what [strerror] says. *)
Variable show_double : Z → list byte.
Variable strerror : Z → list byte.
Variable local_format : list byte → Z → list byte.

(** The characters of a [string_view], read now. *)
Definition view_text (p n : Z) : result (list byte) :=
  match objects p with
  | Some o => check! OutOfBounds (n <=? zlen o); Ok (ztake n o)
  | None => Fault UseAfterFree
  end.

(** A C string at an address, read now. *)
Definition text_at (p : Z) : result (list byte) :=
  match objects p with
  | Some o => check! OutOfBounds (std_find x00 o <? zlen o); Ok (c_str o)
  | None => Fault UseAfterFree
  end.

(** [src/include/libfm/fmutil/LogLine.h:47-65 LogLine::operator<<] of a [const char *] (or array): a view as long as the C
    string is now. *)
Definition insert_cstr (p : Z) (l : LogLine) : result LogLine :=
  s ← text_at p;
  encodeStrView p (zlen s) l.

(** [src/util/LogLine.cpp:91-96 LogLine::decode] of an object of [n] bytes printed with [show]. *)
Definition decode (n : Z) (show : list byte → list byte) (os : list byte) (b : Z) (buf : list byte) :
    result (list byte * Z) :=
  bs ← fetch n b buf;
  Ok (os ++ show bs, b + n).

(** [src/util/LogLine.cpp:98-102 LogLine::decodeStrView] *)
Definition decodeStrView (os : list byte) (b : Z) (buf : list byte) : result (list byte * Z) :=
  bs ← fetch 16 b buf;
  sv ← view_text (load (zdrop 8 bs)) (load (ztake 8 bs));
  Ok (os ++ sv, b + 16).

(** [src/util/LogLine.cpp:104-108 LogLine::decodeRawStr] *)
Definition decodeRawStr (os : list byte) (b : Z) (buf : list byte) : result (list byte * Z) :=
  let sv := c_str (zdrop b buf) in
  check! OutOfBounds (b + zlen sv <? zlen buf);
  Ok (os ++ sv, b + (zlen sv + 1)).

Definition show_unsigned (bs : list byte) : list byte := dec (load bs).
Definition show_signed (bs : list byte) : list byte := dec (to_signed (8 * zlen bs) (load bs)).

(** [src/util/LogLine.cpp:226-258 LogLine::stringify] of the values between [b] and [last]; every round
    reads at least the byte of the type, so [last - b] rounds are enough. *)
Fixpoint stringify_values (fuel : nat) (os : list byte) (b last : Z) (buf : list byte) : result (list byte) :=
  match fuel with
  | O => Ok os
  | S fuel =>
      if b <? last then
        t ← fetch 1 b buf;
        let b := b + 1 in
        match type_of (load t) with
        | Some kChar => '(os, b) ← decode 1 id os b buf; stringify_values fuel os b last buf
        | Some kInt32 => '(os, b) ← decode 4 show_signed os b buf; stringify_values fuel os b last buf
        | Some kInt64 => '(os, b) ← decode 8 show_signed os b buf; stringify_values fuel os b last buf
        | Some kUInt32 => '(os, b) ← decode 4 show_unsigned os b buf; stringify_values fuel os b last buf
        | Some kUInt64 => '(os, b) ← decode 8 show_unsigned os b buf; stringify_values fuel os b last buf
        | Some kDouble => '(os, b) ← decode 8 (fun bs => show_double (load bs)) os b buf; stringify_values fuel os b last buf
        | Some kStrView => '(os, b) ← decodeStrView os b buf; stringify_values fuel os b last buf
        | Some kRawStr => '(os, b) ← decodeRawStr os b buf; stringify_values fuel os b last buf
        | None => Ok os
        end
      else Ok os
  end.

(** [basename] of the C library: what is behind the last slash. *)
Definition basename (path : list byte) : list byte :=
  reverse (ztake (std_find x2f (reverse path)) (reverse path)).

(** [src/util/LogLine.cpp:125-163 LogLine::stringify] What is printed, and whether the program aborts then. *)
Definition stringify (l : LogLine) : result (list byte * bool) :=
  let buf := storage l in
  let b := 0 in
  let last := b + used_bytes_ l in
  timestamp ← fetch 8 b buf;
  let b := b + 8 in
  thread_id ← fetch 4 b buf;
  let b := b + 4 in
  log_level ← fetch 1 b buf;
  let b := b + 1 in
  file ← fetch 16 b buf;
  let b := b + 16 in
  func ← fetch 16 b buf;
  let b := b + 16 in
  line ← fetch 4 b buf;
  let b := b + 4 in
  old_errno ← fetch 4 b buf;
  let b := b + 4 in
  let os := TimeStamp.toString local_format true (to_signed 64 (load timestamp)) ++ bytes " " ++ show_signed thread_id in
  func_text ← view_text (load (zdrop 8 func)) (load (ztake 8 func));
  let os := os ++ bytes " [" ++ logLevelToString (load log_level) ++ bytes "] <" ++ func_text ++ bytes "> " in
  let err := to_signed 32 (load old_errno) in
  let os := if negb (err =? 0) then os ++ bytes "(" ++ strerror err ++ bytes ") " else os in
  os ← stringify_values (Z.to_nat (last - b)) os b last buf;
  file_text ← text_at (load (zdrop 8 file));
  let os := os ++ bytes " - " ++ basename file_text ++ bytes ":" ++ show_unsigned line ++ [LF] in
  Ok (os, load log_level =? level_val kFATAL).
End Printing.
End Objects.
End LogLine.
