(* ===== verification/LogLineSpec.v ===== *)
(** * What a log line promises

    What has been inserted is what is printed, in the same order, however often the buffer had to grow. *)
From stdpp Require Import base list numbers strings.
From Stdlib Require Import ZArith Lia Init.Byte.
From S2P Require Import Prelude.
From S2P Require Import Endian.
From S2P Require Import Time.
From S2P Require Import LogLine.
Import LogLine.LogLine.
#[local] Open Scope Z_scope.
#[local] Open Scope fm_scope.

(** [l] has been filled with [content]. *)
Record holds (l : LogLine) (content : list byte) : Prop := {
  hd_used : used_bytes_ l = zlen content;
  hd_size : buffer_size_ l = zlen (storage l);
  hd_stack : zlen (stack_buffer_ l) = stack_size;
  hd_content : ∃ junk, storage l = content ++ junk
}.

Lemma holds_used_size l c : holds l c → zlen c ≤ buffer_size_ l.
Proof. intros [_ Hs _ [junk Hj]]. rewrite Hs, Hj, zlen_app. pose proof (zlen_nonneg junk). lia. Qed.

Lemma zwrite_behind {A} (c bs junk : list A) : zwrite (zlen c) bs (c ++ junk) = c ++ bs ++ zdrop (zlen bs) junk.
Proof.
  unfold zwrite. rewrite ztake_app_le, (ztake_all (zlen c)) by lia.
  pose proof (zlen_nonneg bs). rewrite zdrop_app_ge by lia. by replace (zlen c + zlen bs - zlen c) with (zlen bs) by lia.
Qed.

Lemma storage_set buf l : storage (set_storage buf l) = buf.
Proof. unfold storage, set_storage. by destruct (heap_buffer_ l). Qed.

Lemma set_storage_frame buf l :
  used_bytes_ (set_storage buf l) = used_bytes_ l ∧ buffer_size_ (set_storage buf l) = buffer_size_ l ∧
  (zlen buf = zlen (storage l) → zlen (stack_buffer_ l) = stack_size → zlen (stack_buffer_ (set_storage buf l)) = stack_size).
Proof. unfold set_storage, storage. destruct (heap_buffer_ l); split_and!; simpl; congruence. Qed.

(** A copy behind the content. *)
Lemma poke_ok l c d bs :
  zlen c = used_bytes_ l → (∃ junk, storage l = c ++ d ++ junk) → zlen c + zlen d + zlen bs ≤ zlen (storage l) →
  ∃ l', poke (zlen d) bs l = Ok l' ∧ used_bytes_ l' = used_bytes_ l ∧ buffer_size_ l' = buffer_size_ l ∧
    zlen (storage l') = zlen (storage l) ∧ (zlen (stack_buffer_ l) = stack_size → zlen (stack_buffer_ l') = stack_size) ∧
    ∃ junk, storage l' = c ++ (d ++ bs) ++ junk.
Proof.
  intros Hc [junk Hj] Hfit. unfold poke. rewrite <- Hc.
  pose proof (zlen_nonneg c). pose proof (zlen_nonneg d). pose proof (zlen_nonneg bs).
  replace ((0 <=? zlen c + zlen d) && (zlen c + zlen d + zlen bs <=? zlen (storage l))) with true
    by (symmetry; apply andb_true_intro; split; apply Z.leb_le; lia).
  cbn [ensure]. rewrite bind_Ok. eexists. split; [done|].
  assert (Hw : zwrite (zlen c + zlen d) bs (storage l) = (c ++ d) ++ bs ++ zdrop (zlen bs) junk).
  { rewrite Hj, app_assoc, <- zlen_app. apply zwrite_behind. }
  assert (Hlen : zlen (zwrite (zlen c + zlen d) bs (storage l)) = zlen (storage l)) by (apply zlen_zwrite; lia).
  destruct (set_storage_frame (zwrite (zlen c + zlen d) bs (storage l)) l) as (Hu & Hs & Hst).
  rewrite storage_set. split_and!; [congruence | done | done | by apply Hst|].
  eexists. rewrite Hw, <- !app_assoc. done.
Qed.

Lemma holds_add_used l c bs :
  used_bytes_ l = zlen c → buffer_size_ l = zlen (storage l) → zlen (stack_buffer_ l) = stack_size →
  (∃ junk, storage l = c ++ bs ++ junk) → holds (add_used (zlen bs) l) (c ++ bs).
Proof.
  intros Hu Hs Hst [junk Hj]. constructor; cbn [used_bytes_ buffer_size_ stack_buffer_ add_used]; try done.
  - rewrite zlen_app. lia.
  - exists junk. by rewrite <- app_assoc.
Qed.

Lemma encode_ok l c bs :
  holds l c → zlen c + zlen bs ≤ buffer_size_ l →
  ∃ l', encode bs l = Ok l' ∧ holds l' (c ++ bs) ∧ buffer_size_ l' = buffer_size_ l.
Proof.
  intros [Hu Hs Hst [junk Hj]] Hfit. unfold encode.
  destruct (poke_ok l c [] bs) as (l' & Hp & Hu' & Hs' & Hlen & Hst' & Hc'); [done | by exists junk | change (zlen (@nil byte)) with 0; lia|].
  change (zlen (@nil byte)) with 0 in Hp. rewrite Hp, bind_Ok. eexists. split; [done|]. split; [|done].
  apply holds_add_used; [congruence | congruence | by apply Hst' | done].
Qed.

(** The array grows when it has to. *)
Lemma resize_ok l c n :
  holds l c → 0 ≤ n →
  ∃ l', resizeBufferIfNeeded n l = Ok l' ∧ holds l' c ∧ zlen c + n ≤ buffer_size_ l'.
Proof.
  intros Hh Hn. pose proof (holds_used_size l c Hh) as Hle. destruct Hh as [Hu Hs Hst [junk Hj]]. unfold resizeBufferIfNeeded.
  destruct (Z.leb_spec (used_bytes_ l + n) (buffer_size_ l)); [exists l; split; [done|]; split; [by constructor; eauto | lia]|].
  assert (Hgrow : ∀ size, used_bytes_ l + n ≤ size → 
    holds (mkLine (used_bytes_ l) size (Some (zwrite 0 (ztake (used_bytes_ l) (storage l)) (replicate (Z.to_nat size) x00))) (stack_buffer_ l)) c).
  { intros size Hsize. pose proof (zlen_nonneg c).
    assert (Ht : ztake (used_bytes_ l) (storage l) = c) by (rewrite Hj, Hu, ztake_app_le, ztake_all by lia; done).
    assert (Hr : zlen (replicate (Z.to_nat size) x00) = size) by (unfold zlen; rewrite length_replicate; lia).
    constructor; cbn [used_bytes_ buffer_size_ stack_buffer_]; [done | | done |].
    - rewrite Ht. unfold storage; cbn [heap_buffer_ default from_option id]. rewrite zlen_zwrite; rewrite ?Hr; lia.
    - rewrite Ht. unfold storage; cbn [heap_buffer_ default from_option id]. exists (zdrop (zlen c) (replicate (Z.to_nat size) x00)). unfold zwrite. by rewrite ztake_0 by lia. }
  unfold storage in *. destruct (heap_buffer_ l) as [buf|] eqn:Hb; cbn [default from_option id] in *.
  all: rewrite (proj2 (Z.leb_le _ _)) by lia; cbn [ensure]; rewrite bind_Ok; eexists; split; [done|].
  all: split; [apply Hgrow; lia | cbn [buffer_size_]; lia].
Qed.

Lemma encode_typed_ok l c t bs :
  holds l c → ∃ l', encode_typed t bs l = Ok l' ∧ holds l' (c ++ byte_of (type_val t) :: bs).
Proof.
  intros Hh. unfold encode_typed. pose proof (zlen_nonneg bs).
  destruct (resize_ok l c (1 + zlen bs) Hh ltac:(lia)) as (l1 & -> & Hh1 & Hfit). rewrite bind_Ok.
  destruct (encode_ok l1 c [byte_of (type_val t)] Hh1) as (l2 & -> & Hh2 & Hs2); [change (zlen [_]) with 1; lia|].
  rewrite bind_Ok. destruct (encode_ok l2 _ bs Hh2) as (l3 & -> & Hh3 & _).
  { rewrite Hs2, zlen_app. change (zlen [_]) with 1. lia. }
  exists l3. split; [done|]. by rewrite <- app_assoc in Hh3.
Qed.

Lemma encodeString_ok l c s :
  holds l c → ∃ l', encodeString s l = Ok l' ∧
    holds l' (c ++ (if bool_decide (s = []) then [] else byte_of (type_val kRawStr) :: s ++ [x00])).
Proof.
  intros Hh. unfold encodeString. destruct s as [|b s]; [exists l; by rewrite app_nil_r|].
  rewrite bool_decide_eq_false_2 by done. set (t := b :: s). pose proof (zlen_nonneg s).
  assert (Hlen : zlen t = 1 + zlen s) by apply zlen_cons. destruct (Z.eqb_spec (zlen t) 0); [lia|].
  destruct (resize_ok l c (1 + zlen t + 1) Hh ltac:(lia)) as (l1 & -> & [Hu Hs Hst [junk Hj]] & Hfit). rewrite bind_Ok.
  destruct (poke_ok l1 c [] [byte_of (type_val kRawStr)]) as (l2 & Hp & Hu2 & Hs2 & Hl2 & Hst2 & Hc2);
    [done | by exists junk | change (zlen (@nil byte)) with 0; change (zlen [_]) with 1; lia|].
  change (zlen (@nil byte)) with 0 in Hp. rewrite Hp, bind_Ok.
  destruct (poke_ok l2 c [byte_of (type_val kRawStr)] (t ++ [x00])) as (l3 & Hp3 & Hu3 & Hs3 & Hl3 & Hst3 & Hc3);
    [congruence | done | rewrite zlen_app; change (zlen [_]) with 1; lia|].
  change (zlen [_]) with 1 in Hp3. rewrite Hp3, bind_Ok. eexists. split; [done|].
  replace (1 + zlen t + 1) with (zlen ([byte_of (type_val kRawStr)] ++ t ++ [x00])) by
    (rewrite !zlen_app; change (zlen [_]) with 1; change (zlen [x00]) with 1; lia).
  apply holds_add_used; [congruence | congruence | auto | done].
Qed.

(** ** Values *)
Section Values.
Context `{HostOrder}.

Inductive value :=
  | VChar (c : byte) | VInt32 (z : Z) | VInt64 (z : Z) | VUInt32 (z : Z) | VUInt64 (z : Z)
  | VDouble (d : Z) | VString (s : list byte) | VView (p n : Z) | VPointer (p : Z).

Definition valid (v : value) : Prop :=
  match v with
  | VChar _ | VString _ => True
  | VInt32 z => - 2 ^ 31 ≤ z < 2 ^ 31
  | VInt64 z => - 2 ^ 63 ≤ z < 2 ^ 63
  | VUInt32 z => 0 ≤ z < 2 ^ 32
  | VUInt64 z | VDouble z | VPointer z => 0 ≤ z < 2 ^ 64
  | VView p n => 0 ≤ p < 2 ^ 64 ∧ 0 ≤ n < 2 ^ 64
  end.

(** [operator<<] of the value's type. *)
Definition insert (v : value) : LogLine → result LogLine :=
  match v with
  | VChar c => insert_char c
  | VInt32 z => insert_int32 z
  | VInt64 z => insert_int64 z
  | VUInt32 z => insert_uint32 z
  | VUInt64 z => insert_uint64 z
  | VDouble d => insert_double d
  | VString s => insert_string s
  | VView p n => insert_view p n
  | VPointer p => insert_pointer p
  end.

(** The bytes of a value in a line: nothing for an empty string, a tag and a body otherwise. *)
Definition tag (v : value) : SupportedTypes :=
  match v with
  | VChar _ => kChar
  | VInt32 _ => kInt32
  | VInt64 _ => kInt64
  | VUInt32 _ => kUInt32
  | VUInt64 _ | VPointer _ => kUInt64
  | VDouble _ => kDouble
  | VString _ => kRawStr
  | VView _ _ => kStrView
  end.

Definition body (v : value) : list byte :=
  match v with
  | VChar c => [c]
  | VInt32 z | VUInt32 z => store 4 z
  | VInt64 z | VUInt64 z | VPointer z | VDouble z => store 8 z
  | VString s => c_str (s ++ [x00]) ++ [x00]
  | VView p n => view_object p n
  end.

Definition enc (v : value) : list byte :=
  match v with
  | VString s => if bool_decide (c_str (s ++ [x00]) = []) then [] else byte_of (type_val (tag v)) :: body v
  | _ => byte_of (type_val (tag v)) :: body v
  end.

Lemma enc_tagged v : enc v ≠ [] → enc v = [byte_of (type_val (tag v))] ++ body v.
Proof. destruct v; cbn [enc]; try done. by case_bool_decide. Qed.

Lemma insert_ok l c v : holds l c → ∃ l', insert v l = Ok l' ∧ holds l' (c ++ enc v).
Proof. intros Hh. destruct v; try (by apply encode_typed_ok). by apply encodeString_ok. Qed.

Lemma inserts_ok vs l c : holds l c → ∃ l', foldM insert vs l = Ok l' ∧ holds l' (c ++ vs ≫= enc).
Proof.
  revert l c. induction vs as [|v vs IH]; intros l c Hh; [exists l; by rewrite app_nil_r|].
  destruct (insert_ok l c v Hh) as (l1 & H1 & Hh1). cbn [foldM]. rewrite H1, bind_Ok.
  destruct (IH l1 _ Hh1) as (l2 & H2 & Hh2). exists l2. split; [done|]. cbn [mbind list_bind]. by rewrite app_assoc.
Qed.

Lemma load_one b : load [b] = byte_val b.
Proof. unfold load, be_val. destruct host_little; cbn [reverse rev_append le_val]; simpl le_val; lia. Qed.

Lemma load_type t : type_of (load [byte_of (type_val t)]) = Some t.
Proof. rewrite load_one, byte_val_of. by destruct t. Qed.

Lemma load_store_small n z : 0 ≤ z < 256 ^ Z.of_nat n → load (store n z) = z.
Proof. intros. rewrite load_store. by apply Z.mod_small. Qed.

Lemma signed_load_store n z :
  (0 < n)%nat → - 2 ^ (8 * Z.of_nat n - 1) ≤ z < 2 ^ (8 * Z.of_nat n - 1) → to_signed (8 * Z.of_nat n) (load (store n z)) = z.
Proof.
  intros Hn Hz. rewrite load_store. replace (256 ^ Z.of_nat n) with (2 ^ (8 * Z.of_nat n)) by (by rewrite Z.pow_mul_r by lia).
  rewrite to_signed_mod by lia. apply to_signed_id; lia.
Qed.

Lemma zlen_store n z : zlen (store n z) = Z.of_nat n.
Proof. unfold zlen. by rewrite length_store. Qed.

Lemma show_signed_store n z :
  (0 < n)%nat → - 2 ^ (8 * Z.of_nat n - 1) ≤ z < 2 ^ (8 * Z.of_nat n - 1) → show_signed (store n z) = dec z.
Proof. intros. unfold show_signed. by rewrite zlen_store, signed_load_store. Qed.

Lemma show_unsigned_store n z : 0 ≤ z < 256 ^ Z.of_nat n → show_unsigned (store n z) = dec z.
Proof. intros. unfold show_unsigned. by rewrite load_store_small. Qed.

Lemma zlen_view p n : zlen (view_object p n) = 16.
Proof. unfold view_object. rewrite zlen_app, !zlen_store. done. Qed.

Lemma view_parts p n :
  0 ≤ p < 2 ^ 64 → 0 ≤ n < 2 ^ 64 → load (zdrop 8 (view_object p n)) = p ∧ load (ztake 8 (view_object p n)) = n.
Proof.
  intros Hp Hn. unfold view_object. pose proof (zlen_store 8 n) as Hl. change (Z.of_nat 8) with 8 in Hl.
  rewrite zdrop_app_ge, ztake_app_le, zdrop_0, ztake_all by lia. by rewrite !load_store_small.
Qed.

Lemma fetch_at n pre bs post : zlen bs = n → fetch n (zlen pre) (pre ++ bs ++ post) = Ok bs.
Proof.
  intros <-. unfold fetch. pose proof (zlen_nonneg pre). pose proof (zlen_nonneg post). pose proof (zlen_nonneg bs).
  rewrite !zlen_app, !(proj2 (Z.leb_le _ _)) by lia. cbn [andb ensure]. rewrite bind_Ok.
  unfold zslice. rewrite zdrop_app_ge, zdrop_0, ztake_app_le, ztake_all by lia. done.
Qed.

Lemma decode_at n show os pre bs post :
  zlen bs = n → decode n show os (zlen pre) (pre ++ bs ++ post) = Ok (os ++ show bs, zlen (pre ++ bs)).
Proof. intros <-. unfold decode. rewrite fetch_at, bind_Ok by done. by rewrite zlen_app. Qed.

Section Texts.
Variable objects : Z → option (list byte).
Variable show_double : Z → list byte.

(** What a value looks like, printed while memory is [objects]. *)
Definition value_text (v : value) : result (list byte) :=
  match v with
  | VChar c => Ok [c]
  | VInt32 z | VInt64 z | VUInt32 z | VUInt64 z | VPointer z => Ok (dec z)
  | VDouble d => Ok (show_double d)
  | VString s => Ok (c_str (s ++ [x00]))
  | VView p n => view_text objects p n
  end.

Definition values_text (vs : list value) (os : list byte) : result (list byte) :=
  foldM (fun v os => t ← value_text v; Ok (os ++ t)) vs os.

(** One value is read back. *)
Lemma stringify_one fuel os pre v post last :
  valid v → zlen pre < last → enc v ≠ [] →
  stringify_values objects show_double (S fuel) os (zlen pre) last (pre ++ enc v ++ post) =
  (t ← value_text v; stringify_values objects show_double fuel (os ++ t) (zlen (pre ++ enc v)) last (pre ++ enc v ++ post)).
Proof.
  intros Hv Hlt Hne. cbn [stringify_values]. rewrite (proj2 (Z.ltb_lt _ _)) by done.
  assert (Hf : fetch 1 (zlen pre) (pre ++ enc v ++ post) = Ok [byte_of (type_val (tag v))]).
  { rewrite enc_tagged, <- app_assoc by done. by apply fetch_at. }
  rewrite Hf, bind_Ok, load_type. rewrite enc_tagged by done.
  set (pre1 := pre ++ [byte_of (type_val (tag v))]).
  replace (zlen pre + 1) with (zlen pre1) by (unfold pre1; by rewrite zlen_app).
  replace (pre ++ (_ ++ body v) ++ post) with (pre1 ++ body v ++ post) by (unfold pre1; by rewrite <- !app_assoc).
  replace (pre ++ _ ++ body v) with (pre1 ++ body v) by (unfold pre1; by rewrite <- !app_assoc).
  clearbody pre1. clear Hf Hne. destruct v as [c|z|z|z|z|d|s|p n|p]; cbn [tag body value_text]; cbn [valid] in Hv.
  1-6, 9: rewrite decode_at by (apply zlen_store || done); rewrite !bind_Ok; unfold id;
    rewrite ?show_signed_store, ?show_unsigned_store, ?load_store_small by (simpl; lia); done.
  - unfold decodeRawStr. rewrite zdrop_app_ge, zdrop_0 by lia.
    set (t := c_str (s ++ [x00])). rewrite <- (app_assoc t).
    assert (Hc : c_str (t ++ [x00] ++ post) = t) by (apply c_str_app; apply c_str_clean).
    rewrite Hc, !zlen_app. change (zlen [x00]) with 1. pose proof (zlen_nonneg post).
    rewrite (proj2 (Z.ltb_lt _ _)) by lia. cbn [ensure]. rewrite !bind_Ok. done.
  - destruct Hv as [Hp Hn]. destruct (view_parts p n Hp Hn) as [E1 E2].
    unfold decodeStrView. rewrite fetch_at, bind_Ok, E1, E2 by apply zlen_view.
    destruct (view_text objects p n) as [t|f]; [|done]. rewrite !bind_Ok, zlen_app, zlen_view. done.
Qed.

Lemma stringify_values_ok vs fuel os pre post :
  Forall valid vs → zlen (vs ≫= enc) ≤ Z.of_nat fuel →
  stringify_values objects show_double fuel os (zlen pre) (zlen pre + zlen (vs ≫= enc)) (pre ++ (vs ≫= enc) ++ post) =
  values_text vs os.
Proof.
  revert fuel os pre. induction vs as [|v vs IH]; intros fuel os pre Hv Hf.
  - destruct fuel; [done|]. cbn [stringify_values]. change (zlen (@nil value ≫= enc)) with 0. by rewrite Z.add_0_r, Z.ltb_irrefl.
  - apply Forall_cons in Hv as [Hv Hvs]. cbn [mbind list_bind]. unfold values_text. cbn [foldM].
    destruct (decide (enc v = [])) as [He|He].
    + assert (Ht : value_text v = Ok []).
      { destruct v; try done. cbn [enc value_text] in *. case_bool_decide as Hs; [by rewrite Hs | done]. }
      rewrite Ht, !bind_Ok, app_nil_r, He. apply IH; [done|]. cbn [mbind list_bind] in Hf. by rewrite He in Hf.
    + cbn [mbind list_bind] in Hf. rewrite zlen_app in Hf. pose proof (zlen_nonneg (vs ≫= enc)).
      assert (1 ≤ zlen (enc v)).
      { rewrite (enc_tagged v He), zlen_app. change (zlen [_]) with 1. pose proof (zlen_nonneg (body v)). lia. }
      destruct fuel as [|fuel]; [lia|]. rewrite zlen_app, <- app_assoc, stringify_one by (done || lia).
      destruct (value_text v) as [t|f]; [|done]. rewrite !bind_Ok.
      change (foldM _ vs (os ++ t)) with (values_text vs (os ++ t)). rewrite <- (IH fuel (os ++ t) (pre ++ enc v)) by (done || lia). f_equal; [rewrite zlen_app; lia | by rewrite <- !app_assoc].
Qed.
End Texts.

(** ** The header *)

Record header := mkHeader {
  h_now : Z; h_thread : Z; h_level : LogLevel; h_errno : Z; h_file : Z * Z; h_func : Z * Z; h_line : Z
}.

Definition valid_view (v : Z * Z) : Prop := 0 ≤ fst v < 2 ^ 64 ∧ 0 ≤ snd v < 2 ^ 64.

Definition valid_header (h : header) : Prop :=
  - 2 ^ 63 ≤ h_now h < 2 ^ 63 ∧ - 2 ^ 31 ≤ h_thread h < 2 ^ 31 ∧ - 2 ^ 31 ≤ h_errno h < 2 ^ 31 ∧
  valid_view (h_file h) ∧ valid_view (h_func h) ∧ 0 ≤ h_line h < 2 ^ 32.

Definition line_of (h : header) : result LogLine :=
  newLine (h_now h) (h_thread h) (h_level h) (h_errno h) (h_file h) (h_func h) (h_line h).

Definition fields (h : header) : list (list byte) :=
  [store 8 (h_now h); store 4 (h_thread h); [byte_of (level_val (h_level h))];
   view_object (fst (h_file h)) (snd (h_file h)); view_object (fst (h_func h)) (snd (h_func h));
   store 4 (h_line h); store 4 (h_errno h)].

Lemma noLine_holds : holds noLine [].
Proof. constructor; try done. by eexists. Qed.

Lemma encodes_ok l c bss :
  holds l c → zlen c + zlen (concat bss) ≤ buffer_size_ l →
  ∃ l', foldM encode bss l = Ok l' ∧ holds l' (c ++ concat bss).
Proof.
  revert l c. induction bss as [|bs bss IH]; intros l c Hh Hle; [exists l; by rewrite app_nil_r|].
  cbn [concat] in Hle. rewrite zlen_app in Hle. pose proof (zlen_nonneg (concat bss)).
  destruct (encode_ok l c bs Hh ltac:(lia)) as (l1 & H1 & Hh1 & Hs1). cbn [foldM]. rewrite H1, bind_Ok.
  destruct (IH l1 (c ++ bs) Hh1) as (l2 & H2 & Hh2); [rewrite zlen_app; lia|].
  exists l2. split; [done|]. cbn [concat]. by rewrite app_assoc.
Qed.

Lemma fields_length h : zlen (concat (fields h)) = 53.
Proof. unfold fields. cbn [concat]. rewrite !zlen_app, !zlen_store, !zlen_view. done. Qed.

(** The header always fits in the object's own array. *)
Lemma line_of_ok h : ∃ l, line_of h = Ok l ∧ holds l (concat (fields h)).
Proof.
  destruct (encodes_ok noLine [] (fields h) noLine_holds) as (l & Hl & Hh).
  { rewrite fields_length. change (zlen (@nil byte)) with 0. change (buffer_size_ noLine) with 104. lia. }
  exists l. split; [|done]. rewrite <- Hl. unfold line_of, newLine, fields. cbn [foldM].
  repeat (match goal with |- context [encode ?a ?b ≫= _] => destruct (encode a b); [|done] end; rewrite ?bind_Ok).
  done.
Qed.

Section Lines.
Variable objects : Z → option (list byte).
Variable show_double : Z → list byte.
Variable strerror : Z → list byte.
Variable local_format : list byte → Z → list byte.

(** The text in front of the values. *)
Definition front (h : header) (func_text : list byte) : list byte :=
  (TimeStamp.toString local_format true (h_now h) ++ bytes " " ++ dec (h_thread h)) ++
  bytes " [" ++ logLevelToString (level_val (h_level h)) ++ bytes "] <" ++ func_text ++ bytes "> ".

(** The whole line. *)
Definition line_text (h : header) (vs : list value) : result (list byte * bool) :=
  func_text ← view_text objects (fst (h_func h)) (snd (h_func h));
  os ← values_text objects show_double vs
         (if negb (h_errno h =? 0) then front h func_text ++ bytes "(" ++ strerror (h_errno h) ++ bytes ") " else front h func_text);
  file_text ← text_at objects (fst (h_file h));
  Ok (os ++ bytes " - " ++ basename file_text ++ bytes ":" ++ dec (h_line h) ++ [LF], bool_decide (h_level h = kFATAL)).

(** The fields are found where the constructor has put them. *)
Lemma fetch_field h more i n b bs :
  fields h !! i = Some bs → zlen bs = n → zlen (concat (take i (fields h))) = b →
  fetch n b (concat (fields h) ++ more) = Ok bs.
Proof.
  intros Hi Hn <-. rewrite <- (take_drop_middle _ _ _ Hi) at 2.
  rewrite concat_app, <- !app_assoc. cbn [concat]. rewrite <- !app_assoc. by apply fetch_at.
Qed.

Ltac field i n b :=
  erewrite (fetch_field _ _ i n b) by
    (reflexivity || apply zlen_store || apply zlen_view ||
     (cbn [fields take concat]; rewrite ?zlen_app, ?zlen_store, ?zlen_view; reflexivity));
  rewrite bind_Ok.

Lemma stringify_holds h vs l :
  valid_header h → Forall valid vs → holds l (concat (fields h) ++ vs ≫= enc) →
  stringify objects show_double strerror local_format l = line_text h vs.
Proof.
  intros (Hnow & Hth & Herr & [Hfile Hfilen] & [Hfunc Hfuncn] & Hline) Hvs [Hu _ _ [junk Hj]].
  unfold stringify, line_text. rewrite Hj, Hu, zlen_app, fields_length. cbv zeta. rewrite <- app_assoc.
  change (0 + 8) with 8. change (8 + 4) with 12. change (12 + 1) with 13. change (13 + 16) with 29.
  change (29 + 16) with 45. change (45 + 4) with 49. change (49 + 4) with 53.
  field 0%nat 8 0. field 1%nat 4 8. field 2%nat 1 12. field 3%nat 16 13. field 4%nat 16 29. field 5%nat 4 45. field 6%nat 4 49.
  destruct (view_parts (fst (h_file h)) (snd (h_file h)) Hfile Hfilen) as [-> _].
  destruct (view_parts (fst (h_func h)) (snd (h_func h)) Hfunc Hfuncn) as [-> ->].
  destruct (view_text objects _ _) as [ft|f]; [|done]. rewrite !bind_Ok.
  rewrite (signed_load_store 4), (signed_load_store 8) by (simpl; lia).
  rewrite show_signed_store, show_unsigned_store by (simpl; lia).
  rewrite load_one, byte_val_of. replace (level_val (h_level h) mod 256) with (level_val (h_level h)) by by destruct (h_level h).
  replace (level_val (h_level h) =? level_val kFATAL) with (bool_decide (h_level h = kFATAL)) by by destruct (h_level h).
  replace (0 + (53 + zlen (vs ≫= enc)) - 53) with (zlen (vs ≫= enc)) by lia.
  rewrite <- (fields_length h). rewrite Z.add_0_l, stringify_values_ok by (done || lia).
  unfold front. done.
Qed.

(** C12. What has been inserted into a line is what is printed, and in that order: for every header and
    every sequence of values, whatever their number and sizes, building the line does not fault - the
    array grows when it must - and [stringify] gives the header, the text of each value (as far as a string goes
    before its first NUL, and what a view refers to when it is printed), the file's base name and the line; and a
    line of the level [kFATAL], and no other, aborts the program. *)
Theorem logline_roundtrip h vs :
  valid_header h → Forall valid vs →
  ∃ l0 l, line_of h = Ok l0 ∧ foldM insert vs l0 = Ok l ∧
    stringify objects show_double strerror local_format l = line_text h vs.
Proof.
  intros Hh Hvs. destruct (line_of_ok h) as (l0 & Hl0 & Hh0). destruct (inserts_ok vs l0 _ Hh0) as (l & Hl & Hhl).
  exists l0, l. split; [done|]. split; [done|]. by apply stringify_holds.
Qed.
End Lines.

(** A string is copied into its line, but of a C string or a [string_view] only the address is
    kept: printed (by another thread, maybe) when the characters are gone, the line reads freed memory; the copied
    string is still there. *)
Theorem views_do_not_keep objects objects' show_double strerror local_format h p s n ft file :
  valid_header h → 0 ≤ p < 2 ^ 64 → 0 ≤ n < 2 ^ 64 → zlen s < 2 ^ 64 → text_at objects p = Ok s → objects' p = None →
  view_text objects' (fst (h_func h)) (snd (h_func h)) = Ok ft → text_at objects' (fst (h_file h)) = Ok file →
  (∃ l0 l, line_of h = Ok l0 ∧ insert_cstr objects p l0 = Ok l ∧
     stringify objects' show_double strerror local_format l = Fault UseAfterFree) ∧
  (∃ l0 l, line_of h = Ok l0 ∧ insert_view p n l0 = Ok l ∧
     stringify objects' show_double strerror local_format l = Fault UseAfterFree) ∧
  (∃ l0 l text, line_of h = Ok l0 ∧ insert_string s l0 = Ok l ∧
     stringify objects' show_double strerror local_format l = Ok (text, bool_decide (h_level h = kFATAL))).
Proof.
  intros Hh Hp Hn Hs Ht Hgone Hft Hfile. pose proof (zlen_nonneg s) as Hs0.
  assert (Hb : ∀ v, ∃ l0 l, line_of h = Ok l0 ∧ insert v l0 = Ok l ∧ (valid v →
    stringify objects' show_double strerror local_format l = line_text objects' show_double strerror local_format h [v])).
  { intros v. destruct (line_of_ok h) as (l0 & Hl0 & Hh0). destruct (insert_ok l0 _ v Hh0) as (l & Hl & Hhl).
    exists l0, l. split_and!; [done..|]. intros Hv. apply stringify_holds; [done | by constructor|].
    cbn [mbind list_bind]. by rewrite app_nil_r. }
  assert (Hview : ∀ m, line_text objects' show_double strerror local_format h [VView p m] = Fault UseAfterFree).
  { intros m. unfold line_text. rewrite Hft, bind_Ok. unfold values_text. cbn [foldM value_text]. unfold view_text.
    by rewrite Hgone. }
  split_and!.
  - destruct (Hb (VView p (zlen s))) as (l0 & l & H0 & H1 & H2). exists l0, l. split; [done|].
    unfold insert_cstr. rewrite Ht, bind_Ok. split; [exact H1|]. by rewrite H2, Hview.
  - destruct (Hb (VView p n)) as (l0 & l & H0 & H1 & H2). exists l0, l. split_and!; [done | exact H1|].
    by rewrite H2, Hview.
  - destruct (Hb (VString s)) as (l0 & l & H0 & H1 & H2). eexists l0, l, _. split_and!; [done | exact H1|].
    rewrite H2 by done. unfold line_text. rewrite Hft, bind_Ok. unfold values_text. cbn [foldM value_text].
    rewrite !bind_Ok, Hfile, bind_Ok. done.
Qed.
End Values.

(** ** Concrete lines *)
Definition demo_objects (p : Z) : option (list byte) :=
  if p =? 100 then Some (bytes "/src/main.cpp" ++ [x00])
  else if p =? 200 then Some (bytes "main" ++ [x00])
  else if p =? 300 then Some (bytes "hello" ++ [x00])
  else None.

Definition demo_header : header := mkHeader 1628500000123456 77 kFATAL 2 (100, 13) (200, 4) 42.
Definition demo_format (fmt : list byte) (t : Z) : list byte := bytes "2021-08-09 17:06:40".

Lemma demo_header_valid : valid_header demo_header.
Proof. unfold valid_header, valid_view. cbn. lia. Qed.

(** Both byte orders print the same. *)
Lemma logline_roundtrip_witness :
  ∃ l0 l, @line_of true demo_header = Ok l0 ∧
    foldM (@insert true) [VString (bytes "fd "); VInt32 (-5); VView 300 4; VChar x21; VString (replicate 600 x61)] l0 = Ok l ∧
    @stringify true demo_objects dec (fun _ => bytes "No such file") demo_format l =
    Ok (bytes "2021-08-09 17:06:40.302912 77 [FATAL] <main> (No such file) fd -5hell!" ++ replicate 600 x61 ++
        bytes " - main.cpp:42" ++ [LF], true).
Proof.
  destruct (@logline_roundtrip true demo_objects dec (fun _ => bytes "No such file") demo_format demo_header
    [VString (bytes "fd "); VInt32 (-5); VView 300 4; VChar x21; VString (replicate 600 x61)]) as (l0 & l & H0 & H1 & H2).
  - apply demo_header_valid.
  - repeat constructor; cbn; lia.
  - exists l0, l. split; [done|]. split; [done|]. rewrite H2. vm_compute. reflexivity.
Defined.

Lemma views_do_not_keep_witness :
  ∃ l0 l, @line_of true demo_header = Ok l0 ∧ @insert_cstr true demo_objects 300 l0 = Ok l ∧
    @stringify true (fun p => if p =? 300 then None else demo_objects p) dec (fun _ => []) demo_format l = Fault UseAfterFree.
Proof.
  destruct (@views_do_not_keep true demo_objects (fun p => if p =? 300 then None else demo_objects p) dec (fun _ => []) demo_format
    demo_header 300 (bytes "hello") 5 (bytes "main") (bytes "/src/main.cpp")) as (H1 & _ & _);
    [apply demo_header_valid | lia | lia | by vm_compute | reflexivity.. | exact H1].
Defined.
