(* ===== verification/SpinLock.v ===== *)
(** * The spin lock: util/SpinLock.h

    [SpinLock lock(flag); ...] makes the rest of a block a critical section: the constructor spins on
    [test_and_set], the destructor clears the flag.  Threads are programs over a local state;
    their steps are single accesses to memory, interleaved in any order.  [P] is the data that
    is touched only while the flag is held, [U] everything else that is shared.

    [sections_atomic] is what the models of the classes that use the lock rely on: a critical section may be taken for
    one step, made at its last access. *)
From stdpp Require Import base list strings.
From Stdlib Require Import Lia Init.Byte.
From S2P Require Import Prelude.

Module SpinLock.

(** [std::atomic_flag::test_and_set] and [clear] on the value of the flag: what it was, what it is. *)
Definition test_and_set (flag : bool) : bool * bool := (flag, true).
Definition clear (flag : bool) : bool := false.

Section Threads.
Context {L P U : Type}.

(** A critical section: accesses to the protected data, and a last one that may also touch the rest. *)
Record section := mkSection {
  body : list (L → P → L * P);
  last_access : L → P → U → L * P * U
}.

(** The next thing a thread does. *)
Inductive op :=
  | Free (f : L → U → L * U)      (** an access outside any section *)
  | Locked (s : section).

Inductive status :=
  | Outside
  | Inside (rest : list (L → P → L * P)) (final : L → P → U → L * P * U)
  | Leaving.                         (** at the end of the block *)

Record thread := mkThread {
  local : L;
  where_ : status
}.

Record state := mkState {
  flag_ : bool;
  protected : P;
  shared : U;
  threads : list thread
}.

(** What a thread does next in each local state; [None] when it has come to its end. *)
Variable program : L → option op.

(** [src/util/SpinLock.h:12-15 SpinLock::SpinLock] One round of the loop for thread [i]. *)
Definition spin (i : nat) (l : L) (s : section) (st : state) : state :=
  let '(held, flag) := test_and_set (flag_ st) in
  mkState flag (protected st) (shared st)
    (<[i := mkThread l (if held then Outside else Inside (body s) (last_access s))]> (threads st)).

(** [src/util/SpinLock.h:17-19 SpinLock::~SpinLock] *)
Definition unlock (i : nat) (l : L) (st : state) : state :=
  mkState (clear (flag_ st)) (protected st) (shared st) (<[i := mkThread l Outside]> (threads st)).

(** The next access of thread [i]. *)
Definition step (i : nat) (st : state) : state :=
  match threads st !! i with
  | None => st
  | Some (mkThread l Outside) =>
      match program l with
      | None => st
      | Some (Free f) =>
          let '(l, u) := f l (shared st) in
          mkState (flag_ st) (protected st) u (<[i := mkThread l Outside]> (threads st))
      | Some (Locked s) => spin i l s st
      end
  | Some (mkThread l (Inside (a :: rest) final)) =>
      let '(l, p) := a l (protected st) in
      mkState (flag_ st) p (shared st) (<[i := mkThread l (Inside rest final)]> (threads st))
  | Some (mkThread l (Inside [] final)) =>
      let '(l, p, u) := final l (protected st) (shared st) in
      mkState (flag_ st) p u (<[i := mkThread l Leaving]> (threads st))
  | Some (mkThread l Leaving) => unlock i l st
  end.

Definition run (schedule : list nat) (st : state) : state := fold_left (λ st i, step i st) schedule st.

(** ** The same threads with sections of one step *)

Record atomic := mkAtomic {
  a_protected : P;
  a_shared : U;
  a_locals : list L
}.

Definition run_accesses (accesses : list (L → P → L * P)) (l : L) (p : P) : L * P :=
  fold_left (λ lp a, a lp.1 lp.2) accesses (l, p).

Definition atomic_step (i : nat) (st : atomic) : atomic :=
  match a_locals st !! i with
  | None => st
  | Some l =>
      match program l with
      | None => st
      | Some (Free f) =>
          let '(l, u) := f l (a_shared st) in mkAtomic (a_protected st) u (<[i := l]> (a_locals st))
      | Some (Locked s) =>
          let '(l, p) := run_accesses (body s) l (a_protected st) in
          let '(l, p, u) := last_access s l p (a_shared st) in
          mkAtomic p u (<[i := l]> (a_locals st))
      end
  end.

Definition atomic_run (schedule : list nat) (st : atomic) : atomic := fold_left (λ st i, atomic_step i st) schedule st.

(** ** The lock excludes, and sections are atomic *)

Definition outside (t : thread) : bool := match where_ t with Outside => true | _ => false end.
Definition inside (t : thread) : bool := match where_ t with Inside _ _ => true | _ => false end.

(** Nobody in a section, the flag clear. *)
Definition start (p : P) (u : U) (ls : list L) : state := mkState false p u ((λ l, mkThread l Outside) <$> ls).

(** The simulation: [a] is the state in which a section that has begun has not, and one that
    only has to leave is over. *)
Record simulates (st : state) (a : atomic) : Prop := {
  si_shared : a_shared a = shared st;
  si_threads : length (a_locals a) = length (threads st);
  si_flag : flag_ st = true ↔ ∃ i t, threads st !! i = Some t ∧ outside t = false;
  si_excl : ∀ i j t t', threads st !! i = Some t → threads st !! j = Some t' →
    outside t = false → outside t' = false → i = j;
  si_local : ∀ i t, threads st !! i = Some t → inside t = false → a_locals a !! i = Some (local t);
  si_idle : (∀ i t, threads st !! i = Some t → inside t = false) → a_protected a = protected st;
  si_inside : ∀ i l rest final, threads st !! i = Some (mkThread l (Inside rest final)) →
    ∃ l0 s gone, a_locals a !! i = Some l0 ∧ program l0 = Some (Locked s) ∧ body s = gone ++ rest ∧
      final = last_access s ∧ run_accesses gone l0 (a_protected a) = (l, protected st)
}.

Lemma run_accesses_app xs ys l p :
  run_accesses (xs ++ ys) l p = run_accesses ys (run_accesses xs l p).1 (run_accesses xs l p).2.
Proof. unfold run_accesses. rewrite fold_left_app. by destruct (fold_left _ xs _). Qed.

Lemma insert_cases (ts : list thread) i t0 t j t' :
  ts !! i = Some t0 → <[i := t]> ts !! j = Some t' → (j = i ∧ t' = t) ∨ (j ≠ i ∧ ts !! j = Some t').
Proof.
  intros Hi. rewrite list_lookup_insert_Some. intros [(<- & -> & _)|[Hne Hj]]; [by left | right; auto].
Qed.

(** When a thread is out of its section, so is every other one if it holds the flag. *)
Lemma alone st a i t :
  simulates st a → threads st !! i = Some t → outside t = false →
  ∀ j t', threads st !! j = Some t' → j ≠ i → outside t' = true.
Proof.
  intros Hs Hi Ho j t' Hj Hne. destruct (outside t') eqn:Ho'; [done|]. by destruct Hne; eapply (si_excl _ _ Hs).
Qed.

Lemma inside_outside t : inside t = true → outside t = false.
Proof. unfold inside, outside. by destruct (where_ t). Qed.

(** Steps of a thread that is, and stays, outside. *)
Lemma free_simulates st a i l l' u :
  simulates st a → threads st !! i = Some (mkThread l Outside) →
  simulates (mkState (flag_ st) (protected st) u (<[i := mkThread l' Outside]> (threads st)))
            (mkAtomic (a_protected a) u (<[i := l']> (a_locals a))).
Proof.
  intros [Hu Hlen Hf He Hl Hid Hin] Hi. constructor; cbn [flag_ protected shared threads a_protected a_shared a_locals]; try done.
  - by rewrite !length_insert.
  - rewrite Hf. split; intros (j & t & Hj & Ho).
    + exists j, t. split; [|done]. rewrite list_lookup_insert_ne; [done|]. intros <-. rewrite Hi in Hj. by injection Hj as <-.
    + destruct (insert_cases _ _ _ _ _ _ Hi Hj) as [[-> ->]|[_ Hj']]; [done | by exists j, t].
  - intros j k t t' Hj Hk Ho Ho'.
    destruct (insert_cases _ _ _ _ _ _ Hi Hj) as [[-> ->]|[_ Hj']]; [done|].
    destruct (insert_cases _ _ _ _ _ _ Hi Hk) as [[-> ->]|[_ Hk']]; [done|]. by eapply He.
  - intros j t Hj Hn. destruct (insert_cases _ _ _ _ _ _ Hi Hj) as [[-> ->]|[Hne Hj']].
    + apply list_lookup_insert_eq. rewrite Hlen. by eapply lookup_lt_Some.
    + rewrite list_lookup_insert_ne by done. by apply Hl.
  - intros Hall. apply Hid. intros j t Hj. destruct (decide (j = i)) as [->|Hne].
    + rewrite Hi in Hj. by injection Hj as <-.
    + apply (Hall j). by rewrite list_lookup_insert_ne.
  - intros j l1 rest final Hj. destruct (insert_cases _ _ _ _ _ _ Hi Hj) as [[_ Heq]|[Hne Hj']]; [discriminate|].
    destruct (Hin j l1 rest final Hj') as (l0 & s & gone & H1 & H). exists l0, s, gone. split; [|done].
    by rewrite list_lookup_insert_ne.
Qed.

(** Steps of the thread that has the flag, or takes it. *)
Lemma owner_simulates st a i t0 b p u t a' :
  simulates st a → threads st !! i = Some t0 → (∀ j t', threads st !! j = Some t' → j ≠ i → outside t' = true) →
  a_shared a' = u → length (a_locals a') = length (a_locals a) → (∀ j, j ≠ i → a_locals a' !! j = a_locals a !! j) →
  (b = true ↔ outside t = false) →
  (inside t = false → a_locals a' !! i = Some (local t) ∧ a_protected a' = p) →
  (∀ l rest final, t = mkThread l (Inside rest final) →
    ∃ l0 s gone, a_locals a' !! i = Some l0 ∧ program l0 = Some (Locked s) ∧ body s = gone ++ rest ∧
      final = last_access s ∧ run_accesses gone l0 (a_protected a') = (l, p)) →
  simulates (mkState b p u (<[i := t]> (threads st))) a'.
Proof.
  intros [Hu Hlen Hf He Hl Hid Hin] Hi Hrest Hu' Hlen' Hloc Hb Hout Hins.
  assert (Hii : <[i := t]> (threads st) !! i = Some t) by (apply list_lookup_insert_eq; by eapply lookup_lt_Some).
  assert (Hothers : ∀ j t', <[i := t]> (threads st) !! j = Some t' → j = i ∧ t' = t ∨ j ≠ i ∧ threads st !! j = Some t' ∧ outside t' = true).
  { intros j t' Hj. destruct (insert_cases _ _ _ _ _ _ Hi Hj) as [|[Hne Hj']]; [by left | right; eauto]. }
  constructor; cbn [flag_ protected shared threads]; try done.
  - by rewrite Hlen', length_insert.
  - rewrite Hb. split; [by exists i, t|]. intros (j & t' & Hj & Ho).
    destruct (Hothers j t' Hj) as [[-> ->]|(_ & _ & Ho')]; [done | congruence].
  - intros j k t1 t2 Hj Hk Ho1 Ho2.
    destruct (Hothers j t1 Hj) as [[-> _]|(_ & _ & Ho)]; [|congruence].
    destruct (Hothers k t2 Hk) as [[-> _]|(_ & _ & Ho)]; [done | congruence].
  - intros j t' Hj Hn. destruct (Hothers j t' Hj) as [[-> ->]|(Hne & Hj' & _)]; [by apply Hout|].
    rewrite Hloc by done. by apply Hl.
  - intros Hall. by apply Hout, (Hall i).
  - intros j l rest final Hj. destruct (Hothers j _ Hj) as [[-> Heq]|(_ & _ & Ho)]; [by apply Hins | discriminate].
Qed.

(** A step of the threads is a step of the threads with atomic sections, or none of them. *)
Lemma step_simulates st a i :
  simulates st a → ∃ moves, moves `sublist_of` [i] ∧ simulates (step i st) (atomic_run moves a).
Proof.
  intros Hs. assert (Hnone : [] `sublist_of` [i]) by (apply sublist_nil_l).
  unfold step. destruct (threads st !! i) as [[l w]|] eqn:Hi; [|by exists []].
  destruct w as [|[|x rest] final|].
  - assert (Hla : a_locals a !! i = Some l) by (by apply (si_local _ _ Hs i _ Hi)).
    destruct (program l) as [[f|s]|] eqn:Hp; [| |by exists []].
    + exists [i]. split; [done|]. unfold atomic_run. cbn [fold_left]. unfold atomic_step. rewrite Hla, Hp, (si_shared _ _ Hs).
      destruct (f l (shared st)) as [l' u]. by apply (free_simulates st a i l).
    + exists []. split; [done|]. unfold spin, test_and_set. destruct (flag_ st) eqn:Hflag.
      * rewrite list_insert_id by done. rewrite <- Hflag. by destruct st.
      * eapply owner_simulates; try done; try apply Hs.
        { intros j t Hj _. apply not_false_iff_true. intros Ho.
          assert (flag_ st = true) by (apply (si_flag _ _ Hs); by exists j, t). congruence. }
        intros l1 rest final [= <- <- <-]. exists l, s, []. split_and!; try done.
        unfold run_accesses. cbn [fold_left]. f_equal. apply (si_idle _ _ Hs). intros j t Hj.
        destruct (inside t) eqn:Hin; [|done]. apply inside_outside in Hin.
        assert (flag_ st = true) by (apply (si_flag _ _ Hs); by exists j, t). congruence.
  - destruct (si_inside _ _ Hs _ _ _ _ Hi) as (l0 & s & gone & Hla & Hp & Hb & -> & Hr).
    exists [i]. split; [done|]. unfold atomic_run. cbn [fold_left]. unfold atomic_step. rewrite Hla, Hp, Hb.
    rewrite app_nil_r, Hr, (si_shared _ _ Hs). destruct (last_access s l (protected st) (shared st)) as [[l' p] u].
    eapply owner_simulates; try done; cbn [a_locals a_protected a_shared].
    + eapply alone; done.
    + by rewrite length_insert.
    + intros j Hne. by rewrite list_lookup_insert_ne.
    + rewrite (proj2 (si_flag _ _ Hs)); [done|]. by exists i, (mkThread l (Inside [] (last_access s))).
    + intros _. split; [|done]. apply list_lookup_insert_eq. by eapply lookup_lt_Some.
  - destruct (si_inside _ _ Hs _ _ _ _ Hi) as (l0 & s & gone & Hla & Hp & Hb & -> & Hr).
    exists []. split; [done|]. destruct (x l (protected st)) as [l' p] eqn:Hx.
    eapply owner_simulates; try done; try apply Hs.
    + eapply alone; done.
    + rewrite (proj2 (si_flag _ _ Hs)); [done|]. by exists i, (mkThread l (Inside (x :: rest) (last_access s))).
    + intros l1 rest1 final1 [= <- <- <-]. exists l0, s, (gone ++ [x]). split_and!; try done.
      * by rewrite <- app_assoc.
      * rewrite run_accesses_app. cbn [atomic_run fold_left]. rewrite Hr. unfold run_accesses. cbn [fold_left fst snd].
        by rewrite Hx.
  - exists []. split; [done|]. assert (Hout : ∀ j t', threads st !! j = Some t' → j ≠ i → outside t' = true) by (eapply alone; done).
    eapply owner_simulates; try done; try apply Hs.
    intros _. split; [by apply (si_local _ _ Hs i _ Hi)|]. apply (si_idle _ _ Hs). intros j t Hj.
    destruct (decide (j = i)) as [->|Hne]; [rewrite Hi in Hj; by injection Hj as <-|].
    pose proof (Hout j t Hj Hne) as Ho. destruct (inside t) eqn:Hin; [|done]. apply inside_outside in Hin. congruence.
Qed.

Lemma start_simulates p u ls : simulates (start p u ls) (mkAtomic p u ls).
Proof.
  assert (Hout : ∀ i t, threads (start p u ls) !! i = Some t → ∃ l, ls !! i = Some l ∧ t = mkThread l Outside).
  { intros i t. cbn [start threads]. rewrite list_lookup_fmap. intros (l & -> & Hl)%fmap_Some. eauto. }
  constructor; cbn [start flag_ a_locals a_protected]; try done.
  - cbn [start threads]; by rewrite length_fmap.
  - split; [done|]. intros (i & t & Hi & Ho). by destruct (Hout i t Hi) as (l & _ & ->).
  - intros i j t t' Hi _ Ho. by destruct (Hout i t Hi) as (l & _ & ->).
  - intros i t Hi _. by destruct (Hout i t Hi) as (l & Hl & ->).
  - intros i l rest final Hi. by destruct (Hout i _ Hi) as (l' & _ & [=]).
Qed.

Lemma run_simulates schedule st a :
  simulates st a → ∃ moves, moves `sublist_of` schedule ∧ simulates (run schedule st) (atomic_run moves a).
Proof.
  revert st a. induction schedule as [|i schedule IH]; intros st a Hs; [by exists []|].
  destruct (step_simulates st a i Hs) as (m1 & Hm1 & Hs1). destruct (IH _ _ Hs1) as (m2 & Hm2 & Hs2).
  exists (m1 ++ m2). split; [by apply (sublist_app m1 [i])|]. unfold atomic_run in *. by rewrite fold_left_app.
Qed.

(** C17. At most one thread is in a critical section, and sections may be taken to be atomic: whatever the interleaving of the
    single accesses, there is an order of whole steps - each section one step, taken in the order of
    their last accesses - that leads to the same shared data and the same local states, and to the same
    protected data as soon as nobody is in the middle of a section. *)
Theorem sections_atomic p u ls schedule :
  let st := run schedule (start p u ls) in
  (∀ i j t t', threads st !! i = Some t → threads st !! j = Some t' →
    outside t = false → outside t' = false → i = j) ∧
  ∃ moves, moves `sublist_of` schedule ∧
    let a := atomic_run moves (mkAtomic p u ls) in
    shared st = a_shared a ∧
    (∀ i t, threads st !! i = Some t → inside t = false → a_locals a !! i = Some (local t)) ∧
    ((∀ i t, threads st !! i = Some t → inside t = false) → protected st = a_protected a).
Proof.
  cbv zeta. destruct (run_simulates schedule _ _ (start_simulates p u ls)) as (moves & Hm & Hs).
  split; [apply Hs|]. exists moves. split; [done|]. split; [by rewrite (si_shared _ _ Hs)|].
  split; [apply Hs|]. intros Hall. symmetry. by apply Hs.
Qed.
End Threads.
End SpinLock.

(** ** The lines of the standard output *)
Module StdLogger.
Import SpinLock.

(** A line as the pieces that [stringify] hands to the stream, one after the other. *)
Definition line : Type := list (list Byte.byte).

(** [os << piece]. *)
Definition write_piece (piece : list Byte.byte) (lines : list line) (out : list Byte.byte) : list line * list Byte.byte :=
  (lines, out ++ piece).

(** [src/util/StdLogger.cpp:13-16 StdLogger::add] A thread that has these lines to log: the lock, and the pieces
    written to [std::cout]. *)
Definition add (lines : list line) : option (op (L := list line) (P := list Byte.byte) (U := unit)) :=
  match lines with
  | [] => None
  | log_line :: _ =>
      Some (Locked (mkSection (write_piece <$> log_line) (λ lines out u, (tail lines, out, u))))
  end.

Definition printed (who : list (nat * line)) : list Byte.byte := concat ((λ p, concat p.2) <$> who).
Definition lines_of (i : nat) (who : list (nat * line)) : list line := snd <$> filter (λ p, p.1 = i) who.

Lemma write_pieces (log_line : line) lines out :
  run_accesses (write_piece <$> log_line) lines out = (lines, out ++ concat log_line).
Proof.
  revert out. induction log_line as [|piece rest IH]; intros out; [by rewrite app_nil_r|].
  change (run_accesses (write_piece <$> rest) lines (out ++ piece) = (lines, out ++ piece ++ concat rest)).
  rewrite IH. by rewrite <- app_assoc.
Qed.

(** What the threads have printed when sections are atomic. *)
Lemma atomic_lines logs moves :
  ∃ who, a_protected (atomic_run add moves (mkAtomic [] tt logs)) = printed who ∧
    length (a_locals (atomic_run add moves (mkAtomic [] tt logs))) = length logs ∧
    ∀ i lines rest, logs !! i = Some lines → a_locals (atomic_run add moves (mkAtomic [] tt logs)) !! i = Some rest →
      lines = lines_of i who ++ rest.
Proof.
  induction moves as [|i moves IH] using rev_ind.
  - exists []. split; [done|]. split; [done|]. intros i lines rest Hl Hr. cbn in Hr. rewrite Hl in Hr. by injection Hr as ->.
  - destruct IH as (who & Hp & Hlen & Hloc). unfold atomic_run in *. rewrite fold_left_app. cbn [fold_left].
    set (a := fold_left _ moves _) in *. unfold atomic_step.
    destruct (a_locals a !! i) as [[|log_line rest]|] eqn:Hi; cbn [add]; [by exists who| |by exists who].
    cbn [body last_access]. rewrite write_pieces. cbn [a_protected a_locals tail].
    exists (who ++ [(i, log_line)]). split; [|split; [by rewrite length_insert|]].
    + rewrite Hp. unfold printed. rewrite fmap_app, concat_app. csimpl. by rewrite app_nil_r.
    + intros j lines rest' Hl Hr. unfold lines_of. rewrite filter_app, fmap_app.
      rewrite list_lookup_insert_Some in Hr. destruct Hr as [(<- & <- & _)|[Hne Hr]].
      * rewrite filter_cons_True by done. csimpl. rewrite <- app_assoc. by apply Hloc.
      * rewrite filter_cons_False by done. csimpl. rewrite app_nil_r. by apply Hloc.
Qed.

(** What they have printed when nobody is printing. *)
Lemma idle_lines logs schedule :
  let st := run add schedule (start [] tt logs) in
  (∀ i t, threads st !! i = Some t → inside t = false) →
  ∃ who, protected st = printed who ∧ length (threads st) = length logs ∧
    ∀ i lines t, logs !! i = Some lines → threads st !! i = Some t → lines = lines_of i who ++ local t.
Proof.
  cbv zeta. intros Hall. destruct (run_simulates add schedule _ _ (start_simulates add [] tt logs)) as (moves & _ & Hs).
  destruct (atomic_lines logs moves) as (who & Hp & Hlen & Hloc). exists who. split_and!.
  - rewrite <- Hp. symmetry. by apply (si_idle _ _ _ Hs).
  - rewrite <- Hlen. symmetry. apply (si_threads _ _ _ Hs).
  - intros i lines t Hl Ht. apply (Hloc i lines _ Hl). apply (si_local _ _ _ Hs i t Ht). by apply (Hall i).
Qed.

(** C18. Threads that log to the standard output do not mix their lines: whenever nobody is printing, the output is a
    sequence of whole lines, in which every thread's lines come in its order, and the lines a thread has still
    to log are those behind them. *)
Theorem std_lines_whole logs schedule :
  let st := run add schedule (start [] tt logs) in
  (∀ i t, threads st !! i = Some t → inside t = false) →
  ∃ who, protected st = printed who ∧
    ∀ i lines t, logs !! i = Some lines → threads st !! i = Some t → lines = lines_of i who ++ local t.
Proof.
  cbv zeta. intros Hall. destruct (idle_lines logs schedule Hall) as (who & Hp & _ & Hloc). by exists who.
Qed.

(** Two threads, their steps taken in turn: the second spins until the first has left. *)
Lemma std_lines_whole_witness :
  let log1 : list line := [[bytes "one "; bytes "line"]] in let log2 : list line := [[bytes "an"; bytes "other"]] in
  let st := run add [0; 1; 0; 1; 0; 1; 0; 1; 0; 1; 1; 1; 1; 1] (start [] tt [log1; log2]) in
  protected st = bytes "one lineanother" ∧
  ∃ who, protected st = printed who ∧
    ∀ i lines t, [log1; log2] !! i = Some lines → threads st !! i = Some t → lines = lines_of i who ++ local t.
Proof.
  cbv zeta. split; [vm_compute; reflexivity|]. apply std_lines_whole.
  intros i t Hi. destruct i as [|[|i]]; vm_compute in Hi; [injection Hi as <-..|discriminate]; reflexivity.
Defined.
End StdLogger.
