(* ===== verification/LogBuffer.v ===== *)
(** * A block of log lines: [LogBuffer] of util/LogBufferQueue.{h,cpp}

    Slots for the lines, a mark for each that is set when its line has been written, and a count.  The
    capacity [K] ([kSize]) is a parameter: the theorems hold for every one. *)
From stdpp Require Import base list gmap numbers.
From Stdlib Require Import ZArith Lia.
From S2P Require Import Prelude.
From S2P Require Import LogLine.
#[local] Open Scope fm_scope.

Definition LogLine := LogLine.LogLine.LogLine.

(** What is left of a line that has been moved from. *)
Definition moved (l : LogLine) : LogLine := snd (LogLine.LogLine.move l).

Module LogBuffer.

(** [src/util/LogBufferQueue.h:30-30 LogBuffer::kSize] *)
Definition kSize : nat := 4096 * 8.

(** [src/util/LogBufferQueue.h:41-46 LogBuffer data members] The last of the atomic numbers, the count, is kept apart. *)
Record LogBuffer := mkBuffer {
  states : list bool;
  count : nat;
  items_ : gmap nat LogLine
}.

Section Capacity.
Variable K : nat.

(** [src/util/LogBufferQueue.cpp:30-35 LogBuffer::LogBuffer] *)
Definition newBuffer : LogBuffer := mkBuffer (replicate K false) 0 ∅.

(** [src/util/LogBufferQueue.cpp:37-42 LogBuffer::~LogBuffer] The slots whose lines are destroyed. *)
Definition destroyed_items (b : LogBuffer) : list nat := seq 0 (count b).

(** The line is constructed in its slot, and the slot is marked. *)
Definition write (log_line : LogLine) (write_index : nat) (b : LogBuffer) : LogBuffer :=
  mkBuffer (<[write_index := true]> (states b)) (count b) (<[write_index := log_line]> (items_ b)).

(** One more line has been written: is the buffer full? *)
Definition finish (b : LogBuffer) : bool * LogBuffer :=
  if bool_decide (count b + 1 = K) then (true, mkBuffer (states b) 0 (items_ b))
  else (false, mkBuffer (states b) (count b + 1) (items_ b)).

(** [src/util/LogBufferQueue.cpp:44-57 LogBuffer::push] *)
Definition push (log_line : LogLine) (write_index : nat) (b : LogBuffer) : bool * LogBuffer :=
  finish (write log_line write_index b).

(** [src/util/LogBufferQueue.cpp:59-66 LogBuffer::pop] *)
Definition pop (read_index : nat) (b : LogBuffer) : result (option (LogLine * LogBuffer)) :=
  match states b !! read_index with
  | Some true =>
      match items_ b !! read_index with
      | Some item => Ok (Some (item, mkBuffer (states b) (count b) (<[read_index := moved item]> (items_ b))))
      | None => Fault OutOfBounds
      end
  | Some false => Ok None
  | None => Fault OutOfBounds
  end.
End Capacity.
End LogBuffer.
