(* ===== verification/RingQueue.v ===== *)
(** * The ring of spare blocks: [RingQueue] of util/LogBufferQueue.{h,cpp}

    A member function holds the spin lock throughout; a block is named by its address. *)
From stdpp Require Import base list gmap numbers.
From Stdlib Require Import ZArith Lia.
From S2P Require Import Prelude.

Module RingQueue.

(** [src/util/LogBufferQueue.h:59-61 RingQueue data members] *)
Record RingQueue := mkRing {
  log_buffers_ : list (option nat);
  write_index_ : nat;
  read_index_ : nat
}.

Section Size.
Variable SIZE : nat.

(** [src/util/LogBufferQueue.cpp:68-75 RingQueue::RingQueue] *)
Definition newRing : RingQueue := mkRing (replicate (SIZE + 1) None) 0 0.

(** [src/util/LogBufferQueue.cpp:77-90 RingQueue::push] *)
Definition push (log_buffer : nat) (q : RingQueue) : bool * RingQueue :=
  let next_write_index := (write_index_ q + 1) mod (SIZE + 1) in
  if bool_decide (next_write_index = read_index_ q) then (false, q)
  else (true, mkRing (<[write_index_ q := Some log_buffer]> (log_buffers_ q)) next_write_index (read_index_ q)).

(** [src/util/LogBufferQueue.cpp:92-104 RingQueue::pop] The pointer moved out leaves a null one. *)
Definition pop (q : RingQueue) : option (option nat * RingQueue) :=
  if bool_decide (write_index_ q = read_index_ q) then None
  else Some (mjoin (log_buffers_ q !! read_index_ q),
             mkRing (<[read_index_ q := None]> (log_buffers_ q)) (write_index_ q) ((read_index_ q + 1) mod (SIZE + 1))).

(** ** The ring as a bounded queue *)

(** [q] holds [l], oldest first: the [i]-th is [i] slots behind the read index. *)
Record holds (q : RingQueue) (l : list nat) : Prop := {
  rh_slots : length (log_buffers_ q) = (SIZE + 1)%nat;
  rh_read : (read_index_ q < SIZE + 1)%nat;
  rh_write : write_index_ q = ((read_index_ q + length l) mod (SIZE + 1))%nat;
  rh_few : (length l ≤ SIZE)%nat;
  rh_items : ∀ i b, l !! i = Some b → log_buffers_ q !! ((read_index_ q + i) mod (SIZE + 1)) = Some (Some b)
}.

Lemma newRing_holds : holds newRing [].
Proof.
  constructor; simpl; try lia; [by rewrite length_replicate | by rewrite Nat.Div0.mod_0_l | done].
Qed.

(** Two slots less than a round apart are different. *)
Lemma slots_differ r i j :
  (r < SIZE + 1 → i < SIZE + 1 → j < SIZE + 1 → (r + i) mod (SIZE + 1) = (r + j) mod (SIZE + 1) → i = j)%nat.
Proof.
  intros Hr Hi Hj. destruct (decide (r + i < SIZE + 1)%nat); destruct (decide (r + j < SIZE + 1)%nat).
  all: repeat match goal with
       | H : (?x < SIZE + 1)%nat |- context [(?x mod (SIZE + 1))%nat] => rewrite (Nat.mod_small x) by done
       | H : ¬ (?x < SIZE + 1)%nat |- context [(?x mod (SIZE + 1))%nat] =>
           replace (x mod (SIZE + 1))%nat with (x - (SIZE + 1))%nat by
             (rewrite <- (Nat.mod_small (x - (SIZE + 1)) (SIZE + 1)) by lia;
              rewrite <- (Nat.Div0.mod_add (x - (SIZE + 1)) 1 (SIZE + 1)); f_equal; lia)
       end; lia.
Qed.

Lemma push_holds q l b :
  holds q l → ∃ q', push b q = (bool_decide (length l < SIZE)%nat, q') ∧
    holds q' (if bool_decide (length l < SIZE)%nat then l ++ [b] else l).
Proof.
  intros [Hs Hr Hw Hf Hi]. unfold push.
  assert (Hfull : (write_index_ q + 1) mod (SIZE + 1) = read_index_ q ↔ length l = SIZE).
  { rewrite Hw, Nat.Div0.add_mod_idemp_l, <- Nat.add_assoc. split.
    - intros Heq. rewrite <- (Nat.mod_small (read_index_ q) (SIZE + 1)) in Heq at 2 by done.
      rewrite <- (Nat.add_0_r (read_index_ q)) in Heq at 2.
      destruct (decide (length l = SIZE)) as [|Hne]; [done|]. apply slots_differ in Heq; lia.
    - intros ->. rewrite <- (Nat.mod_small (read_index_ q) (SIZE + 1)) at 2 by done.
      rewrite <- (Nat.Div0.mod_add (read_index_ q) 1 (SIZE + 1)). f_equal. lia. }
  destruct (decide (length l = SIZE)) as [He|He].
  - rewrite bool_decide_eq_true_2 by (by apply Hfull). rewrite bool_decide_eq_false_2 by lia. eexists. split; [done|]. by constructor.
  - rewrite bool_decide_eq_false_2 by (by rewrite Hfull). rewrite bool_decide_eq_true_2 by lia. eexists. split; [done|].
    constructor; cbn [log_buffers_ read_index_ write_index_].
    + by rewrite length_insert.
    + done.
    + rewrite Hw, Nat.Div0.add_mod_idemp_l, length_app. simpl. f_equal. lia.
    + rewrite length_app. simpl. lia.
    + intros i c Hic. rewrite Hw. apply lookup_app_Some in Hic as [Hic | [Hle Hic]].
      * rewrite list_lookup_insert_ne; [by apply Hi|]. apply lookup_lt_Some in Hic.
        intros Heq. apply slots_differ in Heq; lia.
      * apply list_lookup_singleton_Some in Hic as [Hi0 <-]. replace i with (length l) by lia.
        apply list_lookup_insert_eq. rewrite Hs. apply Nat.mod_upper_bound. lia.
Qed.

Lemma pop_holds q l :
  holds q l → match l with
              | [] => pop q = None
              | b :: l => ∃ q', pop q = Some (Some b, q') ∧ holds q' l
              end.
Proof.
  intros [Hs Hr Hw Hf Hi]. unfold pop.
  destruct l as [|b l].
  - cbn [length] in Hw. rewrite Nat.add_0_r, Nat.mod_small in Hw by done. by rewrite bool_decide_eq_true_2.
  - rewrite bool_decide_eq_false_2.
    2:{ rewrite Hw. rewrite <- (Nat.mod_small (read_index_ q) (SIZE + 1)) at 2 by done.
        rewrite <- (Nat.add_0_r (read_index_ q)) at 2. intros Heq. apply slots_differ in Heq; simpl in *; lia. }
    pose proof (Hi 0%nat b eq_refl) as H0. rewrite Nat.add_0_r, Nat.mod_small in H0 by done. rewrite H0.
    eexists. split; [done|]. constructor; cbn [log_buffers_ read_index_ write_index_].
    + by rewrite length_insert.
    + apply Nat.mod_upper_bound. lia.
    + rewrite Hw, Nat.Div0.add_mod_idemp_l. f_equal. simpl. lia.
    + simpl in Hf. lia.
    + intros i c Hic. rewrite Nat.Div0.add_mod_idemp_l. rewrite <- (Nat.mod_small (read_index_ q) (SIZE + 1)) at 2 by done.
      rewrite list_lookup_insert_ne.
      * rewrite <- Nat.add_assoc. by apply Hi.
      * apply lookup_lt_Some in Hic. rewrite <- (Nat.add_0_r (read_index_ q)) at 1. rewrite <- Nat.add_assoc.
        intros Heq. apply slots_differ in Heq; simpl in *; lia.
Qed.

(** The calls on a ring, and what they return. *)
Inductive call := Push (b : nat) | Pop.
Inductive answer := Pushed (kept : bool) | Popped (b : option nat) | Null.

Fixpoint run (cs : list call) (q : RingQueue) : list answer :=
  match cs with
  | [] => []
  | Push b :: cs => let '(kept, q) := push b q in Pushed kept :: run cs q
  | Pop :: cs =>
      match pop q with
      | None => Popped None :: run cs q
      | Some (Some b, q) => Popped (Some b) :: run cs q
      | Some (None, q) => Null :: run cs q
      end
  end.

(** A queue of at most [SIZE]. *)
Fixpoint run_queue (cs : list call) (l : list nat) : list answer :=
  match cs with
  | [] => []
  | Push b :: cs =>
      if bool_decide (length l < SIZE)%nat then Pushed true :: run_queue cs (l ++ [b]) else Pushed false :: run_queue cs l
  | Pop :: cs =>
      match l with
      | [] => Popped None :: run_queue cs []
      | b :: l => Popped (Some b) :: run_queue cs l
      end
  end.

(** C33. The ring of spare blocks is a first-in first-out queue for [SIZE] blocks: whatever the sequence of
    calls, each returns what the queue returns; a [push] is refused exactly when [SIZE] blocks are
    there, a [pop] finds nothing exactly when none is, and never a null pointer. *)
Theorem ring_is_queue cs : run cs newRing = run_queue cs [].
Proof.
  assert (H : ∀ q l, holds q l → run cs q = run_queue cs l); [|apply H, newRing_holds].
  induction cs as [|[b|] cs IH]; intros q l Hh; [done| |]; cbn [run run_queue].
  - destruct (push_holds q l b Hh) as (q' & -> & Hh'). destruct (bool_decide _); by rewrite (IH _ _ Hh').
  - pose proof (pop_holds q l Hh) as Hp. destruct l as [|b l]; [by rewrite Hp, (IH _ _ Hh)|].
    destruct Hp as (q' & -> & Hh'). by rewrite (IH _ _ Hh').
Qed.
End Size.
End RingQueue.
