(* ===== verification/LogBufferQueue.v ===== *)
(** * The log queue: util/LogBufferQueue.{h,cpp}, util/SpinLock.h

    Several threads push lines, one thread pops them.  A producer, and the consumer, is between two of its
    accesses to shared memory; [step] performs the next one, and sequences of actions are the interleavings.
    What a spin lock protects is one access, which SpinLock.v justifies.  Buffers live on a heap; an address is the number of
    the allocation.  The capacity [K] of a buffer ([LogBuffer::kSize]) is a parameter: the theorems hold for every one. *)
From stdpp Require Import base list gmap numbers.
From Stdlib Require Import ZArith Lia.
From S2P Require Import Prelude.
From S2P Require Import LogLine.
From S2P Require Import LogBuffer.
From S2P Require Import RingQueue.
#[local] Open Scope fm_scope.

Module LogBufferQueue.

(** [src/util/LogBufferQueue.cpp:11-26 g_reuse_time] and the other counters, as [getAllocationForDebug] gives them. *)
Record counters := mkCounters {
  reuse_time : nat;
  allocation_time : nat;
  backup_push_time : nat;
  backup_pop_time : nat;
  backup_size : nat
}.

(** [src/util/LogBufferQueue.h:79-85 LogBufferQueue data members], the buffers that exist, and the counters. *)
Record queue := mkQueue {
  log_buffers_ : list nat;
  current_write_buffer_ : option nat;
  current_read_buffer_ : option nat;
  write_index_ : nat;
  read_index_ : nat;
  backup_log_buffers_ : RingQueue.RingQueue;
  heap : gmap nat LogBuffer.LogBuffer;
  debug : counters
}.

Definition set_log_buffers (l : list nat) (q : queue) : queue :=
  mkQueue l (current_write_buffer_ q) (current_read_buffer_ q) (write_index_ q) (read_index_ q) (backup_log_buffers_ q) (heap q) (debug q).
Definition set_current_write (b : option nat) (q : queue) : queue :=
  mkQueue (log_buffers_ q) b (current_read_buffer_ q) (write_index_ q) (read_index_ q) (backup_log_buffers_ q) (heap q) (debug q).
Definition set_current_read (b : option nat) (q : queue) : queue :=
  mkQueue (log_buffers_ q) (current_write_buffer_ q) b (write_index_ q) (read_index_ q) (backup_log_buffers_ q) (heap q) (debug q).
Definition set_write_index (n : nat) (q : queue) : queue :=
  mkQueue (log_buffers_ q) (current_write_buffer_ q) (current_read_buffer_ q) n (read_index_ q) (backup_log_buffers_ q) (heap q) (debug q).
Definition set_read_index (n : nat) (q : queue) : queue :=
  mkQueue (log_buffers_ q) (current_write_buffer_ q) (current_read_buffer_ q) (write_index_ q) n (backup_log_buffers_ q) (heap q) (debug q).
Definition set_backup (r : RingQueue.RingQueue) (q : queue) : queue :=
  mkQueue (log_buffers_ q) (current_write_buffer_ q) (current_read_buffer_ q) (write_index_ q) (read_index_ q) r (heap q) (debug q).
Definition set_heap (h : gmap nat LogBuffer.LogBuffer) (q : queue) : queue :=
  mkQueue (log_buffers_ q) (current_write_buffer_ q) (current_read_buffer_ q) (write_index_ q) (read_index_ q) (backup_log_buffers_ q) h (debug q).
Definition set_debug (c : counters) (q : queue) : queue :=
  mkQueue (log_buffers_ q) (current_write_buffer_ q) (current_read_buffer_ q) (write_index_ q) (read_index_ q) (backup_log_buffers_ q) (heap q) c.

Section Capacity.
Variable K : nat.

(** The number of spare buffers. *)
Definition kSpare : nat := 4.

(** The first half of [setupNextWriteLogBuffer]: a spare buffer, or a new one, becomes the current one. *)
Definition acquire (q : queue) : result (nat * queue) :=
  let d := debug q in
  match RingQueue.pop kSpare (backup_log_buffers_ q) with
  | Some (Some b, ring) =>
      let q := set_backup ring q in
      let q := set_debug (mkCounters (S (reuse_time d)) (allocation_time d) (backup_push_time d) (S (backup_pop_time d)) (Nat.pred (backup_size d))) q in
      Ok (b, set_current_write (Some b) q)
  | Some (None, _) => Fault NullDeref
  | None =>
      let b := allocation_time d in
      let q := set_heap (<[b := LogBuffer.newBuffer K]> (heap q)) q in
      let q := set_debug (mkCounters (reuse_time d) (S (allocation_time d)) (backup_push_time d) (backup_pop_time d) (backup_size d)) q in
      Ok (b, set_current_write (Some b) q)
  end.

(** The second half, under the spin lock. *)
Definition publish (b : nat) (q : queue) : queue :=
  set_write_index 0 (set_log_buffers (log_buffers_ q ++ [b]) q).

(** [src/util/LogBufferQueue.cpp:118-138 LogBufferQueue::setupNextWriteLogBuffer] *)
Definition setupNextWriteLogBuffer (q : queue) : result queue :=
  '(b, q) ← acquire q;
  Ok (publish b q).

(** [src/util/LogBufferQueue.cpp:106-115 LogBufferQueue::LogBufferQueue] *)
Definition newQueue : result queue :=
  setupNextWriteLogBuffer (mkQueue [] None None 0 0 (RingQueue.newRing kSpare) ∅ (mkCounters 0 0 0 0 0)).

(** [src/util/LogBufferQueue.cpp:140-143 LogBufferQueue::getNextReadLogBuffer] *)
Definition getNextReadLogBuffer (q : queue) : option nat := head (log_buffers_ q).

(** A spare buffer goes to the ring, or is freed when the ring is full. *)
Definition put_back (b : nat) (q : queue) : queue :=
  let d := debug q in
  let '(kept, ring) := RingQueue.push kSpare b (backup_log_buffers_ q) in
  let q := set_backup ring q in
  if kept then set_debug (mkCounters (reuse_time d) (allocation_time d) (S (backup_push_time d)) (backup_pop_time d) (S (backup_size d))) q
  else set_heap (delete b (heap q)) q.

(** ** The consumer *)

(** Where the consumer is in [LogBufferQueue::pop]. *)
Inductive consumer :=
  | AtRest
  | Reading                                        (** with a block to read, in front of [LogBuffer::pop] *)
  | Unlinking (log_line : LogLine)                 (** with the last line of a block, before the lock is taken *)
  | Returning (log_line : LogLine) (up : nat).     (** in front of [backup_log_buffers_.push] *)

(** Reading the mark of the next line, and taking the line. *)
Definition read (q : queue) : result (consumer * queue * option (option LogLine)) :=
  match current_read_buffer_ q with
  | None => Fault NullDeref
  | Some b =>
      match heap q !! b with
      | None => Fault UseAfterFree
      | Some read_buffer =>
          r ← LogBuffer.pop (read_index_ q) read_buffer;
          match r with
          | None => Ok (AtRest, q, Some None)
          | Some (log_line, read_buffer) =>
              let q := set_heap (<[b := read_buffer]> (heap q)) q in
              let q := set_read_index (S (read_index_ q)) q in
              if bool_decide (read_index_ q = K) then
                let q := set_read_index 0 q in
                let q := set_current_read None q in
                Ok (Unlinking log_line, q, None)
              else Ok (AtRest, q, Some (Some log_line))
          end
      end
  end.

(** [src/util/LogBufferQueue.cpp:163-190 LogBufferQueue::pop] The next access of the consumer, which calls it or is in
    the middle of it; last comes what it returns, when it does. *)
Definition pop (c : consumer) (q : queue) : result (consumer * queue * option (option LogLine)) :=
  match c with
  | AtRest =>
      match current_read_buffer_ q with
      | None =>
          match getNextReadLogBuffer q with
          | None => Ok (AtRest, q, Some None)
          | Some b => Ok (Reading, set_current_read (Some b) q, None)
          end
      | Some _ => read q
      end
  | Reading => read q
  | Unlinking log_line =>
      match log_buffers_ q with
      | [] => Fault OutOfBounds
      | up :: rest => Ok (Returning log_line up, set_log_buffers rest q, None)
      end
  | Returning log_line up => Ok (AtRest, put_back up q, Some (Some log_line))
  end.

(** ** The threads *)

(** Where a producer is in [LogBufferQueue::push]. *)
Inductive producer :=
  | Idle
  | Pushing (log_line : LogLine)                   (** before [write_index_.fetch_add] *)
  | Claimed (log_line : LogLine) (write_index : nat)   (** in front of [LogBuffer::push] *)
  | Written (b : nat)                              (** in [LogBuffer::push], before the count is raised *)
  | Filled                                         (** in front of [setupNextWriteLogBuffer] *)
  | Publishing (b : nat)                           (** in [setupNextWriteLogBuffer], before the lock is taken *)
  | Spinning (log_line : LogLine).                 (** in the [while] loop *)

(** The queue, the producers, the lines that were handed to [push], that have been given a slot, and that have been
    popped, each in order; and the consumer. *)
Record world := mkWorld {
  the_queue : queue;
  producers : list producer;
  logged : list LogLine;
  claims : list LogLine;
  popped : list LogLine;
  the_consumer : consumer
}.

(** [src/util/LogBufferQueue.cpp:145-161 LogBufferQueue::push] The next access of a producer in the middle of it. *)
Definition advance (p : producer) (q : queue) : result (producer * queue * list LogLine) :=
  match p with
  | Idle => Ok (Idle, q, [])
  | Pushing log_line =>
      assert! (bool_decide (is_Some (current_write_buffer_ q)));
      let write_index := write_index_ q in
      let q := set_write_index (S write_index) q in
      if bool_decide (write_index < K) then Ok (Claimed log_line write_index, q, [log_line])
      else Ok (Spinning log_line, q, [])
  | Claimed log_line write_index =>
      match current_write_buffer_ q with
      | None => Fault NullDeref
      | Some b =>
          match heap q !! b with
          | None => Fault UseAfterFree
          | Some buf =>
              check! OutOfBounds (bool_decide (write_index < K));
              Ok (Written b, set_heap (<[b := LogBuffer.write log_line write_index buf]> (heap q)) q, [])
          end
      end
  | Written b =>
      match heap q !! b with
      | None => Fault UseAfterFree
      | Some buf =>
          let '(full, buf) := LogBuffer.finish K buf in
          Ok (if full then Filled else Idle, set_heap (<[b := buf]> (heap q)) q, [])
      end
  | Filled => '(b, q) ← acquire q; Ok (Publishing b, q, [])
  | Publishing b => Ok (Idle, publish b q, [])
  | Spinning log_line =>
      if bool_decide (write_index_ q < K) then Ok (Pushing log_line, q, []) else Ok (Spinning log_line, q, [])
  end.

Inductive action :=
  | Log (i : nat) (log_line : LogLine)    (** producer [i], idle, starts to push *)
  | Go (i : nat)                          (** producer [i] makes its next access *)
  | Pop.                                  (** the consumer makes its next access, or calls [pop] *)

(** What the consumer's access returns, and the world after it. *)
Definition returned (o : option (option LogLine)) : list LogLine :=
  match o with Some (Some log_line) => [log_line] | _ => [] end.
Definition consume (w : world) : result (option (option LogLine) * world) :=
  '(c, q, o) ← pop (the_consumer w) (the_queue w);
  Ok (o, mkWorld q (producers w) (logged w) (claims w) (popped w ++ returned o) c).

Definition step (a : action) (w : world) : result world :=
  match a with
  | Log i log_line =>
      match producers w !! i with
      | Some Idle => Ok (mkWorld (the_queue w) (<[i := Pushing log_line]> (producers w)) (logged w ++ [log_line]) (claims w) (popped w) (the_consumer w))
      | _ => Ok w
      end
  | Go i =>
      match producers w !! i with
      | Some p =>
          '(p, q, c) ← advance p (the_queue w);
          Ok (mkWorld q (<[i := p]> (producers w)) (logged w) (claims w ++ c) (popped w) (the_consumer w))
      | None => Ok w
      end
  | Pop => '(_, w) ← consume w; Ok w
  end.

Definition start (n : nat) : result world :=
  q ← newQueue;
  Ok (mkWorld q (replicate n Idle) [] [] [] AtRest).
End Capacity.
End LogBufferQueue.
