(* ===== verification/LogQueueSpec.v ===== *)
(** * What the log queue promises

    In every interleaving of producers and consumer the lines come out in the order in which they got
    their slots, as long as no block has been recycled; and what happens then. *)
From stdpp Require Import base list gmap numbers.
From Stdlib Require Import ZArith Lia.
From S2P Require Import Prelude.
From S2P Require Import LogLine.
From S2P Require Import LogBuffer.
From S2P Require Import RingQueue.
From S2P Require Import LogBufferQueue.
Import LogBufferQueue.LogBufferQueue.
#[local] Open Scope fm_scope.

Section Capacity.
Variable K : nat.
Hypothesis K_pos : 0 < K.

(** ** Counting producers *)

Definition total (f : producer → nat) (ps : list producer) : nat := sum_list (f <$> ps).

Lemma total_insert f ps i p p' : ps !! i = Some p → total f (<[i := p']> ps) + f p = total f ps + f p'.
Proof.
  unfold total. revert i. induction ps as [|q ps IH]; intros [|i]; csimpl; try done; [intros [= ->]; lia|].
  intros Hi. specialize (IH i Hi). lia.
Qed.

Lemma total_le f ps i p : ps !! i = Some p → f p ≤ total f ps.
Proof.
  unfold total. revert i. induction ps as [|q ps IH]; intros [|i]; csimpl; try done; [intros [= ->]; lia|].
  intros Hi. specialize (IH i Hi). lia.
Qed.

Lemma total_zero f ps i p : total f ps = 0 → ps !! i = Some p → f p = 0.
Proof. intros H0 Hi. pose proof (total_le f ps i p Hi). lia. Qed.

Definition f_busy (p : producer) : nat := match p with Claimed _ _ | Written _ => 1 | _ => 0 end.
Definition f_filled (p : producer) : nat := match p with Filled => 1 | _ => 0 end.
Definition f_publ (p : producer) : nat := match p with Publishing _ => 1 | _ => 0 end.

(** ** The invariant *)

(** The lines taken out of their slots: those that have been returned, and the one in the consumer's hand. *)
Definition in_hand (c : consumer) : list LogLine :=
  match c with Unlinking l | Returning l _ => [l] | _ => [] end.
#[local] Notation taken w := (popped w ++ in_hand (the_consumer w)).

(** Whether the consumer has read its block to the end, and has taken it out of the queue. *)
Definition has_read (c : consumer) : nat := match c with Unlinking _ | Returning _ _ => 1 | _ => 0 end.
Definition has_unlinked (c : consumer) : nat := match c with Returning _ _ => 1 | _ => 0 end.

(** No block has been recycled and none freed. *)
Definition pristine (q : queue) : Prop :=
  reuse_time (debug q) = 0 ∧ ∀ b, b < allocation_time (debug q) → is_Some (heap q !! b).

#[local] Notation allocs w := (allocation_time (debug (the_queue w))).
#[local] Notation busy w := (total f_busy (producers w)).
#[local] Notation filled w := (total f_filled (producers w)).
#[local] Notation publ w := (total f_publ (producers w)).

(** A producer is about to write to slot [i]. *)
Definition claiming (i : nat) (p : producer) : bool := match p with Claimed _ j => j =? i | _ => false end.

(** The line of slot [i] of block [b] has been written. *)
Definition written (w : world) (b i : nat) : bool :=
  (K * b + i <? length (claims w)) && negb ((b =? allocs w - 1) && existsb (claiming i) (producers w)).

(** What a slot of a block holds: its mark says whether its line has been written, and then the line is in it - moved
    from, once it has been popped. *)
Definition slot_ok (w : world) (b : nat) (buf : LogBuffer.LogBuffer) (i : nat) : Prop :=
  LogBuffer.states buf !! i = Some (written w b i) ∧
  (written w b i = true → LogBuffer.items_ buf !! i =
     if K * b + i <? length (taken w) then moved <$> claims w !! (K * b + i) else claims w !! (K * b + i)).

(** The consumer's side of the queue, of whose blocks those before [A] have been published: it has put back [r] blocks
    and reads the next one, if there is one; [n] is the number of lines taken. *)
Record reads_at (blocks : list nat) (ri : nat) (cur : option nat) (ring : RingQueue.RingQueue) (c : consumer) (r A n : nat) : Prop := {
  ra_blocks : blocks = seq (r + has_unlinked c) (A - (r + has_unlinked c));
  ra_bound : r + has_read c ≤ A;
  ra_taken : n = K * (r + has_read c) + ri;
  ra_index : ri < K ∧ (has_read c = 1 → ri = 0);
  ra_current : cur = None ∨ cur = Some r ∧ r < A ∧ has_read c = 0;
  ra_reading : c = Reading → cur = Some r;
  ra_returning : ∀ l b, c = Returning l b → b = r;
  ra_ring : RingQueue.holds kSpare ring (seq 0 r)
}.

Record inv (w : world) : Prop := {
  iv_reuse : reuse_time (debug (the_queue w)) = 0;
  iv_pos : 0 < allocs w;
  iv_cur : current_write_buffer_ (the_queue w) = Some (allocs w - 1);
  iv_heap : ∀ b, b < allocs w → ∃ buf, heap (the_queue w) !! b = Some buf ∧ ∀ i, i < K → slot_ok w b buf i;
  iv_setters : filled w + publ w ≤ 1;
  iv_claims : length (claims w) = K * (allocs w - 1) + (1 - publ w) * (write_index_ (the_queue w) `min` K);
  iv_count : ∀ buf, heap (the_queue w) !! (allocs w - 1) = Some buf →
    (filled w + publ w = 0 → LogBuffer.count buf + busy w = write_index_ (the_queue w) `min` K ∧ LogBuffer.count buf < K) ∧
    (filled w + publ w = 1 → K ≤ write_index_ (the_queue w) ∧ busy w = 0 ∧ LogBuffer.count buf = 0);
  iv_queue : ∃ r, reads_at (log_buffers_ (the_queue w)) (read_index_ (the_queue w)) (current_read_buffer_ (the_queue w))
    (backup_log_buffers_ (the_queue w)) (the_consumer w) r (allocs w - publ w) (length (taken w));
  iv_popped : taken w = take (length (taken w)) (claims w);
  iv_claimed : ∀ p line i, producers w !! p = Some (Claimed line i) →
    i < K ∧ claims w !! (K * (allocs w - 1) + i) = Some line ∧ length (taken w) ≤ K * (allocs w - 1) + i;
  iv_distinct : ∀ p1 p2 l1 l2 i,
    producers w !! p1 = Some (Claimed l1 i) → producers w !! p2 = Some (Claimed l2 i) → p1 = p2;
  iv_written : ∀ p b, producers w !! p = Some (Written b) ∨ producers w !! p = Some (Publishing b) → b = allocs w - 1
}.

Lemma slot_inj b1 i1 b2 i2 : i1 < K → i2 < K → K * b1 + i1 = K * b2 + i2 → b1 = b2 ∧ i1 = i2.
Proof. intros H1 H2 Heq. assert (b1 = b2) by nia. subst. lia. Qed.

Lemma claiming_exists i ps : existsb (claiming i) ps = true ↔ ∃ p line, ps !! p = Some (Claimed line i).
Proof.
  rewrite existsb_exists. split.
  - intros (x & Hx & Hc). apply list_elem_of_In, list_elem_of_lookup in Hx as [p Hp].
    destruct x; try done. cbn in Hc. apply Nat.eqb_eq in Hc as ->. eauto.
  - intros (p & line & Hp). exists (Claimed line i). split; [|by apply Nat.eqb_eq].
    apply list_elem_of_In. by eapply list_elem_of_lookup_2.
Qed.

(** ** Steps that leave the blocks alone *)

Definition quiet (p : producer) : Prop := match p with Idle | Pushing _ | Spinning _ => True | _ => False end.

Lemma quiet_total f ps i p p' :
  (∀ p, quiet p → f p = 0) → ps !! i = Some p → quiet p → quiet p' → total f (<[i := p']> ps) = total f ps.
Proof. intros Hf Hi Hp Hp'. pose proof (total_insert f ps i p p' Hi). rewrite (Hf _ Hp), (Hf _ Hp') in *. lia. Qed.

Lemma quiet_lookup (ps : list producer) i p p' j x :
  ps !! i = Some p → quiet p → quiet p' → ¬ quiet x → <[i := p']> ps !! j = Some x ↔ ps !! j = Some x.
Proof.
  intros Hi Hp Hp' Hx. destruct (decide (i = j)) as [<-|Hne]; [|by rewrite list_lookup_insert_ne].
  rewrite list_lookup_insert_eq by (by eapply lookup_lt_Some). rewrite Hi. split; intros [= ->]; done.
Qed.

Lemma quiet_claiming (ps : list producer) i p p' k :
  ps !! i = Some p → quiet p → quiet p' → existsb (claiming k) (<[i := p']> ps) = existsb (claiming k) ps.
Proof.
  intros Hi Hp Hp'. apply eq_true_iff_eq. rewrite !claiming_exists.
  split; intros (j & line & Hj); exists j, line; by apply (quiet_lookup ps i p p' j (Claimed line k) Hi Hp Hp' (fun H => H)).
Qed.

Lemma inv_quiet w i p p' n lg :
  inv w → producers w !! i = Some p → quiet p → quiet p' →
  n `min` K = write_index_ (the_queue w) `min` K →
  inv (mkWorld (set_write_index n (the_queue w)) (<[i := p']> (producers w)) lg (claims w) (popped w) (the_consumer w)).
Proof.
  intros [Hre Hpos Hcur Hheap Hset Hcl Hcount Hq Hpop Hcd Hdi Hwr] Hi Hp Hp' Hn.
  assert (Ht : ∀ f, (∀ p, quiet p → f p = 0) → total f (<[i := p']> (producers w)) = total f (producers w)).
  { intros f Hf. by eapply quiet_total. }
  constructor; cbn [the_queue the_consumer producers claims popped set_write_index debug current_write_buffer_ heap write_index_
    log_buffers_ read_index_ current_read_buffer_ backup_log_buffers_]; rewrite ?Hn, ?(Ht f_busy), ?(Ht f_filled), ?(Ht f_publ) by (by intros []); try done.
  - intros b Hb. destruct (Hheap b Hb) as (buf & Hbuf & Hs). exists buf. split; [done|]. intros k Hk.
    specialize (Hs k Hk). unfold slot_ok, written in *. cbn [the_queue the_consumer producers claims popped set_write_index debug].
    by rewrite (quiet_claiming _ _ p).
  - intros buf Hbuf. destruct (Hcount buf Hbuf) as [H1 H2]. split; intros H; [by apply H1|]. destruct (H2 H) as (? & ? & ?). split_and!; [lia|done..].
  - intros j line k Hj. apply (quiet_lookup _ i p) in Hj; try done; [|by intros []]. by apply (Hcd j).
  - intros j1 j2 l1 l2 k H1 H2. apply (quiet_lookup _ i p) in H1, H2; try done; try (by intros []). by eapply Hdi.
  - intros j b Hj. rewrite !(quiet_lookup _ i p) in Hj by (done || by intros []). by apply (Hwr j).
Qed.

(** Computes the members of a world that has been changed. *)
Ltac members := cbn [the_queue the_consumer producers claims popped logged set_write_index set_heap set_debug set_current_write set_current_read
  set_read_index set_log_buffers set_backup debug current_write_buffer_ heap write_index_ log_buffers_ read_index_
  current_read_buffer_ backup_log_buffers_ reuse_time allocation_time publish].

Lemma popped_prefix w : inv w → popped w = take (length (popped w)) (claims w).
Proof.
  intros Hi. pose proof (f_equal (take (length (popped w))) (iv_popped _ Hi)) as Hp.
  rewrite take_app_length, take_take, Nat.min_l in Hp; [done|]. rewrite length_app. lia.
Qed.

(** ** A slot is given out *)

Lemma normal_phase w : inv w → write_index_ (the_queue w) < K → filled w + publ w = 0.
Proof.
  intros Hi Hlt. destruct (iv_heap _ Hi (allocs w - 1)) as (buf & Hb & _); [pose proof (iv_pos _ Hi); lia|].
  destruct (iv_count _ Hi buf Hb) as [_ H]. pose proof (iv_setters _ Hi). lia.
Qed.

Lemma claiming_gain (ps : list producer) p old new k :
  ps !! p = Some old → quiet old → existsb (claiming k) (<[p := new]> ps) = claiming k new || existsb (claiming k) ps.
Proof.
  intros Hp Hold. apply eq_true_iff_eq. rewrite orb_true_iff, !claiming_exists. split.
  - intros (j & line & [(<- & -> & _)|[_ Hj]]%list_lookup_insert_Some); [left; apply Nat.eqb_refl | eauto].
  - intros [Hc | (j & line & Hj)].
    + destruct new as [| |line n| | | |]; try done. apply Nat.eqb_eq in Hc as ->. exists p, line.
      apply list_lookup_insert_eq. by eapply lookup_lt_Some.
    + exists j, line. rewrite list_lookup_insert_ne; [done|]. intros <-. rewrite Hp in Hj. by injection Hj as ->.
Qed.

(** The mark of the new slot is not set, and no other changes. *)
Lemma claim_written w q p line wi lg b i :
  producers w !! p = Some (Pushing line) → length (claims w) = K * (allocs w - 1) + wi → wi < K → i < K →
  allocation_time (debug q) = allocs w →
  written (mkWorld q (<[p := Claimed line wi]> (producers w)) lg (claims w ++ [line]) (popped w) (the_consumer w)) b i = written w b i.
Proof.
  intros Hp Hlen Hwi Hi He. unfold written. members. rewrite He, (claiming_gain _ p (Pushing line)) by done.
  cbn [claiming]. rewrite length_app, (Nat.eqb_sym wi i). cbn [length].
  destruct (Nat.eqb_spec (K * b + i) (length (claims w))) as [He2|He2].
  - rewrite Hlen in He2. apply slot_inj in He2 as [-> ->]; [|done..]. rewrite !Nat.eqb_refl. simpl. rewrite andb_false_r.
    symmetry. apply andb_false_iff. left. apply Nat.ltb_ge. lia.
  - replace (K * b + i <? length (claims w) + 1) with (K * b + i <? length (claims w))
      by (apply eq_true_iff_eq; rewrite !Nat.ltb_lt; lia).
    destruct (Nat.eqb_spec b (allocs w - 1)) as [->|]; [|done]. destruct (Nat.eqb_spec i wi); [lia | done].
Qed.

Lemma inv_claim w p line wi lg :
  inv w → producers w !! p = Some (Pushing line) → write_index_ (the_queue w) = wi → wi < K →
  inv (mkWorld (set_write_index (S wi) (the_queue w)) (<[p := Claimed line wi]> (producers w)) lg (claims w ++ [line]) (popped w) (the_consumer w)).
Proof.
  intros Hi Hp Hwi Hlt. pose proof (normal_phase w Hi ltac:(lia)) as Hn. pose proof Hi as [Hre Hpos Hcur Hheap Hset Hcl Hcount Hq Hpop Hcd Hdi Hwr].
  pose proof (total_insert f_busy _ _ _ (Claimed line wi) Hp) as Tb. pose proof (total_insert f_filled _ _ _ (Claimed line wi) Hp) as Tf.
  pose proof (total_insert f_publ _ _ _ (Claimed line wi) Hp) as Tp. cbn [f_busy f_filled f_publ] in Tb, Tf, Tp.
  rewrite !Nat.add_0_r in Tf, Tp. rewrite Nat.add_0_r in Tb.
  assert (Hlen : length (claims w) = K * (allocs w - 1) + wi) by (replace (publ w) with 0 in Hcl by lia; lia).
  assert (Hle : length (taken w) ≤ length (claims w)).
  { pose proof (f_equal length Hpop) as Hl. rewrite length_take in Hl. lia. }
  constructor; members; rewrite ?Tf, ?Tp, ?Tb; try done.
  - intros b Hb. destruct (Hheap b Hb) as (buf & Hbuf & Hs). exists buf. split; [done|]. intros i Hik.
    destruct (Hs i Hik) as [Hst Hit]. unfold slot_ok. rewrite claim_written by done.
    split; [done|]. intros Hwr'. members. rewrite (Hit Hwr'), lookup_app_l; [done|].
    unfold written in Hwr'. apply andb_true_iff in Hwr' as [Hwr' _]. by apply Nat.ltb_lt in Hwr'.
  - rewrite length_app, Hlen. replace (publ w) with 0 by lia. cbn [length]. lia.
  - intros buf Hbuf. destruct (Hcount buf Hbuf) as [H1 _]. specialize (H1 Hn). split; [|lia]. intros _. lia.
  - by rewrite take_app_le.
  - intros j l i [(<- & [= -> ->] & _)|[_ Hj]]%list_lookup_insert_Some.
    + split; [done|]. rewrite <- Hlen. split; [by rewrite lookup_app_r, Nat.sub_diag by lia | lia].
    + destruct (Hcd _ _ _ Hj) as (? & Hc & ?). split_and!; [done | by apply lookup_app_l_Some | done].
  - assert (Hno : ∀ j l, producers w !! j = Some (Claimed l wi) → False).
    { intros j l Hj. destruct (Hcd _ _ _ Hj) as (_ & Hc & _). apply lookup_lt_Some in Hc. lia. }
    intros j1 j2 l1 l2 i [(<- & E1 & _)|[_ H1]]%list_lookup_insert_Some [(<- & E2 & _)|[_ H2]]%list_lookup_insert_Some.
    + done.
    + injection E1 as -> ->. by apply Hno in H2.
    + injection E2 as -> ->. by apply Hno in H1.
    + by eapply Hdi.
  - intros j b [[(_ & ? & _)|[_ Hj]]%list_lookup_insert_Some | [(_ & ? & _)|[_ Hj]]%list_lookup_insert_Some]; try done; apply (Hwr j); auto.
Qed.
(** ** A line is written *)

Lemma claiming_lose w p line idx new k :
  inv w → producers w !! p = Some (Claimed line idx) → claiming k new = false →
  existsb (claiming k) (<[p := new]> (producers w)) = negb (k =? idx) && existsb (claiming k) (producers w).
Proof.
  intros Hi Hp Hnew. apply eq_true_iff_eq. rewrite andb_true_iff, negb_true_iff, Nat.eqb_neq, !claiming_exists. split.
  - intros (j & l & [(<- & -> & _)|[Hne Hj]]%list_lookup_insert_Some).
    + cbn in Hnew. by rewrite Nat.eqb_refl in Hnew.
    + split; [|eauto]. intros ->. apply Hne. by eapply (iv_distinct _ Hi).
  - intros [Hne (j & l & Hj)]. exists j, l. rewrite list_lookup_insert_ne; [done|]. intros <-. congruence.
Qed.

(** The line is in its slot: its mark is the only one that changes. *)
Lemma write_written w q p line idx b i lg :
  inv w → producers w !! p = Some (Claimed line idx) → i < K → allocation_time (debug q) = allocs w →
  written (mkWorld q (<[p := Written (allocs w - 1)]> (producers w)) lg (claims w) (popped w) (the_consumer w)) b i =
  ((b =? allocs w - 1) && (i =? idx)) || written w b i.
Proof.
  intros Hi Hp Hik He. destruct (iv_claimed _ Hi _ _ _ Hp) as (Hidx & Hc & _). apply lookup_lt_Some in Hc.
  unfold written. members. rewrite He, (claiming_lose w p line idx) by done.
  destruct (Nat.eqb_spec b (allocs w - 1)) as [->|]; [|done]. destruct (Nat.eqb_spec i idx) as [->|]; [|done].
  simpl. rewrite (proj2 (Nat.ltb_lt _ _)) by done. done.
Qed.

Lemma inv_write w p line idx buf lg :
  inv w → producers w !! p = Some (Claimed line idx) → heap (the_queue w) !! (allocs w - 1) = Some buf →
  inv (mkWorld (set_heap (<[allocs w - 1 := LogBuffer.write line idx buf]> (heap (the_queue w))) (the_queue w))
         (<[p := Written (allocs w - 1)]> (producers w)) lg (claims w) (popped w) (the_consumer w)).
Proof.
  intros Hi Hp Hbuf. pose proof Hi as [Hre Hpos Hcur Hheap Hset Hcl Hcount Hq Hpop Hcd Hdi Hwr].
  pose proof (total_insert f_busy _ _ _ (Written (allocs w - 1)) Hp) as Tb. pose proof (total_insert f_filled _ _ _ (Written (allocs w - 1)) Hp) as Tf.
  pose proof (total_insert f_publ _ _ _ (Written (allocs w - 1)) Hp) as Tp. cbn [f_busy f_filled f_publ] in Tb, Tf, Tp.
  apply Nat.add_cancel_r in Tb, Tf, Tp. destruct (Hcd _ _ _ Hp) as (Hidx & Hline & Hunread).
  constructor; members; rewrite ?Tf, ?Tp, ?Tb; try done.
  - intros b Hb. destruct (Hheap b Hb) as (buf0 & Hbuf0 & Hs).
    destruct (decide (b = allocs w - 1)) as [->|Hne].
    + assert (buf0 = buf) as -> by congruence. rewrite lookup_insert_eq. eexists. split; [done|]. intros i Hik.
      destruct (Hs i Hik) as [Hst Hit]. unfold slot_ok. rewrite (write_written w _ p line idx) by done.
      rewrite Nat.eqb_refl. cbn [andb LogBuffer.states LogBuffer.items_ LogBuffer.write].
      destruct (Nat.eqb_spec i idx) as [->|Hni].
      * split; [apply list_lookup_insert_eq; by eapply lookup_lt_Some|]. intros _. members. rewrite lookup_insert_eq, Hline.
        by rewrite (proj2 (Nat.ltb_ge _ _)).
      * rewrite list_lookup_insert_ne, lookup_insert_ne by done. by split.
    + rewrite lookup_insert_ne by done. exists buf0. split; [done|]. intros i Hik. destruct (Hs i Hik) as [Hst Hit].
      unfold slot_ok. rewrite (write_written w _ p line idx) by done. rewrite (proj2 (Nat.eqb_neq b _)) by done. by split.
  - intros buf0. rewrite lookup_insert_eq. intros [= <-]. apply (Hcount buf Hbuf).
  - intros j l i [(_ & ? & _)|[_ Hj]]%list_lookup_insert_Some; [done|]. by apply (Hcd j).
  - intros j1 j2 l1 l2 i [(_ & ? & _)|[_ H1]]%list_lookup_insert_Some [(_ & ? & _)|[_ H2]]%list_lookup_insert_Some; try done. by eapply Hdi.
  - intros j b [[(_ & E & _)|[_ Hj]]%list_lookup_insert_Some | [(_ & E & _)|[_ Hj]]%list_lookup_insert_Some]; try done.
    + by injection E as <-.
    + apply (Hwr j); auto.
    + apply (Hwr j); auto.
Qed.
(** ** The count is raised, a new block becomes current and is published *)

Lemma claiming_same (ps : list producer) p old new k :
  ps !! p = Some old → claiming k old = false → claiming k new = false →
  existsb (claiming k) (<[p := new]> ps) = existsb (claiming k) ps.
Proof.
  intros Hp Hold Hnew. apply eq_true_iff_eq. rewrite !claiming_exists. split.
  - intros (j & l & [(<- & -> & _)|[_ Hj]]%list_lookup_insert_Some); [|eauto].
    cbn in Hnew. by rewrite Nat.eqb_refl in Hnew.
  - intros (j & l & Hj). exists j, l. rewrite list_lookup_insert_ne; [done|]. intros <-.
    assert (old = Claimed l k) as -> by congruence. cbn in Hold. by rewrite Nat.eqb_refl in Hold.
Qed.

(** A producer moves on outside of [LogBuffer::push]'s writing. *)
Lemma claimed_after (ps : list producer) p new :
  (∀ k, claiming k new = false) → ∀ j l i, <[p := new]> ps !! j = Some (Claimed l i) → ps !! j = Some (Claimed l i).
Proof.
  intros Hnew j l i [(<- & -> & _)|[_ Hj]]%list_lookup_insert_Some; [|done].
  specialize (Hnew i). cbn in Hnew. by rewrite Nat.eqb_refl in Hnew.
Qed.

Lemma no_claims w : inv w → busy w = 0 → ∀ j x, producers w !! j = Some x → f_busy x = 0.
Proof. intros Hi Hb j x Hj. by eapply total_zero. Qed.

Lemma no_claiming w k : busy w = 0 → existsb (claiming k) (producers w) = false.
Proof.
  intros Hb. apply not_true_iff_false. rewrite claiming_exists. intros (j & l & Hj).
  pose proof (total_zero f_busy _ _ _ Hb Hj). done.
Qed.

Lemma inv_finish w p b buf full buf' lg :
  inv w → producers w !! p = Some (Written b) → heap (the_queue w) !! b = Some buf → LogBuffer.finish K buf = (full, buf') →
  inv (mkWorld (set_heap (<[b := buf']> (heap (the_queue w))) (the_queue w))
         (<[p := if full then Filled else Idle]> (producers w)) lg (claims w) (popped w) (the_consumer w)).
Proof.
  intros Hi Hp Hbuf Hf. pose proof Hi as [Hre Hpos Hcur Hheap Hset Hcl Hcount Hq Hpop Hcd Hdi Hwr].
  assert (b = allocs w - 1) as -> by (apply (Hwr p); by left). set (new := if full then Filled else Idle).
  pose proof (total_insert f_busy _ _ _ new Hp) as Tb. pose proof (total_insert f_filled _ _ _ new Hp) as Tf.
  pose proof (total_insert f_publ _ _ _ new Hp) as Tp. pose proof (total_le f_busy _ _ _ Hp) as Lb.
  assert (Hnew : ∀ k, claiming k new = false) by (intros k; unfold new; by destruct full).
  assert (Hsame : LogBuffer.states buf' = LogBuffer.states buf ∧ LogBuffer.items_ buf' = LogBuffer.items_ buf).
  { unfold LogBuffer.finish in Hf. case_bool_decide; by injection Hf as <- <-. }
  destruct (Hcount buf Hbuf) as [H1 H2]. cbn [f_busy f_filled f_publ] in *.
  assert (Hphase : filled w + publ w = 0) by (destruct (decide (filled w + publ w = 0)); [done | destruct H2; lia]).
  destruct (H1 Hphase) as [Hc Hlt].
  assert (Hfull : if full then LogBuffer.count buf + 1 = K ∧ LogBuffer.count buf' = 0 else LogBuffer.count buf + 1 < K ∧ LogBuffer.count buf' = LogBuffer.count buf + 1).
  { unfold LogBuffer.finish in Hf. case_bool_decide as Hd; injection Hf as <- <-; cbn; [done|]. lia. }
  assert (Hpub : total f_publ (<[p := new]> (producers w)) = publ w) by (unfold new in *; destruct full; cbn in Tp; lia).
  assert (Hfil : total f_filled (<[p := new]> (producers w)) = if full then 1 else 0) by (unfold new in *; destruct full; cbn in Tf; lia).
  assert (Hbus : total f_busy (<[p := new]> (producers w)) + 1 = busy w) by (unfold new in *; destruct full; cbn in Tb; lia).
  constructor; members; rewrite ?Hpub, ?Hfil; try done.
  - intros b' Hb'. destruct (Hheap b' Hb') as (buf0 & Hbuf0 & Hs).
    assert (Hslots : ∀ x, LogBuffer.states x = LogBuffer.states buf0 → LogBuffer.items_ x = LogBuffer.items_ buf0 → ∀ i, i < K →
      slot_ok (mkWorld (set_heap (<[allocs w - 1 := buf']> (heap (the_queue w))) (the_queue w)) (<[p := new]> (producers w)) lg (claims w) (popped w) (the_consumer w)) b' x i).
    { intros x E1 E2 i Hik. specialize (Hs i Hik). unfold slot_ok, written in *. members. rewrite E1, E2.
      by rewrite (claiming_same _ p (Written (allocs w - 1))). }
    destruct (decide (b' = allocs w - 1)) as [->|Hne].
    + rewrite lookup_insert_eq. exists buf'. split; [done|]. destruct Hsame. apply Hslots; congruence.
    + rewrite lookup_insert_ne by done. exists buf0. split; [done|]. by apply Hslots.
  - destruct full; lia.
  - intros buf0. rewrite lookup_insert_eq. intros [= <-]. destruct full; split; lia.
  - intros j l i Hj. eapply Hcd. by eapply claimed_after.
  - intros j1 j2 l1 l2 i Hj1 Hj2. eapply Hdi; by eapply claimed_after.
  - intros j b' [[(_ & E & _)|[_ Hj]]%list_lookup_insert_Some | [(_ & E & _)|[_ Hj]]%list_lookup_insert_Some];
      try (unfold new in E; by destruct full); apply (Hwr j); auto.
Qed.

(** A new block, with no spare one left. *)
Lemma inv_allocate w p q lg :
  inv w → producers w !! p = Some Filled → RingQueue.pop kSpare (backup_log_buffers_ (the_queue w)) = None →
  acquire K (the_queue w) = Ok (allocs w, q) →
  inv (mkWorld q (<[p := Publishing (allocs w)]> (producers w)) lg (claims w) (popped w) (the_consumer w)).
Proof.
  intros Hi Hp Hring Hacq. unfold acquire in Hacq. rewrite Hring in Hacq. injection Hacq as <-.
  pose proof Hi as [Hre Hpos Hcur Hheap Hset Hcl Hcount Hq Hpop Hcd Hdi Hwr].
  pose proof (total_insert f_busy _ _ _ (Publishing (allocs w)) Hp) as Tb. pose proof (total_insert f_filled _ _ _ (Publishing (allocs w)) Hp) as Tf.
  pose proof (total_insert f_publ _ _ _ (Publishing (allocs w)) Hp) as Tp. cbn [f_busy f_filled f_publ] in Tb, Tf, Tp.
  destruct (Hheap (allocs w - 1) ltac:(lia)) as (buf & Hbuf & _). destruct (Hcount buf Hbuf) as [_ H2].
  destruct H2 as (Hwi & Hbusy & Hc0); [lia|].
  assert (Hlen : length (claims w) = K * allocs w) by (replace (publ w) with 0 in Hcl by lia; nia).
  assert (Hsucc : S (allocs w) - 1 = allocs w) by lia.
  assert (Hno : ∀ j l i, <[p := Publishing (allocs w)]> (producers w) !! j = Some (Claimed l i) → False).
  { intros j l i Hj%claimed_after; [|done]. by pose proof (total_zero f_busy _ _ _ Hbusy Hj). }
  constructor; members; rewrite ?Hsucc; try done; try lia.
  - intros b Hb. destruct (decide (b = allocs w)) as [->|Hne].
    + rewrite lookup_insert_eq. eexists. split; [done|]. intros i Hik. unfold slot_ok, written. members.
      rewrite (proj2 (Nat.ltb_ge _ _)) by lia. cbn [andb LogBuffer.states LogBuffer.newBuffer]. split; [by apply lookup_replicate_2 | done].
    + rewrite lookup_insert_ne by done. destruct (Hheap b ltac:(lia)) as (buf0 & Hbuf0 & Hs). exists buf0. split; [done|].
      intros i Hik. specialize (Hs i Hik). unfold slot_ok, written in *. members. rewrite no_claiming in Hs by done.
      rewrite (claiming_same _ p Filled), no_claiming by done. by rewrite !andb_false_r in *.
  - intros buf0. rewrite lookup_insert_eq. intros [= <-]. cbn. split; lia.
  - destruct Hq as [r Hra]. exists r.
    by replace (S (allocs w) - total f_publ (<[p := Publishing (allocs w)]> (producers w))) with (allocs w - publ w) by lia.
  - intros j l i Hj. by apply Hno in Hj.
  - intros j1 j2 l1 l2 i Hj1. by apply Hno in Hj1.
  - intros j b [[(_ & E & _)|[Hne Hj]]%list_lookup_insert_Some | [(_ & E & _)|[Hne Hj]]%list_lookup_insert_Some]; try done.
    + by pose proof (total_zero f_busy _ _ _ Hbusy Hj).
    + by injection E as <-.
    + pose proof (total_le f_publ _ _ _ Hj). cbn in *. lia.
Qed.

Lemma inv_publish w p b lg :
  inv w → producers w !! p = Some (Publishing b) →
  inv (mkWorld (publish b (the_queue w)) (<[p := Idle]> (producers w)) lg (claims w) (popped w) (the_consumer w)).
Proof.
  intros Hi Hp. pose proof Hi as [Hre Hpos Hcur Hheap Hset Hcl Hcount Hq Hpop Hcd Hdi Hwr].
  assert (b = allocs w - 1) as -> by (apply (Hwr p); by right).
  pose proof (total_insert f_busy _ _ _ Idle Hp) as Tb. pose proof (total_insert f_filled _ _ _ Idle Hp) as Tf.
  pose proof (total_insert f_publ _ _ _ Idle Hp) as Tp. cbn [f_busy f_filled f_publ] in Tb, Tf, Tp.
  destruct (Hheap (allocs w - 1) ltac:(lia)) as (buf & Hbuf & _). destruct (Hcount buf Hbuf) as [_ H2].
  destruct H2 as (Hwi & Hbusy & Hc0); [lia|].
  constructor; members; try done; try lia.
  - intros b Hb. destruct (Hheap b Hb) as (buf0 & Hbuf0 & Hs). exists buf0. split; [done|]. intros i Hik.
    specialize (Hs i Hik). unfold slot_ok, written in *. members. by rewrite (claiming_same _ p (Publishing (allocs w - 1))).
  - intros buf0 Hbuf0. assert (buf0 = buf) as -> by congruence. split; lia.
  - destruct Hq as [r [H0 Hr Hn Hri Hrd Hrg Hrt Hh]]. exists r. assert (has_unlinked (the_consumer w) ≤ has_read (the_consumer w)) by (destruct (the_consumer w); simpl; lia).
    replace (total f_publ (<[p := Idle]> (producers w))) with 0 by lia. replace (publ w) with 1 in * by lia.
    constructor; try done; [|lia | destruct Hrd as [|(? & ? & ?)]; [by left | right; split_and!; [done | lia | done]]].
    rewrite H0. set (f := r + has_unlinked (the_consumer w)) in *.
    replace (allocs w - 0 - f) with (S (allocs w - 1 - f)) by lia. rewrite seq_S. do 2 f_equal. lia.
  - intros j l i Hj%claimed_after; [|done]. by apply (Hcd j).
  - intros j1 j2 l1 l2 i Hj1%claimed_after Hj2%claimed_after; try done. by eapply Hdi.
  - intros j b [[(_ & E & _)|[_ Hj]]%list_lookup_insert_Some | [(_ & E & _)|[_ Hj]]%list_lookup_insert_Some]; try done; apply (Hwr j); auto.
Qed.
(** ** The consumer *)

(** What a step of the consumer has to keep. *)
Lemma inv_reader w q lg po c :
  inv w → reuse_time (debug q) = reuse_time (debug (the_queue w)) → allocation_time (debug q) = allocs w →
  current_write_buffer_ q = current_write_buffer_ (the_queue w) → write_index_ q = write_index_ (the_queue w) →
  (∀ b buf, heap (the_queue w) !! b = Some buf → b < allocs w → ∃ buf', heap q !! b = Some buf' ∧ LogBuffer.count buf' = LogBuffer.count buf ∧
     ∀ i, i < K → slot_ok w b buf i → slot_ok (mkWorld q (producers w) lg (claims w) po c) b buf' i) →
  (∃ r, reads_at (log_buffers_ q) (read_index_ q) (current_read_buffer_ q) (backup_log_buffers_ q) c r
     (allocs w - publ w) (length (po ++ in_hand c))) →
  po ++ in_hand c = take (length (po ++ in_hand c)) (claims w) →
  (∀ p line i, producers w !! p = Some (Claimed line i) → length (po ++ in_hand c) ≤ K * (allocs w - 1) + i) →
  inv (mkWorld q (producers w) lg (claims w) po c).
Proof.
  intros Hi Hre' Hal Hcur' Hwi' Hheap' Hq' Hpo Hun. pose proof Hi as [Hre Hpos Hcur Hheap Hset Hcl Hcount Hq Hpop Hcd Hdi Hwr].
  constructor; members; rewrite ?Hre', ?Hal, ?Hcur', ?Hwi'; try done.
  - intros b Hb. destruct (Hheap b Hb) as (buf & Hbuf & Hs). destruct (Hheap' b buf Hbuf Hb) as (buf' & Hb' & _ & Hs').
    exists buf'. split; [done|]. intros i Hik. by apply Hs', Hs.
  - intros buf' Hb'. destruct (Hheap (allocs w - 1)) as (buf & Hbuf & _); [lia|].
    destruct (Hheap' _ buf Hbuf) as (buf2 & Hb2 & Hcnt & _); [lia|]. assert (buf2 = buf') as -> by congruence. rewrite Hcnt. by apply Hcount.
  - intros j l i Hj. destruct (Hcd _ _ _ Hj) as (? & ? & _). split_and!; [done..|]. by apply (Hun j l).
Qed.

(** A line is taken out of its slot: the slot is read, the others are as they were. *)
Lemma slot_popped w q lg po c b0 b buf line ri i :
  slot_ok w b buf i → i < K → ri < K → length (taken w) = K * b0 + ri → claims w !! (K * b0 + ri) = Some line →
  allocation_time (debug q) = allocs w → po ++ in_hand c = taken w ++ [line] →
  slot_ok (mkWorld q (producers w) lg (claims w) po c) b
    (if decide (b = b0) then LogBuffer.mkBuffer (LogBuffer.states buf) (LogBuffer.count buf) (<[ri := moved line]> (LogBuffer.items_ buf)) else buf) i.
Proof.
  intros [Hst Hit] Hi Hri Hlen Hline Hal Hpo. unfold slot_ok.
  assert (Hw : written (mkWorld q (producers w) lg (claims w) po c) b i = written w b i) by (unfold written; members; by rewrite Hal).
  rewrite Hw. split; [by case_decide|]. intros Hwr. specialize (Hit Hwr). members. rewrite Hpo, length_app, Hlen. cbn [length]. rewrite Hlen in Hit.
  destruct (decide (K * b + i = K * b0 + ri)) as [He|He].
  - apply slot_inj in He as [-> ->]; [|done..]. rewrite decide_True by done. cbn [LogBuffer.items_].
    rewrite lookup_insert_eq, (proj2 (Nat.ltb_lt _ _)) by lia. by rewrite Hline.
  - replace (K * b + i <? K * b0 + ri + 1) with (K * b + i <? K * b0 + ri) by (apply eq_true_iff_eq; rewrite !Nat.ltb_lt; lia).
    rewrite <- Hit. case_decide as Hb; [|done]. subst. cbn [LogBuffer.items_]. rewrite lookup_insert_ne; [done|]. lia.
Qed.

(** An access that takes no line out of its slot. *)
Lemma inv_takes_nothing w q lg po c :
  inv w → po ++ in_hand c = taken w → heap q = heap (the_queue w) → reuse_time (debug q) = reuse_time (debug (the_queue w)) →
  allocation_time (debug q) = allocs w → current_write_buffer_ q = current_write_buffer_ (the_queue w) → write_index_ q = write_index_ (the_queue w) →
  (∃ r, reads_at (log_buffers_ q) (read_index_ q) (current_read_buffer_ q) (backup_log_buffers_ q) c r
     (allocs w - publ w) (length (taken w))) →
  inv (mkWorld q (producers w) lg (claims w) po c).
Proof.
  intros Hi Hpo Hheap Hre Hal Hcur Hwi Hq. apply inv_reader; rewrite ?Hpo; try done.
  - intros b buf Hb _. rewrite Hheap. exists buf. split_and!; [done..|]. intros i _ Hs.
    unfold slot_ok, written in *. members. by rewrite Hal, Hpo.
  - apply Hi.
  - intros j l i Hj. by destruct (iv_claimed _ Hi _ _ _ Hj) as (_ & _ & ?).
Qed.

(** An access that takes one. *)
Lemma inv_takes_line w q lg po c r ri buf line :
  inv w → length (taken w) = K * r + ri → ri < K → r < allocs w - publ w → heap (the_queue w) !! r = Some buf → written w r ri = true →
  claims w !! (K * r + ri) = Some line → po ++ in_hand c = taken w ++ [line] →
  reuse_time (debug q) = reuse_time (debug (the_queue w)) → allocation_time (debug q) = allocs w →
  current_write_buffer_ q = current_write_buffer_ (the_queue w) → write_index_ q = write_index_ (the_queue w) →
  heap q = <[r := LogBuffer.mkBuffer (LogBuffer.states buf) (LogBuffer.count buf) (<[ri := moved line]> (LogBuffer.items_ buf))]> (heap (the_queue w)) →
  (∃ r', reads_at (log_buffers_ q) (read_index_ q) (current_read_buffer_ q) (backup_log_buffers_ q) c r'
     (allocs w - publ w) (S (length (taken w)))) →
  inv (mkWorld q (producers w) lg (claims w) po c).
Proof.
  intros Hi Hlen Hri Hr Hbuf Hwr Hline Hpo Hre Hal Hcur Hwi Hheap Hq. apply inv_reader; try done.
  - intros b buf0 Hb Hlt. rewrite Hheap. destruct (decide (b = r)) as [->|Hne].
    + rewrite lookup_insert_eq. eexists. split; [done|]. split; [simpl; congruence|]. intros i Hik Hs.
      pose proof (slot_popped w q lg po c r r buf0 line ri i Hs Hik Hri Hlen Hline Hal Hpo) as Hn. rewrite decide_True in Hn by done.
      by assert (buf0 = buf) as -> by congruence.
    + rewrite lookup_insert_ne by done. exists buf0. split_and!; [done..|]. intros i Hik Hs.
      pose proof (slot_popped w q lg po c r b buf0 line ri i Hs Hik Hri Hlen Hline Hal Hpo) as Hn. by rewrite decide_False in Hn.
  - rewrite Hpo, (length_app (taken w)), Nat.add_1_r. done.
  - rewrite Hpo, (length_app (taken w)). cbn [length]. rewrite Nat.add_1_r, (take_S_r _ _ line) by (by rewrite Hlen). by rewrite <- (iv_popped _ Hi).
  - intros j l i Hj. destruct (iv_claimed _ Hi _ _ _ Hj) as (Hik & _ & Hle). rewrite Hpo, (length_app (taken w)). cbn [length].
    destruct (decide (K * (allocs w - 1) + i = length (taken w))) as [He|]; [|lia]. exfalso. rewrite Hlen in He.
    apply slot_inj in He as [<- <-]; [|done..]. unfold written in Hwr. rewrite Nat.eqb_refl in Hwr.
    apply andb_true_iff in Hwr as [_ Hwr]. rewrite (proj2 (claiming_exists i (producers w))) in Hwr by eauto. done.
Qed.
(** Putting a block back, where this neither drops nor moves anything but the spare blocks. *)
Lemma kept_or_freed up q :
  RingQueue.holds kSpare (backup_log_buffers_ q) (seq 0 up) → up < allocation_time (debug q) → pristine (put_back up q) →
  heap (put_back up q) = heap q ∧ reuse_time (debug (put_back up q)) = reuse_time (debug q) ∧
  allocation_time (debug (put_back up q)) = allocation_time (debug q) ∧
  current_write_buffer_ (put_back up q) = current_write_buffer_ q ∧ current_read_buffer_ (put_back up q) = current_read_buffer_ q ∧
  write_index_ (put_back up q) = write_index_ q ∧ read_index_ (put_back up q) = read_index_ q ∧
  log_buffers_ (put_back up q) = log_buffers_ q ∧ RingQueue.holds kSpare (backup_log_buffers_ (put_back up q)) (seq 0 (S up)).
Proof.
  intros Hh Hup Hpr. unfold put_back in *. destruct (RingQueue.push_holds kSpare _ _ up Hh) as (ring & Hpush & Hh').
  rewrite Hpush in *. destruct (bool_decide (length (seq 0 up) < kSpare)); members.
  - split_and!; try done. by rewrite seq_S.
  - destruct Hpr as [_ Hpr]. destruct (Hpr up) as [? Hx]; [done|]. revert Hx. members. by rewrite lookup_delete_eq.
Qed.

(** What the consumer's access promises. *)
Definition access_promise w lg (c : consumer) (q : queue) (o : option (option LogLine)) : Prop :=
  (pristine q → inv (mkWorld q (producers w) lg (claims w) (popped w ++ returned o) c)) ∧
  (o = Some None → busy w = 0 → filled w + publ w = 0 → length (popped w) = length (claims w)).

(** All the slots of the blocks before the consumer's have been read. *)
Lemma nothing_left w r ri :
  inv w → length (popped w) = K * r + ri → r ≤ allocs w - publ w → (r < allocs w - publ w → length (claims w) ≤ K * r + ri) →
  filled w + publ w = 0 → length (taken w) = length (popped w) → length (popped w) = length (claims w).
Proof.
  intros Hi Hlen Hr Hcl Hz Ht. pose proof (f_equal length (iv_popped _ Hi)) as Hpl. rewrite length_take, Ht in Hpl.
  destruct (decide (r < allocs w - publ w)) as [Hlt|Hge]; [specialize (Hcl Hlt); lia|].
  destruct (iv_heap _ Hi (allocs w - 1)) as (buf & Hbuf & _); [pose proof (iv_pos _ Hi); lia|].
  destruct (iv_count _ Hi buf Hbuf) as [H1 _]. destruct (H1 Hz) as [Hc Hlt]. pose proof (iv_claims _ Hi) as Hc2.
  pose proof (iv_pos _ Hi). replace (publ w) with 0 in * by lia. assert (r = allocs w) as -> by lia. nia.
Qed.

(** Reading the next slot. *)
Lemma read_ok w lg r :
  inv w → in_hand (the_consumer w) = [] → current_read_buffer_ (the_queue w) = Some r →
  reads_at (log_buffers_ (the_queue w)) (read_index_ (the_queue w)) (Some r)
    (backup_log_buffers_ (the_queue w)) AtRest r (allocs w - publ w) (length (popped w)) →
  ∃ c q o, read K (the_queue w) = Ok (c, q, o) ∧ access_promise w lg c q o.
Proof.
  intros Hi Hhand Hcur [Hl Hra Hlen [Hri _] Hrd _ _ Hh]. destruct Hrd as [|(_ & Hlt & _)]; [done|].
  cbn [has_unlinked has_read] in *. rewrite Nat.add_0_r in Hl, Hra, Hlen.
  assert (Htk : taken w = popped w) by (by rewrite Hhand, app_nil_r).
  destruct (iv_heap _ Hi r) as (buf & Hbuf & Hs); [lia|]. destruct (Hs _ Hri) as [Hst Hit]. unfold read. rewrite Hcur, Hbuf.
  unfold LogBuffer.pop. rewrite Hst. destruct (written w r (read_index_ (the_queue w))) eqn:Hwr.
  - specialize (Hit eq_refl). rewrite Htk, <- Hlen, Nat.ltb_irrefl in Hit. rewrite Hlen in Hit.
    destruct (claims w !! (K * r + read_index_ (the_queue w))) as [line|] eqn:Hline.
    2:{ exfalso. apply andb_true_iff in Hwr as [Hwr%Nat.ltb_lt _]. apply lookup_ge_None in Hline. lia. }
    rewrite Hit, bind_Ok. case_bool_decide as HK; eexists _, _, _; (split; [done|]); (split; [intros _ | done]); cbn [returned]; rewrite ?app_nil_r;
      (eapply (inv_takes_line w _ lg _ _ r (read_index_ (the_queue w)) buf line); try done; [by rewrite Htk | cbn [in_hand]; by rewrite Htk, ?app_nil_r |]);
      exists r; rewrite Htk; revert HK; members; intros HK.
    + constructor; cbn [has_read has_unlinked]; try done; [by rewrite Nat.add_0_r | lia | lia | by left].
    + constructor; cbn [has_read has_unlinked]; try done; rewrite ?Nat.add_0_r; [done | lia | lia | lia | by right].
  - eexists _, _, _. split; [done|]. split.
    + intros _. cbn [returned]. rewrite app_nil_r. apply inv_takes_nothing; try done; [cbn [in_hand]; by rewrite Htk, app_nil_r|].
      exists r. rewrite Htk. constructor; cbn [has_read has_unlinked]; rewrite ?Nat.add_0_r; try done. right. by rewrite Hcur.
    + intros _ Hb Hp. apply (nothing_left w r (read_index_ (the_queue w))); try done; [|by rewrite Htk].
      intros _. unfold written in Hwr. rewrite no_claiming, andb_false_r, andb_true_r in Hwr by done. by apply Nat.ltb_ge in Hwr.
Qed.
(** Every access of the consumer. *)
Lemma access_ok w lg : inv w → ∃ c q o, pop K (the_consumer w) (the_queue w) = Ok (c, q, o) ∧ access_promise w lg c q o.
Proof.
  intros Hi. destruct (iv_queue _ Hi) as [r Hq]. pose proof Hq as [Hl Hra Hlen [Hri Hri0] Hrd Hrg Hrt Hh]. pose proof (iv_pos _ Hi) as Hpos.
  destruct (the_consumer w) as [| |line|line up] eqn:Hc; cbn [has_read has_unlinked in_hand] in *; rewrite ?app_nil_r in Hlen; cbn [pop].
  - destruct (current_read_buffer_ (the_queue w)) as [b|] eqn:Hcur.
    + assert (b = r) as -> by (by destruct Hrd as [|([= ->] & _)]).
      apply (read_ok w lg r); try done; rewrite ?Hc, ?app_nil_r in *; done.
    + unfold getNextReadLogBuffer. rewrite Hl, Nat.add_0_r. destruct (allocs w - publ w - r) as [|m] eqn:Hm; cbn [seq head].
      * eexists _, _, _. split; [done|]. split; cbn [returned]; rewrite ?app_nil_r.
        -- intros _. apply inv_takes_nothing; try done; [by rewrite Hc|]. exists r. by rewrite Hcur, Hc.
        -- intros _ _ Hz. apply (nothing_left w r (read_index_ (the_queue w))); try done; [lia | lia | lia | by rewrite Hc, app_nil_r].
      * eexists _, _, _. split; [done|]. split; [intros _ | done]. cbn [returned]. rewrite app_nil_r.
        apply inv_takes_nothing; try done; [by rewrite Hc|]. exists r. rewrite Hc, app_nil_r in *.
        constructor; try done. right. split_and!; [done | lia | done].
  - specialize (Hrg eq_refl). apply (read_ok w lg r); try done; [by rewrite Hc|]. rewrite Hrg in Hrd. by constructor.
  - rewrite Hl. destruct (allocs w - publ w - (r + 0)) as [|m] eqn:Hm; [lia|]. cbn [seq].
    eexists _, _, _. split; [done|]. split; [intros _ | done]. cbn [returned]. rewrite app_nil_r.
    apply inv_takes_nothing; try done; [by rewrite Hc|]. exists r. rewrite Hc. cbn [in_hand].
    constructor; members; cbn [has_read has_unlinked]; try done; [f_equal; lia|].
    intros ? ? [= _ <-]. lia.
  - rewrite (Hrt line up eq_refl) in *. eexists _, _, _. split; [done|]. split; [intros Hpr | done]. cbn [returned].
    destruct (kept_or_freed r (the_queue w)) as (E1 & E2 & E3 & E4 & E5 & E6 & E7 & E8 & E9); [done | lia | done|].
    apply inv_takes_nothing; try done; [by rewrite Hc; cbn [in_hand]; rewrite app_nil_r|].
    exists (S r). rewrite E5, E7, E8, Hc. cbn [in_hand].
    constructor; cbn [has_read has_unlinked]; try done; [by rewrite Hl; f_equal; lia | lia | rewrite Hlen; lia | destruct Hrd as [?|(_ & _ & ?)]; [by left | done]].
Qed.
(** ** Every step *)

Lemma acquire_pristine q b q' r :
  RingQueue.holds kSpare (backup_log_buffers_ q) (seq 0 r) → acquire K q = Ok (b, q') → pristine q' →
  RingQueue.pop kSpare (backup_log_buffers_ q) = None ∧ b = allocation_time (debug q).
Proof.
  intros Hh Ha Hpr. pose proof (RingQueue.pop_holds kSpare _ _ Hh) as Hp. unfold acquire in Ha. destruct r as [|r]; cbn [seq] in Hp.
  - rewrite Hp in Ha. by injection Ha as <- _.
  - destruct Hp as (ring & Hp & _). rewrite Hp in Ha. injection Ha as _ <-. by destruct Hpr.
Qed.

Lemma acquire_succeeds q r : RingQueue.holds kSpare (backup_log_buffers_ q) (seq 0 r) → ∃ b q', acquire K q = Ok (b, q').
Proof.
  intros Hh. pose proof (RingQueue.pop_holds kSpare _ _ Hh) as Hp. unfold acquire. destruct r as [|r]; cbn [seq] in Hp.
  - rewrite Hp. eauto.
  - destruct Hp as (ring & -> & _). eauto.
Qed.

Lemma step_same w i p : producers w !! i = Some p →
  mkWorld (the_queue w) (<[i := p]> (producers w)) (logged w) (claims w) (popped w) (the_consumer w) = w.
Proof. intros Hp. rewrite list_insert_id by done. by destruct w. Qed.

Lemma queue_step_inv a w : inv w → ∃ w', step K a w = Ok w' ∧ (pristine (the_queue w') → inv w').
Proof.
  intros Hi. destruct a as [i line|i|]; cbn [step].
  - destruct (producers w !! i) as [p|] eqn:Hp; [|by exists w]. destruct p; try by exists w.
    eexists. split; [done|]. intros _.
    pose proof (inv_quiet w i Idle (Pushing line) (write_index_ (the_queue w)) (logged w ++ [line]) Hi Hp I I eq_refl) as H.
    by destruct (the_queue w).
  - destruct (producers w !! i) as [p|] eqn:Hp; [|by exists w]. destruct p as [|line|line idx|b| |b|line]; cbn [advance].
    + eexists. split; [done|]. intros _. by rewrite app_nil_r, step_same.
    + rewrite (iv_cur _ Hi), (bool_decide_eq_true_2 (is_Some _)) by (by eexists). cbn [ensure]. rewrite bind_Ok. case_bool_decide as Hlt; rewrite bind_Ok; eexists; (split; [done|]); intros _.
      * by apply inv_claim.
      * rewrite app_nil_r. apply inv_quiet with (p := Pushing line); try done. lia.
    + destruct (iv_claimed _ Hi _ _ _ Hp) as (Hidx & _). destruct (iv_heap _ Hi (allocs w - 1)) as (buf & Hbuf & _); [pose proof (iv_pos _ Hi); lia|].
      rewrite (iv_cur _ Hi), Hbuf, bool_decide_eq_true_2 by done. cbn [ensure]. rewrite !bind_Ok.
      eexists. split; [done|]. intros _. rewrite app_nil_r. by apply inv_write.
    + assert (b = allocs w - 1) as -> by (apply (iv_written _ Hi i); by left).
      destruct (iv_heap _ Hi (allocs w - 1)) as (buf & Hbuf & _); [pose proof (iv_pos _ Hi); lia|]. rewrite Hbuf.
      destruct (LogBuffer.finish K buf) as [full buf'] eqn:Hf. rewrite bind_Ok. eexists. split; [done|]. intros _. rewrite app_nil_r.
      by apply (inv_finish w i _ buf).
    + destruct (iv_queue _ Hi) as [r [_ _ _ _ _ _ _ Hh]]. destruct (acquire_succeeds _ r Hh) as (b & q' & Ha).
      rewrite Ha, !bind_Ok. eexists. split; [done|]. rewrite app_nil_r. intros Hpr. cbn [the_queue] in Hpr.
      destruct (acquire_pristine _ _ _ r Hh Ha Hpr) as [Hnone ->]. by apply inv_allocate.
    + eexists. split; [done|]. intros _. rewrite app_nil_r. by apply inv_publish.
    + case_bool_decide; rewrite bind_Ok; eexists; (split; [done|]); intros _; rewrite app_nil_r.
      * pose proof (inv_quiet w i (Spinning line) (Pushing line) (write_index_ (the_queue w)) (logged w) Hi Hp I I eq_refl) as Hx.
        by destruct (the_queue w).
      * by rewrite step_same.
  - unfold consume. destruct (access_ok w (logged w) Hi) as (c & q & o & -> & Hpr & _). rewrite !bind_Ok. by eexists.
Qed.

(** Without producers in [push], and with no more blocks than the consumer's ring and the current block, the
    consumer keeps every block it has read: none is freed. *)
Lemma put_back_pristine up q :
  RingQueue.holds kSpare (backup_log_buffers_ q) (seq 0 up) → up < kSpare → pristine q →
  pristine (put_back up q) ∧ allocation_time (debug (put_back up q)) = allocation_time (debug q).
Proof.
  intros Hh Hup [Hr Hpr]. unfold put_back. destruct (RingQueue.push_holds kSpare _ _ up Hh) as (ring & -> & _).
  rewrite length_seq, bool_decide_eq_true_2 by done. members. by split.
Qed.

Lemma read_pristine q c q' o : read K q = Ok (c, q', o) → pristine q → pristine q' ∧ allocation_time (debug q') = allocation_time (debug q).
Proof.
  unfold read. intros Hr [H1 H2]. destruct (current_read_buffer_ q) as [b|]; [|done]. destruct (heap q !! b) as [buf|]; [|done].
  apply bind_Ok_inv in Hr as ([[line buf']|] & _ & Hr); [|by injection Hr as <- <- <-].
  assert (Hh : ∀ d, d < allocation_time (debug q) → is_Some (<[b := buf']> (heap q) !! d)).
  { intros d Hd. apply lookup_insert_is_Some. destruct (decide (b = d)); [by left | right; auto]. }
  case_bool_decide; injection Hr as <- <- <-; members; by split.
Qed.

Lemma access_pristine w c q o :
  inv w → pristine (the_queue w) → busy w = 0 → filled w + publ w = 0 → allocs w ≤ S kSpare →
  pop K (the_consumer w) (the_queue w) = Ok (c, q, o) →
  pristine q ∧ allocation_time (debug q) = allocs w.
Proof.
  intros Hi Hpr Hb Hf Ha Hp. destruct (iv_queue _ Hi) as [r [Hl Hra Hlen [_ Hri0] _ _ Hrt Hh]].
  destruct (the_consumer w) as [| |line|line up] eqn:Hc; cbn [pop] in Hp.
  - destruct (current_read_buffer_ (the_queue w)); [by eapply read_pristine|].
    destruct (getNextReadLogBuffer (the_queue w)); by injection Hp as <- <- <-.
  - by eapply read_pristine.
  - destruct (log_buffers_ (the_queue w)); [done|]. by injection Hp as <- <- <-.
  - rewrite (Hrt line up eq_refl) in Hp. injection Hp as <- <- <-. apply put_back_pristine; [done | | done].
    cbn [has_read] in *. rewrite Hri0 in Hlen by done.
    pose proof (f_equal length (iv_popped _ Hi)) as Hle. rewrite length_take, Hc, Hlen in Hle. pose proof (iv_pos _ Hi).
    destruct (iv_heap _ Hi (allocs w - 1)) as (buf & Hbuf & _); [lia|].
    destruct (iv_count _ Hi buf Hbuf) as [H1 _]. destruct (H1 Hf) as [Hcnt HltK]. pose proof (iv_claims _ Hi) as Hc2.
    assert (publ w = 0) as Hz by lia. rewrite Hz in Hc2. cbn [in_hand] in *.
    assert (K * (r + 1) < K * allocs w) by nia. nia.
Qed.

(** What is recycled or freed stays so. *)
Lemma step_pristine a w w' : step K a w = Ok w' → pristine (the_queue w') → pristine (the_queue w).
Proof.
  assert (Hheap : ∀ q q' : queue, reuse_time (debug q) = reuse_time (debug q') → allocation_time (debug q) ≤ allocation_time (debug q') →
    (∀ b, b < allocation_time (debug q) → is_Some (heap q' !! b) → is_Some (heap q !! b)) → pristine q' → pristine q).
  { intros q q' Hr Ha Hh [H1 H2]. split; [congruence|]. intros b Hb. apply Hh; [done|]. apply H2. lia. }
  assert (Hins : ∀ (h : gmap nat LogBuffer.LogBuffer) b x y c, h !! b = Some x → is_Some (<[b := y]> h !! c) → is_Some (h !! c)).
  { intros h b x y c Hx. rewrite lookup_insert_is_Some. intros [<- | [_ ?]]; [by eexists | done]. }
  destruct a as [i line|i|]; cbn [step].
  - destruct (producers w !! i) as [[]|]; by intros [= <-].
  - destruct (producers w !! i) as [p|]; [|by intros [= <-]]. intros ([[p' q'] c] & Ha & Hw)%bind_Ok_inv. injection Hw as <-. cbn [the_queue].
    destruct p as [|line|line idx|b| |b|line]; cbn [advance] in Ha.
    + by injection Ha as <- <- <-.
    + apply bind_Ok_inv in Ha as (_ & _ & Ha). case_bool_decide; by injection Ha as <- <- <-.
    + destruct (current_write_buffer_ (the_queue w)) as [b|]; [|done]. destruct (heap (the_queue w) !! b) eqn:Hb; [|done].
      apply bind_Ok_inv in Ha as (_ & _ & Ha). injection Ha as <- <- <-. apply Hheap; members; try done. intros c _. by eapply Hins.
    + destruct (heap (the_queue w) !! b) eqn:Hb; [|done]. destruct (LogBuffer.finish K _). injection Ha as <- <- <-.
      apply Hheap; members; try done. intros c _. by eapply Hins.
    + apply bind_Ok_inv in Ha as ([b q2] & Ha & Hx). injection Hx as <- <- <-. unfold acquire in Ha.
      destruct (RingQueue.pop kSpare _) as [[[b'|] ring]|]; [|done|]; injection Ha as <- <-; members; [by intros []|].
      apply Hheap; members; [done | lia|]. intros c Hc. by rewrite lookup_insert_ne by lia.
    + by injection Ha as <- <- <-.
    + case_bool_decide; by injection Ha as <- <- <-.
  - intros ([o w1] & Hc & Hw)%bind_Ok_inv. injection Hw as <-. apply bind_Ok_inv in Hc as ([[c q] o'] & Ha & Hw). injection Hw as <- <-. cbn [the_queue].
    assert (Hread : read K (the_queue w) = Ok (c, q, o') → pristine q → pristine (the_queue w)).
    { unfold read. destruct (current_read_buffer_ (the_queue w)) as [b|]; [|done]. destruct (heap (the_queue w) !! b) eqn:Hb; [|done].
      intros ([[line buf]|] & _ & Hr)%bind_Ok_inv; [|by injection Hr as <- <- <-].
      case_bool_decide; injection Hr as <- <- <-; apply Hheap; members; try done; intros d _; by eapply Hins. }
    destruct (the_consumer w) as [| |line|line up]; cbn [pop] in Ha.
    + destruct (current_read_buffer_ (the_queue w)); [by apply Hread|].
      destruct (getNextReadLogBuffer (the_queue w)); by injection Ha as <- <- <-.
    + by apply Hread.
    + destruct (log_buffers_ (the_queue w)); [done|]. by injection Ha as <- <- <-.
    + injection Ha as <- <- <-. unfold put_back. destruct (RingQueue.push _ _ _) as [[] ring]; apply Hheap; members; try done.
      intros d _ [_ ?]%lookup_delete_is_Some. done.
Qed.

Lemma history_pristine acts w w' : foldM (step K) acts w = Ok w' → pristine (the_queue w') → pristine (the_queue w).
Proof.
  revert w. induction acts as [|a acts IH]; intros w Hr Hpr; [by injection Hr as <-|].
  cbn [foldM] in Hr. apply bind_Ok_inv in Hr as (w2 & H2 & Hr). eapply step_pristine; [exact H2|]. by apply IH.
Qed.

Lemma queue_history_inv acts w w' : inv w → foldM (step K) acts w = Ok w' → pristine (the_queue w') → inv w'.
Proof.
  revert w. induction acts as [|a acts IH]; intros w Hi Hr Hpr; [by injection Hr as <-|].
  cbn [foldM] in Hr. apply bind_Ok_inv in Hr as (w1 & H1 & Hr). destruct (queue_step_inv a w Hi) as (w1' & H1' & Hi1).
  assert (w1' = w1) as -> by congruence. apply (IH w1); [|done..]. apply Hi1. by eapply history_pristine.
Qed.

Lemma start_inv n w : start K n = Ok w → inv w.
Proof.
  unfold start. destruct newQueue as [q|] eqn:Hq; [|done]. rewrite bind_Ok. intros [= <-].
  assert (Ht : ∀ f, f Idle = 0 → total f (replicate n Idle) = 0).
  { intros f Hf. unfold total. induction n; [done|]. csimpl. lia. }
  assert (Hl : ∀ j x, replicate n Idle !! j = Some x → x = Idle) by (intros j x [? _]%lookup_replicate; done).
  unfold newQueue, setupNextWriteLogBuffer, acquire in Hq. cbn in Hq. injection Hq as <-.
  constructor; members; rewrite ?(Ht f_filled), ?(Ht f_publ), ?(Ht f_busy) by done; try done; try lia.
  - intros b Hb. assert (b = 0) as -> by lia. eexists. split; [done|]. intros i Hik. unfold slot_ok, written. members.
    cbn [length]. rewrite (proj2 (Nat.ltb_ge _ _)) by lia. split; [by apply lookup_replicate_2 | done].
  - cbn [length]. lia.
  - intros buf. rewrite lookup_insert_eq. intros [= <-]. cbn [LogBuffer.count LogBuffer.newBuffer]. split; lia.
  - exists 0. constructor; try done; [cbn [has_read]; lia | by rewrite Nat.mul_0_r | by left | apply RingQueue.newRing_holds].
  - intros j l i Hj. by apply Hl in Hj.
  - intros j1 j2 l1 l2 i Hj. by apply Hl in Hj.
  - intros j b [Hj | Hj]; by apply Hl in Hj.
Qed.
(** ** Every line handed over is under way or has its slot *)

Definition waiting (p : producer) : list LogLine := match p with Pushing l | Spinning l => [l] | _ => [] end.

Lemma waiting_insert ps i p p' : ps !! i = Some p →
  (<[i := p']> ps ≫= waiting) ++ waiting p ≡ₚ (ps ≫= waiting) ++ waiting p'.
Proof.
  revert i. induction ps as [|q ps IH]; intros [|i]; csimpl; try done.
  - intros [= ->]. by rewrite (Permutation_app_comm (_ ++ _)), (Permutation_app_comm (waiting p')), app_assoc.
  - intros Hi. rewrite <- !app_assoc. by apply Permutation_app_head, IH.
Qed.

Definition accounted (w : world) : Prop := logged w ≡ₚ claims w ++ (producers w ≫= waiting).

Lemma step_accounted a w w' : step K a w = Ok w' → accounted w → accounted w'.
Proof.
  unfold accounted. intros Hs Ha. destruct a as [i line|i|]; cbn [step] in Hs.
  - destruct (producers w !! i) as [[]|] eqn:Hp; try by injection Hs as <-. injection Hs as <-. members.
    pose proof (waiting_insert (producers w) i _ (Pushing line) Hp) as Hw. cbn [waiting] in Hw. rewrite app_nil_r in Hw.
    rewrite Ha, Hw. by rewrite app_assoc.
  - destruct (producers w !! i) as [p|] eqn:Hp; [|by injection Hs as <-].
    apply bind_Ok_inv in Hs as ([[p' q] c] & Hadv & Hs). injection Hs as <-. members.
    pose proof (waiting_insert (producers w) i p p' Hp) as Hw. rewrite Ha, <- app_assoc. apply Permutation_app_head.
    assert (Hc : waiting p = c ++ waiting p').
    { destruct p as [|l|l idx|b| |b|l]; cbn [advance] in Hadv.
      - by injection Hadv as <- <- <-.
      - apply bind_Ok_inv in Hadv as (_ & _ & Hadv). case_bool_decide; by injection Hadv as <- <- <-.
      - destruct (current_write_buffer_ _); [|done]. destruct (heap _ !! _); [|done].
        apply bind_Ok_inv in Hadv as (_ & _ & Hadv). by injection Hadv as <- <- <-.
      - destruct (heap _ !! _); [|done]. destruct (LogBuffer.finish _ _) as [[] ?]; by injection Hadv as <- <- <-.
      - apply bind_Ok_inv in Hadv as ([b q2] & _ & Hx). by injection Hx as <- <- <-.
      - by injection Hadv as <- <- <-.
      - case_bool_decide; by injection Hadv as <- <- <-. }
    rewrite Hc in Hw. apply (Permutation_app_inv_r (waiting p')). rewrite <- Hw.
    rewrite app_assoc. by apply Permutation_app_tail, Permutation_app_comm.
  - apply bind_Ok_inv in Hs as ([o w1] & Hc & Hs). injection Hs as <-.
    apply bind_Ok_inv in Hc as ([[c q] o'] & _ & Hc). by injection Hc as _ <-.
Qed.

Lemma start_accounted n w : start K n = Ok w → accounted w.
Proof.
  unfold start. destruct newQueue; [|done]. intros [= <-]. unfold accounted. members.
  induction n; [done|]. by csimpl.
Qed.

(** ** The promises *)

(** C5. The queue is first in, first out, and loses nothing: in every interleaving of any number of
    producers with the consumer in which no block has been recycled or freed, no step faults, what
    has been popped is what got the first slots, in that order; and when every producer is back from [push] and a
    pop finds nothing, every line handed over has been popped, once. *)
Theorem log_queue_fifo n acts w0 w :
  start K n = Ok w0 → foldM (step K) acts w0 = Ok w → pristine (the_queue w) →
  popped w = take (length (popped w)) (claims w) ∧
  (∀ a, ∃ w', step K a w = Ok w') ∧
  (Forall (fun p => p = Idle) (producers w) → ∀ w', consume K w = Ok (Some None, w') →
     popped w = claims w ∧ popped w ≡ₚ logged w).
Proof.
  intros Hs Hr Hpr. pose proof (queue_history_inv acts w0 w (start_inv n w0 Hs) Hr Hpr) as Hi. split_and!; [by apply popped_prefix| |].
  - intros a. destruct (queue_step_inv a w Hi) as (w' & Hw & _). eauto.
  - intros Hidle w' Hstep. assert (Hz : ∀ f, f Idle = 0 → total f (producers w) = 0).
    { intros f Hf. unfold total. induction Hidle as [|p ps -> _ IH]; [done|]. csimpl. lia. }
    destruct (access_ok w [] Hi) as (c & q & o & Hpop & _ & Hnone). unfold consume in Hstep. rewrite Hpop, bind_Ok in Hstep. injection Hstep as -> _.
    assert (Hl : length (popped w) = length (claims w)) by (apply Hnone; [done | by apply Hz | by rewrite !Hz]).
    assert (Hall : popped w = claims w) by (rewrite (popped_prefix _ Hi), Hl; apply take_ge; lia). split; [done|].
    assert (Hacc : accounted w).
    { clear - Hs Hr. pose proof (start_accounted n w0 Hs) as H0. clear Hs. revert w0 Hr H0.
      induction acts as [|a acts IH]; intros w0 Hr H0; [by injection Hr as <-|].
      cbn [foldM] in Hr. apply bind_Ok_inv in Hr as (w1 & H1 & Hr). apply (IH w1 Hr). by eapply step_accounted. }
    unfold accounted in Hacc. rewrite Hacc, Hall.
    assert (Hw : producers w ≫= waiting = []) by (clear - Hidle; induction Hidle as [|p ps -> _ IH]; [done | by csimpl]).
    by rewrite Hw, app_nil_r.
Qed.
Lemma consumer_step w c q o k :
  pop K (the_consumer w) (the_queue w) = Ok (c, q, o) →
  foldM (step K) (replicate (S k) Pop) w =
  foldM (step K) (replicate k Pop) (mkWorld q (producers w) (logged w) (claims w) (popped w ++ returned o) c).
Proof.
  intros Hp. assert (Hs : step K Pop w = Ok (mkWorld q (producers w) (logged w) (claims w) (popped w ++ returned o) c))
    by (cbn [step]; unfold consume; by rewrite Hp, !bind_Ok).
  cbn [replicate foldM]. by rewrite Hs.
Qed.

(** Reading a slot whose mark is set. *)
Lemma read_marked q b buf x :
  current_read_buffer_ q = Some b → heap q !! b = Some buf →
  LogBuffer.states buf !! read_index_ q = Some true → LogBuffer.items_ buf !! read_index_ q = Some x →
  let h := <[b := LogBuffer.mkBuffer (LogBuffer.states buf) (LogBuffer.count buf) (<[read_index_ q := moved x]> (LogBuffer.items_ buf))]> (heap q) in
  read K q = Ok (if decide (S (read_index_ q) = K)
    then (Unlinking x, set_current_read None (set_read_index 0 (set_heap h q)), None)
    else (AtRest, set_read_index (S (read_index_ q)) (set_heap h q), Some (Some x))).
Proof.
  intros Hb Hbuf Hst Hit h. unfold read, LogBuffer.pop. rewrite Hb, Hbuf, Hst, Hit, bind_Ok. members.
  by case_bool_decide; case_decide.
Qed.

(** Reading a block all of whose marks are set returns what is in its slots, and takes the block out. *)
Lemma pops_replay ls buf k j w :
  length ls = K → j + S k = K → log_buffers_ (the_queue w) = [0] → read_index_ (the_queue w) = j →
  the_consumer w = AtRest ∨ the_consumer w = Reading → current_read_buffer_ (the_queue w) = Some 0 →
  heap (the_queue w) !! 0 = Some buf →
  (∀ i, j ≤ i < K → LogBuffer.states buf !! i = Some true ∧ LogBuffer.items_ buf !! i = ls !! i) →
  ∃ w', foldM (step K) (replicate (S k + 2) Pop) w = Ok w' ∧ claims w' = claims w ∧ logged w' = logged w ∧ popped w' = popped w ++ drop j ls ∧
    log_buffers_ (the_queue w') = [] ∧ current_write_buffer_ (the_queue w') = current_write_buffer_ (the_queue w).
Proof.
  intros Hls. revert j w buf. induction k as [|k IH]; intros j w buf Hj Hl Hri Hc Hrd Hbuf Hslots;
    (destruct (Hslots j) as [Hst Hit]; [lia|]); (destruct (lookup_lt_is_Some_2 ls j) as [x Hx]; [lia|]); rewrite Hx in Hit; subst j;
    pose proof (read_marked _ _ _ _ Hrd Hbuf Hst Hit) as Hread; cbv zeta in Hread;
    (replace (read K (the_queue w)) with (pop K (the_consumer w) (the_queue w)) in Hread by (destruct Hc as [-> | ->]; cbn [pop]; by rewrite ?Hrd)).
  - rewrite decide_True in Hread by lia. cbn [plus]. erewrite consumer_step by exact Hread. erewrite consumer_step by (members; cbn [pop]; members; by rewrite Hl).
    erewrite consumer_step by done. eexists. split_and!; [reflexivity | done | done | |..]; members.
    + cbn [returned]. rewrite !app_nil_r, (drop_S _ _ _ Hx), drop_ge by lia. done.
    + unfold put_back. by destruct (RingQueue.push _ _ _) as [[] ?].
    + unfold put_back. by destruct (RingQueue.push _ _ _) as [[] ?].
  - rewrite decide_False in Hread by lia. change (S (S k) + 2) with (S (S k + 2)). erewrite consumer_step by exact Hread. match goal with |- context [foldM _ _ ?w0] =>
      destruct (IH (S (read_index_ (the_queue w))) w0 (LogBuffer.mkBuffer (LogBuffer.states buf) (LogBuffer.count buf) (<[read_index_ (the_queue w) := moved x]> (LogBuffer.items_ buf))))
        as (w' & Hw' & E1 & E2 & E3 & E4 & E5) end; members; try done; [lia | by left | by rewrite lookup_insert_eq | |].
    + intros i Hi. cbn [LogBuffer.states LogBuffer.items_]. rewrite lookup_insert_ne by lia. apply Hslots. lia.
    + exists w'. split_and!; try done. rewrite E3. members. cbn [returned]. by rewrite <- app_assoc, (drop_S _ _ _ Hx).
Qed.

(** C39. A recycled block keeps its marks, so its old lines come out again: when the consumer
    has read everything and a producer that has just filled a block goes on to set up the next one, the block it
    takes is a spare one; the consumer's next [K] calls of [pop] - nothing having been pushed meanwhile - return the first [K] lines
    a second time, as what is left of them after the move, and then the block has left the queue while it is
    the one that is written to. *)
Theorem recycled_block_replays n acts w0 w p :
  start K n = Ok w0 → foldM (step K) acts w0 = Ok w → pristine (the_queue w) →
  producers w !! p = Some Filled → popped w = claims w → the_consumer w = AtRest →
  ∃ w', foldM (step K) ([Go p; Go p] ++ replicate (K + 3) Pop) w = Ok w' ∧
    logged w' = logged w ∧ claims w' = claims w ∧ popped w' = popped w ++ (moved <$> take K (claims w)) ∧
    log_buffers_ (the_queue w') = [] ∧ current_write_buffer_ (the_queue w') = Some 0.
Proof.
  intros Hs Hr Hpr Hp Hread Hrest. pose proof (queue_history_inv acts w0 w (start_inv n w0 Hs) Hr Hpr) as Hi.
  pose proof (total_le f_filled _ _ _ Hp) as Hf. cbn [f_filled] in Hf. pose proof (iv_setters _ Hi) as Hset. pose proof (iv_pos _ Hi) as Hpos.
  destruct (iv_heap _ Hi (allocs w - 1)) as (b1 & Hb1 & _); [lia|]. destruct (iv_count _ Hi b1 Hb1) as [_ H2].
  destruct H2 as (Hwi & Hbusy & _); [lia|]. pose proof (iv_claims _ Hi) as Hcl. replace (publ w) with 0 in Hcl by lia.
  assert (Hlen : length (claims w) = K * allocs w) by nia.
  destruct (iv_queue _ Hi) as [r [Hl Hra Hlp [Hri _] Hrd _ _ Hh]]. rewrite Hrest in *. cbn [in_hand has_read has_unlinked] in *.
  rewrite app_nil_r, Hread, Hlen, !Nat.add_0_r in *.
  rewrite <- (Nat.add_0_r (K * allocs w)) in Hlp. apply slot_inj in Hlp as [<- Hri0]; [|done..].
  replace (allocs w - publ w - allocs w) with 0 in Hl by lia. destruct Hrd as [Hrd|(_ & ? & _)]; [|lia].
  destruct (iv_heap _ Hi 0 Hpos) as (buf & Hbuf & Hslots).
  pose proof (RingQueue.pop_holds kSpare _ _ Hh) as Hpop. destruct (allocs w) as [|m] eqn:Hal; [lia|]. cbn [seq] in Hpop.
  destruct Hpop as (ring & Hpop & _). rewrite foldM_app. cbn [foldM step]. rewrite Hp. cbn [advance]. unfold acquire. rewrite Hpop, !bind_Ok. cbn [producers].
  rewrite list_lookup_insert_eq by (by eapply lookup_lt_Some). cbn [advance]. rewrite !bind_Ok.
  replace (K + 3) with (S (S (K - 1) + 2)) by lia. erewrite consumer_step by
    (members; rewrite Hrest; cbn [pop]; members; rewrite Hrd; unfold getNextReadLogBuffer; members; by rewrite Hl).
  match goal with |- context [foldM _ (replicate (S (K - 1) + 2) Pop) ?w1] =>
    destruct (pops_replay (moved <$> take K (claims w)) buf (K - 1) 0 w1) as (w' & Hw' & E1 & E2 & E3 & E4 & E5) end; members; try done.
  - rewrite length_fmap, length_take. nia.
  - lia.
  - by rewrite Hl.
  - by right.
  - intros i Hik. destruct (Hslots i) as [Hst Hit]; [lia|].
    assert (Hwr : written w 0 i = true).
    { unfold written. rewrite (no_claiming w i Hbusy), andb_false_r, (proj2 (Nat.ltb_lt _ _)); [done | nia]. }
    rewrite Hwr in Hst. split; [done|]. specialize (Hit Hwr). rewrite Hrest, app_nil_r, Hread, (proj2 (Nat.ltb_lt _ _)) in Hit by nia.
    rewrite Hit, list_lookup_fmap, lookup_take_lt by lia. by rewrite Nat.mul_0_r.
  - exists w'. split_and!; [done | done | by rewrite E1; members; rewrite !app_nil_r | rewrite E3; members; cbn [returned]; by rewrite app_nil_r, Hread | done | by rewrite E5].
Qed.

(** A block is freed while a producer still has to count a line in it: the mark of a line is set before the count is raised, so the
    consumer can take the last line of a block, and when the ring of spare blocks is full, it deletes the block, before the
    producer of some line gets on. *)
Theorem block_freed_in_use w p x up :
  the_consumer w = Returning x up → producers w !! p = Some (Written up) →
  fst (RingQueue.push kSpare up (backup_log_buffers_ (the_queue w))) = false →
  foldM (step K) [Pop; Go p] w = Fault UseAfterFree.
Proof.
  intros Hc Hp Hfull. cbn [foldM step]. unfold consume. rewrite Hc. cbn [pop]. rewrite !bind_Ok. members. rewrite Hp. cbn [advance].
  unfold put_back. destruct (RingQueue.push _ _ _) as [kept ring]. cbn [fst] in Hfull. subst kept. members. by rewrite lookup_delete_eq.
Qed.
End Capacity.

(** ** Concrete histories *)

Definition demo_line (n : Z) : LogLine := LogLine.LogLine.mkLine n 104 None [].

(** Everything a producer does for one line. *)
Definition log_all (i : nat) (line : LogLine) : list action := Log i line :: replicate 5 (Go i).

Definition demo_acts : list action :=
  [Log 0 (demo_line 1); Log 1 (demo_line 2); Go 1; Go 0; Pop; Go 0; Pop; Go 1; Go 1; Pop; Pop; Go 0] ++ log_all 2 (demo_line 3) ++ [Pop].

Lemma log_queue_fifo_witness :
  ∃ w0 w, start 4 3 = Ok w0 ∧ foldM (step 4) demo_acts w0 = Ok w ∧ popped w = [demo_line 2; demo_line 1; demo_line 3] ∧
    popped w ≡ₚ logged w.
Proof.
  assert (Hr : ∃ w0 w w', start 4 3 = Ok w0 ∧ foldM (step 4) demo_acts w0 = Ok w ∧ pristine (the_queue w) ∧
    Forall (fun p => p = Idle) (producers w) ∧ consume 4 w = Ok (Some None, w') ∧
    popped w = [demo_line 2; demo_line 1; demo_line 3]).
  { eexists _, _, _. split; [reflexivity|]. split; [vm_compute; reflexivity|]. split_and!.
    - split; [reflexivity|]. cbn. intros b Hb. assert (b = 0) as -> by lia. by eexists.
    - repeat constructor.
    - vm_compute. reflexivity.
    - reflexivity. }
  destruct Hr as (w0 & w & w' & Hs & Hf & Hpr & Hidle & Hpop & Hp).
  destruct (log_queue_fifo 4 ltac:(lia) 3 demo_acts w0 w Hs Hf Hpr) as (_ & _ & H).
  exists w0, w. split_and!; [done..|]. exact (proj2 (H Hidle w' Hpop)).
Defined.

Definition full_acts : list action := log_all 0 (demo_line 1) ++ [Log 0 (demo_line 2); Go 0; Go 0; Go 0] ++ replicate 5 Pop.

Lemma recycled_block_replays_witness :
  ∃ w0 w w', start 2 1 = Ok w0 ∧ foldM (step 2) full_acts w0 = Ok w ∧
    foldM (step 2) ([Go 0; Go 0] ++ replicate 5 Pop) w = Ok w' ∧
    logged w' = [demo_line 1; demo_line 2] ∧ popped w' = [demo_line 1; demo_line 2; demo_line 1; demo_line 2].
Proof.
  assert (Hr : ∃ w0 w, start 2 1 = Ok w0 ∧ foldM (step 2) full_acts w0 = Ok w ∧
    pristine (the_queue w) ∧ producers w !! 0 = Some Filled ∧ popped w = claims w ∧ the_consumer w = AtRest ∧ logged w = [demo_line 1; demo_line 2] ∧
    claims w = [demo_line 1; demo_line 2]).
  { eexists _, _. split; [reflexivity|]. split; [vm_compute; reflexivity|]. split_and!; try reflexivity.
    split; [reflexivity|]. cbn. intros b Hb. assert (b = 0) as -> by lia. by eexists. }
  destruct Hr as (w0 & w & Hs & Hf & Hpr & Hp & Hread & Hrest & Hl & Hc).
  destruct (recycled_block_replays 2 ltac:(lia) 1 _ w0 w 0 Hs Hf Hpr Hp Hread Hrest) as (w' & Hw' & E1 & E2 & E3 & _).
  exists w0, w, w'. split_and!; [done | done | done | by rewrite E1 | by rewrite E3, Hread, Hc].
Defined.

(** One producer is five blocks ahead; the consumer catches up while the producer is about to count its last line. *)
Definition ahead_acts : list action :=
  mjoin (replicate 4 (log_all 0 (demo_line 1))) ++ [Log 0 (demo_line 2); Go 0; Go 0] ++ replicate 19 Pop.

Lemma block_freed_in_use_witness :
  ∃ w0 w, start 1 1 = Ok w0 ∧ foldM (step 1) ahead_acts w0 = Ok w ∧ pristine (the_queue w) ∧ foldM (step 1) [Pop; Go 0] w = Fault UseAfterFree.
Proof.
  assert (Hr : ∃ w0 w, start 1 1 = Ok w0 ∧ foldM (step 1) ahead_acts w0 = Ok w ∧
    pristine (the_queue w) ∧ the_consumer w = Returning (demo_line 2) 4 ∧ producers w !! 0 = Some (Written 4) ∧
    fst (RingQueue.push kSpare 4 (backup_log_buffers_ (the_queue w))) = false).
  { eexists _, _. split; [reflexivity|]. split; [vm_compute; reflexivity|]. split_and!; try reflexivity.
    split; [reflexivity|]. cbn. intros b Hb. do 5 (destruct b as [|b]; [by eexists|]). lia. }
  destruct Hr as (w0 & w & Hs & Hf & Hpr & Hc & Hp & Hfull). exists w0, w. split_and!; [done..|].
  exact (block_freed_in_use 1 w 0 (demo_line 2) 4 Hc Hp Hfull).
Defined.
