(* ===== verification/LogFile.v ===== *)
(** * Log files: util/LogFile.{h,cpp}

    The file being written is named by its path; [disk] holds the contents of all files, including
    what is still in the stream's buffer.  The C library's formatting of local times and the host's
    name are parameters. *)
From stdpp Require Import base list gmap numbers strings.
From Stdlib Require Import ZArith Lia Init.Byte.
From S2P Require Import Prelude.
From S2P Require Import LogLine.
#[local] Open Scope Z_scope.
#[local] Open Scope fm_scope.

Module LogFile.

(** [src/util/LogFile.h:32-32 LogFile::kRollPerSeconds] *)
Definition kRollPerSeconds : Z := 60 * 60 * 24.

(** [src/util/LogFile.h:34-43 LogFile data members], the files, and how much of the file in use has been flushed. *)
Record LogFile := mkFile {
  log_file_name_ : list byte;
  log_file_max_size_ : Z;
  check_lines_ : Z;
  flush_interval_ : Z;
  writen_bytes_ : Z;
  line_counts_ : Z;
  log_file_ : option (list byte);
  start_log_time_ : Z;
  last_flush_time_ : Z;
  disk : gmap (list byte) (list byte);
  flushed : Z
}.

Definition set_counts (bytes lines : Z) (f : LogFile) : LogFile :=
  mkFile (log_file_name_ f) (log_file_max_size_ f) (check_lines_ f) (flush_interval_ f) bytes lines
    (log_file_ f) (start_log_time_ f) (last_flush_time_ f) (disk f) (flushed f).
Definition set_times (start last : Z) (f : LogFile) : LogFile :=
  mkFile (log_file_name_ f) (log_file_max_size_ f) (check_lines_ f) (flush_interval_ f) (writen_bytes_ f) (line_counts_ f)
    (log_file_ f) start last (disk f) (flushed f).
Definition set_files (cur : option (list byte)) (d : gmap (list byte) (list byte)) (fl : Z) (f : LogFile) : LogFile :=
  mkFile (log_file_name_ f) (log_file_max_size_ f) (check_lines_ f) (flush_interval_ f) (writen_bytes_ f) (line_counts_ f)
    cur (start_log_time_ f) (last_flush_time_ f) d fl.

(** What the file in use holds. *)
Definition content (f : LogFile) : list byte :=
  match log_file_ f with Some path => default [] (disk f !! path) | None => [] end.

(** [flush] of the stream *)
Definition flush (f : LogFile) : LogFile := set_files (log_file_ f) (disk f) (zlen (content f)) f.

(** [tellp] of the stream *)
Definition tellp (f : LogFile) : Z := zlen (content f).

(** Text inserted into the stream. *)
Definition output (text : list byte) (f : LogFile) : result LogFile :=
  match log_file_ f with
  | Some path => Ok (set_files (log_file_ f) (<[path := content f ++ text]> (disk f)) (flushed f) f)
  | None => Fault NullDeref
  end.

Section Environment.
Variable local_format : list byte → Z → list byte.
Variable hostname : list byte.

(** [src/util/LogFile.cpp:10-14 thisHostName] into an array of 32 bytes.  [gethostname] leaves a name of 32 characters or more
    without an end; the memory behind the array is then taken to hold a NUL. *)
Definition thisHostName : list byte := c_str (ztake 32 (hostname ++ [x00])).

(** [src/util/LogFile.cpp:16-22 timeToString] *)
Definition timeToString (now : Z) : list byte :=
  let text := local_format (bytes ".%Y%m%d-%H%M%S.") now in
  if zlen text <? 32 then text else [].

(** [src/util/LogFile.cpp:74-85 LogFile::getLogFileName] *)
Definition getLogFileName (now : Z) (f : LogFile) : list byte :=
  log_file_name_ f ++ timeToString now ++ thisHostName ++ bytes ".log".

(** [src/util/LogFile.cpp:87-103 LogFile::rollFile] [now] is what [time] returns; the new file is opened truncating. *)
Definition rollFile (now : Z) (f : LogFile) : LogFile :=
  let f := match log_file_ f with Some _ => set_files None (disk f) (flushed f) (flush f) | None => f end in
  let new_log_file_name := getLogFileName now f in
  let start_log_time := Z.quot now kRollPerSeconds * kRollPerSeconds in
  let f := set_times start_log_time now f in
  let f := set_counts 0 0 f in
  set_files (Some new_log_file_name) (<[new_log_file_name := []]> (disk f)) 0 f.

(** [src/util/LogFile.cpp:28-43 LogFile::LogFile] with the files there are. *)
Definition newLogFile (log_directory log_file_name : list byte) (roll_file_size_max check_lines flush_interval : Z)
    (files : gmap (list byte) (list byte)) (now : Z) : LogFile :=
  rollFile now (mkFile (log_directory ++ log_file_name) roll_file_size_max check_lines flush_interval 0 0 None 0 0 files 0).

(** [src/util/LogFile.cpp:45-71 LogFile::write] [text] is what the line prints, [now] what [time] returns here, [now'] what
    it returns in [rollFile]. *)
Definition write (text : list byte) (now now' : Z) (f : LogFile) : result LogFile :=
  let pos := tellp f in
  f ← output text f;
  let f := set_counts (writen_bytes_ f + (tellp f - pos)) (line_counts_ f) f in
  if log_file_max_size_ f <=? writen_bytes_ f then Ok (rollFile now' f)
  else
    let f := set_counts (writen_bytes_ f) (line_counts_ f + 1) f in
    if check_lines_ f <=? line_counts_ f then
      let f := set_counts (writen_bytes_ f) 0 f in
      let current_day := Z.quot now kRollPerSeconds * kRollPerSeconds in
      if negb (current_day =? start_log_time_ f) then Ok (rollFile now' f)
      else if flush_interval_ f <? now - last_flush_time_ f then Ok (flush (set_times (start_log_time_ f) now f))
      else Ok f
    else Ok f.

(** ** Lemmas *)

(** What holds between two calls: a file is open, the count is its size, below the limit. *)
Record inv (f : LogFile) : Prop := {
  lf_open : ∃ path c, log_file_ f = Some path ∧ disk f !! path = Some c;
  lf_bytes : writen_bytes_ f = zlen (content f);
  lf_limit : 0 < log_file_max_size_ f → writen_bytes_ f < log_file_max_size_ f;
  lf_flushed : 0 ≤ flushed f ≤ zlen (content f)
}.

Lemma rollFile_inv now f : inv (rollFile now f).
Proof.
  assert (H : ∀ path d g, inv (set_files (Some path) (<[path := []]> d) 0 (set_counts 0 0 g))).
  { intros path d g. assert (Hc : content (set_files (Some path) (<[path := []]> d) 0 (set_counts 0 0 g)) = [])
      by (unfold content; cbn; by rewrite lookup_insert_eq).
    constructor; rewrite ?Hc; try done. exists path, []. split; [done|]. cbn. apply lookup_insert_eq. }
  apply H.
Qed.

Lemma output_content text f f' : output text f = Ok f' → inv f →
  content f' = content f ++ text ∧ log_file_ f' = log_file_ f ∧ writen_bytes_ f' = writen_bytes_ f ∧
  disk f' = match log_file_ f with Some path => <[path := content f ++ text]> (disk f) | None => disk f end ∧
  log_file_name_ f' = log_file_name_ f ∧ log_file_max_size_ f' = log_file_max_size_ f ∧ flushed f' = flushed f ∧
  check_lines_ f' = check_lines_ f ∧ line_counts_ f' = line_counts_ f ∧ start_log_time_ f' = start_log_time_ f.
Proof.
  intros Ho [(path & c & Hp & Hd) _ _ _]. unfold output in Ho. rewrite Hp in Ho. injection Ho as <-.
  rewrite Hp. split_and!; try done. unfold content at 1. cbn. by rewrite lookup_insert_eq.
Qed.

Lemma output_succeeds text f : inv f → ∃ f', output text f = Ok f'.
Proof. intros [(path & c & Hp & _) _ _ _]. unfold output. rewrite Hp. eauto. Qed.

Lemma rollFile_disk now f : disk (rollFile now f) = <[getLogFileName now f := []]> (disk f).
Proof. unfold rollFile. by destruct (log_file_ f). Qed.

Lemma rollFile_current now f : log_file_ (rollFile now f) = Some (getLogFileName now f).
Proof. unfold rollFile. by destruct (log_file_ f). Qed.

Lemma flush_inv f : inv f → inv (flush f).
Proof. intros [Ho Hb Hl Hf]. constructor; try done. cbn [flush set_files flushed]. change (content (flush f)) with (content f). pose proof (zlen_nonneg (content f)). lia. Qed.

Lemma write_inv text now now' f : inv f → ∃ f', write text now now' f = Ok f' ∧ inv f'.
Proof.
  intros Hi. unfold write. destruct (output_succeeds text f Hi) as (f1 & Ho). rewrite Ho, bind_Ok.
  destruct (output_content text f f1 Ho Hi) as (Hc & Hp & Hw & Hd & Hn & Hm & Hfl & Hck & Hlc & Hst).
  set (f2 := set_counts _ _ f1). destruct (Z.leb_spec (log_file_max_size_ f2) (writen_bytes_ f2)) as [Hge|Hlt].
  { eexists. split; [done|]. apply rollFile_inv. }
  assert (Hi2 : ∀ n, inv (set_counts (writen_bytes_ f2) n f2)).
  { intros n. destruct Hi as [(path & c & Hpath & Hdp) Hb Hl [Hf0 Hf1]].
    assert (Hc2 : content (set_counts (writen_bytes_ f2) n f2) = content f ++ text) by (rewrite <- Hc; done).
    constructor; rewrite ?Hc2; cbn.
    - exists path, (content f ++ text). rewrite Hp, Hd, Hpath. split; [done | apply lookup_insert_eq].
    - unfold tellp. rewrite Hw, Hc, zlen_app. lia.
    - intros _. exact Hlt.
    - rewrite Hfl, zlen_app. pose proof (zlen_nonneg text). lia. }
  destruct (_ <=? _); [|eexists; split; [done | apply Hi2]].
  destruct (negb _); [eexists; split; [done | apply rollFile_inv]|].
  destruct (_ <? _); eexists; (split; [done|]); [|apply Hi2].
  apply flush_inv. destruct (Hi2 0) as [A B C D]. by constructor.
Qed.
End Environment.
End LogFile.
Import LogFile.

(** C36. A log file stays within its limit: however many lines are written at whatever times, no call faults, the
    byte count is the size of the file in use, and before each line that size is below the limit - so that
    a file outgrows it by less than its last line. *)
Theorem log_file_bounded local_format hostname dir name max check interval files t0 calls :
  0 < max →
  ∃ f, foldM (fun '(text, now, now') f => LogFile.write local_format hostname text now now' f) calls
         (newLogFile local_format hostname dir name max check interval files t0) = Ok f ∧
    writen_bytes_ f = zlen (content f) ∧ zlen (content f) < max.
Proof.
  intros Hmax. assert (H : ∀ calls f, inv f → log_file_max_size_ f = max →
    ∃ f', foldM (fun '(text, now, now') f => LogFile.write local_format hostname text now now' f) calls f = Ok f' ∧ inv f' ∧ log_file_max_size_ f' = max).
  { clear calls. induction calls as [|[[text now] now'] calls IH]; intros f Hi Hm; [by exists f|]. cbn [foldM].
    destruct (write_inv local_format hostname text now now' f Hi) as (f1 & H1 & Hi1). rewrite H1, bind_Ok. apply IH; [done|].
    unfold LogFile.write in H1. destruct (output_succeeds text f Hi) as (f2 & Ho). rewrite Ho, bind_Ok in H1.
    destruct (output_content text f f2 Ho Hi) as (_ & _ & _ & _ & _ & Hm2 & _). rewrite Hm in Hm2.
    assert (Hroll : ∀ t g, log_file_max_size_ (rollFile local_format hostname t g) = log_file_max_size_ g)
      by (intros t g; unfold rollFile; by destruct (log_file_ g)).
    repeat case_match; injection H1 as <-; rewrite ?Hroll; done. }
  destruct (H calls (newLogFile local_format hostname dir name max check interval files t0)) as (f & Hf & Hi & Hm); [apply rollFile_inv | done|].
  exists f. split; [done|]. pose proof (lf_bytes f Hi) as Hb. pose proof (lf_limit f Hi). split; [done|]. rewrite <- Hb. lia.
Qed.

(** A roll in the second in which the file in use was opened destroys it: the names of log files are made
    of the second, and a file is opened truncating.  When a line fills the file, the next file's name decides:
    another name, and everything written so far is on disk under the old one; the same name, and all of it - that line
    included - is gone. *)
Theorem roll_keeps_or_loses local_format hostname text now now' f f' path :
  inv f → log_file_ f = Some path → log_file_max_size_ f ≤ zlen (content f) + zlen text →
  LogFile.write local_format hostname text now now' f = Ok f' →
  log_file_ f' = Some (getLogFileName local_format hostname now' f) ∧
  disk f' !! path = Some (if decide (getLogFileName local_format hostname now' f = path) then [] else content f ++ text) ∧
  content f' = [].
Proof.
  intros Hi Hp Hfull Hw. unfold LogFile.write in Hw. destruct (output_succeeds text f Hi) as (f1 & Ho). rewrite Ho, bind_Ok in Hw.
  destruct (output_content text f f1 Ho Hi) as (Hc & Hp1 & Hw1 & Hd & Hn & Hm & _).
  rewrite (proj2 (Z.leb_le _ _)) in Hw.
  2:{ cbn. unfold tellp. rewrite Hm, Hw1, Hc, zlen_app, (lf_bytes f Hi). lia. }
  injection Hw as <-. set (g := set_counts _ _ f1).
  assert (Hname : getLogFileName local_format hostname now' g = getLogFileName local_format hostname now' f)
    by (unfold getLogFileName; cbn; by rewrite Hn).
  assert (Hdisk : disk (rollFile local_format hostname now' g) =
    <[getLogFileName local_format hostname now' f := []]> (<[path := content f ++ text]> (disk f))).
  { rewrite rollFile_disk, Hname. cbn. by rewrite Hd, Hp. }
  split; [by rewrite rollFile_current, Hname|]. split.
  - rewrite Hdisk. case_decide as He; [rewrite He; apply lookup_insert_eq|]. by rewrite lookup_insert_ne, lookup_insert_eq.
  - unfold content. by rewrite rollFile_current, Hname, Hdisk, lookup_insert_eq.
Qed.

(** ** Concrete files *)
Definition demo_clock (fmt : list byte) (t : Z) : list byte := bytes "." ++ dec t ++ bytes ".".

Lemma log_file_bounded_witness :
  ∃ f, foldM (fun '(text, now, now') f => LogFile.write demo_clock (bytes "host") text now now' f)
      [(bytes "hello", 5, 6); (bytes "world", 7, 8); (bytes "!", 9, 10)] (newLogFile demo_clock (bytes "host") (bytes "/log/") (bytes "app") 8 1000 3 ∅ 1) = Ok f ∧
    writen_bytes_ f = zlen (content f) ∧ zlen (content f) < 8.
Proof. apply log_file_bounded. lia. Defined.

Lemma roll_keeps_or_loses_witness :
  ∃ f f', LogFile.write demo_clock (bytes "host") (bytes "twelve bytes") 1 1 f = Ok f' ∧ content f = [] ∧
    disk f' !! bytes "/log/app.1.host.log" = Some [].
Proof.
  set (f := newLogFile demo_clock (bytes "host") (bytes "/log/") (bytes "app") 8 1000 3 ∅ 1).
  destruct (write_inv demo_clock (bytes "host") (bytes "twelve bytes") 1 1 f) as (f' & Hf' & _); [apply rollFile_inv|].
  destruct (roll_keeps_or_loses demo_clock (bytes "host") (bytes "twelve bytes") 1 1 f f' (bytes "/log/app.1.host.log")) as (_ & Hd & _);
    [apply rollFile_inv | reflexivity | vm_compute; discriminate | done |].
  exists f, f'. split_and!; [done | reflexivity|]. rewrite Hd. reflexivity.
Defined.
