(* ===== verification/Logger.v ===== *)
(** * Loggers: util/{BaseLogger,StdLogger,AsyncLogger}.h, util/{StdLogger,AsyncLogger,Log}.cpp,
    include/libfm/fmutil/Log.h

    The asynchronous logger is the log queue with a background thread that pops lines and writes them to a [LogFile]; the
    program's other threads are the producers of the queue. *)
From stdpp Require Import base list gmap numbers strings.
From Stdlib Require Import ZArith Lia Init.Byte.
From S2P Require Import Prelude.
From S2P Require Import LogLine.
From S2P Require Import LogBuffer.
From S2P Require Import LogBufferQueue.
From S2P Require Import LogQueueSpec.
From S2P Require Import LogFile.
#[local] Open Scope fm_scope.

Module AsyncLogger.

(** [src/util/AsyncLogger.h:34-34 AsyncLogger::STATE] *)
Inductive STATE := kINIT | kREADY | kSHUTDOWN.
#[export] Instance STATE_eq_dec : EqDecision STATE.
Proof. solve_decision. Defined.

(** Where the background thread is in [popThread]: in front of the load of a loop, in the [pop] of a loop, and behind them. *)
Inductive place := InitLoop | ReadyLoop | ReadyPop | DrainPop | Done.

(** [src/util/AsyncLogger.h:36-39 AsyncLogger data members], the background thread, and the calls of [LogFile::write] it
    has made: what each line printed, and the readings of the clock. *)
Record AsyncLogger := mkAsync {
  state_ : STATE;
  buffer_queue_ : LogBufferQueue.world;
  background_thread_ : place;
  log_file_ : LogFile.LogFile;
  written : list (list byte * Z * Z)
}.

Section Capacity.
Variable K : nat.
(** The environment of LogFile.v, and [stringify], as LogLine.v defines it for the memory at that time: what a line prints,
    and whether it is of the level FATAL. *)
Variable local_format : list byte → Z → list byte.
Variable hostname : list byte.
Variable stringify : LogLine → result (list byte * bool).

(** [src/util/AsyncLogger.cpp:13-21 AsyncLogger::AsyncLogger] up to the store, for [n] threads that will log; with the files there are
    and the time.  The numbers are the defaults of [LogFile]'s constructor. *)
Definition newAsyncLogger (n : nat) (log_directory log_file_name : list byte) (roll_file_size_max : Z)
    (files : gmap (list byte) (list byte)) (now : Z) : result AsyncLogger :=
  w ← LogBufferQueue.start K n;
  Ok (mkAsync kINIT w InitLoop
    (LogFile.newLogFile local_format hostname log_directory log_file_name roll_file_size_max 1000 3 files now) []).

(** [log_file_->write(log_line)]: a line of the level FATAL aborts the program when it has been printed. *)
Definition write_line (log_line : LogLine) (now now' : Z) (a : AsyncLogger) : result AsyncLogger :=
  '(text, aborts) ← stringify log_line;
  check! FatalLog (negb aborts);
  f ← LogFile.write local_format hostname text now now' (log_file_ a);
  Ok (mkAsync (state_ a) (buffer_queue_ a) (background_thread_ a) f (written a ++ [(text, now, now')])).

Definition set_queue (w : LogBufferQueue.world) (a : AsyncLogger) : AsyncLogger :=
  mkAsync (state_ a) w (background_thread_ a) (log_file_ a) (written a).

(** The next access of the [pop] the thread is in, and [write] if a line is returned. *)
Definition pop_write (now now' : Z) (a : AsyncLogger) : result (option (option LogLine) * AsyncLogger) :=
  '(o, w) ← LogBufferQueue.consume K (buffer_queue_ a);
  let a := set_queue w a in
  a ← (match o with Some (Some log_line) => write_line log_line now now' a | _ => Ok a end);
  Ok (o, a).

Definition set_place (p : place) (a : AsyncLogger) : AsyncLogger :=
  mkAsync (state_ a) (buffer_queue_ a) p (log_file_ a) (written a).

(** [src/util/AsyncLogger.cpp:32-48 AsyncLogger::popThread] The next access of the thread, with what [time] returns in [write] and in
    [rollFile], should it write. *)
Definition popThread (now now' : Z) (a : AsyncLogger) : result AsyncLogger :=
  match background_thread_ a with
  | InitLoop => if decide (state_ a = kINIT) then Ok a else Ok (set_place ReadyLoop a)
  | ReadyLoop => if decide (state_ a = kREADY) then Ok (set_place ReadyPop a) else Ok (set_place DrainPop a)
  | ReadyPop =>
      '(o, a) ← pop_write now now' a;
      Ok (match o with None => a | Some _ => set_place ReadyLoop a end)
  | DrainPop =>
      '(o, a) ← pop_write now now' a;
      Ok (match o with Some None => set_place Done a | _ => a end)
  | Done => Ok a
  end.

Inductive action :=
  | Store (s : STATE)                           (** the constructor's store of [kREADY], the destructor's of [kSHUTDOWN] *)
  | Add (i : nat) (log_line : LogLine)          (** thread [i] calls [add] *)
  | Go (i : nat)                                (** thread [i] makes its next access in [add] *)
  | Background (now now' : Z).                  (** the background thread *)

(** [src/util/AsyncLogger.cpp:28-30 AsyncLogger::add] begun and continued, and the other actions. *)
Definition step (x : action) (a : AsyncLogger) : result AsyncLogger :=
  let producer act := w ← LogBufferQueue.step K act (buffer_queue_ a); Ok (set_queue w a) in
  match x with
  | Store s => Ok (mkAsync s (buffer_queue_ a) (background_thread_ a) (log_file_ a) (written a))
  | Add i log_line => producer (LogBufferQueue.Log i log_line)
  | Go i => producer (LogBufferQueue.Go i)
  | Background now now' => popThread now now' a
  end.

(** [src/util/AsyncLogger.cpp:23-26 AsyncLogger::~AsyncLogger] The store, and what the background thread does until it has
    been joined, given one access for each of these readings of the clock. *)
Definition destroyAsyncLogger (clocks : list (Z * Z)) (a : AsyncLogger) : result AsyncLogger :=
  a ← step (Store kSHUTDOWN) a;
  foldM step (map (fun '(now, now') => Background now now') clocks) a.
End Capacity.
End AsyncLogger.

Module Log.
Import LogLine.LogLine.
#[local] Open Scope Z_scope.

(** Which logger there is. *)
Inductive base_logger := Std | Async.

(** [src/util/Log.cpp:13-14 logger], [atomic_log_level] of line 29, the standard output, and what the asynchronous logger was given. *)
Record globals := mkGlobals {
  atomic_logger : option base_logger;
  atomic_log_level : LogLevel;
  std_out : list byte;
  added : list LogLine
}.

(** [src/util/Log.cpp:29-29 atomic_log_level] Before [initialize]. *)
Definition initial : globals := mkGlobals None kINFO [] [].

(** [src/util/Log.cpp:16-27 initialize] *)
Definition initialize (b : base_logger) (g : globals) : globals :=
  mkGlobals (Some b) (atomic_log_level g) (std_out g) (added g).

(** [src/util/Log.cpp:31-33 currentLogLevel] *)
Definition currentLogLevel (g : globals) : LogLevel := atomic_log_level g.
(** [src/util/Log.cpp:35-37 setLogLevel] *)
Definition setLogLevel (l : LogLevel) (g : globals) : globals := mkGlobals (atomic_logger g) l (std_out g) (added g).
(** [src/util/Log.cpp:39-41 isLowerThanOrEqualToCurr] *)
Definition isLowerThanOrEqualToCurr (l : LogLevel) (g : globals) : bool := level_val l <=? level_val (atomic_log_level g).

Section Printing.
(** [stringify], as LogLine.v defines it for the memory at that time. *)
Variable stringify : LogLine → result (list byte * bool).

(** [src/util/StdLogger.cpp:13-16 StdLogger::add] A line of the level FATAL aborts when it has been printed. *)
Definition StdLogger_add (log_line : LogLine) (g : globals) : result globals :=
  '(text, aborts) ← stringify log_line;
  if aborts : bool then Fault FatalLog
  else Ok (mkGlobals (atomic_logger g) (atomic_log_level g) (std_out g ++ text) (added g)).

(** [src/util/Log.cpp:43-46 FmLog::operator==] *)
Definition FmLog_eq (log_line : LogLine) (g : globals) : result (bool * globals) :=
  match atomic_logger g with
  | None => Ok (false, g)
  | Some Std => g ← StdLogger_add log_line g; Ok (true, g)
  | Some Async => Ok (true, mkGlobals (atomic_logger g) (atomic_log_level g) (std_out g) (added g ++ [log_line]))
  end.

(** [src/include/libfm/fmutil/Log.h:34-39 LOG] A [LOG_...] statement of a level: the line is built only if the level passes. *)
Definition LOG (l : LogLevel) (build : result LogLine) (g : globals) : result globals :=
  if isLowerThanOrEqualToCurr l g then
    log_line ← build;
    '(_, g) ← FmLog_eq log_line g;
    Ok g
  else Ok g.
End Printing.
End Log.

(** ** The asynchronous logger *)
Section AsyncLoggerSpec.
Variable K : nat.
Hypothesis K_pos : 0 < K.
Variable local_format : list byte → Z → list byte.
Variable hostname : list byte.
Variable stringify : LogLine → result (list byte * bool).
Import AsyncLogger.

Local Notation pop_write := (AsyncLogger.pop_write K local_format hostname stringify).
Local Notation popThread := (AsyncLogger.popThread K local_format hostname stringify).
Local Notation step := (AsyncLogger.step K local_format hostname stringify).
Local Notation newAsyncLogger := (AsyncLogger.newAsyncLogger K local_format hostname).
Local Notation destroyAsyncLogger := (AsyncLogger.destroyAsyncLogger K local_format hostname stringify).
Local Notation the_queue a := (LogBufferQueue.the_queue (buffer_queue_ a)).
Local Notation popped a := (LogBufferQueue.popped (buffer_queue_ a)).
Local Notation the_consumer a := (LogBufferQueue.the_consumer (buffer_queue_ a)).
Local Notation claims a := (LogBufferQueue.claims (buffer_queue_ a)).
Local Notation producers a := (LogBufferQueue.producers (buffer_queue_ a)).
Local Notation blocks a := (LogBufferQueue.allocation_time (LogBufferQueue.debug (the_queue a))).

(** These calls of [LogFile::write], one after the other. *)
Definition write_all (calls : list (list byte * Z * Z)) (f : LogFile.LogFile) : result LogFile.LogFile :=
  foldM (fun '(text, now, now') f => LogFile.write local_format hostname text now now' f) calls f.

(** The file is what the calls of [write] have made of the first one, [f0]: one call for each line popped, in that
    order, with what the line prints, and none of them FATAL. *)
Record file_ok (f0 : LogFile.LogFile) (a : AsyncLogger) : Prop := {
  fo_lines : map (fun c => Ok (c.1.1, false)) (written a) = map stringify (popped a);
  fo_calls : write_all (written a) f0 = Ok (log_file_ a);
  fo_file : LogFile.inv (log_file_ a)
}.

Lemma write_line_ok f0 line now now' a a' :
  write_line local_format hostname stringify line now now' a = Ok a' → file_ok f0 a →
  state_ a' = state_ a ∧ buffer_queue_ a' = buffer_queue_ a ∧ background_thread_ a' = background_thread_ a ∧
  map (fun c => Ok (c.1.1, false)) (written a') = map stringify (popped a ++ [line]) ∧
  write_all (written a') f0 = Ok (log_file_ a') ∧ LogFile.inv (log_file_ a').
Proof.
  intros Hw [Hl Hc Hi]. unfold write_line in Hw. apply bind_Ok_inv in Hw as ([text aborts] & Hs & Hw).
  apply bind_Ok_inv in Hw as (u & Hab & Hw). destruct aborts; [done|]. apply bind_Ok_inv in Hw as (f & Hf & Hw). injection Hw as <-.
  destruct (LogFile.write_inv local_format hostname text now now' _ Hi) as (f' & Hf' & Hi'). assert (f' = f) as -> by congruence.
  cbn [state_ buffer_queue_ background_thread_ written log_file_]. rewrite !map_app, Hl. cbn [map fst].
  split_and!; [done..| by rewrite Hs | | done].
  unfold write_all in *. rewrite foldM_app, Hc, bind_Ok. cbn [foldM]. by rewrite Hf'.
Qed.

(** A step of the logger is at most one of the queue's. *)
Lemma pop_write_queue now now' a o a' :
  pop_write now now' a = Ok (o, a') →
  LogBufferQueue.consume K (buffer_queue_ a) = Ok (o, buffer_queue_ a') ∧
  LogBufferQueue.step K LogBufferQueue.Pop (buffer_queue_ a) = Ok (buffer_queue_ a') ∧
  state_ a' = state_ a ∧ background_thread_ a' = background_thread_ a ∧ (∀ f0, file_ok f0 a → file_ok f0 a').
Proof.
  intros ([o' w] & Hw & Ha)%bind_Ok_inv. apply bind_Ok_inv in Ha as (a1 & Hl & Ha). injection Ha as <- <-.
  assert (Hpop : LogBufferQueue.popped w = popped a ++ LogBufferQueue.returned o')
    by (apply bind_Ok_inv in Hw as ([[c q] o] & _ & Hw'); by injection Hw' as <- <-).
  assert (Hsame : state_ a1 = state_ a ∧ buffer_queue_ a1 = w ∧ background_thread_ a1 = background_thread_ a ∧ (∀ f0, file_ok f0 a → file_ok f0 a1)).
  { destruct o' as [[line|]|]; cbn [LogBufferQueue.returned] in Hpop.
    2,3: rewrite app_nil_r in Hpop; injection Hl as <-; split_and!; try done; intros f0 [H1 H2 H3]; constructor; cbn; try done; by rewrite Hpop.
    unfold write_line in Hl. apply bind_Ok_inv in Hl as ([text aborts] & Hs & Hl). apply bind_Ok_inv in Hl as (u & Hab & Hl).
    apply bind_Ok_inv in Hl as (f & Hf & Hl). injection Hl as <-. split_and!; try done. intros f0 Hfo.
    destruct (write_line_ok f0 line now now' a (mkAsync (state_ a) (buffer_queue_ a) (background_thread_ a) f (written a ++ [(text, now, now')])))
      as (_ & _ & _ & H1 & H2 & H3); [|done|].
    { unfold write_line. rewrite Hs, bind_Ok, Hab, bind_Ok. cbn [set_queue log_file_] in Hf. by rewrite Hf. }
    constructor; cbn [written log_file_ buffer_queue_ set_queue] in *; try done. by rewrite Hpop. }
  destruct Hsame as (H1 & H2 & H3 & H4). cbn [LogBufferQueue.step]. rewrite Hw, H2. done.
Qed.

Lemma step_queue x a a' :
  step x a = Ok a' →
  buffer_queue_ a' = buffer_queue_ a ∨ ∃ act, LogBufferQueue.step K act (buffer_queue_ a) = Ok (buffer_queue_ a').
Proof.
  destruct x as [s|i l|i|now now']; cbn [AsyncLogger.step].
  - intros [= <-]. by left.
  - intros (w & Hw & Ha)%bind_Ok_inv. injection Ha as <-. right. eauto.
  - intros (w & Hw & Ha)%bind_Ok_inv. injection Ha as <-. right. eauto.
  - unfold AsyncLogger.popThread. destruct (background_thread_ a).
    + case_decide; intros [= <-]; by left.
    + case_decide; intros [= <-]; by left.
    + intros ([o a1] & Hp & Ha)%bind_Ok_inv. apply pop_write_queue in Hp as (_ & Hp & _). right. exists LogBufferQueue.Pop. rewrite Hp.
      destruct o; by injection Ha as <-.
    + intros ([o a1] & Hp & Ha)%bind_Ok_inv. apply pop_write_queue in Hp as (_ & Hp & _). right. exists LogBufferQueue.Pop. rewrite Hp.
      destruct o as [[]|]; by injection Ha as <-.
    + intros [= <-]. by left.
Qed.

Lemma step_file f0 x a a' : step x a = Ok a' → file_ok f0 a → file_ok f0 a'.
Proof.
  assert (Hsame : ∀ act w, act ≠ LogBufferQueue.Pop → LogBufferQueue.step K act (buffer_queue_ a) = Ok w → LogBufferQueue.popped w = popped a).
  { intros [i l|i|] w Hne Hw; cbn [LogBufferQueue.step] in Hw; [| |done].
    - destruct (_ !! i) as [[]|]; by injection Hw as <-.
    - destruct (_ !! i); [|by injection Hw as <-]. by apply bind_Ok_inv in Hw as ([[] ?] & _ & [= <-]). }
  assert (Hkeep : ∀ act w, act ≠ LogBufferQueue.Pop → LogBufferQueue.step K act (buffer_queue_ a) = Ok w → file_ok f0 a → file_ok f0 (set_queue w a)).
  { intros act w Hne Hw [H1 H2 H3]. constructor; cbn; try done. by rewrite (Hsame act w Hne Hw). }
  assert (Hplace : ∀ p b, file_ok f0 b → file_ok f0 (set_place p b)) by (intros p b []; by constructor).
  destruct x as [s|i l|i|now now']; cbn [AsyncLogger.step].
  - intros [= <-] []. by constructor.
  - intros (w & Hw & Ha)%bind_Ok_inv Hf. injection Ha as <-. by eapply Hkeep; [|exact Hw|].
  - intros (w & Hw & Ha)%bind_Ok_inv Hf. injection Ha as <-. by eapply Hkeep; [|exact Hw|].
  - unfold AsyncLogger.popThread. destruct (background_thread_ a).
    + case_decide; intros [= <-]; auto.
    + case_decide; intros [= <-]; auto.
    + intros ([o a1] & Hp & Ha)%bind_Ok_inv. destruct (pop_write_queue _ _ _ _ _ Hp) as (_ & _ & _ & _ & Hx). destruct o; injection Ha as <-; auto.
    + intros ([o a1] & Hp & Ha)%bind_Ok_inv. destruct (pop_write_queue _ _ _ _ _ Hp) as (_ & _ & _ & _ & Hx). destruct o as [[]|]; injection Ha as <-; auto.
    + by intros [= <-].
Qed.

Lemma logger_pristine xs a a' : foldM step xs a = Ok a' → pristine (the_queue a') → pristine (the_queue a).
Proof.
  revert a. induction xs as [|x xs IH]; intros a Hr Hpr; [by injection Hr as <-|].
  cbn [foldM] in Hr. apply bind_Ok_inv in Hr as (a1 & H1 & Hr). specialize (IH a1 Hr Hpr).
  destruct (step_queue x a a1 H1) as [Hq | [act Hq]]; [by rewrite <- Hq | by eapply step_pristine].
Qed.

Lemma logger_history f0 xs a a' :
  foldM step xs a = Ok a' → pristine (the_queue a') → inv K (buffer_queue_ a) → file_ok f0 a →
  accounted (buffer_queue_ a) → inv K (buffer_queue_ a') ∧ file_ok f0 a' ∧ accounted (buffer_queue_ a').
Proof.
  revert a. induction xs as [|x xs IH]; intros a Hr Hpr Hi Hf Hacc; [by injection Hr as <-|].
  cbn [foldM] in Hr. apply bind_Ok_inv in Hr as (a1 & H1 & Hr). pose proof (step_file f0 x a a1 H1 Hf) as Hf1.
  destruct (step_queue x a a1 H1) as [Hq | [act Hq]].
  - rewrite <- Hq in *. by apply (IH a1).
  - destruct (queue_step_inv K K_pos act _ Hi) as (w & Hw & Hi1). assert (w = buffer_queue_ a1) as -> by congruence.
    pose proof (logger_pristine xs a1 a' Hr Hpr) as Hpr1.
    apply (IH a1 Hr Hpr (Hi1 Hpr1) Hf1). by eapply step_accounted.
Qed.

(** ** Shutting down *)

(** What the consumer has still to do before it is at rest, or returns for a block that it has started. *)
Definition weight (c : LogBufferQueue.consumer) (cur : option nat) : nat :=
  match c with
  | LogBufferQueue.AtRest => if cur is Some _ then 1 else 2
  | LogBufferQueue.Reading => 1
  | LogBufferQueue.Unlinking _ => 4
  | LogBufferQueue.Returning _ _ => 3
  end.

(** An upper bound on the accesses the background thread still makes. *)
Definition rounds (a : AsyncLogger) : nat :=
  match background_thread_ a with InitLoop => 4 | ReadyPop => 3 | ReadyLoop => 2 | DrainPop => 1 | Done => 0 end +
  weight (the_consumer a) (LogBufferQueue.current_read_buffer_ (the_queue a)) +
  4 * (length (claims a) - length (popped a ++ in_hand (the_consumer a))).

(** An access takes a line, or is a step towards its end, or returns nothing. *)
Lemma access_progress c q c' q' o :
  LogBufferQueue.pop K c q = Ok (c', q', o) →
  weight c' (LogBufferQueue.current_read_buffer_ q') + 4 * length (in_hand c) + (match o with Some None => 0 | _ => 1 end) ≤
  weight c (LogBufferQueue.current_read_buffer_ q) + 4 * length (LogBufferQueue.returned o ++ in_hand c').
Proof.
  assert (Hread : LogBufferQueue.read K q = Ok (c', q', o) →
    weight c' (LogBufferQueue.current_read_buffer_ q') + (match o with Some None => 0 | _ => 1 end) ≤
    1 + 4 * length (LogBufferQueue.returned o ++ in_hand c')).
  { unfold LogBufferQueue.read. destruct (LogBufferQueue.current_read_buffer_ q) as [b|] eqn:Hb; [|done].
    destruct (LogBufferQueue.heap q !! b); [|done]. intros ([[line buf]|] & _ & Hr)%bind_Ok_inv.
    - case_bool_decide; injection Hr as <- <- <-; cbn; [lia|]. rewrite Hb. lia.
    - injection Hr as <- <- <-. cbn. rewrite Hb. lia. }
  destruct c as [| |line|line up]; cbn [LogBufferQueue.pop in_hand length weight].
  - destruct (LogBufferQueue.current_read_buffer_ q) as [b|] eqn:Hb; [intros H; specialize (Hread H); lia|].
    destruct (LogBufferQueue.getNextReadLogBuffer q); intros [= <- <- <-]; cbn; rewrite ?Hb; lia.
  - intros H. specialize (Hread H). lia.
  - destruct (LogBufferQueue.log_buffers_ q); [done|]. intros [= <- <- <-]. cbn. lia.
  - intros [= <- <- <-]. cbn. destruct (LogBufferQueue.current_read_buffer_ _); lia.
Qed.

Lemma all_idle_total f ps : Forall (fun p => p = LogBufferQueue.Idle) ps → f LogBufferQueue.Idle = 0 → total f ps = 0.
Proof. intros H Hf. unfold total. induction H as [|p ps -> _ IH]; [done|]. csimpl. lia. Qed.

(** Every line prints, and none of them is FATAL. *)
Definition prints (line : LogLine) : Prop := ∃ text, stringify line = Ok (text, false).

(** After the store of [kSHUTDOWN], with no producer in [push] and no block lost. *)
Record closing (f0 : LogFile.LogFile) (a : AsyncLogger) : Prop := {
  cl_state : state_ a = kSHUTDOWN;
  cl_inv : inv K (buffer_queue_ a);
  cl_file : file_ok f0 a;
  cl_pristine : pristine (the_queue a);
  cl_blocks : blocks a ≤ S LogBufferQueue.kSpare;
  cl_idle : Forall (fun p => p = LogBufferQueue.Idle) (producers a);
  cl_prints : Forall prints (claims a);
  cl_done : background_thread_ a = Done → popped a = claims a
}.

(** An access of the background thread in [pop], with no producer in [push]. *)
Lemma pop_write_progress f0 now now' a :
  closing f0 a →
  ∃ o a', pop_write now now' a = Ok (o, a') ∧ inv K (buffer_queue_ a') ∧ file_ok f0 a' ∧ pristine (the_queue a') ∧ blocks a' = blocks a ∧
    state_ a' = state_ a ∧ background_thread_ a' = background_thread_ a ∧ producers a' = producers a ∧ claims a' = claims a ∧
    (o = Some None → popped a' = claims a') ∧ rounds a' + (match o with Some None => 0 | _ => 1 end) ≤ rounds a.
Proof.
  intros [Hst Hi Hf Hpr Hb Hidle Hprints _].
  destruct (access_ok K K_pos (buffer_queue_ a) (LogBufferQueue.logged (buffer_queue_ a)) Hi) as (c & q & o & Hpop & Hpromise & Hnone).
  destruct (access_pristine K K_pos (buffer_queue_ a) c q o Hi Hpr) as [Hpr' Hb']; [by apply all_idle_total | by rewrite !all_idle_total | done | done|].
  specialize (Hpromise Hpr').
  set (w := LogBufferQueue.mkWorld q (producers a) (LogBufferQueue.logged (buffer_queue_ a)) (claims a) (popped a ++ LogBufferQueue.returned o) c) in *.
  assert (Hcons : LogBufferQueue.consume K (buffer_queue_ a) = Ok (o, w)) by (unfold LogBufferQueue.consume; by rewrite Hpop).
  assert (Hw : ∃ a', pop_write now now' a = Ok (o, a')).
  { unfold AsyncLogger.pop_write. rewrite Hcons, bind_Ok. destruct o as [[line|]|]; [|by eexists..].
    destruct (proj1 (Forall_forall prints (claims a)) Hprints line) as (text & Hs).
    { assert (Hin : line ∈ LogBufferQueue.popped w) by (cbn; rewrite elem_of_app; right; by left).
      rewrite (popped_prefix K K_pos w Hpromise) in Hin. apply elem_of_take in Hin as (j & Hj & _). by eapply list_elem_of_lookup_2. }
    destruct (LogFile.write_inv local_format hostname text now now' (log_file_ a) (fo_file _ _ Hf)) as (f & Hwr & _).
    unfold write_line. cbn [set_queue log_file_]. rewrite Hs, bind_Ok. cbn [negb ensure]. rewrite bind_Ok, Hwr, !bind_Ok. by eexists. }
  destruct Hw as [a' Ha']. exists o, a'. destruct (pop_write_queue now now' a o a' Ha') as (Hc & _ & E1 & E2 & Hfo).
  rewrite Hcons in Hc. injection Hc as Hw.
  pose proof (access_progress _ _ _ _ _ Hpop) as Hm. pose proof (f_equal length (iv_popped _ _ Hpromise)) as Hle. rewrite length_take in Hle.
  unfold rounds. rewrite <- Hw, E2 in *. cbn [w LogBufferQueue.the_queue LogBufferQueue.producers LogBufferQueue.claims LogBufferQueue.popped LogBufferQueue.the_consumer] in *.
  split_and!; try done; [by apply Hfo | |].
  - intros ->. cbn [LogBufferQueue.returned]. rewrite app_nil_r, (popped_prefix K K_pos _ Hi). apply take_ge.
    rewrite Hnone; [done | done | by apply all_idle_total | by rewrite !all_idle_total].
  - rewrite !length_app in *. destruct o as [[]|]; cbn in *; lia.
Qed.

(** One access after the store of [kSHUTDOWN]. *)
Lemma shutdown_round f0 now now' a :
  closing f0 a →
  ∃ a', popThread now now' a = Ok a' ∧ closing f0 a' ∧ producers a' = producers a ∧ claims a' = claims a ∧
    (rounds a' < rounds a ∨ background_thread_ a = Done ∧ a' = a).
Proof.
  intros Hcl. pose proof Hcl as [Hst Hi Hf Hpr Hb Hidle Hprints Hdone]. unfold AsyncLogger.popThread.
  assert (Hplace : ∀ p, p ≠ Done → closing f0 (set_place p a)) by (intros p Hp; constructor; cbn; try done; by destruct Hf).
  assert (Hafter : ∀ a1 p, inv K (buffer_queue_ a1) → file_ok f0 a1 → pristine (the_queue a1) → blocks a1 = blocks a → state_ a1 = state_ a →
     producers a1 = producers a → claims a1 = claims a → (p = Done → popped a1 = claims a1) → closing f0 (set_place p a1)).
  { intros a1 p H1 H2 H3 H4 H5 H6 H7 H8. constructor; cbn; first [done | by destruct H2 | by rewrite H4 | by rewrite H6 | by rewrite H7 | congruence]. }
  destruct (background_thread_ a) eqn:Hbg.
  - rewrite decide_False by (by rewrite Hst). eexists. split; [done|]. split; [by apply Hplace|]. split_and!; try done. left. unfold rounds. rewrite Hbg. cbn. lia.
  - rewrite decide_False by (by rewrite Hst). eexists. split; [done|]. split; [by apply Hplace|]. split_and!; try done. left. unfold rounds. rewrite Hbg. cbn. lia.
  - destruct (pop_write_progress f0 now now' a Hcl) as (o & a1 & Hp & Hi1 & Hf1 & Hpr1 & Hb1 & E1 & E2 & E3 & E4 & Hno & Hlt).
    rewrite Hp, bind_Ok. unfold rounds in *. rewrite E2, Hbg in Hlt.
    assert (Hself : set_place ReadyPop a1 = a1) by (unfold set_place; destruct a1; cbn in *; congruence).
    destruct o as [r|]; eexists; (split; [done|]); cbn [background_thread_ buffer_queue_ set_place]; rewrite ?E2, ?Hbg;
      (split; [|split_and!; [done | done | left; try destruct r; lia]]); [by apply Hafter|]. rewrite <- Hself. by apply Hafter.
  - destruct (pop_write_progress f0 now now' a Hcl) as (o & a1 & Hp & Hi1 & Hf1 & Hpr1 & Hb1 & E1 & E2 & E3 & E4 & Hno & Hlt).
    rewrite Hp, bind_Ok. unfold rounds in *. rewrite E2, Hbg in Hlt.
    assert (Hself : set_place DrainPop a1 = a1) by (unfold set_place; destruct a1; cbn in *; congruence).
    destruct o as [[line|]|]; eexists; (split; [done|]); cbn [background_thread_ buffer_queue_ set_place]; rewrite ?E2, ?Hbg;
      (split; [|split_and!; [done | done | left; lia]]); [|by apply Hafter; auto|]; rewrite <- Hself; by apply Hafter.
  - exists a. split_and!; try done. by right.
Qed.

Lemma shutdown_ends f0 clocks a :
  closing f0 a → background_thread_ a = Done ∨ rounds a ≤ length clocks →
  ∃ a', foldM step (map (fun '(now, now') => Background now now') clocks) a = Ok a' ∧ closing f0 a' ∧
    background_thread_ a' = Done ∧ producers a' = producers a ∧ claims a' = claims a.
Proof.
  revert a. induction clocks as [|[now now'] clocks IH]; intros a Hcl Hm.
  - exists a. split; [done|]. destruct Hm as [Hd | Hm]; [done|]. exfalso. unfold rounds in Hm.
    assert (0 < weight (the_consumer a) (LogBufferQueue.current_read_buffer_ (the_queue a)));
      [|cbn in Hm; lia]. destruct (the_consumer a); [destruct (LogBufferQueue.current_read_buffer_ _)|..]; cbn; lia.
  - destruct (shutdown_round f0 now now' a Hcl) as (a1 & H1 & Hcl1 & E1 & E2 & Hlt). cbn [map foldM AsyncLogger.step]. rewrite H1, bind_Ok.
    rewrite <- E1, <- E2. apply IH; [done|]. destruct Hlt as [Hlt | [Hd ->]]; [|by left].
    destruct Hm as [Hd | Hm]; [|right; cbn [length] in Hm; lia].
    left. unfold AsyncLogger.popThread in H1. rewrite Hd in H1. by injection H1 as <-.
Qed.

(** As long as the file does not fill up and there are less lines than those after which [write] looks at the clock, the file in use gets them
    all, one behind the other. *)
Lemma write_all_content calls f f' :
  LogFile.inv f → write_all calls f = Ok f' →
  (zlen (LogFile.content f) + zlen (concat (map (fun c => c.1.1) calls)) < LogFile.log_file_max_size_ f)%Z →
  (LogFile.line_counts_ f + zlen calls < LogFile.check_lines_ f)%Z →
  LogFile.content f' = LogFile.content f ++ concat (map (fun c => c.1.1) calls).
Proof.
  revert f. induction calls as [|[[text now] now'] calls IH]; intros f Hi Hw Hb Hl; unfold write_all in *; cbn [foldM map concat fst] in *.
  - injection Hw as <-. by rewrite app_nil_r.
  - apply bind_Ok_inv in Hw as (f1 & H1 & Hw). destruct (LogFile.write_inv local_format hostname text now now' f Hi) as (f1' & H1' & Hi1).
    assert (f1' = f1) as -> by congruence. clear H1'. unfold LogFile.write in H1. apply bind_Ok_inv in H1 as (f2 & Ho & H1).
    destruct (LogFile.output_content text f f2 Ho Hi) as (Hc & _ & Hwb & _ & _ & Hm & _ & Hck & Hlc & _).
    rewrite zlen_app in Hb. pose proof (zlen_nonneg (concat (map (fun c : list byte * Z * Z => c.1.1) calls))). rewrite zlen_cons in Hl. pose proof (zlen_nonneg calls).
    assert (Hbytes : (LogFile.writen_bytes_ f2 + (LogFile.tellp f2 - LogFile.tellp f) = zlen (LogFile.content f) + zlen text)%Z)
      by (unfold LogFile.tellp; rewrite Hwb, Hc, zlen_app, (LogFile.lf_bytes _ Hi); lia).
    cbn [LogFile.log_file_max_size_ LogFile.writen_bytes_ LogFile.set_counts LogFile.check_lines_ LogFile.line_counts_] in H1. rewrite Hbytes, Hm, Hck, Hlc in H1.
    rewrite (proj2 (Z.leb_gt (LogFile.log_file_max_size_ f) _)) in H1 by lia. rewrite (proj2 (Z.leb_gt (LogFile.check_lines_ f) _)) in H1 by lia.
    injection H1 as <-.
    rewrite (IH _ Hi1 Hw).
    + change (LogFile.content (LogFile.set_counts _ _ (LogFile.set_counts _ _ f2))) with (LogFile.content f2). by rewrite Hc, <- app_assoc.
    + change (LogFile.content (LogFile.set_counts _ _ (LogFile.set_counts _ _ f2))) with (LogFile.content f2). rewrite Hc, zlen_app.
      change (LogFile.log_file_max_size_ (LogFile.set_counts _ _ (LogFile.set_counts _ _ f2))) with (LogFile.log_file_max_size_ f2). rewrite Hm. lia.
    + cbn [LogFile.line_counts_ LogFile.check_lines_ LogFile.set_counts]. rewrite Hck. lia.
Qed.


(** A FATAL line ends the program when the background thread has printed it: what is in the queue behind it is never
    written. *)
Theorem fatal_line_ends_program now now' a line w text :
  background_thread_ a = ReadyPop ∨ background_thread_ a = DrainPop →
  LogBufferQueue.consume K (buffer_queue_ a) = Ok (Some (Some line), w) → stringify line = Ok (text, true) →
  popThread now now' a = Fault FatalLog.
Proof.
  intros Hp Hc Hs. unfold AsyncLogger.popThread, AsyncLogger.pop_write, write_line.
  destruct Hp as [-> | ->]; by rewrite Hc, bind_Ok, Hs.
Qed.
End AsyncLoggerSpec.

(** ** The logging statements *)
Section Statements.
Import LogLine.LogLine Log.
Variable stringify : LogLine → result (list byte * bool).

(** A [LOG_FATAL] statement aborts the program only when the standard logger is in use and the level is not [kCLOSE]:
    before [initialize] it does nothing, and the asynchronous logger only queues the line (the abort comes
    when the background thread prints it) - the code behind the statement runs. *)
Theorem fatal_aborts_only_std g log_line text :
  stringify log_line = Ok (text, true) →
  LOG stringify kFATAL (Ok log_line) g = Fault FatalLog ↔ atomic_logger g = Some Std ∧ atomic_log_level g ≠ kCLOSE.
Proof.
  intros Hs. unfold LOG, isLowerThanOrEqualToCurr, FmLog_eq, StdLogger_add.
  destruct g as [[[]|] [] ? ?]; cbn; rewrite ?bind_Ok, ?Hs; cbn; naive_solver.
Qed.

(** The levels are ordered with ERROR behind INFO and WARN: an error is reported exactly at the levels
    ERROR and DEBUG, and not at INFO, the level of a program that does not set one. *)
Theorem errors_hidden_by_default g :
  ((∀ build, LOG stringify kERROR build g = Ok g) ↔ atomic_log_level g ∉ [kERROR; kDEBUG]) ∧
  ∀ b build, LOG stringify kERROR build (Log.initialize b initial) = Ok (Log.initialize b initial).
Proof.
  split; [|done]. unfold LOG, isLowerThanOrEqualToCurr. split.
  - intros H. specialize (H (Fault NullDeref)). destruct (atomic_log_level g); cbn in H; done || set_solver.
  - intros H build. destruct (atomic_log_level g) eqn:Hl; cbn; try done; exfalso; apply H; set_solver.
Qed.
End Statements.

(** ** Concrete loggers *)

(** Two threads log a line each, and the program ends. *)
Definition demo_text (line : LogLine) : result (list byte * bool) :=
  Ok (bytes "line" ++ dec (LogLine.LogLine.used_bytes_ line), false).


Lemma fatal_aborts_only_std_witness :
  Log.LOG (fun _ => Ok ([], true)) LogLine.LogLine.kFATAL (Ok (demo_line 0)) Log.initial = Ok Log.initial ∧
  (Log.LOG (fun _ => Ok ([], true)) LogLine.LogLine.kFATAL (Ok (demo_line 0)) Log.initial = Fault FatalLog ↔
   Log.atomic_logger Log.initial = Some Log.Std ∧ Log.atomic_log_level Log.initial ≠ LogLine.LogLine.kCLOSE).
Proof. split; [reflexivity|]. by apply (fatal_aborts_only_std _ Log.initial _ []). Defined.
