(* ===== verification/ReadSmallFile.v ===== *)
(** * Reading a file: examples/HttpServer/ReadSmallFile.{h,cpp}

    The kernel's side is a parameter: what [open] and [fstat] answer, the file's bytes, and for each call of [read]
    how much it delivers at most, or the error it fails with. *)
From stdpp Require Import base list numbers strings.
From Stdlib Require Import ZArith Lia Init.Byte.
From S2P Require Import Prelude.
From S2P Require Import Time.
#[local] Open Scope Z_scope.

Module ReadSmallFile.

(** The kind of a file, as [st_mode] tells it, and the answer of [fstat]. *)
Inductive file_kind := Regular | Directory | Other.
Record stat := mkStat { st_kind : file_kind; st_size : Z; st_mtim : SystemClock.timepair; st_ctim : SystemClock.timepair }.

(** [src/examples/HttpServer/ReadSmallFile.h:42-46 ReadSmallFile data members] *)
Record ReadSmallFile := mkReader {
  fd_ : Z;
  err_ : Z;
  file_size_ : Z;
  mtime_ : Z;
  ctime_ : Z
}.

(** [src/examples/HttpServer/ReadSmallFile.h:29-29 ReadSmallFile::k128KB] *)
Definition k128KB : Z := 1024 * 128.

(** [src/examples/HttpServer/ReadSmallFile.cpp:15-36 ReadSmallFile::ReadSmallFile] [opened] is the descriptor or the error of [open],
    [status] the answer or the error of [fstat], [errno] what an earlier call left there. *)
Definition newReader (opened : Z + Z) (status : stat + Z) (errno : Z) : ReadSmallFile :=
  let '(fd, err, errno) := match opened with inl fd => (fd, 0, errno) | inr e => (-1, e, e) end in
  match status with
  | inl st =>
      let size := match st_kind st with Regular => st_size st | _ => 0 end in
      let err := match st_kind st with Directory => errno | _ => err end in
      mkReader fd err size (SystemClock.from_timespec (st_mtim st)) (SystemClock.from_timespec (st_ctim st))
  | inr e => mkReader fd e 0 0 0
  end.

Section Kernel.
(** The file's bytes, and what each [read] does: deliver up to so many bytes, or fail. *)
Variable data : list byte.
Variable answer : nat → Z + Z.

(** [read] number [k] of at most [n] bytes at offset [pos]. *)
Definition sys_read (k : nat) (pos n : Z) : list byte + Z :=
  match answer k with
  | inl q => inl (zslice pos (pos + q `min` n) data)
  | inr e => inr e
  end.

(** The loop of [readToString]: [readStart] is also the file's offset. *)
Fixpoint read_loop (fuel : nat) (k : nat) (contentSize readStart err : Z) (content : list byte) : option (Z * list byte) :=
  match fuel with
  | O => None
  | S fuel =>
      if readStart <? contentSize then
        let needToRead := contentSize - readStart in
        match sys_read k readStart needToRead with
        | inl bs =>
            if 0 <? zlen bs
            then read_loop fuel (S k) contentSize (readStart + zlen bs) err (zwrite readStart bs content)
            else Some (err, content)
        | inr e => Some (e, content)
        end
      else Some (err, content)
  end.

(** [src/examples/HttpServer/ReadSmallFile.cpp:42-63 ReadSmallFile::readToString] Every round reads at least a byte. *)
Definition readToString (r : ReadSmallFile) (maxContentSize : Z) (content : list byte) : option (Z * list byte) :=
  if 0 <=? fd_ r then
    let contentSize := maxContentSize `min` file_size_ r in
    let content := ztake contentSize content ++ replicate (Z.to_nat (contentSize - zlen content)) x00 in
    read_loop (S (Z.to_nat contentSize)) 0 contentSize 0 (err_ r) content
  else Some (err_ r, content).

(** [src/examples/HttpServer/ReadSmallFile.cpp:65-76 ReadSmallFile::readFile] What the constructor meets is [opened], [status], [errno];
    the sizes and times are the members. *)
Definition readFile (opened : Z + Z) (status : stat + Z) (errno : Z) (maxContentSize : Z) (content : list byte) :
    option (ReadSmallFile * (Z * list byte)) :=
  let file := newReader opened status errno in
  result ← readToString file maxContentSize content; Some (file, result).

Lemma zslice_clip i j : 0 ≤ i → zslice i j data = zslice i (j `min` zlen data) data.
Proof.
  intros Hi. unfold zslice. destruct (Z.le_gt_cases j (zlen data)); [by rewrite Z.min_l|]. rewrite Z.min_r by lia.
  destruct (Z.le_gt_cases i (zlen data)); [|rewrite !(zdrop_all i) by lia; unfold ztake; by rewrite !take_nil].
  rewrite !ztake_all; rewrite ?zlen_zdrop by lia; [done | lia | lia].
Qed.

(** What has been read is the beginning of the file, the rest is as it was. *)
Lemma read_loop_ok fuel k cs pos err content :
  (∀ k, ∃ q, answer k = inl q ∧ 1 ≤ q) → 0 ≤ pos ≤ cs → pos ≤ zlen data → zlen content = cs →
  ztake pos content = ztake pos data → cs - pos < Z.of_nat fuel →
  read_loop fuel k cs pos err content = Some (err, ztake (cs `min` zlen data) data ++ zdrop (cs `min` zlen data) content).
Proof.
  intros Ha. revert k pos content. induction fuel as [|fuel IH]; intros k pos content Hpos Hd Hc Hpre Hf; [lia|].
  cbn [read_loop]. destruct (Z.ltb_spec pos cs) as [Hlt|Hge].
  - unfold sys_read. destruct (Ha k) as (q & -> & Hq). rewrite zslice_clip by lia.
    set (e := (pos + q `min` (cs - pos)) `min` zlen data).
    assert (He : pos ≤ e ≤ zlen data ∧ e ≤ cs ∧ (e ≤ pos → pos = zlen data)) by (unfold e; lia). clearbody e. assert (Hlen : zlen (zslice pos e data) = e - pos) by (apply zlen_zslice; lia).
    rewrite Hlen. destruct (Z.ltb_spec 0 (e - pos)) as [Hmore|Hend].
    + rewrite IH; try lia.
      * f_equal. f_equal. f_equal. unfold zwrite. rewrite Hlen, !zdrop_app_ge; rewrite ?zlen_ztake, ?Hlen; try lia.
        rewrite zdrop_zdrop by lia. f_equal. lia.
      * rewrite zlen_zwrite; rewrite ?Hlen; lia.
      * unfold zwrite. replace (pos + (e - pos)) with e by lia. rewrite app_assoc, ztake_app_le, ztake_all.
        -- rewrite Hpre. unfold zslice. rewrite <- (ztake_zdrop pos (ztake e data)), ztake_ztake, Z.min_l, zdrop_ztake by lia. done.
        -- rewrite zlen_app, zlen_ztake, Hlen; lia.
        -- rewrite zlen_app, zlen_ztake, Hlen; lia.
    + assert (Hp : pos = zlen data) by (apply He; lia). rewrite Z.min_r by lia. rewrite <- Hp, <- Hpre. by rewrite ztake_zdrop.
  - assert (pos = cs) as -> by lia. rewrite Z.min_l by lia. rewrite <- Hpre, ztake_zdrop. done.
Qed.
End Kernel.
End ReadSmallFile.
Import ReadSmallFile.

(** Reading a file into a string, if no [read] fails, in pieces of whatever sizes: the loop ends within
    one round per byte, reports the error of the constructor, and the string has the file's first bytes, up to the
    limit and the size [fstat] gave - filled up with NULs, and no error told, when the file has become shorter. *)
Theorem readToString_content data answer r max content :
  (∀ k, ∃ q, answer k = inl q ∧ 1 ≤ q) → 0 ≤ max → 0 ≤ file_size_ r → 0 ≤ fd_ r → content = [] →
  let cs := max `min` file_size_ r in
  readToString data answer r max content =
  Some (err_ r, ztake (cs `min` zlen data) data ++ replicate (Z.to_nat (cs - zlen data)) x00).
Proof.
  intros Ha Hm Hs Hfd ->. cbv zeta. unfold readToString. rewrite (proj2 (Z.leb_le _ _)) by done.
  set (cs := max `min` file_size_ r). change (zlen (@nil byte)) with 0. rewrite (Z.sub_0_r cs). pose proof (zlen_nonneg data).
  assert (Hl : zlen (replicate (Z.to_nat cs) x00) = cs) by (unfold zlen; rewrite length_replicate; lia).
  replace (ztake cs [] ++ replicate (Z.to_nat cs) x00) with (replicate (Z.to_nat cs) x00) by (unfold ztake; by rewrite take_nil).
  rewrite read_loop_ok; try lia; try done.
  - f_equal. f_equal. f_equal. unfold zdrop. rewrite drop_replicate. f_equal. lia.
Qed.

Lemma readToString_content_witness :
  readToString (bytes "hello, world") (fun k => inl (Z.of_nat k + 1)) (mkReader 3 0 20 0 0) 15 [] =
  Some (0, bytes "hello, world" ++ [x00; x00; x00]).
Proof.
  rewrite (readToString_content (bytes "hello, world")); [reflexivity | | done | done | done | done].
  intros k. exists (Z.of_nat k + 1). split; [done | lia].
Defined.
