(* ===== verification/HttpServerStart.v ===== *)
(** * The HTTP server as a whole, and the example program

    The object of include/libfm/fmnet/http/HttpServer.h - the TCP server, the pool of workers and the callback - with its
    constructor, its setters and [start]; and [main] of examples/HttpServer/HttpServer.cpp up to its
    event loop.  What a connection then does is [HttpSession.http_event] with the members of this object. *)
From stdpp Require Import base list gmap numbers strings.
From Stdlib Require Import ZArith Lia Init.Byte.
From S2P Require Import Prelude.
From S2P Require Import HttpMessage.
From S2P Require Import HttpReply.
From S2P Require Import ThreadPool.
From S2P Require Import EventLoopThread.
From S2P Require Import TcpServer.
From S2P Require Import HttpService.
From S2P Require Import ExampleServer.
From S2P Require Import ReadSmallFile.
#[local] Open Scope Z_scope.
#[local] Open Scope fm_scope.

Module HttpServerStart.

Definition HttpCallback : Type := HttpRequest → HttpResponse → result HttpResponse.

(** [src/include/libfm/fmnet/http/HttpServer.h:55-57 HttpServer data members] *)
Record HttpServer := mkServer {
  server_ : TcpServer.server;
  threadPool_ : ThreadPool.ThreadPool (T := HttpRequest);
  httpCallback_ : HttpCallback
}.

(** [src/net/http/HttpServer.cpp:26-33 HttpServer::HttpServer] [ip] is [listenAddr.toIpStr()].  The two callbacks that the constructor
    passes on are those of [HttpSession.http_event]. *)
Definition newHttpServer (ip name : list byte) (option : TcpServer.Option) (threadPoolMaxSize : Z) : HttpServer :=
  mkServer (TcpServer.newServer ip name option) (ThreadPool.newPool threadPoolMaxSize) HttpServer.defaultHttpCallback.

(** [src/include/libfm/fmnet/http/HttpServer.h:44-44 HttpServer::setHttpCallback] *)
Definition setHttpCallback (cb : HttpCallback) (h : HttpServer) : HttpServer := mkServer (server_ h) (threadPool_ h) cb.

(** [src/net/http/HttpServer.cpp:41-44 HttpServer::setThreadNum] A negative number of workers is too long for the
    vector. *)
Definition setThreadNum (numIOThreads numThreadPools : Z) (h : HttpServer) : result HttpServer :=
  s ← TcpServer.setThreadNum numIOThreads (server_ h);
  check! LengthError (0 <=? numThreadPools);
  p ← ThreadPool.setThreadNum (Z.to_nat numThreadPools) (threadPool_ h);
  Ok (mkServer s p (httpCallback_ h)).

(** [src/net/http/HttpServer.cpp:46-51 HttpServer::start] in the thread of the base loop. *)
Definition start (h : HttpServer) : result HttpServer :=
  let p := ThreadPool.start (threadPool_ h) in
  s ← TcpServer.start (server_ h);
  Ok (mkServer s p (httpCallback_ h)).
End HttpServerStart.

(** ** The example program *)
Module ExampleMain.
Import HttpServerStart.

(** What the system answers about a path. *)
Record file := mkFile {
  opened : Z + Z;
  status : ReadSmallFile.stat + Z;
  contents : list byte;
  reads : nat → Z + Z
}.

Section Main.
Variable fs : list byte → file.
Variable errno : Z.
(** [listenAddr.toIpStr()] for port 12000. *)
Variable ip : list byte.

Definition names : list (list byte) := [bytes "/index.html"; bytes "/xxx.jpg"; bytes "/favicon.ico"].

(** [src/examples/HttpServer/HttpServer.cpp:49-59 main] The file cache: what [readFile] leaves in each entry, its result is
    not looked at. *)
Definition load_files (root : list byte) : option (gmap (list byte) (list byte)) :=
  foldr (fun name files =>
    files ← files;
    let f := fs (root ++ name) in
    '(_, (_, content)) ← ReadSmallFile.readFile (contents f) (reads f) (opened f) (status f) errno ReadSmallFile.k128KB [];
    Some (<[name := content]> files)) (Some ∅) names.

(** [src/examples/HttpServer/HttpServer.cpp:61-66 main] up to [loop.loop()]; without an argument the program ends. *)
Definition main (argv : list (list byte)) : option (result HttpServer) :=
  match argv with
  | _ :: root :: _ =>
      files ← load_files root;
      let server := newHttpServer ip (bytes "HttpServer") TcpServer.kNoReusePort 10240 in
      let server := setHttpCallback (Example.onRequest files) server in
      Some (server ← setThreadNum 8 0 server; start server)
  | _ => None
  end.
End Main.
End ExampleMain.
