(* ===== verification/TcpClient.v ===== *)
(** * The client: include/libfm/fmnet/TcpClient.h and net/TcpClient.cpp

    The client on top of its connector (Connector.v), in one loop.  Of a connection what the client relies on is kept:
    how far it has come, who its close callback belongs to, and whether [shutdown] was called (see
    TcpConnection.v for the rest).  The functors that concern connections are in [tasks]; those of the connector are in
    its loop. *)
From stdpp Require Import base list gmap numbers strings.
From Stdlib Require Import ZArith Lia Init.Byte.
From S2P Require Import Prelude.
From S2P Require Import Channel.
From S2P Require Import EventLoop.
From S2P Require Import Connector.
#[local] Open Scope Z_scope.
#[local] Open Scope fm_scope.

Module TcpClient.

Inductive stage := Up | Down | Destroyed.
#[export] Instance stage_eq_dec : EqDecision stage.
Proof. solve_decision. Defined.

(** [ByClient]: [[this](const auto &cn) { this->removeConnection(cn); }]; [Detached]: the one the destructor sets. *)
Inductive close_callback := ByClient | Detached.

Record connection := mkConnection {
  cname : list byte;
  at_stage : stage;
  on_close : close_callback;
  shut : bool
}.

Inductive task :=
  | TDestroyed (c : loc)                (** [[conn] { conn->connectDestroyed(); }] *)
  | TSetCloseCallback (c : loc)         (** [[conn, cb] { conn->setCloseCallback(cb); }] *)
  | TForceClose (c : loc)               (** [forceCloseInLoop] of the connection *)
  | TDangling.                          (** [[&cn] { cn->connectDestroyed(); }], [cn] being gone *)

#[export] Instance task_eq_dec : EqDecision task.
Proof. solve_decision. Defined.

(** [src/include/libfm/fmnet/TcpClient.h:46-58 TcpClient data members], the connections, the loop's functors, and
    which of client and connector still exist. *)
Record client := mkClient {
  connector_ : Connector.world;
  name_ : list byte;
  retry_ : bool;
  connect_ : bool;
  next_connid_ : Z;
  connection_ : option loc;
  conns : gmap loc connection;
  tasks : list task;
  alive : bool;
  connector_alive : bool
}.

Definition set_connector (w : Connector.world) (s : client) : client :=
  mkClient w (name_ s) (retry_ s) (connect_ s) (next_connid_ s) (connection_ s) (conns s) (tasks s) (alive s) (connector_alive s).
Definition set_retry (b : bool) (s : client) : client :=
  mkClient (connector_ s) (name_ s) b (connect_ s) (next_connid_ s) (connection_ s) (conns s) (tasks s) (alive s) (connector_alive s).
Definition set_connect (b : bool) (s : client) : client :=
  mkClient (connector_ s) (name_ s) (retry_ s) b (next_connid_ s) (connection_ s) (conns s) (tasks s) (alive s) (connector_alive s).
Definition set_next (n : Z) (s : client) : client :=
  mkClient (connector_ s) (name_ s) (retry_ s) (connect_ s) n (connection_ s) (conns s) (tasks s) (alive s) (connector_alive s).
Definition set_connection (c : option loc) (s : client) : client :=
  mkClient (connector_ s) (name_ s) (retry_ s) (connect_ s) (next_connid_ s) c (conns s) (tasks s) (alive s) (connector_alive s).
Definition set_conns (m : gmap loc connection) (s : client) : client :=
  mkClient (connector_ s) (name_ s) (retry_ s) (connect_ s) (next_connid_ s) (connection_ s) m (tasks s) (alive s) (connector_alive s).
Definition set_tasks (l : list task) (s : client) : client :=
  mkClient (connector_ s) (name_ s) (retry_ s) (connect_ s) (next_connid_ s) (connection_ s) (conns s) l (alive s) (connector_alive s).
Definition set_alive (a ca : bool) (s : client) : client :=
  mkClient (connector_ s) (name_ s) (retry_ s) (connect_ s) (next_connid_ s) (connection_ s) (conns s) (tasks s) a ca.

(** [src/net/TcpClient.cpp:13-28 TcpClient::TcpClient] *)
Definition newClient (lp : EventLoop.EventLoop.EventLoop Connector.functor Connector.channel_cb) (name : list byte) : client :=
  mkClient (Connector.newConnector lp) name false true 1 None ∅ [] true true.

(** [src/include/libfm/fmnet/TcpClient.h:34-34 TcpClient::enableRetry] *)
Definition enableRetry (s : client) : client := set_retry true s.

(** [src/net/TcpClient.cpp:75-78 TcpClient::connection] *)
Definition get_connection (s : client) : option loc := connection_ s.

Definition post (t : task) (s : client) : client := set_tasks (tasks s ++ [t]) s.

Definition set_stage (c : loc) (k : connection) (st : stage) (s : client) : client :=
  set_conns (<[c := mkConnection (cname k) st (on_close k) (shut k)]> (conns s)) s.

Definition with_conn (c : loc) (k : connection → result client) (s : client) : result client :=
  match conns s !! c with Some x => k x | None => Fault UseAfterFree end.

(** The connection's name; the array holds 31 characters. *)
Definition connName (peer : list byte) (id : Z) (name : list byte) : list byte :=
  name ++ snprintf 32 (bytes ":" ++ peer ++ bytes "#" ++ dec id).

Section Operations.
Variable sys_socket : nat → gmap Z loc → Z.
Variable sys_connect : nat → Z.
Variable so_error : nat → Z.
Variable self_connect : nat → bool.
(** The text of the peer's address of a socket. *)
Variable peer_text : Z → list byte.

Local Notation c_start := (Connector.start sys_socket sys_connect).
Local Notation c_restart := (Connector.restart sys_socket sys_connect).
Local Notation c_perform := (Connector.perform sys_socket sys_connect so_error self_connect).

(** [src/net/TcpClient.cpp:54-59 TcpClient::connect] *)
Definition connect (inLoop : bool) (s : client) : result client :=
  let s := set_connect true s in
  w ← c_start inLoop (connector_ s);
  Ok (set_connector w s).

(** [src/net/TcpClient.cpp:61-68 TcpClient::disconnect] *)
Definition disconnect (s : client) : result client :=
  let s := set_connect false s in
  match connection_ s with
  | Some c => with_conn c (fun k => Ok (set_conns (<[c := mkConnection (cname k) (at_stage k) (on_close k) true]> (conns s)) s)) s
  | None => Ok s
  end.

(** [src/net/TcpClient.cpp:70-73 TcpClient::stop] *)
Definition stop (inLoop : bool) (s : client) : result client :=
  let s := set_connect false s in
  w ← Connector.stop inLoop (connector_ s);
  Ok (set_connector w s).

(** [src/net/TcpClient.cpp:80-103 TcpClient::newConnection] up to [connectEstablished]. *)
Definition newConnection (inLoop : bool) (sockfd : Z) (s : client) : result client :=
  check! UseAfterFree (alive s);
  check! NotInLoopThread inLoop;
  let conn_name := connName (peer_text sockfd) (next_connid_ s) (name_ s) in
  let s := set_next (next_connid_ s + 1) s in
  let conn := fresh (dom (conns s)) in
  let s := set_conns (<[conn := mkConnection conn_name Up ByClient false]> (conns s)) s in
  Ok (set_connection (Some conn) s).

(** [src/net/TcpClient.cpp:105-122 TcpClient::removeConnection] *)
Definition removeConnection (inLoop : bool) (c : loc) (s : client) : result client :=
  check! UseAfterFree (alive s);
  check! NotInLoopThread inLoop;
  assert! (bool_decide (connection_ s = Some c));
  let s := set_connection None s in
  let s := post (TDestroyed c) s in
  if retry_ s && connect_ s then
    w ← c_restart true (connector_ s);
    Ok (set_connector w s)
  else Ok s.

(** A connection that is up goes down and calls its close callback. *)
Definition close_conn (c : loc) (s : client) : result client :=
  with_conn c (fun k =>
    let s := set_stage c k Down s in
    match on_close k with
    | ByClient => removeConnection true c s
    | Detached => Ok (post TDangling s)
    end) s.

Definition setCloseCallback (c : loc) (s : client) : result client :=
  with_conn c (fun k => Ok (set_conns (<[c := mkConnection (cname k) (at_stage k) Detached (shut k)]> (conns s)) s)) s.

(** [src/net/TcpClient.cpp:30-52 TcpClient::~TcpClient] [unique]: nobody else holds the connection; the connector is
    the client's alone. *)
Definition destroyClient (inLoop unique : bool) (s : client) : result client :=
  match connection_ s with
  | Some c =>
      s ← (if inLoop then setCloseCallback c s else Ok (post (TSetCloseCallback c) s));
      let s := if unique then post (TForceClose c) s else s in
      Connector.destroyConnector (connector_ s);;
      Ok (set_alive false false s)
  | None =>
      w ← Connector.stop inLoop (connector_ s);
      Connector.destroyConnector w;;
      Ok (set_alive false false (set_connector w s))
  end.

Definition run_task (t : task) (s : client) : result client :=
  match t with
  | TDestroyed c => with_conn c (fun k => assert! (bool_decide (at_stage k = Down)); Ok (set_stage c k Destroyed s)) s
  | TSetCloseCallback c => setCloseCallback c s
  | TForceClose c => with_conn c (fun k => if decide (at_stage k = Up) then close_conn c s else Ok s) s
  | TDangling => Fault UseAfterFree
  end.

(** ** What happens to a client *)
Inductive event :=
  | Net (e : Connector.event)   (** an event of the connector; its callback is [newConnection] *)
  | Connect | Disconnect | Stop (inLoop : bool)
  | Close                       (** the connection is closed *)
  | Task.                       (** the loop runs the next functor of a connection *)

Definition perform (e : event) (s : client) : result client :=
  match e with
  | Net e =>
      check! UseAfterFree (connector_alive s);
      w ← c_perform e (connector_ s);
      foldM (newConnection true) (drop (length (Connector.handed (connector_ s))) (Connector.handed w)) (set_connector w s)
  | Connect => connect true s
  | Disconnect => disconnect s
  | Stop inLoop => stop inLoop s
  | Close => match connection_ s with Some c => close_conn c s | None => Ok s end
  | Task =>
      match tasks s with
      | [] => Ok s
      | t :: ts => run_task t (set_tasks ts s)
      end
  end.
End Operations.
End TcpClient.
