(* ===== verification/TcpClientSpec.v ===== *)
(** * What the client promises

    Used in its loop, for one connection at a time, it keeps at most one connection, which it removes and
    destroys once, and takes up again if told so.  And what becomes of its connection's names, and of the loop when
    the client is destroyed. *)
From stdpp Require Import base list gmap numbers strings.
From Stdlib Require Import ZArith Lia Init.Byte.
From S2P Require Import Prelude.
From S2P Require Import Channel.
From S2P Require Import EventLoop.
From S2P Require Import EventLoopSpec.
From S2P Require Import Connector.
From S2P Require Import ConnectorSpec.
From S2P Require Import TcpClient.
Import EventLoop.EventLoop TcpClient.TcpClient.
#[local] Open Scope Z_scope.
#[local] Open Scope fm_scope.

(** ** Names *)

Lemma connName_inj_prefix peer name i j :
  connName peer i name = connName peer j name ↔
  snprintf 32 (bytes ":" ++ peer ++ bytes "#" ++ dec i) = snprintf 32 (bytes ":" ++ peer ++ bytes "#" ++ dec j).
Proof. unfold connName. split; [apply app_inv_head | by intros ->]. Qed.

(** The names of a client's connections tell them apart only as long as the peer's address is short: the array for
    the name's tail holds 31 characters.  With the address of an IPv4 peer (21 characters at most) any two
    connections up to the eight-digit numbers have different names; with an address of 30 characters or more - as most
    of IPv6 are - the number is cut off, and all connections have the same name. *)
Theorem client_names peer name i j :
  0 ≤ i → 0 ≤ j → i ≠ j →
  (zlen peer ≤ 21 → i < 10 ^ 8 → j < 10 ^ 8 → connName peer i name ≠ connName peer j name) ∧
  (30 ≤ zlen peer → connName peer i name = connName peer j name).
Proof.
  intros Hi Hj Hne. rewrite connName_inj_prefix. change (zlen (bytes ":")) with 1. split.
  - intros Hp Hi8 Hj8. assert (Hfit : ∀ n, 0 ≤ n < 10 ^ 8 → snprintf 32 (bytes ":" ++ peer ++ bytes "#" ++ dec n) = bytes ":" ++ peer ++ bytes "#" ++ dec n).
    { intros n Hn. apply snprintf_fits. rewrite !zlen_app. change (zlen (bytes ":")) with 1. change (zlen (bytes "#")) with 1.
      pose proof (dec_length n 8 Hn ltac:(lia)). lia. }
    rewrite !Hfit by lia. intros Heq. apply Hne. simplify_list_eq. by apply dec_inj.
  - intros Hp. assert (Hcut : ∀ n, snprintf 32 (bytes ":" ++ peer ++ bytes "#" ++ dec n) = ztake 31 (bytes ":" ++ peer)).
    { intros n. unfold snprintf. rewrite (app_assoc (bytes ":")), ztake_app_le; [done|].
      rewrite zlen_app. change (zlen (bytes ":")) with 1. lia. }
    by rewrite !Hcut.
Qed.

Lemma client_names_witness :
  connName (bytes "127.0.0.1:80") 1 (bytes "cl") ≠ connName (bytes "127.0.0.1:80") 2 (bytes "cl") ∧
  connName (bytes "[2001:db8:85a3::8a2e:370:7334]:80") 1 (bytes "cl") = connName (bytes "[2001:db8:85a3::8a2e:370:7334]:80") 2 (bytes "cl").
Proof.
  split.
  - apply (client_names (bytes "127.0.0.1:80") (bytes "cl") 1 2); by vm_compute.
  - apply (client_names (bytes "[2001:db8:85a3::8a2e:370:7334]:80") (bytes "cl") 1 2); by vm_compute.
Defined.

(** ** When a socket is handed over *)
Section Client.
Variable sys_socket : nat → gmap Z loc → Z.
Hypothesis socket_fresh : ∀ n m, 0 ≤ sys_socket n m ∧ m !! sys_socket n m = None.
Variable sys_connect : nat → Z.
Variable so_error : nat → Z.
Variable self_connect : nat → bool.
Variable peer_text : Z → list byte.

Local Notation c_perform := (Connector.perform sys_socket sys_connect so_error self_connect).
Local Notation perform := (perform sys_socket sys_connect so_error self_connect peer_text).

Section Frames.
Import Connector.

(** Takes a successful run apart. *)
Ltac run_apart := repeat first
  [ progress simplify_eq
  | match goal with
    | |- _ = _ → _ => intros
    | H : mbind _ _ = Ok _ |- _ => apply bind_Ok_inv in H as (? & ? & H)
    | H : (if _ then _ else _) = Ok _ |- _ => case_match
    | H : match _ with _ => _ end = Ok _ |- _ => case_match
    | x : _ * _ |- _ => destruct x
    end ].

Lemma retry_handed fd w : handed (retry fd w) = handed w ∧ state_ (conn (retry fd w)) = kDisconnected.
Proof. unfold retry. cbn. by destruct (connect_ (conn w)). Qed.

Lemma startInLoop_handed b w w' : startInLoop sys_socket sys_connect b w = Ok w' → handed w' = handed w.
Proof.
  unfold startInLoop, connect, connecting. intros H. run_apart; try done. by rewrite (proj1 (retry_handed _ _)).
Qed.

Lemma removeAndReset_handed w fd w' : removeAndResetChannel w = Ok (fd, w') → handed w' = handed w ∧ conn w' = conn w.
Proof. unfold removeAndResetChannel. intros H. run_apart; done. Qed.

Lemma perform_handed e w w' :
  c_perform e w = Ok w' →
  handed w' = handed w ∨
  ∃ fd, handed w' = handed w ++ [fd] ∧ e = Report CbWrite ∧ state_ (conn w) = kConnecting ∧ state_ (conn w') = kConnected.
Proof.
  destruct e as [|i|cb|b|b|]; cbn [Connector.perform].
  - destruct (pending_functors_ _) as [|f fs]; [intros [= <-]; by left|]. destruct f; cbn [run_functor].
    + intros H%startInLoop_handed. by left.
    + unfold stopInLoop. intros H. run_apart; [|by left]. left. rewrite (proj1 (retry_handed _ _)).
      match goal with H : removeAndResetChannel _ = _ |- _ => apply removeAndReset_handed in H as [-> _] end. done.
    + unfold resetChannel. intros H. run_apart; by left.
  - destruct (timers w !! i); [|intros [= <-]; by left]. intros H%startInLoop_handed. by left.
  - destruct (channel_ (conn w)) as [l|]; [|intros [= <-]; by left]. intros (w1 & H & Hw)%bind_Ok_inv. injection Hw as <-.
    destruct cb; cbn [run_callback] in H.
    + unfold handleWrite in H. case_decide as Hst; [|run_apart; by left].
      apply bind_Ok_inv in H as ([fd w2] & Hr & H). apply removeAndReset_handed in Hr as [Hh Hc].
      case_match; [injection H as <-; left; cbn -[retry]; rewrite (proj1 (retry_handed _ _)); exact Hh|].
      case_match; [injection H as <-; left; cbn -[retry]; rewrite (proj1 (retry_handed _ _)); exact Hh|].
      case_match; injection H as <-; [right | left; exact Hh]. exists fd. split_and!; [|done..]. cbn. by rewrite Hh.
    + unfold handleError in H. case_decide; [|injection H as <-; by left].
      apply bind_Ok_inv in H as ([fd w2] & Hr & H). apply removeAndReset_handed in Hr as [Hh Hc]. injection H as <-.
      left. cbn -[retry]. rewrite (proj1 (retry_handed _ _)). exact Hh.
  - unfold start. destruct b; [|intros [= <-]; by left]. intros H%startInLoop_handed. by left.
  - intros [= <-]. by left.
  - unfold restart. intros (? & _ & H)%bind_Ok_inv. apply startInLoop_handed in H. by left.
Qed.

(** While it is connected, nothing but [start] and [restart] moves the connector. *)
Lemma connected_stays e w w' :
  cinv w → state_ (conn w) = kConnected → c_perform e w = Ok w' →
  match e with Start _ | Restart => False | _ => True end → state_ (conn w') = kConnected.
Proof.
  intros Hi Hst Hp He. assert (Hs : starts w = 0%nat).
  { pose proof (ci_starts _ Hi). pose proof (ci_disconnected _ Hi) as Hd. destruct (starts w) as [|[|]]; [done| |lia]. by specialize (Hd eq_refl); rewrite Hst in Hd. }
  destruct e as [|i|cb|b|b|]; cbn [Connector.perform] in Hp; try done.
  - destruct (pending_functors_ (loop_ w)) as [|f fs] eqn:Hf; [by injection Hp as <-|]. destruct f; cbn [run_functor] in Hp.
    + exfalso. apply (no_start_pending w Hs). rewrite Hf. set_solver.
    + unfold stopInLoop in Hp. cbn [assertInLoopThread ensure] in Hp. rewrite bind_Ok, decide_False in Hp by (cbn; by rewrite Hst). by injection Hp as <-.
    + unfold resetChannel in Hp. run_apart; done.
  - unfold starts in Hs. destruct (timers w !! i) eqn:Ht; [|by injection Hp as <-]. apply lookup_lt_Some in Ht. lia.
  - destruct (channel_ (conn w)) as [l|]; [|by injection Hp as <-]. apply bind_Ok_inv in Hp as (w1 & H & Hw). injection Hw as <-.
    destruct cb; cbn [run_callback] in H.
    + unfold handleWrite in H. rewrite decide_False in H by (cbn; by rewrite Hst). by run_apart.
    + unfold handleError in H. rewrite decide_False in H by (cbn; by rewrite Hst). by injection H as <-.
  - by injection Hp as <-.
Qed.
End Frames.
(** ** The invariant *)

(** The functors that will destroy connection [c]. *)
Definition due (c : loc) (l : list task) : nat := length (filter (fun t => t = TDestroyed c) l).

Lemma due_app c l1 l2 : due c (l1 ++ l2) = (due c l1 + due c l2)%nat.
Proof. unfold due. by rewrite filter_app, length_app. Qed.

Lemma due_one c c' : due c [TDestroyed c'] = if decide (c = c') then 1%nat else 0%nat.
Proof.
  unfold due. rewrite filter_cons. destruct (decide (c = c')) as [->|Hne]; [by rewrite decide_True|].
  rewrite decide_False; [done|]. by intros [= <-].
Qed.

Record clinv (s : client) : Prop := {
  cl_net : cinv (connector_ s);
  cl_alive : alive s = true ∧ connector_alive s = true;
  cl_connected : is_Some (connection_ s) → Connector.state_ (Connector.conn (connector_ s)) = Connector.kConnected;
  cl_current : ∀ c, connection_ s = Some c → ∃ k, conns s !! c = Some k ∧ at_stage k = Up;
  cl_conns : ∀ c k, conns s !! c = Some k → on_close k = ByClient ∧
    match at_stage k with
    | Up => connection_ s = Some c ∧ due c (tasks s) = 0%nat
    | Down => connection_ s ≠ Some c ∧ due c (tasks s) = 1%nat
    | Destroyed => connection_ s ≠ Some c ∧ due c (tasks s) = 0%nat
    end;
  cl_tasks : ∀ t, t ∈ tasks s → ∃ c k, t = TDestroyed c ∧ conns s !! c = Some k
}.

(** What the user and the loop do: one connection at a time, from the loop's thread; a retry finds the
    connector at rest. *)
Definition enabled (e : event) (s : client) : Prop :=
  match e with
  | Net e => match e with Connector.Start _ | Connector.Stop _ | Connector.Restart => False | _ => ConnectorSpec.enabled e (connector_ s) end
  | Connect => connection_ s = None ∧ ConnectorSpec.enabled (Connector.Start true) (connector_ s)
  | Close => is_Some (connection_ s) ∧ (retry_ s && connect_ s = true → ConnectorSpec.enabled Connector.Restart (connector_ s))
  | Disconnect | Stop _ | Task => True
  end.

(** The connector takes a step that hands nothing over. *)
Lemma clinv_net s w b :
  clinv s → cinv w → (is_Some (connection_ s) → Connector.state_ (Connector.conn w) = Connector.kConnected) →
  clinv (set_connector w (set_connect b s)).
Proof. intros [H1 H2 H3 H4 H5 H6] Hw Hst. by constructor. Qed.

Lemma set_connect_same s : set_connect (connect_ s) s = s.
Proof. by destruct s. Qed.

(** A socket is handed over. *)
Lemma newConnection_ok s fd :
  clinv s → connection_ s = None → Connector.state_ (Connector.conn (connector_ s)) = Connector.kConnected →
  ∃ s', newConnection peer_text true fd s = Ok s' ∧ clinv s'.
Proof.
  intros [Hn Ha Hs Hc Hcs Ht] Hnone Hst. unfold newConnection. rewrite (proj1 Ha). cbn [ensure]. rewrite !bind_Ok.
  eexists. split; [done|]. change (conns (set_next _ s)) with (conns s). set (c := fresh (dom (conns s))).
  assert (Hfr : conns s !! c = None) by (apply not_elem_of_dom, is_fresh).
  assert (Hdue : due c (tasks s) = 0%nat).
  { unfold due. destruct (filter _ _) as [|t l] eqn:Hf; [done|]. assert (Hin : t ∈ filter (fun t => t = TDestroyed c) (tasks s)) by (rewrite Hf; set_solver).
    apply list_elem_of_filter in Hin as [-> Hin]. destruct (Ht _ Hin) as (c' & k & [= <-] & Hk). congruence. }
  constructor; cbn [connector_ alive connector_alive connection_ conns tasks set_connection set_conns set_next]; try done.
  - intros c' [= <-]. rewrite lookup_insert_eq. by eexists.
  - intros c' k [[<- <-]|[Hne Hk]]%lookup_insert_Some; [done|]. destruct (Hcs _ _ Hk) as [Ho Hstg]. split; [done|].
    rewrite Hnone in Hstg. destruct (at_stage k); [by destruct Hstg | |]; (split; [by intros [= <-] | tauto]).
  - intros t Hin. destruct (Ht t Hin) as (c' & k & -> & Hk). exists c', k. split; [done|]. rewrite lookup_insert_ne; [done|]. intros <-. congruence.
Qed.

Lemma net_ok e s :
  clinv s → enabled (Net e) s → ∃ s', perform (Net e) s = Ok s' ∧ clinv s'.
Proof using socket_fresh.
  intros Hi He. cbn [TcpClient.perform]. rewrite (proj2 (cl_alive _ Hi)). cbn [ensure]. rewrite bind_Ok.
  assert (He' : ConnectorSpec.enabled e (connector_ s)) by (by destruct e).
  destruct (perform_cinv sys_socket socket_fresh sys_connect so_error self_connect e (connector_ s) (cl_net _ Hi) He') as (w & Hw & Hwi).
  rewrite Hw, bind_Ok. destruct (perform_handed _ _ _ Hw) as [Hh | (fd & Hh & -> & Hst & Hst')]; rewrite Hh.
  - rewrite drop_all. cbn [foldM]. eexists. split; [done|]. rewrite <- (set_connect_same s) at 1. apply clinv_net; [done..|].
    intros Hc. eapply connected_stays; [apply Hi | by apply Hi | done |]. by destruct e.
  - rewrite drop_app_length. cbn [foldM].
    assert (Hnone : connection_ s = None).
    { destruct (connection_ s) eqn:Hc; [|done]. pose proof (cl_connected _ Hi) as Hx. rewrite Hc in Hx. rewrite Hx in Hst by (by eexists). done. }
    destruct (newConnection_ok (set_connector w s) fd) as (s' & -> & Hi'); [|done|done|by exists s'].
    rewrite <- (set_connect_same s). apply clinv_net; [done..|]. by rewrite Hnone; intros [].
Qed.

(** The connection is closed: without the retry. *)
Lemma closed_clinv s c k :
  clinv s → connection_ s = Some c → conns s !! c = Some k →
  clinv (post (TDestroyed c) (set_connection None (set_stage c k Down s))).
Proof.
  intros [Hn Ha Hs Hc Hcs Ht] Hcur Hk. destruct (Hcs _ _ Hk) as [Hby Hst].
  assert (Hup : at_stage k = Up) by (destruct (Hc _ Hcur) as (k' & Hk' & ?); congruence). rewrite Hup in Hst. destruct Hst as [_ Hdue].
  constructor; cbn [connector_ alive connector_alive connection_ conns tasks post set_tasks set_connection set_stage set_conns]; try done.
  - intros c' k' [[<- <-]|[Hne Hk']]%lookup_insert_Some; cbn [at_stage on_close].
    + split; [done|]. split; [done|]. rewrite due_app, Hdue, due_one, decide_True by done. done.
    + destruct (Hcs _ _ Hk') as [Hby' Hst']. split; [done|]. rewrite due_app, due_one, decide_False, Nat.add_0_r by done.
      destruct (at_stage k'); [destruct Hst'; congruence | |]; split; (done || by destruct Hst').
  - intros t. rewrite elem_of_app, list_elem_of_singleton. intros [Hin | ->].
    + destruct (Ht t Hin) as (c' & k' & -> & Hk'). exists c'. destruct (decide (c = c')) as [<-|Hne].
      * rewrite lookup_insert_eq. by eexists.
      * rewrite lookup_insert_ne by done. by exists k'.
    + exists c. rewrite lookup_insert_eq. by eexists.
Qed.

Lemma close_unfold s c k :
  clinv s → connection_ s = Some c → conns s !! c = Some k →
  let s1 := post (TDestroyed c) (set_connection None (set_stage c k Down s)) in
  perform Close s = if retry_ s && connect_ s
    then w ← Connector.restart sys_socket sys_connect true (connector_ s); Ok (set_connector w s1) else Ok s1.
Proof.
  intros Hi Hcur Hk. cbv zeta. cbn [TcpClient.perform]. rewrite Hcur. unfold close_conn, with_conn. rewrite Hk.
  destruct (cl_conns _ Hi _ _ Hk) as [-> _]. unfold removeConnection. change (alive (set_stage c k Down s)) with (alive s).
  rewrite (proj1 (cl_alive _ Hi)). cbn [ensure]. rewrite !bind_Ok. change (connection_ (set_stage c k Down s)) with (connection_ s).
  rewrite bool_decide_eq_true_2 by done. cbn [ensure]. by rewrite bind_Ok.
Qed.

Lemma close_ok s : clinv s → enabled Close s → ∃ s', perform Close s = Ok s' ∧ clinv s'.
Proof using socket_fresh.
  intros Hi [[c Hcur] Hr]. destruct (cl_current _ Hi c Hcur) as (k & Hk & _). pose proof (closed_clinv s c k Hi Hcur Hk) as Hi1.
  rewrite (close_unfold s c k) by done. destruct (retry_ s && connect_ s); [|by eexists].
  destruct (perform_cinv sys_socket socket_fresh sys_connect so_error self_connect Connector.Restart (connector_ s) (cl_net _ Hi) (Hr eq_refl)) as (w & Hw & Hwi).
  cbn [Connector.perform] in Hw. rewrite Hw, bind_Ok. eexists. split; [done|].
  set (s1 := post _ _) in *. rewrite <- (set_connect_same s1). apply clinv_net; [done..|]. by intros [].
Qed.

Lemma task_ok s : clinv s → ∃ s', perform Task s = Ok s' ∧ clinv s'.
Proof.
  intros Hi. cbn [TcpClient.perform]. destruct (tasks s) as [|t ts] eqn:Hts; [by exists s|].
  destruct Hi as [Hn Ha Hs Hc Hcs Ht]. rewrite Hts in *. destruct (Ht t) as (c & k & -> & Hk); [set_solver|].
  cbn [run_task]. unfold with_conn. change (conns (set_tasks ts s)) with (conns s). rewrite Hk.
  assert (Hd : ∀ c', due c' (TDestroyed c :: ts) = ((if decide (c' = c) then 1 else 0) + due c' ts)%nat).
  { intros c'. change (TDestroyed c :: ts) with ([TDestroyed c] ++ ts). by rewrite due_app, due_one. }
  destruct (Hcs _ _ Hk) as [Hby Hst]. rewrite Hd, decide_True in Hst by done.
  destruct (at_stage k) eqn:Hk0; [by destruct Hst | | by destruct Hst]. rewrite bool_decide_eq_true_2 by done. cbn [ensure]. rewrite bind_Ok.
  eexists. split; [done|]. destruct Hst as [Hcur Hdue].
  constructor; cbn [connector_ alive connector_alive connection_ conns tasks set_tasks set_stage set_conns]; try done.
  - intros c' Hc'. rewrite lookup_insert_ne by congruence. by apply Hc.
  - intros c' k' [[<- <-]|[Hne Hk']]%lookup_insert_Some; cbn [at_stage on_close]; [split; [done|]; split; [done | lia]|].
    destruct (Hcs _ _ Hk') as [? Hst']. split; [done|]. rewrite Hd, decide_False in Hst' by done. exact Hst'.
  - intros t Hin. destruct (Ht t) as (c' & k' & -> & Hk'); [set_solver|]. exists c'. destruct (decide (c = c')) as [<-|Hne].
    + rewrite lookup_insert_eq. by eexists.
    + rewrite lookup_insert_ne by done. by exists k'.
Qed.

Lemma disconnect_ok s : clinv s → ∃ s', perform Disconnect s = Ok s' ∧ clinv s'.
Proof.
  intros Hi. cbn [TcpClient.perform]. unfold disconnect, with_conn. change (connection_ (set_connect false s)) with (connection_ s).
  change (conns (set_connect false s)) with (conns s).
  destruct (connection_ s) as [c|] eqn:Hcur; [|eexists; split; [done | by destruct Hi; constructor]].
  destruct (cl_current _ Hi c Hcur) as (k & Hk & Hup). rewrite Hk. eexists. split; [done|]. destruct Hi as [Hn Ha Hs Hc Hcs Ht].
  constructor; cbn [connector_ alive connector_alive connection_ conns tasks set_connect set_conns]; try done.
  - intros c' Hc'. assert (c' = c) as -> by congruence. rewrite lookup_insert_eq. by eexists.
  - intros c' k' [[<- <-]|[Hne Hk']]%lookup_insert_Some; cbn [at_stage on_close]; [by apply Hcs | by apply Hcs].
  - intros t Hin. destruct (Ht t Hin) as (c' & k' & -> & Hk'). exists c'. destruct (decide (c = c')) as [<-|Hne].
    + rewrite lookup_insert_eq. by eexists.
    + rewrite lookup_insert_ne by done. by exists k'.
Qed.

Lemma perform_clinv e s : clinv s → enabled e s → ∃ s', perform e s = Ok s' ∧ clinv s'.
Proof using socket_fresh.
  intros Hi He. destruct e as [e| | |b| |]; [by apply net_ok | | by apply disconnect_ok | | by apply close_ok | by apply task_ok].
  - destruct He as [Hnone He]. cbn [TcpClient.perform]. unfold connect. change (connector_ (set_connect true s)) with (connector_ s).
    destruct (perform_cinv sys_socket socket_fresh sys_connect so_error self_connect _ _ (cl_net _ Hi) He) as (w & Hw & Hwi).
    cbn [Connector.perform] in Hw. rewrite Hw, bind_Ok. eexists. split; [done|]. apply clinv_net; [done..|]. by rewrite Hnone; intros [].
  - cbn [TcpClient.perform]. unfold stop. change (connector_ (set_connect false s)) with (connector_ s).
    destruct (perform_cinv sys_socket socket_fresh sys_connect so_error self_connect (Connector.Stop b) _ (cl_net _ Hi) I) as (w & Hw & Hwi).
    cbn [Connector.perform] in Hw. rewrite Hw, bind_Ok. eexists. split; [done|]. apply clinv_net; [done..|].
    intros Hc. injection Hw as <-. by apply (cl_connected _ Hi).
Qed.
(** ** The promises *)

Fixpoint all_enabled (evs : list event) (s : client) : Prop :=
  match evs with
  | [] => True
  | e :: evs => enabled e s ∧ ∀ s', perform e s = Ok s' → all_enabled evs s'
  end.

Lemma history_clinv evs s : clinv s → all_enabled evs s → ∃ s', foldM perform evs s = Ok s' ∧ clinv s'.
Proof using socket_fresh.
  revert s. induction evs as [|e evs IH]; intros s Hi Ha; [by exists s|]. destruct Ha as [He Ha].
  destruct (perform_clinv e s Hi He) as (s1 & H1 & Hi1). cbn [foldM]. rewrite H1, bind_Ok. apply IH; [done | by apply Ha].
Qed.

Lemma newClient_clinv lp name b :
  ok lp → event_handling_ lp = false → pending_functors_ lp = [] → clinv (set_retry b (newClient lp name)).
Proof.
  intros Hok Hh Hp. constructor; try done; cbn.
  - by apply newConnector_cinv.
  - by intros [].
  - intros t []%elem_of_nil.
Qed.


Lemma startInLoop_calls b w w' :
  Connector.startInLoop sys_socket sys_connect b w = Ok w' → Connector.connect_ (Connector.conn w) = true →
  Connector.calls w' = S (Connector.calls w).
Proof.
  unfold Connector.startInLoop, Connector.connect, Connector.connecting. intros H Hc. rewrite Hc in H.
  apply bind_Ok_inv in H as (? & _ & H). apply bind_Ok_inv in H as (? & _ & H). apply bind_Ok_inv in H as (? & _ & H).
  destruct (Connector.classify _).
  - apply bind_Ok_inv in H as (? & _ & H). apply bind_Ok_inv in H as (? & _ & H). by injection H as <-.
  - injection H as <-. unfold Connector.retry. cbn. by destruct (Connector.connect_ _).
  - by injection H as <-.
Qed.

(** What follows the end of a connection: a client that is to retry makes its next attempt to connect at once; without
    that its connector stays as if connected, and the next call of [connect] fails an assertion. *)
Theorem client_reconnects s c :
  clinv s → connection_ s = Some c → ConnectorSpec.nothing_pending (connector_ s) →
  ∃ s', perform Close s = Ok s' ∧ connection_ s' = None ∧
    if retry_ s && connect_ s
    then Connector.calls (connector_ s') = S (Connector.calls (connector_ s))
    else perform Connect s' = Fault AssertFailed.
Proof using socket_fresh.
  intros Hi Hcur Hrest. destruct (cl_current _ Hi c Hcur) as (k & Hk & _). rewrite (close_unfold s c k) by done.
  destruct (retry_ s && connect_ s).
  - destruct (perform_cinv sys_socket socket_fresh sys_connect so_error self_connect Connector.Restart (connector_ s) (cl_net _ Hi) Hrest) as (w & Hw & _).
    cbn [Connector.perform] in Hw. rewrite Hw, bind_Ok. eexists. split; [done|]. split; [done|].
    unfold Connector.restart in Hw. apply bind_Ok_inv in Hw as (_ & _ & Hw). by apply startInLoop_calls in Hw.
  - eexists. split; [done|]. split; [done|]. cbn [TcpClient.perform]. unfold connect.
    set (s1 := post _ _). change (connector_ (set_connect true s1)) with (connector_ s).
    unfold Connector.start, Connector.startInLoop. cbn [assertInLoopThread ensure]. rewrite bind_Ok.
    rewrite bool_decide_eq_false_2; [done|]. change (Connector.state_ (Connector.conn (connector_ s)) ≠ Connector.kDisconnected).
    rewrite (cl_connected _ Hi) by (by eexists). done.
Qed.

(** No client can be destroyed safely while its loop goes on.  Without a connection: while an attempt is in
    progress the connector's destructor fails its assertion, and otherwise the functor of its [stop] runs on the freed
    connector.  With one: the close callback it leaves behind passes on a reference to a local pointer of
    the connection, so that the functor that runs after the connection's end - forced at once when nobody
    else holds it - uses a destroyed object. *)
Theorem destroyed_client_faults s unique :
  clinv s →
  match connection_ s with
  | None =>
      if bool_decide (Connector.channel_ (Connector.conn (connector_ s)) = None)
      then pending_functors_ (Connector.loop_ (connector_ s)) = [] →
           ∃ s', destroyClient true unique s = Ok s' ∧ perform (Net Connector.Functor) s' = Fault UseAfterFree
      else destroyClient true unique s = Fault AssertFailed
  | Some c =>
      Connector.channel_ (Connector.conn (connector_ s)) = None → tasks s = [] →
      ∃ s', destroyClient true unique s = Ok s' ∧
        if unique then foldM perform [Task; Task] s' = Fault UseAfterFree
        else ∃ s2, close_conn sys_socket sys_connect c s' = Ok s2 ∧ perform Task s2 = Fault UseAfterFree
  end.
Proof.
  intros Hi. unfold destroyClient. destruct (connection_ s) as [c|] eqn:Hcur.
  - intros Hch Ht. destruct (cl_current _ Hi c Hcur) as (k & Hk & Hup). unfold setCloseCallback, with_conn. rewrite Hk, bind_Ok.
    set (k' := mkConnection (cname k) (at_stage k) Detached (shut k)). set (s1 := set_conns _ s).
    assert (Hclose : ∀ s0, conns s0 = conns s1 → close_conn sys_socket sys_connect c s0 = Ok (post TDangling (set_stage c k' Down s0))).
    { intros s0 Hs0. unfold close_conn, with_conn. rewrite Hs0. unfold s1. cbn [conns set_conns]. by rewrite lookup_insert_eq. }
    unfold Connector.destroyConnector. destruct unique.
    + change (connector_ (post (TForceClose c) s1)) with (connector_ s). rewrite bool_decide_eq_true_2 by done. cbn [ensure]. rewrite bind_Ok.
      eexists. split; [done|]. cbn [foldM TcpClient.perform]. change (tasks (set_alive _ _ _)) with (tasks s ++ [TForceClose c]). rewrite Ht.
      cbn [app run_task]. unfold with_conn. cbn [conns set_tasks set_alive post s1 set_conns]. rewrite lookup_insert_eq.
      rewrite decide_True by done. rewrite Hclose by done. rewrite bind_Ok. done.
    + change (connector_ s1) with (connector_ s). rewrite bool_decide_eq_true_2 by done. cbn [ensure]. rewrite bind_Ok.
      eexists. split; [done|]. rewrite Hclose by done. eexists. split; [done|]. cbn [TcpClient.perform].
      change (tasks (post _ _)) with (tasks s ++ [TDangling]). by rewrite Ht.
  - unfold Connector.stop. rewrite bind_Ok. unfold Connector.destroyConnector.
    set (w := Connector.queue _ _ _). change (Connector.channel_ (Connector.conn w)) with (Connector.channel_ (Connector.conn (connector_ s))).
    case_bool_decide as Hch; cbn [ensure]; [|done]. intros _. rewrite bind_Ok. eexists. by split.
Qed.
End Client.

(** ** Concrete clients *)
Definition demo_peer (fd : Z) : list byte := bytes "127.0.0.1:80".
Notation demo_perform := (TcpClient.TcpClient.perform free_fd in_progress no_error not_self demo_peer).

(** A client that has connected. *)
Definition connecting_events : list event := [Connect; Net (Connector.Report Connector.CbWrite); Net Connector.Functor].

Ltac run_enabled := repeat (split;
  [vm_compute; repeat split; try reflexivity; try discriminate; try (eexists; reflexivity)
  | intros s' Hs'; vm_compute in Hs'; injection Hs' as <-]); exact I.


(** The client once connected, with or without the retry. *)
Lemma connected_client retry :
  ∃ s c, clinv s ∧ connection_ s = Some c ∧ ConnectorSpec.nothing_pending (connector_ s) ∧ retry_ s = retry ∧ connect_ s = true ∧ tasks s = [].
Proof.
  destruct connector_loop as (lp & Hn & Hok & Hh & Hp).
  destruct (history_clinv free_fd free_fd_fresh in_progress no_error not_self demo_peer connecting_events
    (set_retry retry (newClient lp (bytes "cl")))) as (s & Hs & Hi).
  - by apply newClient_clinv.
  - clear Hok Hh Hp. vm_compute in Hn. injection Hn as <-. run_enabled.
  - exists s, 1%positive. split; [done|]. clear Hok Hh Hp Hi. vm_compute in Hn. injection Hn as <-. vm_compute in Hs. injection Hs as <-.
    repeat split.
Qed.

Lemma client_reconnects_witness :
  ∃ s s', is_Some (connection_ s) ∧ demo_perform Close s = Ok s' ∧ demo_perform Connect s' = Fault AssertFailed.
Proof.
  destruct (connected_client false) as (s & c & Hi & Hc & Hrest & Hr & _).
  destruct (client_reconnects free_fd free_fd_fresh in_progress no_error not_self demo_peer s c Hi Hc Hrest) as (s' & Hcl & _ & Hcon).
  rewrite Hr in Hcon. exists s, s'. by rewrite Hc.
Defined.

Lemma destroyed_client_faults_witness :
  ∃ s s', is_Some (connection_ s) ∧ destroyClient true true s = Ok s' ∧ foldM demo_perform [Task; Task] s' = Fault UseAfterFree.
Proof.
  destruct (connected_client false) as (s & c & Hi & Hc & (Hch & _ & _) & _ & _ & Ht).
  pose proof (destroyed_client_faults free_fd in_progress no_error not_self demo_peer s true Hi) as H. rewrite Hc in H.
  destruct (H Hch Ht) as (s' & Hd & Hf). exists s, s'. by rewrite Hc.
Defined.
