(* ===== verification/ConnectionFrame.v ===== *)
(** * What the operations of a connection leave alone

    Whether or not they succeed where they should (that is [TcpConnectionSpec]'s business), the operations touch neither the
    [event_handling_] flags of the loop and its channels, which are the dispatcher's, nor, but for
    [handleClose], whether the connection is down and how often its close callback has run. *)
From stdpp Require Import base list gmap numbers.
From Stdlib Require Import ZArith Lia Init.Byte.
From S2P Require Import Prelude.
From S2P Require Import ByteBuffer.
From S2P Require Import Channel.
From S2P Require Import Poller.
From S2P Require Import EventLoop.
From S2P Require Import TcpConnection.
From S2P Require Import TcpConnectionSpec.
Import EventLoop.EventLoop TcpConnection.TcpConnection.
#[local] Open Scope Z_scope.
#[local] Open Scope fm_scope.

(** ** The flags of a loop *)
Section Flags.
Context {F CB : Type}.
Implicit Types (lp : EventLoop F CB) (c : Channel CB) (l : loc).

Definition handling (h : gmap loc (Channel CB)) : gmap loc bool := Channel.event_handling_ <$> h.
Definition flags lp : bool * gmap loc bool := (event_handling_ lp, handling (channels lp)).

Lemma handling_insert h l c c' :
  h !! l = Some c → Channel.event_handling_ c' = Channel.event_handling_ c → handling (<[l := c']> h) = handling h.
Proof. intros Hl Hc. unfold handling. rewrite fmap_insert, Hc. apply insert_id. by rewrite lookup_fmap, Hl. Qed.

Lemma deref_inv l (h : gmap loc (Channel CB)) c : Epoller.deref l h = Ok c → h !! l = Some c.
Proof. unfold Epoller.deref. destruct (h !! l); [congruence | discriminate]. Qed.

Lemma poller_update_flags inLoop l h ep h' ep' :
  Epoller.updateChannel inLoop l h ep = Ok (h', ep') → handling h' = handling h.
Proof.
  unfold Epoller.updateChannel. intros Hu. apply bind_Ok_inv in Hu as (_ & _ & Hu). apply bind_Ok_inv in Hu as (c & Hc%deref_inv & Hu).
  cbv zeta in Hu. destruct (_ || _); [|destruct (Channel.isNoneEvent c)]; inv_ok; try done; by eapply handling_insert.
Qed.

Lemma poller_remove_flags inLoop l h ep h' ep' :
  Epoller.removeChannel inLoop l h ep = Ok (h', ep') → handling h' = handling h.
Proof.
  unfold Epoller.removeChannel. intros Hu. apply bind_Ok_inv in Hu as (_ & _ & Hu). apply bind_Ok_inv in Hu as (c & Hc%deref_inv & Hu).
  cbv zeta in Hu. inv_ok. by eapply handling_insert.
Qed.

Lemma change_flags inLoop i l lp lp' : change inLoop i l lp = Ok lp' → flags lp' = flags lp.
Proof.
  unfold change, update, updateChannel, getChannel. intros Hc. apply bind_Ok_inv in Hc as (c & Hl%deref_inv & Hc).
  apply bind_Ok_inv in Hc as (c1 & Hl1%deref_inv & Hc). apply bind_Ok_inv in Hc as (_ & _ & Hc). apply bind_Ok_inv in Hc as ([h ep] & Hu & Hc).
  injection Hc as <-. apply poller_update_flags in Hu. unfold flags. cbn [channels set_poller event_handling_] in *. f_equal.
  rewrite Hu. rewrite (handling_insert _ l c1) by done. by rewrite (handling_insert _ l c).
Qed.

Lemma remove_flags inLoop l lp lp' : remove inLoop l lp = Ok lp' → flags lp' = flags lp.
Proof.
  unfold remove, removeChannel, getChannel. intros Hc. apply bind_Ok_inv in Hc as (c & Hl%deref_inv & Hc).
  apply bind_Ok_inv in Hc as (_ & _ & Hc). apply bind_Ok_inv in Hc as (_ & _ & Hc). apply bind_Ok_inv in Hc as (_ & _ & Hc).
  apply bind_Ok_inv in Hc as ([h ep] & Hu & Hc).
  injection Hc as <-. apply poller_remove_flags in Hu. unfold flags. cbn [channels set_poller event_handling_] in *. f_equal.
  by rewrite Hu, (handling_insert _ l c).
Qed.

Lemma wakeup_flags lp : flags (wakeup lp) = flags lp.
Proof. unfold wakeup. by case_match. Qed.
Lemma queue_flags inLoop f lp : flags (queueInLoop inLoop f lp) = flags lp.
Proof. unfold queueInLoop, queueInLoop_rest. cbv zeta. case_match; by rewrite ?wakeup_flags. Qed.
Lemma quit_flags inLoop lp : flags (quit inLoop lp) = flags lp.
Proof. unfold quit, quit_rest. case_match; by rewrite ?wakeup_flags. Qed.

(** Nobody is in the middle of dispatching events. *)
Definition at_rest lp : Prop := event_handling_ lp = false ∧ ∀ l c, channels lp !! l = Some c → Channel.event_handling_ c = false.

Lemma flags_at_rest lp lp' : flags lp' = flags lp → at_rest lp → at_rest lp'.
Proof.
  intros [= He Hh] [Hr Hc]. split; [congruence|]. intros l c Hl.
  assert (Hf : handling (channels lp') !! l = Some (Channel.event_handling_ c)) by (unfold handling; by rewrite lookup_fmap, Hl).
  rewrite Hh in Hf. unfold handling in Hf. rewrite lookup_fmap in Hf. destruct (channels lp !! l) as [c0|] eqn:Hc0; [|done].
  injection Hf as <-. by apply (Hc l).
Qed.
End Flags.

(** ** Connections *)

Record untouched (w w' : world) : Prop := {
  un_flags : flags (loop_ w') = flags (loop_ w);
  un_down : state_ (conn w') = kDisconnected ↔ state_ (conn w) = kDisconnected;
  un_start : state_ (conn w') = kConnecting ↔ state_ (conn w) = kConnecting;
  un_closed : closed_calls w' = closed_calls w
}.

#[export] Instance untouched_preorder : PreOrder untouched.
Proof.
  split; [by constructor|]. intros w1 w2 w3 [H1 H2 H3 H4] [G1 G2 G3 G4]. constructor; [congruence | by rewrite G2 | by rewrite G3 | congruence].
Qed.

(** Where it succeeds, the operation leaves alone what is not its own. *)
Definition leaves (op : result world) (w : world) : Prop := ∀ w', op = Ok w' → untouched w w'.

Lemma leaves_Ok w w' : untouched w w' → leaves (Ok w') w.
Proof. by intros Hu ? [= <-]. Qed.
Lemma leaves_Fault f w : leaves (Fault f) w.
Proof. by intros ?. Qed.
Lemma leaves_value {A} (c : result A) k w : (∀ a, c = Ok a → leaves (k a) w) → leaves (c ≫= k) w.
Proof. intros Hk w' H. apply bind_Ok_inv in H as (a & Ha & H). by apply (Hk a Ha). Qed.
Lemma leaves_seq (c : result world) k w : leaves c w → (∀ w1, leaves (k w1) w1) → leaves (c ≫= k) w.
Proof. intros Hc Hk w' H. apply bind_Ok_inv in H as (w1 & Hw & H). etrans; [by apply Hc | by apply Hk]. Qed.
Lemma leaves_from w w1 op : untouched w w1 → leaves op w1 → leaves op w.
Proof. intros Hu Ho w' Hw. etrans; [exact Hu | by apply Ho]. Qed.

Lemma change_channel_leaves i w : leaves (change_channel i w) w.
Proof. apply leaves_value. intros lp Hc. apply leaves_Ok. constructor; try done. exact (change_flags _ _ _ _ _ Hc). Qed.

Lemma queue_untouched inLoop f w : untouched w (queue inLoop f w).
Proof. constructor; try done. exact (queue_flags _ _ _). Qed.

(** Members other than the loop, the state and the count. *)
Lemma same_members w w' :
  loop_ w' = loop_ w → state_ (conn w') = state_ (conn w) → closed_calls w' = closed_calls w → untouched w w'.
Proof. intros Hl Hs Hc. constructor; [by rewrite Hl | by rewrite Hs.. | done]. Qed.

(** The operations are built from these. *)
Ltac leaves_step :=
  match goal with
  | |- leaves (Ok ?w) ?w => by apply leaves_Ok
  | |- leaves (Ok _) _ => apply leaves_Ok; first [by apply same_members | apply queue_untouched]
  | |- leaves (Fault _) _ => apply leaves_Fault
  | |- leaves (change_channel _ _) _ => apply change_channel_leaves
  | |- leaves (mbind (M := result) (A := world) _ _) _ => apply leaves_seq; [|intros ?]
  | |- leaves (mbind _ _) _ => apply leaves_value; intros ? ?
  | |- leaves (if ?b then _ else _) _ => destruct b
  | |- leaves (match ?x with _ => _ end) _ => destruct x
  | |- leaves (let _ := _ in _) _ => cbv zeta
  end.
Ltac leaves_all := repeat leaves_step.

Section Operations.
Variable sys_write : nat → list byte → write_outcome.

Lemma write_untouched data w : untouched w (snd (write sys_write data w)).
Proof. by apply same_members. Qed.

Lemma direct_write_untouched inLoop msg w : untouched w (snd (direct_write sys_write inLoop msg w)).
Proof.
  unfold direct_write. pose proof (write_untouched msg w) as Hw. destruct (write sys_write msg w) as [[n|e] w1]; cbn [snd] in *; [|done].
  case_match; [|done]. etrans; [exact Hw | apply queue_untouched].
Qed.

(** The second half of [sendInLoop]. *)
Lemma keep_leaves remaining kept w : leaves (keep remaining kept w) w.
Proof.
  unfold keep. cbv zeta. set (w1 := if (_ : bool) then _ else _).
  assert (Hw : untouched w w1) by (unfold w1; case_match; [apply queue_untouched | done]). clearbody w1.
  apply leaves_value. intros o _. apply (leaves_from _ (set_conn (set_output o (conn w1)) w1)); [|by leaves_all].
  etrans; [exact Hw | by apply same_members].
Qed.

Lemma sendInLoop_leaves inLoop msg w : leaves (sendInLoop sys_write inLoop msg w) w.
Proof.
  unfold sendInLoop. destruct inLoop; [|by apply leaves_Fault]. apply leaves_value. intros _ _. case_decide; [by leaves_all|]. apply leaves_value. intros c _.
  assert (Ho : ∀ d, match d with (n, remaining, fault, w1) => untouched w w1 end →
    leaves (let '(nwrote, remaining, faultError, w) := d in
      assert! (remaining <=? zlen msg);
      if negb faultError && (0 <? remaining) then keep remaining (zslice nwrote (nwrote + remaining) msg) w else Ok w) w).
  { intros [[[n r] f] w1] Hw. apply (leaves_from _ w1); [done|]. apply leaves_value. intros _ _.
    destruct (_ && _); [apply keep_leaves | by leaves_all]. }
  apply (Ho (if _ : bool then _ else _)). destruct (_ && _); [|done]. pose proof (direct_write_untouched true msg w) as Hd.
  by destruct (direct_write sys_write true msg w) as [[[??]?]?].
Qed.

Lemma send_leaves inLoop msg w : leaves (send sys_write inLoop msg w) w.
Proof. unfold send. leaves_all. apply sendInLoop_leaves. Qed.

Lemma send_bytes_leaves inLoop tmp data w : leaves (send_bytes sys_write inLoop tmp data w) w.
Proof.
  unfold send_bytes. apply leaves_value. intros _ _. apply (leaves_from _ (set_strings (<[tmp := data]> (strings w)) w)); [by apply same_members|].
  apply leaves_seq; [apply send_leaves|]. intros w1. leaves_all.
Qed.

Lemma put_buffer_untouched b buf w : untouched w (put_buffer b buf w).
Proof. destruct b; by apply same_members. Qed.

Lemma send_buffer_leaves inLoop b w : leaves (send_buffer sys_write inLoop b w) w.
Proof.
  unfold send_buffer. case_decide; [|by leaves_all]. destruct inLoop; [|by leaves_all]. destruct (get_buffer b w) as [buf|]; [|by leaves_all].
  apply leaves_value. intros data _. apply leaves_seq; [apply sendInLoop_leaves|]. intros w1. apply leaves_Ok, put_buffer_untouched.
Qed.

Lemma shutdownInLoop_leaves inLoop w : leaves (shutdownInLoop inLoop w) w.
Proof. unfold shutdownInLoop. leaves_all. Qed.

(** From a state that is up to another one that is up. *)
Lemma setState_untouched s w :
  s = kConnected ∨ s = kDisconnecting → state_ (conn w) = kConnected ∨ state_ (conn w) = kDisconnecting →
  untouched w (set_conn (setState s (conn w)) w).
Proof. intros Hs Hw. constructor; try done; cbn; destruct Hs, Hw; split; congruence. Qed.

Lemma shutdown_leaves inLoop w : leaves (shutdown inLoop w) w.
Proof.
  unfold shutdown. case_decide as Hs; [|by leaves_all]. cbv zeta. eapply leaves_from; [apply (setState_untouched kDisconnecting); auto|].
  leaves_all. apply shutdownInLoop_leaves.
Qed.

Lemma forceClose_leaves inLoop w : leaves (forceClose inLoop w) w.
Proof.
  unfold forceClose. case_decide as Hs; [|by leaves_all]. apply leaves_Ok.
  etrans; [apply (setState_untouched kDisconnecting); auto | apply queue_untouched].
Qed.

Lemma forceCloseWithDelay_leaves w : leaves (forceCloseWithDelay w) w.
Proof. unfold forceCloseWithDelay. case_decide as Hs; [|by leaves_all]. apply leaves_Ok, setState_untouched; auto. Qed.

Lemma startReadInLoop_leaves inLoop w : leaves (startReadInLoop inLoop w) w.
Proof. unfold startReadInLoop. leaves_all. Qed.
Lemma stopReadInLoop_leaves inLoop w : leaves (stopReadInLoop inLoop w) w.
Proof. unfold stopReadInLoop. leaves_all. Qed.

Lemma exec_call_leaves inLoop a w : leaves (exec_call sys_write inLoop a w) w.
Proof.
  destruct a; cbn [exec_call]; [apply send_bytes_leaves | apply send_leaves | apply send_buffer_leaves | apply shutdown_leaves
    | apply forceClose_leaves | apply forceCloseWithDelay_leaves | | | by leaves_all | by leaves_all |].
  - unfold startRead. leaves_all. apply startReadInLoop_leaves.
  - unfold stopRead. leaves_all. apply stopReadInLoop_leaves.
  - apply leaves_Ok. constructor; try done. exact (quit_flags _ _).
Qed.

Variable behaviour : user_event → world → list user_call.
Variable sys_readv : nat → Buffer.readv_outcome.

Lemma user_leaves e w : leaves (user sys_write behaviour e w) w.
Proof.
  unfold user. generalize (behaviour e w) as l. intros l. revert w. induction l as [|a l IH]; intros w; cbn [foldM]; [by leaves_all|].
  apply leaves_seq; [apply exec_call_leaves | done].
Qed.

Lemma handleWrite_leaves inLoop w : leaves (handleWrite sys_write inLoop w) w.
Proof.
  unfold handleWrite. apply leaves_value. intros _ _. apply leaves_value. intros c _. destruct (Channel.isWriting c); [|by leaves_all].
  apply leaves_value. intros data _. pose proof (write_untouched data w) as Hw. destruct (write sys_write data w) as [[n|e] w1]; cbn [snd] in Hw; [|by apply leaves_Ok].
  apply (leaves_from _ w1); [done|]. destruct (0 <? n); [|by leaves_all]. apply leaves_value. intros o _. cbv zeta.
  apply (leaves_from _ (set_conn (set_output o (conn w1)) w1)); [by apply same_members|]. destruct (_ =? 0); [|by leaves_all].
  apply leaves_seq; [apply change_channel_leaves|]. intros w2. set (w3 := if _ : bool then _ else _).
  apply (leaves_from _ w3); [unfold w3; case_match; [apply queue_untouched | done]|]. leaves_all. apply shutdownInLoop_leaves.
Qed.
End Operations.

(** ** A whole event *)
Section Events.
Variable sys_write : nat → list byte → write_outcome.
Variable behaviour : user_event → world → list user_call.
Variable sys_readv : nat → Buffer.readv_outcome.

(** Either the event leaves all that alone, or it took a connection that was up down and reported it. *)
Definition went_down (w w' : world) : Prop :=
  flags (loop_ w') = flags (loop_ w) ∧ (state_ (conn w) ≠ kDisconnected ∧ state_ (conn w) ≠ kConnecting) ∧ state_ (conn w') = kDisconnected ∧ closed_calls w' = S (closed_calls w).
Definition turns (w w' : world) : Prop := untouched w w' ∨ went_down w w'.

Lemma turns_from w w1 w' : untouched w w1 → turns w1 w' → turns w w'.
Proof.
  intros Hu [H|(H1 & [H2 H2'] & H3 & H4)]; [left; by etrans | right]. destruct Hu as [Hf Hd Hs Hc].
  split_and!; [congruence | by rewrite <- Hd | by rewrite <- Hs | done | congruence].
Qed.

Lemma handleClose_turns inLoop w w' : handleClose sys_write behaviour inLoop w = Ok w' → went_down w w'.
Proof.
  unfold handleClose. intros H. apply bind_Ok_inv in H as (_ & _ & H). apply bind_Ok_inv in H as ([] & Hs & H).
  apply ensure_Ok_inv, bool_decide_eq_true in Hs. apply bind_Ok_inv in H as (w1 & H1 & H). apply bind_Ok_inv in H as (w2 & H2 & H).
  injection H as <-. apply change_channel_leaves in H1 as [Hf1 Hd1 _ Hc1]. apply user_leaves in H2 as [Hf2 Hd2 _ Hc2].
  unfold went_down, close_callback. cbn [loop_ set_conn conn closed_calls] in *.
  split_and!; [congruence | destruct Hs; congruence.. | by apply Hd2, Hd1 | congruence].
Qed.

Lemma connectEstablished_flags inLoop self w w' :
  connectEstablished sys_write behaviour inLoop self w = Ok w' → flags (loop_ w') = flags (loop_ w).
Proof.
  unfold connectEstablished. intros H. apply bind_Ok_inv in H as (_ & _ & H). apply bind_Ok_inv in H as (_ & _ & H). cbv zeta in H.
  apply bind_Ok_inv in H as (c & Hc%deref_inv & H). apply bind_Ok_inv in H as (w1 & H1 & H).
  apply change_channel_leaves in H1 as [H1 _ _ _]. apply user_leaves in H as [H _ _ _]. rewrite H, H1. unfold on_loop, flags.
  cbn [loop_ with_loop world_HasLoop channels set_poller event_handling_ loop_of] in *. f_equal. by apply (handling_insert _ _ c).
Qed.

Lemma handleRead_turns inLoop t w w' : handleRead sys_write sys_readv behaviour inLoop t w = Ok w' → turns w w'.
Proof.
  unfold handleRead. intros H. apply bind_Ok_inv in H as (_ & _ & H). apply bind_Ok_inv in H as ([[n e] input] & _ & H). cbv zeta in H.
  set (w1 := mkWorld _ _ _ _ _ _ _ _) in H. apply (turns_from _ w1); [by apply same_members|].
  destruct (0 <? n); [left; by eapply user_leaves|]. destruct (n =? 0); [right; by eapply handleClose_turns|]. injection H as <-. by left.
Qed.

Lemma run_functor_turns f w w' :
  f ≠ FConnectDestroyed → run_functor sys_write behaviour f w = Ok w' → turns w w'.
Proof.
  assert (Hl : ∀ op, leaves op w → op = Ok w' → turns w w') by (intros op Ho Hw; left; by apply Ho).
  destruct f as [msg|b| |n| | | | |]; intros Hf; cbn [run_functor]; try done.
  - apply Hl, send_leaves.
  - apply Hl. destruct (get_buffer b w) as [buf|]; [|by apply leaves_Fault]. apply leaves_value. intros [data buf'] _. cbv zeta.
    apply (leaves_from _ (put_buffer b buf' w)); [apply put_buffer_untouched|]. case_decide; [apply sendInLoop_leaves | by apply leaves_Ok].
  - apply Hl, user_leaves.
  - apply Hl, user_leaves.
  - apply Hl, shutdownInLoop_leaves.
  - unfold forceCloseInLoop. intros H. apply bind_Ok_inv in H as (_ & _ & H). case_decide; [right; by eapply handleClose_turns|].
    injection H as <-. by left.
  - apply Hl, startReadInLoop_leaves.
  - apply Hl, stopReadInLoop_leaves.
Qed.

Lemma perform_turns e w w' :
  FConnectDestroyed ∉ pending_functors_ (loop_ w) → (∀ self, e ≠ Establish self) →
  perform sys_write behaviour sys_readv e w = Ok w' → turns w w'.
Proof.
  intros Hn He. destruct e as [self|[] t| |inLoop a]; cbn [perform run_callback].
  - by destruct (He self).
  - apply handleRead_turns.
  - intros H. left. by eapply handleWrite_leaves.
  - intros H. right. by eapply handleClose_turns.
  - intros [= <-]. by left.
  - destruct (pending_functors_ (loop_ w)) as [|f rest] eqn:Hp; [intros [= <-]; by left|]. intros H.
    apply (turns_from _ (on_loop (set_pending rest) w)); [by constructor|]. eapply run_functor_turns; [|exact H]. set_solver.
  - intros H. left. by eapply exec_call_leaves.
Qed.

(** Taking a connection apart, too, is no dispatching. *)
Lemma connectDestroyed_flags inLoop w w' : connectDestroyed sys_write behaviour inLoop w = Ok w' → flags (loop_ w') = flags (loop_ w).
Proof.
  unfold connectDestroyed. intros H. apply bind_Ok_inv in H as (_ & _ & H). apply bind_Ok_inv in H as (w1 & H1 & H).
  apply bind_Ok_inv in H as (lp & H2 & H). injection H as <-. apply remove_flags in H2. cbn [loop_ with_loop world_HasLoop]. rewrite H2.
  case_decide; [|by injection H1 as <-]. apply bind_Ok_inv in H1 as (w2 & H0 & H1).
  apply change_channel_leaves in H0 as [H0 _ _ _]. apply user_leaves in H1 as [H1 _ _ _]. rewrite H1, H0. done.
Qed.
End Events.

(** A queue that fits its connection has no [connectDestroyed] in it. *)
Lemma fitting_queue w : cinv w → FConnectDestroyed ∉ pending_functors_ (loop_ w).
Proof. intros Hi Hin. pose proof (ci_pending _ Hi) as Hp. rewrite Forall_forall in Hp. apply list_elem_of_In in Hin. by apply (Hp _ Hin). Qed.
