(* ===== verification/ConnectionLife.v ===== *)
(** * The life of a connection

    A connection starts, is up, and is over; an event leaves it where it is or, when it is up, brings it to its end and tells the
    owner ([lives_on]).  For the owners of connections, [TcpService] and [TcpClientService]. *)
From stdpp Require Import base list gmap numbers strings.
From Stdlib Require Import ZArith Lia Init.Byte.
From S2P Require Import Prelude.
From S2P Require Import ByteBuffer.
From S2P Require Import Channel.
From S2P Require Import Poller.
From S2P Require Import EventLoop.
From S2P Require Import EventLoopSpec.
From S2P Require Import TcpConnection.
From S2P Require Import TcpConnectionSpec.
From S2P Require Import ConnectionTheorems.
From S2P Require Import ConnectionFrame.
Import TcpConnection.TcpConnection.
#[local] Open Scope Z_scope.
#[local] Open Scope fm_scope.

(** Before it is established, while it is up, after its end. *)
Inductive phase := Starting | Running | Over.

Definition life (s : StateE) : phase :=
  match s with
  | kConnecting => Starting
  | kConnected | kDisconnecting => Running
  | kDisconnected => Over
  end.

Lemma running s : life s = Running ↔ s = kConnected ∨ s = kDisconnecting.
Proof. destruct s; simpl; naive_solver. Qed.

Lemma untouched_life w w' : untouched w w' → life (state_ (conn w')) = life (state_ (conn w)).
Proof.
  intros [_ Hd Hs _]. destruct (state_ (conn w)); [rewrite (proj2 Hd) by done | rewrite (proj2 Hs) by done | |]; try done;
    by destruct (state_ (conn w')); [destruct Hd as [Hd _]; by discriminate Hd | destruct Hs as [Hs _]; by discriminate Hs | |].
Qed.

(** In order, and nobody is dispatching its events. *)
Definition healthy (w : world) : Prop := cinv w ∧ at_rest (loop_ w).

Section Connection.
Variable sys_write : nat → list byte → write_outcome.
Hypothesis write_bounded : ∀ n d k, sys_write n d = Wrote k → 0 ≤ k ≤ zlen d.
Variable sys_readv : nat → Buffer.readv_outcome.
Variable behaviour : user_event → world → list user_call.
Hypothesis behaviour_allowed : ∀ e w a, a ∈ behaviour e w → allowed a w.

Lemma established w self :
  healthy w → life (state_ (conn w)) = Starting →
  fine (λ w', healthy w' ∧ life (state_ (conn w')) = Running) (connectEstablished sys_write behaviour true self w).
Proof using write_bounded behaviour_allowed.
  intros [Hi Hr] Hl. assert (Hs : state_ (conn w) = kConnecting) by by destruct (state_ (conn w)).
  destruct (establish_ok sys_write write_bounded behaviour self w Hi Hs) as (w1 & [Hi1 _] & _ & Hs1 & _ & He). rewrite He.
  assert (Hf : fine (good_quiet w1) (user sys_write behaviour OnConnection w1)) by by apply user_ok.
  destruct (user sys_write behaviour OnConnection w1) as [w'|f] eqn:Hu; [|done]. destruct Hf as (Hi' & _ & _). cbn [fine].
  split; [split; [done|]|].
  - eapply flags_at_rest; [eapply connectEstablished_flags; by rewrite He | done].
  - apply user_leaves in Hu. by rewrite (untouched_life _ _ Hu), Hs1.
Qed.

(** An event: the connection stays where it is in its life, or it was up and has reported its end. *)
Lemma lives_on e w :
  healthy w → enabled sys_readv e w → (∀ self, e ≠ Establish self) →
  fine (λ w', healthy w' ∧
    (closed_calls w' = closed_calls w ∧ life (state_ (conn w')) = life (state_ (conn w)) ∨
     closed_calls w' ≠ closed_calls w ∧ life (state_ (conn w)) = Running ∧ life (state_ (conn w')) = Over))
    (perform sys_write behaviour sys_readv e w).
Proof using All.
  intros [Hi Hr] He Hne.
  assert (Hf : fine (good w) (perform sys_write behaviour sys_readv e w)) by by apply perform_ok.
  destruct (perform sys_write behaviour sys_readv e w) as [w'|f] eqn:Hp; [|done]. destruct Hf as [Hi' _]. cbn [fine].
  apply perform_turns in Hp as [Hu|(Hf & Hs & Hd & Hc)]; [| |by apply fitting_queue | done].
  - split; [split; [done | by eapply flags_at_rest; [apply Hu|]]|]. left. split; [apply Hu | by apply untouched_life].
  - split; [split; [done | by eapply flags_at_rest]|]. right. split; [lia|]. rewrite Hd. split; [|done]. by destruct (state_ (conn w)), Hs.
Qed.
End Connection.

(** A new connection on a loop at rest. *)
Lemma born name fd l wc hw lp :
  clean_loop l fd lp → at_rest lp →
  ∃ w, newConnection name fd l wc hw lp = Ok w ∧ healthy w ∧ life (state_ (conn w)) = Starting.
Proof.
  intros [H1 H2 H3 H4] [Hr1 Hr2]. destruct (newConnection name fd l wc hw lp) as [w|f] eqn:Hw.
  - exists w. split; [done|]. destruct (newConnection_cinv _ _ _ _ _ _ _ H1 H2 H3 H4 Hw) as (Hci & Hst & _). rewrite Hst.
    split; [split; [done|] | done]. unfold newConnection in Hw. apply bind_Ok_inv in Hw as (b1 & _ & Hw). apply bind_Ok_inv in Hw as (b2 & _ & Hw).
    injection Hw as <-. split; [done|]. intros l' c' Hl. unfold EventLoop.addChannel in Hl.
    cbn [loop_ EventLoop.channels EventLoop.set_poller] in Hl. apply lookup_insert_Some in Hl as [[<- <-]|[_ Hl]]; [done | by eapply Hr2].
  - unfold newConnection in Hw. by destruct (Buffer.new Buffer.kInitialSize) eqn:Hb; [|vm_compute in Hb].
Qed.

(** The loop of the demonstrations is at rest. *)
Lemma demo_loop_rest lp : demo_loop = Ok lp → at_rest lp.
Proof.
  unfold demo_loop, EventLoop.newLoop. intros H. apply bind_Ok_inv in H as (ep & _ & H). apply bind_Ok_inv in H as (_ & _ & H).
  apply bind_Ok_inv in H as (_ & _ & H). cbv zeta in H. apply bind_Ok_inv in H as (c & Hc%deref_inv & H).
  cbn [EventLoop.channels] in Hc. apply lookup_singleton_Some in Hc as [_ <-].
  eapply flags_at_rest; [exact (change_flags _ _ _ _ _ H)|]. split; [done|]. intros l c' Hl. unfold EventLoop.addChannel in Hl.
  cbn [EventLoop.channels EventLoop.set_poller] in Hl. apply lookup_insert_Some in Hl as [[_ <-]|[_ Hl]]; [done|].
  by apply lookup_singleton_Some in Hl as [_ <-].
Qed.
