(* ===== verification/ConnectionRefs.v ===== *)
(** * Who keeps a connection alive

    A [TcpConnection] is destroyed with its last [std::shared_ptr]: the owner's (the server's map, the client's member), which the
    functor [connectDestroyed] takes over, those of users, and those that the functors of [forceClose] and of the callbacks capture with
    [shared_from_this].  The functors of [send], [shutdown], [startRead] and [stopRead] capture a bare [this].  Here the references are
    counted: what may still be called once the connection is closed ([late_call]), that a connection whose users wait for their
    functors is destroyed once, after its last use ([references_safe]), and what happens when they do not ([late_functor_dangles],
    [stopRead_after_destroyed]). *)
From stdpp Require Import base list gmap numbers strings.
From Stdlib Require Import ZArith Lia Init.Byte.
From S2P Require Import Prelude.
From S2P Require Import ByteBuffer.
From S2P Require Import Channel.
From S2P Require Import Poller.
From S2P Require Import EventLoop.
From S2P Require Import TcpConnection.
From S2P Require Import TcpConnectionSpec.
From S2P Require Import ConnectionTheorems.
From S2P Require Import ConnectionFrame.
From S2P Require Import ConnectionLife.
Import EventLoop.EventLoop TcpConnection.TcpConnection.
#[local] Open Scope Z_scope.
#[local] Open Scope fm_scope.

(** ** The references *)

(** The owner holds it; it has posted [connectDestroyed], with so many functors in front of it; that has run; the object is gone. *)
Inductive place := Owned | Leaving (ahead : nat) | Removed | Freed.

(** [src/include/libfm/fmnet/TcpConnection.h:26-26 TcpConnection : std::enable_shared_from_this] The connection, where it is, and how many references
    users hold. *)
Record held := mkHeld {
  it : world;
  at_ : place;
  holders : nat
}.

(** [src/net/TcpConnection.cpp:161-161 TcpConnection::forceClose (its capture)] Whether a functor keeps the connection alive, by what its lambda captures;
    [FConnectDestroyed] is counted in [Leaving]. *)
Definition owns (f : functor) : bool :=
  match f with
  | FWriteComplete | FHighWaterMark _ | FForceCloseInLoop | FConnectDestroyed => true
  | FSendString _ | FSendBuffer _ | FShutdownInLoop | FStartReadInLoop | FStopReadInLoop => false
  end.

Section Machine.
Variable sys_write : nat → list byte → write_outcome.
Variable sys_readv : nat → Buffer.readv_outcome.
Variable behaviour : user_event → world → list user_call.

#[local] Notation perform := (perform sys_write behaviour sys_readv).

(** [src/net/TcpServer.cpp:107-107 TcpServer::removeConnectionInLoop (its functor)] The destructor runs where the last reference goes. *)
Definition settle (inLoop : bool) (h : held) : result held :=
  match at_ h with
  | Removed =>
      if (holders h =? 0)%nat && forallb (fun f => negb (owns f)) (pending_functors_ (loop_ (it h)))
      then w ← destroyConnection inLoop (it h); Ok (mkHeld w Freed 0)
      else Ok h
  | _ => Ok h
  end.

Inductive ref_event :=
  | Happens (e : event)                (** on the connection *)
  | Posts (f : functor)                (** the second half of a call from another thread, whose test of the state came earlier *)
  | OwnerLets                          (** [removeConnection]: the owner's reference goes into the functor *)
  | DestroyedRuns                      (** the loop runs that functor *)
  | Shares                             (** a user copies the pointer *)
  | Releases (inLoop : bool).          (** a user drops his *)

Definition ref_step (e : ref_event) (h : held) : result held :=
  match e with
  | Happens Functor =>
      match at_ h with
      | Freed => if pending_functors_ (loop_ (it h)) is [] then Ok h else Fault UseAfterFree
      | p => w ← perform Functor (it h);
             settle true (mkHeld w (match p with Leaving n => Leaving (n - 1) | _ => p end) (holders h))
      end
  | Happens e =>
      match at_ h with
      | Freed => Fault UseAfterFree
      | p => w ← perform e (it h); Ok (mkHeld w p (holders h))
      end
  | Posts f =>
      match at_ h with
      | Freed => Fault UseAfterFree
      | p => Ok (mkHeld (queue false f (it h)) p (holders h))
      end
  | OwnerLets => Ok (mkHeld (it h) (Leaving (length (pending_functors_ (loop_ (it h))))) (holders h))
  | DestroyedRuns => w ← connectDestroyed sys_write behaviour true (it h); settle true (mkHeld w Removed (holders h))
  | Shares => Ok (mkHeld (it h) (at_ h) (S (holders h)))
  | Releases inLoop => settle inLoop (mkHeld (it h) (at_ h) (holders h - 1))
  end.
End Machine.

(** ** A connection that is closed *)

(** What a holder may still call: anything that does not concern reading. *)
Definition late_call (a : user_call) : Prop :=
  match a with UStartRead | UStopRead => False | _ => True end.

(** The buffers that a call can reach are in order. *)
Definition all_wf (w : world) : Prop := ∀ r b, get_buffer r w = Some b → Buffer.wf b.

(** What calls on a closed connection leave alone. *)
Record calm (w w' : world) : Prop := {
  ca_channels : channels (loop_ w') = channels (loop_ w);
  ca_poller : poller_ (loop_ w') = poller_ (loop_ w);
  ca_pending : pending_functors_ (loop_ w') = pending_functors_ (loop_ w);
  ca_handling : event_handling_ (loop_ w') = event_handling_ (loop_ w);
  ca_state : state_ (conn w') = state_ (conn w);
  ca_channel : channel_ (conn w') = channel_ (conn w);
  ca_wf : all_wf w → all_wf w';
  ca_buffers : dom (buffers w') = dom (buffers w);
  ca_written : written w' = written w;
  ca_closed : closed_calls w' = closed_calls w
}.

#[export] Instance calm_preorder : PreOrder calm.
Proof.
  split; [by intros w; constructor|]. intros w1 w2 w3 [] []. constructor; try (etrans; eassumption). auto.
Qed.

Lemma calm_same w w' :
  loop_ w' = loop_ w → conn w' = conn w → buffers w' = buffers w → written w' = written w → closed_calls w' = closed_calls w → calm w w'.
Proof.
  intros H1 H2 H3 H4 H5. constructor; rewrite ?H1, ?H2, ?H3; try done. intros Hwf [r|] b; cbn; [rewrite H3; apply (Hwf (UserBuffer r))|].
  rewrite H2. apply (Hwf InputBuffer).
Qed.

Lemma quit_calm inLoop w : calm w (on_loop (quit inLoop) w).
Proof.
  constructor; try done; cbn [on_loop with_loop world_HasLoop loop_of loop_]; unfold quit, quit_rest, wakeup; by repeat case_match.
Qed.

Lemma put_buffer_calm r b w : is_Some (get_buffer r w) → Buffer.wf b → calm w (put_buffer r b w).
Proof.
  intros Hr Hb. constructor; try by destruct r.
  - intros Hwf r' b'. destruct r as [p|], r' as [p'|]; cbn.
    + intros [[<- <-]|[_ Hp]]%lookup_insert_Some; [done | by apply (Hwf (UserBuffer p'))].
    + apply (Hwf InputBuffer).
    + apply (Hwf (UserBuffer p')).
    + by intros [= <-].
  - destruct r as [p|]; [|done]. cbn. rewrite dom_insert_L. by apply subseteq_union_1_L, singleton_subseteq_l, elem_of_dom.
Qed.

Section Late.
Variable sys_write : nat → list byte → write_outcome.

(** A call on a closed connection does nothing, but for what it does to the input that is left and to the loop. *)
Lemma exec_call_late inLoop a w :
  state_ (conn w) = kDisconnected → all_wf w → late_call a → fine (calm w) (exec_call sys_write inLoop a w).
Proof.
  intros Hs Hwf Ha. assert (Hd : ¬ (state_ (conn w) = kConnected ∨ state_ (conn w) = kDisconnecting)) by (rewrite Hs; naive_solver).
  pose proof (Hwf InputBuffer _ eq_refl) as Hin.
  destruct a; cbn [exec_call late_call] in *; try done.
  - unfold send_bytes. destruct (_ <=? _); [|done]. cbn [ensure]. rewrite bind_Ok. unfold send. rewrite decide_False by (cbn; by rewrite Hs).
    rewrite bind_Ok. by apply calm_same.
  - unfold send. by rewrite decide_False by (by rewrite Hs).
  - unfold send_buffer. by rewrite decide_False by (by rewrite Hs).
  - unfold shutdown. by rewrite decide_False by (by rewrite Hs).
  - unfold forceClose. by rewrite decide_False.
  - unfold forceCloseWithDelay. by rewrite decide_False.
  - set (b := input_buffer_ (conn w)) in *. set (k := Z.min _ _).
    destruct (Buffer.retrieve_spec b k Hin) as (b' & -> & Hb' & _); [|rewrite bind_Ok; apply (put_buffer_calm InputBuffer); [by eexists | done]].
    unfold k. pose proof (zlen_nonneg (Buffer.content b)). rewrite <- Buffer.zlen_content by done. lia.
  - apply (put_buffer_calm InputBuffer); [by eexists|]. by apply Buffer.retrieveAll_spec.
  - apply quit_calm.
Qed.

Variable behaviour : user_event → world → list user_call.
Hypothesis behaviour_late : ∀ e w a, state_ (conn w) = kDisconnected → a ∈ behaviour e w → late_call a.

Lemma user_late e w : state_ (conn w) = kDisconnected → all_wf w → fine (calm w) (user sys_write behaviour e w).
Proof using behaviour_late.
  intros Hs Hwf. unfold user. apply fine_foldM; [done|]. intros a w1 Ha Hc.
  eapply fine_impl; [apply exec_call_late|].
  - by rewrite (ca_state _ _ Hc).
  - by apply (ca_wf _ _ Hc).
  - by eapply behaviour_late.
  - intros w2 H2. by etrans.
Qed.

(** The functors that a closed connection can bear. *)
Definition late_functor (w : world) (f : functor) : Prop :=
  match f with
  | FStartReadInLoop | FStopReadInLoop | FConnectDestroyed => False
  | FSendBuffer b => is_Some (get_buffer b w)
  | _ => True
  end.

Lemma run_functor_late f w :
  state_ (conn w) = kDisconnected → all_wf w → is_Some (channels (loop_ w) !! channel_ (conn w)) → late_functor w f →
  fine (calm w) (run_functor sys_write behaviour f w).
Proof using behaviour_late.
  intros Hs Hwf [c Hc] Hf. assert (Hd : ¬ (state_ (conn w) = kConnected ∨ state_ (conn w) = kDisconnecting)) by (rewrite Hs; naive_solver).
  destruct f; cbn [run_functor late_functor] in *; try done; try by apply user_late.
  - unfold send. by rewrite decide_False by (by rewrite Hs).
  - destruct Hf as [buf Hb]. rewrite Hb. destruct (Buffer.retrieveAllAsString_spec buf (Hwf _ _ Hb)) as (b' & -> & Hb' & _). rewrite bind_Ok.
    cbv zeta. rewrite decide_False by (destruct b; cbn; by rewrite Hs). cbn [fine]. apply put_buffer_calm; [by eexists | done].
  - rewrite (shutdownInLoop_result w c Hc). cbn [fine]. destruct (Channel.isWriting c); [done | by apply calm_same].
  - unfold forceCloseInLoop. cbn [assertInLoopThread ensure]. rewrite bind_Ok. by rewrite decide_False.
Qed.
End Late.

(** [connectDestroyed] has run, and the object is still there. *)
Record gone (w : world) : Prop := {
  go_loop : ok (loop_ w);
  go_rest : at_rest (loop_ w);
  go_state : state_ (conn w) = kDisconnected;
  go_wf : all_wf w;
  go_channel : ∃ c, channels (loop_ w) !! channel_ (conn w) = Some c ∧ Channel.index_ c = Epoller.kNew ∧ Channel.added_to_loop_ c = false ∧
    Epoller.channels_ (poller_ (loop_ w)) !! Channel.fd_ c = None;
  go_pending : Forall (late_functor w) (pending_functors_ (loop_ w))
}.

Lemma late_functor_calm w w' f : calm w w' → late_functor w f → late_functor w' f.
Proof.
  intros Hc. destruct f as [|[p|]| | | | | | |]; cbn; eauto. intros Hp. apply elem_of_dom. rewrite (ca_buffers _ _ Hc). by apply elem_of_dom.
Qed.

Lemma gone_calm w w' : gone w → calm w w' → gone w'.
Proof.
  intros [Hl Hr Hs Hwf (c & Hc & Hi & Ha & Hfd) Hp] Hcalm. pose proof Hcalm as [H1 H2 H3 H4 H5 H6 H7 _ _ _]. constructor.
  - unfold ok. by rewrite H1, H2.
  - split; rewrite ?H4, ?H1; apply Hr.
  - by rewrite H5.
  - auto.
  - exists c. by rewrite H6, H1, H2.
  - rewrite H3. eapply Forall_impl; [exact Hp|]. intros f. by apply late_functor_calm.
Qed.

Lemma gone_channel w : gone w → is_Some (channels (loop_ w) !! channel_ (conn w)).
Proof. intros Hg. destruct (go_channel _ Hg) as (c & -> & _). by eexists. Qed.

Lemma healthy_wf w : healthy w → all_wf w.
Proof. intros [Hi _] r b Hb. by apply (get_buffer_ok r b w Hi). Qed.

(** Removing the channel of a closed connection. *)
Lemma becomes_gone sys_write behaviour w :
  healthy w → life (state_ (conn w)) = Over → FStopReadInLoop ∉ pending_functors_ (loop_ w) →
  ∃ w1, connectDestroyed sys_write behaviour true w = Ok w1 ∧ gone w1 ∧
    pending_functors_ (loop_ w1) = pending_functors_ (loop_ w) ∧ closed_calls w1 = closed_calls w.
Proof.
  intros Hh Ho Hst. pose proof (healthy_wf w Hh) as Hwf. destruct Hh as [Hi [Hr Hcs]].
  assert (Hs : state_ (conn w) = kDisconnected) by by destruct (state_ (conn w)).
  destruct (ci_channel _ Hi) as (c & Hc & Hfit). rewrite Hs in Hfit. destruct Hfit as [Hidx Hnone].
  unfold connectDestroyed. cbn [assertInLoopThread ensure]. rewrite bind_Ok, decide_False, bind_Ok by (by rewrite Hs).
  destruct (remove_ok (loop_ w) (channel_ (conn w)) c (ci_loop _ Hi) Hc Hidx Hnone ltac:(by rewrite Hr)) as (ep & -> & Hok & Hm).
  rewrite bind_Ok. eexists. split; [done|]. split; [|done]. constructor; try done.
  - split; [done|]. intros l' c' Hl. cbn in Hl. apply lookup_insert_Some in Hl as [[_ <-]|[_ Hl]]; [exact (Hcs _ _ Hc) | by eapply Hcs].
  - eexists. split; [apply lookup_insert_eq|]. split; [done|]. split; [done|]. cbn. rewrite Hm. apply lookup_delete_eq.
  - cbn. apply Forall_forall. intros f Hf. pose proof (proj1 (Forall_forall _ _) (ci_pending _ Hi) f Hf) as Hfits.
    by destruct f.
Qed.

Lemma gone_destroyed inLoop w :
  gone w → ∃ w', destroyConnection inLoop w = Ok w' ∧ channels (loop_ w') !! channel_ (conn w') = None ∧
    pending_functors_ (loop_ w') = pending_functors_ (loop_ w) ∧ closed_calls w' = closed_calls w.
Proof.
  intros [Hl [_ Hr] Hs _ (c & Hc & Hi & Ha & _) _]. unfold destroyConnection. rewrite bool_decide_eq_true_2 by done. cbn [ensure]. rewrite bind_Ok.
  assert (Hd : destroyChannel inLoop (channel_ (conn w)) (loop_ w) =
    Ok (set_poller (delete (channel_ (conn w)) (channels (loop_ w))) (poller_ (loop_ w)) (loop_ w))).
  { destruct inLoop; [by apply (destroy_ok _ _ c Hl Hc Hi (Hr _ _ Hc) Ha)|].
    unfold destroyChannel, getChannel. rewrite (Epoller.deref_lookup _ c), bind_Ok, (Hr _ _ Hc), Ha by done. done. }
  rewrite Hd, bind_Ok. eexists. split; [done|]. split; [apply lookup_delete_eq | done].
Qed.

Lemma filter_keeps_all {A} (P : A → Prop) `{∀ x, Decision (P x)} (l : list A) : (∀ x, x ∈ l → P x) → filter P l = l.
Proof.
  intros Hl. induction l as [|x l IH]; [done|]. rewrite filter_cons, decide_True by (apply Hl; left). f_equal. apply IH. intros y Hy. apply Hl. by right.
Qed.

(** ** Careful users *)
Section Users.
Variable sys_write : nat → list byte → write_outcome.
Hypothesis write_bounded : ∀ n d k, sys_write n d = Wrote k → 0 ≤ k ≤ zlen d.
Variable sys_readv : nat → Buffer.readv_outcome.
Variable behaviour : user_event → world → list user_call.
Hypothesis behaviour_allowed : ∀ e w a, a ∈ behaviour e w → allowed a w.
Hypothesis behaviour_late : ∀ e w a, state_ (conn w) = kDisconnected → a ∈ behaviour e w → late_call a.

#[local] Notation perform := (perform sys_write behaviour sys_readv).
#[local] Notation ref_step := (ref_step sys_write sys_readv behaviour).

(** The functors in the queue that would not keep the connection alive, behind those that run before it is removed. *)
Definition unowned (h : held) : list functor :=
  filter (fun f => negb (owns f))
    (match at_ h with
     | Owned => []
     | Leaving n => drop n (pending_functors_ (loop_ (it h)))
     | Removed | Freed => pending_functors_ (loop_ (it h))
     end).

(** Users keep to what [TcpConnectionSpec] asks of them, and to [late_call] once the connection is closed; they hold a reference while they
    call, and the last one is not dropped before the functors of calls have run. *)
Definition ref_enabled (e : ref_event) (h : held) : Prop :=
  match e with
  | Happens e =>
      (∀ self, e ≠ Establish self) ∧
      match at_ h with
      | Owned => enabled sys_readv e (it h)
      | Leaving n => enabled sys_readv e (it h) ∧ match e with Functor => n ≠ 0%nat | Call _ a => late_call a | _ => True end
      | Removed => match e with Functor => True | Call _ a => late_call a ∧ (0 < holders h)%nat | _ => False end
      | Freed => e = Functor
      end
  | Posts f =>
      (0 < holders h)%nat ∧ functor_fits (it h) f ∧ owns f = false ∧ f ≠ FStopReadInLoop
  | OwnerLets => at_ h = Owned ∧ closed_calls (it h) = 1%nat
  | DestroyedRuns => at_ h = Leaving 0 ∧ FStopReadInLoop ∉ pending_functors_ (loop_ (it h))
  | Shares => at_ h ≠ Freed
  | Releases _ => (0 < holders h)%nat ∧ (holders h = 1%nat → unowned h = [])
  end.

Record refs_inv (h : held) : Prop := {
  ri_place :
    match at_ h with
    | Owned => healthy (it h) ∧ life (state_ (conn (it h))) ≠ Starting
    | Leaving n => healthy (it h) ∧ life (state_ (conn (it h))) = Over ∧ (n ≤ length (pending_functors_ (loop_ (it h))))%nat
    | Removed => gone (it h) ∧ ((0 < holders h)%nat ∨ Exists (fun f => owns f) (pending_functors_ (loop_ (it h))))
    | Freed => pending_functors_ (loop_ (it h)) = [] ∧ channels (loop_ (it h)) !! channel_ (conn (it h)) = None ∧ holders h = 0%nat
    end;
  ri_closed : at_ h ≠ Owned → closed_calls (it h) = 1%nat;
  ri_unowned : holders h = 0%nat → unowned h = []
}.

(** Removed, and perhaps the last reference has just gone. *)
Lemma settle_ok inLoop w n :
  gone w → closed_calls w = 1%nat → (n = 0%nat → filter (fun f => negb (owns f)) (pending_functors_ (loop_ w)) = []) →
  fine refs_inv (settle inLoop (mkHeld w Removed n)).
Proof using Type.
  intros Hg Hcl Hun. unfold settle. cbn [at_ holders it].
  destruct ((n =? 0)%nat && forallb (fun f => negb (owns f)) (pending_functors_ (loop_ w))) eqn:Hd.
  - apply andb_true_iff in Hd as [->%Nat.eqb_eq Hall]. destruct (gone_destroyed inLoop w Hg) as (w' & -> & Hch & Hp & Hcl').
    rewrite bind_Ok. cbn [fine].
    assert (Hnil : pending_functors_ (loop_ w) = []).
    { rewrite <- (Hun eq_refl). symmetry. apply filter_keeps_all. intros f Hf.
      rewrite forallb_forall in Hall. apply Is_true_true, Hall. by apply list_elem_of_In. }
    constructor; cbn [at_ it holders]; [by rewrite Hp | by rewrite Hcl' | intros _; unfold unowned; cbn; by rewrite Hp, Hnil].
  - cbn [fine]. constructor; cbn [at_ it holders]; [|done | exact Hun]. split; [done|]. apply andb_false_iff in Hd as [Hn|Hn].
    + left. apply Nat.eqb_neq in Hn. lia.
    + right. apply not_true_iff_false in Hn. destruct (decide (Exists (fun f => owns f) (pending_functors_ (loop_ w)))) as [|Hno]; [done|].
      destruct Hn. apply forallb_forall. intros f Hf. apply negb_true_iff, not_true_iff_false. intros Ho. apply Hno, Exists_exists.
      exists f. split; [by apply list_elem_of_In | by apply Is_true_true].
Qed.

Lemma classic_functor (e : event) : e = Functor ∨ e ≠ Functor.
Proof using Type. destruct e; auto. Qed.

Lemma over_disconnected w : life (state_ (conn w)) = Over → state_ (conn w) = kDisconnected.
Proof using Type. by destruct (state_ (conn w)). Qed.

(** Once it is closed, its functors queue no others. *)
Lemma over_functor w f rest w' :
  healthy w → life (state_ (conn w)) = Over → pending_functors_ (loop_ w) = f :: rest → perform Functor w = Ok w' →
  pending_functors_ (loop_ w') = rest.
Proof using behaviour_late.
  intros Hh Ho%over_disconnected Hp Hw. pose proof (healthy_wf w Hh) as Hwf. destruct Hh as [Hi _].
  pose proof (ci_pending _ Hi) as Hall. rewrite Hp in Hall. apply Forall_cons in Hall as [Hf _].
  destruct (ci_channel _ Hi) as (c & Hc & Hfit). rewrite Ho in Hfit. destruct Hfit as [Hidx _].
  rewrite (functor_step sys_write behaviour sys_readv w f rest Hp) in Hw. set (w1 := on_loop (set_pending rest) w) in *.
  assert (Hcases : f = FStopReadInLoop ∨ f ≠ FStopReadInLoop) by (destruct f; auto). destruct Hcases as [->|Hne].
  - cbn [run_functor] in Hw. unfold stopReadInLoop in Hw. apply bind_Ok_inv in Hw as (_ & _ & Hw). apply bind_Ok_inv in Hw as (c' & _ & Hw).
    destruct (_ || _); [|by injection Hw as <-].
    destruct (change_channel_ok Channel.DisableReading w1 c (ci_loop _ Hi) Hc (fd_free_registered _ _ Hidx)) as (lp & Hlp & _ & _ & Hpe).
    rewrite Hlp, bind_Ok in Hw. injection Hw as <-. exact Hpe.
  - pose proof (run_functor_late sys_write behaviour behaviour_late f w1 Ho Hwf ltac:(by exists c)) as Hl.
    rewrite Hw in Hl. apply (ca_pending w1 w'), Hl. by destruct f.
Qed.

Lemma over_event w e w' :
  healthy w → life (state_ (conn w)) = Over → enabled sys_readv e w → (∀ self, e ≠ Establish self) → e ≠ Functor →
  (∀ b a, e = Call b a → late_call a) → perform e w = Ok w' → pending_functors_ (loop_ w') = pending_functors_ (loop_ w).
Proof using Type.
  intros Hh Ho%over_disconnected He Hne Hnf Hcall Hw. pose proof (healthy_wf w Hh) as Hwf. destruct Hh as [Hi _].
  destruct e as [self|cb t| |b a]; cbn [TcpConnectionSpec.perform] in Hw; [by destruct (Hne self) | | done|].
  - destruct cb; cbn in He; cbn [run_callback] in Hw; [destruct He as [[|] _]; congruence | | destruct He; congruence | by injection Hw as <-].
    destruct (ci_channel _ Hi) as (c & Hc & Hfit). rewrite Ho in Hfit. destruct Hfit as [_ Hnone].
    unfold handleWrite in Hw. cbn [assertInLoopThread ensure] in Hw.
    rewrite bind_Ok, (channel_lookup w c), bind_Ok in Hw by done.
    assert (Hwr : Channel.isWriting c = false) by (unfold Channel.isWriting, Channel.isNoneEvent in *; apply Z.eqb_eq in Hnone; by rewrite Hnone).
    rewrite Hwr in Hw. by injection Hw as <-.
  - pose proof (exec_call_late sys_write b a w Ho Hwf (Hcall _ _ eq_refl)) as Hl. rewrite Hw in Hl. by apply ca_pending.
Qed.

Lemma gone_functor w :
  gone w → fine (λ w', gone w' ∧ closed_calls w' = closed_calls w ∧ pending_functors_ (loop_ w') = tail (pending_functors_ (loop_ w)))
    (perform Functor w).
Proof using behaviour_late.
  intros Hg. destruct (pending_functors_ (loop_ w)) as [|f rest] eqn:Hp.
  - cbn [TcpConnectionSpec.perform]. rewrite Hp. by cbn [fine tail].
  - rewrite (functor_step sys_write behaviour sys_readv w f rest Hp). set (w1 := on_loop (set_pending rest) w).
    pose proof (go_pending _ Hg) as Hall. rewrite Hp in Hall. apply Forall_cons in Hall as [Hf Hrest].
    assert (Hg1 : gone w1) by (destruct Hg; by constructor).
    eapply fine_impl; [apply (run_functor_late sys_write behaviour behaviour_late f w1)|].
    + apply Hg.
    + apply Hg.
    + exact (gone_channel w1 Hg1).
    + exact Hf.
    + intros w' Hc. split; [by eapply gone_calm|]. split; [exact (ca_closed _ _ Hc) | exact (ca_pending _ _ Hc)].
Qed.

Lemma queue_healthy f w : healthy w → functor_fits w f → healthy (queue false f w).
Proof using write_bounded.
  intros [Hi Hr] Hf. split; [by apply queue_good|]. eapply flags_at_rest; [|exact Hr]. apply queue_flags.
Qed.

Lemma queue_gone f w : gone w → late_functor w f → gone (queue false f w).
Proof using Type.
  intros [Hl Hr Hs Hwf Hc Hp] Hf. destruct (queueInLoop_frame false f (loop_ w)) as (Hch & Hpo & Hpe).
  constructor; cbn [queue on_loop with_loop world_HasLoop loop_of loop_ conn]; try done.
  - unfold ok. by rewrite Hch, Hpo.
  - eapply flags_at_rest; [apply queue_flags | done].
  - by rewrite Hch, Hpo.
  - rewrite Hpe. apply Forall_app. split; [done | by repeat constructor].
Qed.

Lemma happens_ok e h : refs_inv h → ref_enabled (Happens e) h → fine refs_inv (ref_step (Happens e) h).
Proof using All.
  destruct h as [w p n]. intros [Hpl Hcl Hun] [Hne He]. cbn [it at_ holders] in *. destruct p as [|k| |].
  - assert (Hlives := lives_on sys_write write_bounded sys_readv behaviour behaviour_allowed e w (proj1 Hpl) He Hne).
    assert (Hstep : ref_step (Happens e) (mkHeld w Owned n) = (w ← perform e w; Ok (mkHeld w Owned n))) by by destruct e.
    rewrite Hstep. eapply fine_bind; [exact Hlives|]. intros w' [Hh' Hl]. cbn [fine]. constructor; cbn [it at_ holders]; [|done | done].
    split; [done|]. destruct Hl as [[_ ->]|(_ & _ & ->)]; [apply Hpl | done].
  - destruct Hpl as (Hh & Ho & Hk). destruct He as [He Hlate]. specialize (Hcl ltac:(done)).
    assert (Hlives := lives_on sys_write write_bounded sys_readv behaviour behaviour_allowed e w Hh He Hne).
    destruct (perform e w) as [w'|f] eqn:Hp; [|by destruct e; cbn [ConnectionRefs.ref_step it at_]; rewrite Hp].
    destruct Hlives as [Hh' Hl]. assert (Hcl' : closed_calls w' = closed_calls w ∧ life (state_ (conn w')) = Over).
    { destruct Hl as [[-> ->]|(_ & Hup & _)]; [done | congruence]. }
    destruct (classic_functor e) as [->|Hnf].
    + cbn [ConnectionRefs.ref_step it at_ holders]. rewrite Hp, bind_Ok. unfold settle. cbn [at_ fine].
      destruct (pending_functors_ (loop_ w)) as [|f rest] eqn:Hq; [cbn [length] in Hk; lia|].
      pose proof (over_functor w f rest w' Hh Ho Hq Hp) as Hq'.
      constructor; cbn [it at_ holders]; [|intros _; by rewrite (proj1 Hcl') |].
      * split_and!; [done | apply Hcl' | rewrite Hq'; cbn [length] in Hk; lia].
      * intros Hn. specialize (Hun Hn). unfold unowned in *. cbn [at_ it] in *. rewrite Hq in Hun. rewrite Hq'.
        destruct k as [|k]; [done|]. by replace (S k - 1)%nat with k by lia.
    + assert (Hstep : ref_step (Happens e) (mkHeld w (Leaving k) n) = (w ← perform e w; Ok (mkHeld w (Leaving k) n))) by by destruct e.
      rewrite Hstep, Hp, bind_Ok. cbn [fine].
      assert (Hq' : pending_functors_ (loop_ w') = pending_functors_ (loop_ w)).
      { apply (over_event w e w' Hh Ho He Hne Hnf); [|done]. intros b a ->. exact Hlate. }
      constructor; cbn [it at_ holders]; [split_and!; [done | apply Hcl' | by rewrite Hq'] | intros _; by rewrite (proj1 Hcl') |].
      unfold unowned in *. cbn [at_ it] in *. by rewrite Hq'.
  - destruct Hpl as [Hg Hex]. specialize (Hcl ltac:(done)). destruct e as [|cb t| |b a]; try done.
    + cbn [ConnectionRefs.ref_step it at_ holders]. eapply fine_bind; [by apply gone_functor|]. intros w' (Hg' & Hc' & Hq'). apply settle_ok; [done | congruence|].
      intros Hn. specialize (Hun Hn). unfold unowned in Hun. cbn [at_ it] in Hun. rewrite Hq'.
      destruct (pending_functors_ (loop_ w)) as [|f rest]; [done|]. rewrite filter_cons in Hun. cbn [tail]. destruct (decide _); [done | exact Hun].
    + destruct He as [Ha Hn]. cbn [ConnectionRefs.ref_step it at_ holders]. eapply fine_bind; [apply exec_call_late; [apply Hg | apply Hg | done]|].
      intros w' Hc. cbn [fine]. constructor; cbn [it at_ holders].
      * split; [by eapply gone_calm | by left].
      * intros _. by rewrite (ca_closed _ _ Hc).
      * lia.
  - subst e. destruct Hpl as (Hq & Hch & Hn). cbn [ConnectionRefs.ref_step it at_ holders]. rewrite Hq. cbn [fine].
    constructor; cbn [it at_ holders]; [by rewrite Hq | exact Hcl | exact Hun].
Qed.

Lemma posts_ok f h : refs_inv h → ref_enabled (Posts f) h → fine refs_inv (ref_step (Posts f) h).
Proof using write_bounded.
  destruct h as [w p n]. intros [Hpl Hcl Hun] (Hn & Hf & Ho & Hne). cbn [it at_ holders] in *.
  destruct (queueInLoop_frame false f (loop_ w)) as (_ & _ & Hpe). cbn [ConnectionRefs.ref_step it at_ holders].
  destruct p as [|k| |]; [| | |lia]; cbn [fine]; (constructor; cbn [it at_ holders]; [|done | lia]).
  - destruct Hpl as [Hh Hl]. split; [by apply queue_healthy | done].
  - destruct Hpl as (Hh & Hl & Hk). split_and!; [by apply queue_healthy | done|].
    change (loop_ (queue false f w)) with (queueInLoop false f (loop_ w)). rewrite Hpe, length_app. lia.
  - destruct Hpl as [Hg _]. split; [|by left]. apply queue_gone; [done|]. by destruct f.
Qed.

Lemma releases_ok inLoop h : refs_inv h → ref_enabled (Releases inLoop) h → fine refs_inv (ref_step (Releases inLoop) h).
Proof using Type.
  destruct h as [w p n]. intros [Hpl Hcl Hun] [Hn Hlast]. cbn [it at_ holders] in *. cbn [ConnectionRefs.ref_step it at_ holders].
  assert (Hlast' : (n - 1)%nat = 0%nat → unowned (mkHeld w p (n - 1)) = []) by (intros ?; apply Hlast; lia).
  destruct p as [|k| |]; [by constructor.. | |lia]. apply settle_ok; [apply Hpl | by apply Hcl | exact Hlast'].
Qed.

Lemma ref_step_ok e h : refs_inv h → ref_enabled e h → fine refs_inv (ref_step e h).
Proof using All.
  intros Hi He. destruct e as [e|f| | | |b]; [by apply happens_ok | by apply posts_ok | | | | by apply releases_ok].
  - destruct h as [w p n], Hi as [Hpl _ _], He as [Hp Hcl]. cbn [it at_ holders] in *. subst p. destruct Hpl as [[Hi Hr] _].
    destruct (ci_closed _ Hi) as [_ Hs]. constructor; cbn [it at_ holders]; [|done|].
    + split_and!; [done | by rewrite (Hs Hcl) | done].
    + intros _. unfold unowned. cbn [at_ it]. by rewrite drop_all.
  - destruct h as [w p n], Hi as [Hpl Hcl Hun], He as [Hp Hst]. cbn [it at_ holders] in *. subst p. destruct Hpl as (Hh & Ho & _).
    destruct (becomes_gone sys_write behaviour w Hh Ho Hst) as (w1 & Hd & Hg & Hq & Hc). cbn [ConnectionRefs.ref_step it at_ holders].
    rewrite Hd, bind_Ok. apply settle_ok; [done | rewrite Hc; by apply Hcl|]. intros Hn. specialize (Hun Hn). unfold unowned in Hun. cbn in Hun. by rewrite Hq.
  - destruct h as [w p n], Hi as [Hpl Hcl Hun]. cbn [it at_ holders] in *. cbn [ConnectionRefs.ref_step it at_ holders fine].
    constructor; cbn [it at_ holders]; [|done | done]. destruct p; try done. split; [apply Hpl | left; lia].
Qed.

Inductive ref_history (h0 : held) : held → Prop :=
  | ref_start : ref_history h0 h0
  | ref_next e h h' : ref_history h0 h → ref_enabled e h → ref_step e h = Ok h' → ref_history h0 h'.

Lemma ref_history_inv h0 h : refs_inv h0 → ref_history h0 h → refs_inv h.
Proof using All.
  intros Hi. induction 1 as [|e h h' _ IH He Hs]; [done|]. pose proof (ref_step_ok e h IH He) as Hok. by rewrite Hs in Hok.
Qed.

(** An established connection, held by its owner and by no user. *)
Lemma owned_inv name fd l wc hw lp self w0 w :
  clean_loop l fd lp → at_rest lp → newConnection name fd l wc hw lp = Ok w0 → connectEstablished sys_write behaviour true self w0 = Ok w →
  refs_inv (mkHeld w Owned 0).
Proof using write_bounded behaviour_allowed.
  intros Hc Hr Hn He. destruct (born name fd l wc hw lp Hc Hr) as (w1 & Hw1 & Hh & Hl). assert (w1 = w0) as -> by congruence.
  pose proof (established sys_write write_bounded behaviour behaviour_allowed w0 self Hh Hl) as Hok. rewrite He in Hok. destruct Hok as [Hh' Hl'].
  constructor; cbn [it at_ holders]; [|done | done]. split; [done | by rewrite Hl'].
Qed.


(** ** Careless users *)

(** The test of the state and the queueing of the functor are two steps of the calling thread.  When the connection is closed in between, and the
    thread then drops its reference, the functor - of [send] or of [shutdown] - runs on the freed object: it holds only [this]. *)
Theorem late_functor_dangles w w1 f :
  healthy w → state_ (conn w) = kConnected → perform (Report CbClose 0) w = Ok w1 → pending_functors_ (loop_ w1) = [] →
  functor_fits w1 f → owns f = false → f ≠ FStopReadInLoop →
  foldM ref_step [OwnerLets; Posts f; Releases false; DestroyedRuns; Happens Functor] (mkHeld w1 Owned 1) = Fault UseAfterFree.
Proof using write_bounded behaviour_allowed.
  intros Hh Hs Hp Hq Hf Hbare Hne. assert (He : enabled sys_readv (Report CbClose 0) w) by by left.
  assert (Hlives := lives_on sys_write write_bounded sys_readv behaviour behaviour_allowed _ w Hh He ltac:(done)).
  pose proof Hp as Hdown. rewrite Hp in Hlives. apply handleClose_turns in Hdown as (_ & _ & Hs1 & _). destruct Hlives as [Hh1 _].
  assert (Hpe : pending_functors_ (loop_ (queue false f w1)) = [f])
    by (change (loop_ (queue false f w1)) with (queueInLoop false f (loop_ w1)); by rewrite (proj2 (proj2 (queueInLoop_frame false f (loop_ w1)))), Hq).
  destruct (becomes_gone sys_write behaviour (queue false f w1)) as (w2 & Hd & Hg & Hq2 & _).
  { by apply queue_healthy. }
  { cbn. by rewrite Hs1. }
  { rewrite Hpe, elem_of_cons, elem_of_nil. naive_solver. }
  rewrite Hpe in Hq2. destruct (gone_destroyed true w2 Hg) as (w3 & Hd3 & _ & Hq3 & _). rewrite Hq2 in Hq3.
  assert (E1 : ref_step OwnerLets (mkHeld w1 Owned 1) = Ok (mkHeld w1 (Leaving 0) 1)) by (cbn [ConnectionRefs.ref_step it holders]; by rewrite Hq).
  assert (E4 : ref_step DestroyedRuns (mkHeld (queue false f w1) (Leaving 0) 0) = Ok (mkHeld w3 Freed 0)).
  { cbn [ConnectionRefs.ref_step it holders]. rewrite Hd, bind_Ok. unfold settle. cbn [at_ it holders Nat.eqb andb]. rewrite Hq2.
    cbn [forallb]. rewrite Hbare. cbn [negb andb]. by rewrite Hd3. }
  cbn [foldM]. rewrite E1, bind_Ok. change (ref_step (Posts f) (mkHeld w1 (Leaving 0) 1)) with (Ok (mkHeld (queue false f w1) (Leaving 0) 1)).
  rewrite bind_Ok. change (ref_step (Releases false) (mkHeld (queue false f w1) (Leaving 0) 1)) with (Ok (mkHeld (queue false f w1) (Leaving 0) 0)).
  rewrite bind_Ok, E4, bind_Ok. cbn [ConnectionRefs.ref_step at_ it]. by rewrite Hq3.
Qed.
End Users.

(** [stopRead] on a connection that has been removed registers its channel again: it only asks whether it is reading or was told to.  Whoever drops
    the last reference then fails the assertion of the channel's destructor. *)
Theorem stopRead_after_destroyed w :
  gone w → reading_ (conn w) = true → ∃ w1, stopRead true w = Ok w1 ∧ ∀ inLoop, destroyConnection inLoop w1 = Fault AssertFailed.
Proof.
  intros [Hl [_ Hr] Hs _ (c & Hc & Hi & Ha & Hfd) _] Hrd. unfold stopRead, stopReadInLoop. cbn [assertInLoopThread ensure].
  rewrite bind_Ok, (channel_lookup w c), bind_Ok, Hrd by done. cbn [orb].
  destruct (change_channel_ok Channel.DisableReading w c Hl Hc) as (lp & -> & _ & Hc1 & _); [by intros _|]. rewrite bind_Ok.
  eexists. split; [done|]. intros inLoop. unfold destroyConnection. rewrite bool_decide_eq_true_2 by done. cbn [ensure]. rewrite bind_Ok.
  unfold destroyChannel, getChannel. cbn [loop_ set_conn with_loop world_HasLoop conn channel_ set_reading].
  rewrite (Epoller.deref_lookup _ _ _ Hc1), bind_Ok. unfold changed. cbn [Channel.event_handling_ Channel.added_to_loop_ Channel.set_index Channel.set_added_to_loop Channel.set_events].
  by rewrite (Hr _ _ Hc).
Qed.

(** ** A connection that a thread still uses when it is closed *)

Lemma echo_late e w a : state_ (conn w) = kDisconnected → a ∈ echo e w → late_call a.
Proof.
  intros _. destruct e; simpl; try by intros ?%elem_of_nil. by intros [->|H%list_elem_of_singleton]%elem_of_cons; [|rewrite H].
Qed.

#[local] Notation demo_step := (ref_step three_bytes hello echo).
#[local] Notation demo_history := (ref_history three_bytes hello echo).

Fixpoint refs_play (evs : list ref_event) (h h' : held) : Prop :=
  match evs with
  | [] => h = h'
  | e :: evs => ref_enabled hello e h ∧ ∃ h1, demo_step e h = Ok h1 ∧ refs_play evs h1 h'
  end.

Lemma refs_play_history h0 evs h h' : demo_history h0 h → refs_play evs h h' → demo_history h0 h'.
Proof.
  revert h. induction evs as [|e evs IH]; intros h Hh; cbn [refs_play]; [by intros <-|]. intros (He & h1 & Hs & Hp).
  eapply IH; [|exact Hp]. by eapply ref_next.
Qed.

(** It is established. *)
Lemma established_demo : ∃ lp w0 w, demo_loop = Ok lp ∧ clean_loop 2 7 lp ∧ at_rest lp ∧ newConnection (bytes "c") 7 2 true true lp = Ok w0 ∧
  connectEstablished three_bytes echo true 9 w0 = Ok w.
Proof.
  destruct demo_ok as (lp & w0 & Hl & Hc & Hn & _). pose proof (demo_loop_rest lp Hl) as Hr.
  destruct (born (bytes "c") 7 2 true true lp Hc Hr) as (w1 & Hw1 & Hh & Hlife). assert (w1 = w0) as -> by congruence.
  pose proof (established three_bytes three_bytes_bounded echo echo_allowed w0 9 Hh Hlife) as Hok.
  destruct (connectEstablished three_bytes echo true 9 w0) as [w|f] eqn:He; [by exists lp, w0, w|].
  exists lp, w0. clear -Hl Hn He. vm_compute in Hl. injection Hl as <-. vm_compute in Hn. injection Hn as <-. by vm_compute in He.
Qed.


Lemma late_functor_dangles_witness :
  ∃ w1, state_ (conn w1) = kDisconnected ∧
    foldM demo_step [OwnerLets; Posts (FSendBuffer InputBuffer); Releases false; DestroyedRuns; Happens Functor] (mkHeld w1 Owned 1) = Fault UseAfterFree.
Proof.
  destruct established_demo as (lp & w0 & w & Hl & Hc & Hr & Hn & He).
  pose proof (ri_place _ (owned_inv three_bytes three_bytes_bounded echo echo_allowed _ _ _ _ _ _ 9 w0 w Hc Hr Hn He)) as [Hh _]. cbn [it] in Hh.
  assert (Hw : state_ (conn w) = kConnected ∧ ∃ w1, perform three_bytes echo hello (Report CbClose 0) w = Ok w1 ∧
    pending_functors_ (loop_ w1) = [] ∧ state_ (conn w1) = kDisconnected).
  { clear Hc Hr Hh. vm_compute in Hl. injection Hl as <-. vm_compute in Hn. injection Hn as <-. vm_compute in He. injection He as <-.
    split; [reflexivity|]. eexists. split; [vm_compute; reflexivity|]. by split. }
  destruct Hw as (Hs & w1 & Hp & Hq & Hd). exists w1. split; [exact Hd|].
  apply (late_functor_dangles three_bytes three_bytes_bounded hello echo echo_allowed w w1 (FSendBuffer InputBuffer)); try done. by eexists.
Defined.

Lemma stopRead_after_destroyed_witness :
  ∃ w w1, closed_calls w = 1%nat ∧ stopRead true w = Ok w1 ∧ destroyConnection true w1 = Fault AssertFailed.
Proof.
  destruct established_demo as (lp & w0 & w & Hl & Hc & Hr & Hn & He).
  assert (Hrun : ∃ h, refs_play [Shares; Happens (Report CbClose 0); OwnerLets; DestroyedRuns] (mkHeld w Owned 0) h ∧
    at_ h = Removed ∧ reading_ (conn (it h)) = true ∧ closed_calls (it h) = 1%nat).
  { clear Hc Hr. vm_compute in Hl. injection Hl as <-. vm_compute in Hn. injection Hn as <-. vm_compute in He. injection He as <-.
    eexists. split.
    - cbn [refs_play]. repeat (split; [vm_compute; repeat split; try done; try lia; try (by left); try (by inversion 1) |
        eexists; split; [vm_compute; reflexivity|]]). reflexivity.
    - by split_and!. }
  destruct Hrun as (h & Hplay & Hrem & Hrd & Hcl). pose proof (refs_play_history _ _ _ _ (ref_start _ _ _ _) Hplay) as Hh.
  pose proof (ri_place _ (ref_history_inv three_bytes three_bytes_bounded hello echo echo_allowed echo_late _ _
    (owned_inv three_bytes three_bytes_bounded echo echo_allowed _ _ _ _ _ _ 9 w0 w Hc Hr Hn He) Hh)) as Hpl. rewrite Hrem in Hpl.
  destruct (stopRead_after_destroyed (it h) (proj1 Hpl) Hrd) as (w1 & Hs & Hd). exists (it h), w1. by split_and!.
Defined.
