(* ===== verification/ConnectionOwner.v ===== *)
(** * Connections and their owners

    A server or a client holds a reference to each of its connections, makes it, establishes it, and lets it go when it is reported closed; the
    users of a connection have references of their own ([ConnectionRefs]).  Here is what an owner may believe of a connection ([standing]),
    and that its own operations and what happens on the connection keep it so - for [TcpService] and [TcpClientService]. *)
From stdpp Require Import base list gmap numbers strings.
From Stdlib Require Import ZArith Lia Init.Byte.
From S2P Require Import Prelude.
From S2P Require Import ByteBuffer.
From S2P Require Import Channel.
From S2P Require Import Poller.
From S2P Require Import EventLoop.
From S2P Require Import EventLoopSpec.
From S2P Require Import TcpConnection.
From S2P Require Import TcpConnectionSpec.
From S2P Require Import ConnectionTheorems.
From S2P Require Import ConnectionFrame.
From S2P Require Import ConnectionLife.
From S2P Require Import ConnectionRefs.
Import TcpConnection.TcpConnection.
#[local] Open Scope Z_scope.
#[local] Open Scope fm_scope.

(** Made and not yet established; up; reported closed and still held by its owner; let go, its [connectDestroyed] under way; and that has run. *)
Inductive standing := Fresh | InUse | Closed | Posted | Dead.

Definition stands (sd : standing) (h : held) : Prop :=
  match sd with
  | Fresh => at_ h = Owned ∧ holders h = 0%nat ∧ healthy (it h) ∧ life (state_ (conn (it h))) = Starting
  | InUse => refs_inv h ∧ at_ h = Owned ∧ life (state_ (conn (it h))) = Running
  | Closed => refs_inv h ∧ at_ h = Owned ∧ life (state_ (conn (it h))) = Over ∧ closed_calls (it h) = 1%nat
  | Posted => refs_inv h ∧ ∃ n, at_ h = Leaving n
  | Dead => refs_inv h ∧ (at_ h = Removed ∨ at_ h = Freed)
  end.

(** The events that are not the owner's. *)
Definition of_user (e : ref_event) : Prop := match e with OwnerLets | DestroyedRuns => False | _ => True end.

(** What is visible of a connection: where it stands, and in every place but the last a kernel that agrees with its loop. *)
Record stands_so (sd : standing) (h : held) : Prop := {
  so_place : match sd with
    | Fresh => at_ h = Owned ∧ life (state_ (conn (it h))) = Starting
    | InUse => at_ h = Owned ∧ life (state_ (conn (it h))) = Running
    | Closed => at_ h = Owned ∧ life (state_ (conn (it h))) = Over
    | Posted => (∃ n, at_ h = Leaving n) ∧ life (state_ (conn (it h))) = Over
    | Dead => at_ h = Removed ∧ ((0 < holders h)%nat ∨ ∃ f, f ∈ EventLoop.EventLoop.pending_functors_ (loop_ (it h)) ∧ owns f = true) ∨
              at_ h = Freed ∧ holders h = 0%nat ∧ EventLoop.EventLoop.pending_functors_ (loop_ (it h)) = [] ∧
                EventLoop.EventLoop.channels (loop_ (it h)) !! channel_ (conn (it h)) = None
    end;
  so_closed : sd = Closed ∨ sd = Posted ∨ sd = Dead → closed_calls (it h) = 1%nat;
  so_kernel : at_ h ≠ Freed → EventLoopSpec.kernel_in_sync (loop_ (it h))
}.

Lemma stands_visible sd h : stands sd h → stands_so sd h.
Proof.
  assert (Hsync : ∀ w, healthy w → EventLoopSpec.kernel_in_sync (loop_ w)) by (intros w [Hi _]; exact (Epoller.ok_kernel _ _ (ci_loop _ Hi))).
  destruct sd; cbn [stands].
  - intros (Ha & _ & Hh & Hl). constructor; [done | naive_solver | auto].
  - intros ([Hp _ _] & Ha & Hl). rewrite Ha in Hp. constructor; [done | naive_solver | intros _; apply Hsync, Hp].
  - intros ([Hp _ _] & Ha & Hl & Hc). rewrite Ha in Hp. constructor; [done | done | intros _; apply Hsync, Hp].
  - intros ([Hp Hc _] & n & Ha). rewrite Ha in *. destruct Hp as (Hh & Hl & _). constructor; [split; [by exists n | done] | by intros _; apply Hc | intros _; by apply Hsync].
  - intros ([Hp Hc _] & [Ha|Ha]); rewrite Ha in *; (constructor; [|by intros _; apply Hc|]).
    + left. split; [done|]. destruct Hp as [_ [?|Hex]]; [by left | right]. apply Exists_exists in Hex as (f & Hf & Ho). exists f. split; [done | by apply Is_true_true].
    + intros _. destruct Hp as [Hg _]. exact (Epoller.ok_kernel _ _ (go_loop _ Hg)).
    + right. tauto.
    + intros Hn. by destruct Hn.
Qed.

Section Owner.
Variable sys_write : nat → list byte → write_outcome.
Hypothesis write_bounded : ∀ n d k, sys_write n d = Wrote k → 0 ≤ k ≤ zlen d.
Variable sys_readv : nat → Buffer.readv_outcome.
Variable behaviour : user_event → world → list user_call.
Hypothesis behaviour_allowed : ∀ e w a, a ∈ behaviour e w → allowed a w.
Hypothesis behaviour_late : ∀ e w a, state_ (conn w) = kDisconnected → a ∈ behaviour e w → late_call a.

#[local] Notation ref_step := (ref_step sys_write sys_readv behaviour).
#[local] Notation ref_enabled := (ref_enabled sys_readv).

Lemma established_stands self h :
  stands Fresh h → fine (λ w, stands InUse (mkHeld w (at_ h) (holders h))) (connectEstablished sys_write behaviour true self (it h)).
Proof using write_bounded behaviour_allowed.
  intros (Ha & Hn & Hh & Hl). eapply fine_impl; [by apply (established sys_write write_bounded behaviour)|].
  intros w [Hh' Hl']. rewrite Ha, Hn. split; [|done]. constructor; cbn [it at_ holders]; [by rewrite Hl' | done | done].
Qed.

Lemma let_go_stands h : stands Closed h → ∃ h', ref_step OwnerLets h = Ok h' ∧ stands Posted h'.
Proof using All.
  intros (Hi & Ha & _ & Hc). assert (Hen : ref_enabled OwnerLets h) by by split.
  pose proof (ref_step_ok sys_write write_bounded sys_readv behaviour behaviour_allowed behaviour_late OwnerLets h Hi Hen) as Hok.
  eexists. split; [reflexivity|]. split; [exact Hok | by eexists].
Qed.

Lemma destroyed_stands h : stands Posted h → ref_enabled DestroyedRuns h → fine (stands Dead) (ref_step DestroyedRuns h).
Proof using All.
  intros (Hi & _) Hen.
  pose proof (ref_step_ok sys_write write_bounded sys_readv behaviour behaviour_allowed behaviour_late DestroyedRuns h Hi Hen) as Hok.
  destruct (ref_step DestroyedRuns h) as [h'|f] eqn:Hs; [|exact Hok]. cbn [fine] in *. split; [done|].
  cbn [ConnectionRefs.ref_step] in Hs. apply bind_Ok_inv in Hs as (w & _ & Hs). unfold settle in Hs. cbn [at_] in Hs.
  destruct (_ && _); [apply bind_Ok_inv in Hs as (w' & _ & Hs)|]; injection Hs as <-; auto.
Qed.

(** Nothing but its owner moves a connection from one of these places to the next. *)
Lemma user_step_place e h h' :
  of_user e → ref_step e h = Ok h' →
  match at_ h with
  | Owned => at_ h' = Owned
  | Leaving _ => ∃ n, at_ h' = Leaving n
  | Removed | Freed => at_ h' = Removed ∨ at_ h' = Freed
  end.
Proof using Type.
  assert (Hset : ∀ b h0 h1, settle b h0 = Ok h1 → match at_ h0 with Removed => at_ h1 = Removed ∨ at_ h1 = Freed | p => at_ h1 = p end).
  { intros b h0 h1. unfold settle. destruct (at_ h0) eqn:E; try by intros [= <-]. destruct (_ && _).
    - intros (w & _ & [= <-])%bind_Ok_inv. auto.
    - intros [= <-]. auto. }
  intros Hu Hs. destruct e as [e|f| | | |b]; cbn [of_user] in Hu; try done; cbn [ConnectionRefs.ref_step] in Hs.
  - destruct e as [self|cb t| |b a]; destruct (at_ h) as [|n| |] eqn:Ha; try done.
    all: try (apply bind_Ok_inv in Hs as (w & _ & Hs)).
    all: try (injection Hs as <-; cbn [at_]; eauto).
    all: try (apply Hset in Hs; cbn [at_] in Hs; eauto).
    destruct (EventLoop.EventLoop.pending_functors_ _); [injection Hs as <-; auto | done].
  - destruct (at_ h) eqn:Ha; try done; injection Hs as <-; cbn [at_]; eauto.
  - injection Hs as <-. cbn [at_]. destruct (at_ h); eauto.
  - apply Hset in Hs. cbn [at_] in Hs. destruct (at_ h); eauto.
Qed.

(** While its owner holds it, a connection stays where it is in its life, or it was up and has reported its end. *)
Lemma owned_step_life e h h' :
  of_user e → at_ h = Owned → healthy (it h) → ref_enabled e h → ref_step e h = Ok h' →
  closed_calls (it h') = closed_calls (it h) ∧ life (state_ (conn (it h'))) = life (state_ (conn (it h))) ∨
  closed_calls (it h') ≠ closed_calls (it h) ∧ closed_calls (it h') = 1%nat ∧ life (state_ (conn (it h))) = Running ∧ life (state_ (conn (it h'))) = Over.
Proof using write_bounded behaviour_allowed.
  intros Hu Ha Hh He Hs. destruct h as [w p n]. cbn [it at_] in *. subst p.
  destruct e as [e|f| | | |b]; cbn [of_user] in Hu; try done.
  - destruct He as [Hne He]. cbn [it at_] in He.
    assert (Hstep : ref_step (Happens e) (mkHeld w Owned n) = (w ← perform sys_write behaviour sys_readv e w; Ok (mkHeld w Owned n))) by by destruct e.
    rewrite Hstep in Hs. apply bind_Ok_inv in Hs as (w' & Hw & [= <-]). cbn [it].
    pose proof (lives_on sys_write write_bounded sys_readv behaviour behaviour_allowed e w Hh He Hne) as Hl. rewrite Hw in Hl.
    destruct Hl as [[Hi' _] [?|(Hc & Hr & Ho)]]; [by left|]. right. split_and!; try done.
    destruct Hh as [Hi _], (ci_closed _ Hi) as [H1 H2], (ci_closed _ Hi') as [H3 _].
    destruct (decide (closed_calls w = 1%nat)) as [E|E]; [rewrite (H2 E) in Hr; done | lia].
  - injection Hs as <-. left. split; done.
  - injection Hs as <-. by left.
  - injection Hs as <-. by left.
Qed.

Lemma user_stands sd e h :
  stands sd h → sd ≠ Fresh → of_user e → ref_enabled e h →
  fine (λ h', closed_calls (it h') = closed_calls (it h) ∧ stands sd h' ∨
              closed_calls (it h') ≠ closed_calls (it h) ∧ sd = InUse ∧ stands Closed h') (ref_step e h).
Proof using All.
  intros Hst Hf Hu He. assert (Hi : refs_inv h) by (destruct sd; [done | apply Hst..]).
  pose proof (ref_step_ok sys_write write_bounded sys_readv behaviour behaviour_allowed behaviour_late e h Hi He) as Hok.
  destruct (ref_step e h) as [h'|f] eqn:Hs; [|exact Hok]. cbn [fine] in *. pose proof (user_step_place e h h' Hu Hs) as Hpl.
  assert (Hgone : at_ h ≠ Owned → at_ h' ≠ Owned → closed_calls (it h') = closed_calls (it h))
    by (intros H1 H2; by rewrite (ri_closed _ Hi H1), (ri_closed _ Hok H2)).
  destruct sd; [done|..].
  - destruct Hst as (_ & Ha & Hl). rewrite Ha in Hpl. pose proof (ri_place _ Hi) as Hh. rewrite Ha in Hh.
    destruct (owned_step_life e h h' Hu Ha (proj1 Hh) He Hs) as [[Hc Hl']|(Hc & Hc1 & _ & Ho)].
    + left. split; [done|]. cbn [stands]. by rewrite Hl'.
    + right. by split_and!.
  - destruct Hst as (_ & Ha & Hl & Hc). rewrite Ha in Hpl. pose proof (ri_place _ Hi) as Hh. rewrite Ha in Hh.
    destruct (owned_step_life e h h' Hu Ha (proj1 Hh) He Hs) as [[Hc' Hl']|(_ & _ & Hr & _)]; [|congruence].
    left. split; [done|]. cbn [stands]. rewrite Hl', Hc'. done.
  - destruct Hst as (_ & n & Ha). rewrite Ha in Hpl. destruct Hpl as [n' Ha']. left. split; [apply Hgone; congruence|]. split; [done | by exists n'].
  - destruct Hst as (_ & Ha). assert (Hpl' : at_ h' = Removed ∨ at_ h' = Freed) by (destruct Ha as [Ha|Ha]; by rewrite Ha in Hpl).
    left. split; [apply Hgone; destruct Ha, Hpl'; congruence|]. by split.
Qed.
End Owner.

(** A new connection on a loop at rest, held by its owner and nobody else. *)
Lemma born_stands name fd l wc lp :
  clean_loop l fd lp → at_rest lp → ∃ w, newConnection name fd l wc false lp = Ok w ∧ stands Fresh (mkHeld w Owned 0).
Proof. intros Hc Hr. destruct (born name fd l wc false lp Hc Hr) as (w & Hw & Hh & Hl). by exists w. Qed.

(** ** All the connections of an owner

    [view] is what the owner believes of each address. *)
Definition all_stand (view : loc → option standing) (objects : gmap loc held) : Prop :=
  ∀ c, match view c, objects !! c with
       | Some sd, Some h => stands sd h
       | None, None => True
       | _, _ => False
       end.

Lemma view_object view objects c sd : all_stand view objects → view c = Some sd → ∃ h, objects !! c = Some h ∧ stands sd h.
Proof. intros Ha Hv. specialize (Ha c). rewrite Hv in Ha. destruct (objects !! c) as [h|]; [by exists h | done]. Qed.

Lemma object_view view objects c h : all_stand view objects → objects !! c = Some h → ∃ sd, view c = Some sd ∧ stands sd h.
Proof. intros Ha Hh. specialize (Ha c). rewrite Hh in Ha. destruct (view c) as [sd|]; [by exists sd | done]. Qed.

Lemma all_stand_frame view view' objects : all_stand view objects → (∀ c, view' c = view c) → all_stand view' objects.
Proof. intros Ha Hv c. rewrite Hv. apply Ha. Qed.

(** A change at one connection. *)
Lemma all_stand_set view view' objects c sd h :
  all_stand view objects → (∀ c', c' ≠ c → view' c' = view c') → view' c = Some sd → stands sd h → all_stand view' (<[c := h]> objects).
Proof.
  intros Ha Hv Hc Hh c'. destruct (decide (c' = c)) as [->|Hne]; [by rewrite lookup_insert_eq, Hc|].
  rewrite lookup_insert_ne, Hv by done. apply Ha.
Qed.
