(* ===== verification/ConnectionEvents.v ===== *)
(** * One event of a connection

    An event of a connection is a part in which nothing is sent, followed by at most one call of the
    user's callbacks ([event_splits]): with that, what a program on top of the connection sends is a
    function of what it has read.  [whole]: what a send does while the peer is there. *)
From stdpp Require Import base list gmap numbers strings.
From Stdlib Require Import ZArith Lia Init.Byte.
From S2P Require Import Prelude.
From S2P Require Import ByteBuffer.
From S2P Require Import Channel.
From S2P Require Import Poller.
From S2P Require Import EventLoop.
From S2P Require Import EventLoopSpec.
From S2P Require Import TcpConnection.
From S2P Require Import TcpConnectionSpec.
From S2P Require Import ConnectionTheorems.
Import EventLoop.EventLoop TcpConnection.TcpConnection.
#[local] Open Scope Z_scope.
#[local] Open Scope fm_scope.

(** What an event hands to the connection. *)
Definition data (r : Buffer.readv_outcome) (e : event) : list byte :=
  match e, r with Report CbRead _, Buffer.ReadvData d => d | _, _ => [] end.

(** An event of a connection whose [readv] answers [r] now. *)
Definition connection_event (sys_write : nat → list byte → write_outcome)
    (behaviour : user_event → world → list user_call) (r : Buffer.readv_outcome) (e : event) (w : world) : result world :=
  perform sys_write behaviour (λ _, r) e w.

(** Nobody but the callbacks uses the connections. *)
Definition internal (e : event) : Prop := match e with Call _ _ => False | _ => True end.

(** The input that waits to be retrieved. *)
Definition input (w : world) : list byte := Buffer.content (input_buffer_ (conn w)).

(** Only the connection's own callbacks are queued. *)
Definition idle_queue (w : world) : Prop := Forall free_functor (pending_functors_ (loop_ w)).

Lemma steady_idle w w' : steady w w' → idle_queue w → idle_queue w'.
Proof. intros [_ _ (fs & Hp & Hfs)] Hi. unfold idle_queue. rewrite Hp. by apply Forall_app. Qed.

(** ** One event *)
Section Event.
Variable sys_write : nat → list byte → write_outcome.
Hypothesis write_bounded : ∀ n d k, sys_write n d = Wrote k → 0 ≤ k ≤ zlen d.
Variable behaviour : user_event → world → list user_call.
(** Nothing is done when output has been written. *)
Hypothesis silent : ∀ e w, match e with OnWriteComplete | OnHighWaterMark _ => behaviour e w = [] | _ => True end.

(** How an event goes on after the part that leads from [w] to [w1]. *)
Inductive course (r : Buffer.readv_outcome) (e : event) (w w1 w' : world) : Prop :=
  | goes_nowhere : w' = w1 → state_ (conn w1) = state_ (conn w) → data r e = [] → course r e w w1 w'
  | goes_up self : e = Establish self → state_ (conn w) = kConnecting → state_ (conn w1) = kConnected → data r e = [] →
      user sys_write behaviour OnConnection w1 = Ok w' → course r e w w1 w'
  | goes_in t : e = Report CbRead t → state_ (conn w) = kConnected ∨ state_ (conn w) = kDisconnecting → state_ (conn w1) = state_ (conn w) →
      data r e ≠ [] → user sys_write behaviour (OnMessage t) w1 = Ok w' → course r e w w1 w'
  | goes_down w2 : state_ (conn w) = kConnected ∨ state_ (conn w) = kDisconnecting → state_ (conn w1) = kDisconnected →
      closed_calls w1 = 0%nat → data r e = [] → user sys_write behaviour OnConnection w1 = Ok w2 → w' = close_callback w2 → course r e w w1 w'.

(** The first part: nothing is sent, what was read is in the input buffer. *)
Record lead (d : list byte) (w w1 : world) : Prop := {
  le_cinv : cinv w1;
  le_stream : stream w1 = stream w;
  le_written : written w `prefix_of` written w1;
  le_strings : strings w1 = strings w;
  le_idle : idle_queue w1;
  le_input : input w1 = input w ++ d
}.

Lemma lead_of d w w1 :
  good w w1 → steady w w1 → idle_queue w → input w1 = input w ++ d → lead d w w1.
Proof. intros [Hi He] Hs Hq Hin. constructor; try done; [apply Hs | apply He | apply Hs | by eapply steady_idle]. Qed.

Lemma close_splits r e w w0 w' :
  data r e = [] → state_ (conn w) = kConnected ∨ state_ (conn w) = kDisconnecting →
  lead [] w w0 → state_ (conn w0) = state_ (conn w) → handleClose sys_write behaviour true w0 = Ok w' →
  ∃ w1, lead [] w w1 ∧ course r e w w1 w'.
Proof using write_bounded.
  intros Hd Hs Hl Hs0 Hc. pose proof Hl as [Hi Hstr Hwr Hstg Hq Hin]. rewrite <- Hs0 in Hs.
  unfold handleClose in Hc. cbn [assertInLoopThread ensure] in Hc. rewrite bind_Ok, bool_decide_eq_true_2 in Hc by done.
  cbn [ensure] in Hc. rewrite bind_Ok in Hc.
  destruct (take_down w0 Hi Hs) as (w1 & Ht & [Hi1 He1] & Hst1 & Hcl1 & Hsy & Hin1).
  rewrite Ht, bind_Ok in Hc. apply bind_Ok_inv in Hc as (w2 & Hu & Hw'). injection Hw' as <-.
  exists w1. split; [|by eapply goes_down; rewrite <- ?Hs0]. constructor; try done.
  - by rewrite (sy_stream _ _ Hsy).
  - etrans; [exact Hwr | apply He1].
  - by rewrite (sy_strings _ _ Hsy).
  - by eapply steady_idle.
  - unfold input in *. by rewrite Hin1.
Qed.

Lemma functor_splits r w w' :
  cinv w → idle_queue w → perform sys_write behaviour (λ _, r) Functor w = Ok w' →
  ∃ w1, lead [] w w1 ∧ course r Functor w w1 w'.
Proof using silent write_bounded.
  intros Hi Hq Hp. exists w'.
  unfold perform in Hp. unfold idle_queue in Hq. destruct (pending_functors_ (loop_ w)) as [|f rest] eqn:Hpe.
  - injection Hp as <-. split; [|by apply goes_nowhere].
    constructor; try done; [unfold idle_queue; by rewrite Hpe | by rewrite app_nil_r].
  - inversion_clear Hq as [|?? Hff Hrest]. set (w1 := on_loop (set_pending rest) w) in *.
    assert (w' = w1) as ->.
    { destruct f; try done; cbn [run_functor] in Hp; unfold user in Hp.
      - pose proof (silent OnWriteComplete w1) as Hb. simpl in Hb. rewrite Hb in Hp. by injection Hp.
      - pose proof (silent (OnHighWaterMark n) w1) as Hb. simpl in Hb. rewrite Hb in Hp. by injection Hp. }
    split; [|by apply goes_nowhere]. constructor; try done; [|by rewrite app_nil_r].
    apply cinv_pop; [done|]. pose proof (ci_pending _ Hi) as Hall. rewrite Hpe in Hall. by inversion Hall.
Qed.

Lemma event_splits r e w w' :
  cinv w → idle_queue w → internal e → enabled (λ _, r) e w →
  connection_event sys_write behaviour r e w = Ok w' →
  ∃ w1, lead (data r e) w w1 ∧ course r e w w1 w'.
Proof using silent write_bounded.
  intros Hi Hq Hint He Hp. unfold connection_event in Hp.
  assert (Hself : lead [] w w) by (constructor; try done; by rewrite app_nil_r).
  destruct e as [self|[] t| |]; try done.
  - destruct (establish_ok sys_write write_bounded behaviour self w Hi He) as (w1 & Hg & Hsy & Hst & Hin & Heq).
    cbn [perform] in Hp. rewrite Heq in Hp. exists w1. split; [|by eapply goes_up].
    apply lead_of; try done. unfold input. by rewrite Hin, app_nil_r.
  - destruct He as [Hs Hfit]. cbn [perform run_callback] in Hp.
    destruct (handleRead_cases sys_write behaviour (λ _, r) t w Hi Hfit) as (w1 & Hg & Hsy & Hst & Hin & Heq).
    rewrite Heq in Hp. cbn beta in *. destruct r as [[|b d]|er].
    + exact (close_splits (Buffer.ReadvData []) (Report CbRead t) w w1 w' eq_refl Hs (lead_of _ _ _ Hg Hsy Hq Hin) Hst Hp).
    + exists w1. split; [by apply lead_of|]. by eapply goes_in.
    + exists w1. split; [by apply lead_of|]. apply goes_nowhere; [by injection Hp as <- | done | done].
  - cbn [perform run_callback] in Hp.
    destruct (handleWrite_exact sys_write write_bounded w Hi) as (w1 & Hw & Hg & (Hsy & Hst & Hin) & _).
    rewrite Hw in Hp. injection Hp as <-. exists w1. split; [|by apply goes_nowhere].
    apply lead_of; try done. unfold input. cbn [data]. by rewrite Hin, app_nil_r.
  - exact (close_splits r (Report CbClose t) w w w' eq_refl He Hself eq_refl Hp).
  - cbn [perform run_callback handleError] in Hp. injection Hp as <-. exists w. split; [done|]. by apply goes_nowhere.
  - by apply functor_splits.
Qed.
End Event.

Lemma close_callback_cinv w :
  cinv w → state_ (conn w) = kDisconnected → closed_calls w = 0%nat → cinv (close_callback w).
Proof. intros [] Hs Hc. constructor; try done. simpl. rewrite Hc. split; [lia | done]. Qed.

(** ** Sending while the peer is there *)
Section Sending.
Variable sys_write : nat → list byte → write_outcome.
Hypothesis write_bounded : ∀ n d k, sys_write n d = Wrote k → 0 ≤ k ≤ zlen d.
(** The peer is there: a write may fail, but not because the other end is gone. *)
Hypothesis peer_stays : ∀ n d e, sys_write n d = WriteErr e → e ≠ EPIPE ∧ e ≠ ECONNRESET.

(** A message accepted whole, and nothing else changed that matters here. *)
Record whole (msg : list byte) (w w' : world) : Prop := {
  wh_cinv : cinv w';
  wh_stream : stream w' = stream w ++ msg;
  wh_written : written w `prefix_of` written w';
  wh_strings : strings w' = strings w;
  wh_idle : idle_queue w';
  wh_input : input_buffer_ (conn w') = input_buffer_ (conn w);
  wh_state : state_ (conn w') = kConnected
}.

Lemma sent_whole msg w w' :
  cinv w → state_ (conn w) = kConnected → idle_queue w → sent sys_write msg w w' → whole msg w w'.
Proof using write_bounded peer_stays.
  intros Hi Hs Hq Hsent. destruct (sent_good sys_write write_bounded msg w w' Hi Hs Hsent) as (Hi' & He' & _).
  destruct (sent_functors _ _ _ _ Hsent) as (fs & Hfs & Hfree). destruct (se_conn _ _ _ _ Hsent) as [o Hcn].
  constructor; try done.
  - destruct (sent_accepted _ _ _ _ Hsent) as [|(_ & [Hx|Hx] & _)]; [done|..]; apply peer_stays in Hx; tauto.
  - apply He'.
  - apply (se_rest _ _ _ _ Hsent).
  - unfold idle_queue. rewrite Hfs. by apply Forall_app.
  - by rewrite Hcn.
  - by rewrite Hcn.
Qed.

Lemma sendInLoop_whole msg w w' :
  cinv w → state_ (conn w) = kConnected → idle_queue w → zlen msg ≤ Buffer.max_size →
  sendInLoop sys_write true msg w = Ok w' → whole msg w w'.
Proof using write_bounded peer_stays.
  intros Hi Hs Hq Hm Hr. apply sent_whole; try done.
  pose proof (send_connected_ok sys_write write_bounded w msg Hi Hs Hm) as Hf. by rewrite Hr in Hf.
Qed.

Lemma input_small w : cinv w → zlen (input w) ≤ Buffer.max_size.
Proof. intros Hi. by apply (get_buffer_ok InputBuffer _ w Hi). Qed.
End Sending.

(** ** A new connection *)
Section New.
Variables (name : list byte) (fd : Z) (l : loc) (wc hw : bool) (lp : EventLoop functor channel_cb) (w0 : world).
Hypothesis loop_clean : clean_loop l fd lp.
Hypothesis constructed : newConnection name fd l wc hw lp = Ok w0.

Lemma new_idle : idle_queue w0 ∧ input w0 = [] ∧ strings w0 = ∅.
Proof using loop_clean constructed.
  unfold newConnection in constructed.
  destruct (Buffer.new_spec Buffer.kInitialSize) as (b & Hb & Hwf & Hc & _); [done..|].
  rewrite Hb, !bind_Ok in constructed. cbv zeta in constructed. injection constructed as <-.
  split; [|by split]. unfold idle_queue. cbn [loop_ addChannel set_poller pending_functors_].
  by rewrite (cl_pending _ _ _ loop_clean).
Qed.
End New.
