(* ===== verification/HttpSession.v ===== *)
(** * A connection of the HTTP server from its start

    The events of a connection ([ConnectionEvents]) with the callbacks that [HttpServer]'s constructor gives the
    TCP server: a new connection gets a parser, and what is read goes to [onMessage].  Next to it, what the
    connection is to do, as a function on the bytes read ([take_in], [session_after]). *)
From stdpp Require Import base list gmap numbers strings.
From Stdlib Require Import ZArith Lia Init.Byte.
From S2P Require Import Prelude.
From S2P Require Import ByteBuffer.
From S2P Require Import HttpMessage.
From S2P Require Import HttpReply.
From S2P Require Import HttpParser.
From S2P Require Import EventLoop.
From S2P Require Import TcpConnection.
From S2P Require Import TcpConnectionSpec.
From S2P Require Import ConnectionEvents.
From S2P Require Import HttpService.
From S2P Require Import HttpServiceSpec.
Import HttpParser.HttpContext TcpConnection.TcpConnection HttpService.HttpServer.
#[local] Open Scope Z_scope.
#[local] Open Scope fm_scope.

Module HttpSession.

(** The server's callbacks run behind the connection's own part of an event, see [http_event]. *)
Definition quiet (e : user_event) (w : world) : list user_call := [].

(** What an event brings in: the time of the poll and the bytes. *)
Definition arrivals (r : Buffer.readv_outcome) (e : event) : list (Z * list byte) :=
  match e with
  | Report CbRead t => if decide (data r e = []) then [] else [(t, data r e)]
  | _ => []
  end.

Section Serving.
Variable sys_write : nat → list byte → write_outcome.
Variable iteration : HeaderMap → list (list byte * list byte).
Variable httpCallback : HttpRequest → HttpResponse → result HttpResponse.
Variable moved_from : HttpRequest → list byte * list byte * HeaderMap.

(** [src/net/http/HttpServer.cpp:26-39 HttpServer::HttpServer] An event of a connection with the callbacks the constructor
    installs, [None] when it does not return.  (The connection callback does nothing for a closed connection.) *)
Definition http_event (r : Buffer.readv_outcome) (e : event) (s : http) : option (result http) :=
  match connection_event sys_write quiet r e (net s) with
  | Fault f => Some (Fault f)
  | Ok w =>
      let s := set_net w s in
      match e with
      | Establish _ => Some (Ok (onConnection s))
      | Report CbRead t =>
          if decide (data r e = []) then Some (Ok s)
          else onMessage sys_write iteration httpCallback moved_from (enough (input w)) t s
      | _ => Some (Ok s)
      end
  end.

(** A connection and what it has read, nobody but the server using it. *)
Inductive hosts (s0 : http) : list (Z * list byte) → http → Prop :=
  | host_start : hosts s0 [] s0
  | host_step r e reads s s' : hosts s0 reads s → internal e → enabled (λ _, r) e (net s) →
      http_event r e s = Some (Ok s') → hosts s0 (reads ++ arrivals r e) s'.
End Serving.

(** ** What a connection does, as a function *)

(** The parser, the bytes that it has not consumed, what has been answered, and whether answers are still sent. *)
Record session := mkSession {
  parser : HttpContext;
  unread : list byte;
  answers : list byte;
  open : bool
}.

Definition new_session : session := mkSession newContext [] [] true.

Section Sessions.
Variable iteration : HeaderMap → list (list byte * list byte).
Variable httpCallback : HttpRequest → HttpResponse → result HttpResponse.

(** One read: at most one request is answered.  [None]: the parser does not come back. *)
Definition take_in (t : Z) (d : list byte) (ss : session) : option (result session) :=
  let l := unread ss ++ d in
  match feed (enough l) t (parser ss) l with
  | Waiting c rest => Some (Ok (mkSession c rest (answers ss) (open ss)))
  | Complete req rest =>
      Some (response ← httpCallback req (HttpResponse.newResponse (wants_close req));
            Ok (mkSession (mkContext kParseRequestLine (HttpRequest.clear req)) rest
                  (answers ss ++ if open ss then wire iteration response else [])
                  (open ss && negb (HttpResponse.isCloseConnection response))))
  | Stuck => None
  end.

Fixpoint session_after (reads : list (Z * list byte)) (ss : session) : option (result session) :=
  match reads with
  | [] => Some (Ok ss)
  | (t, d) :: reads =>
      match take_in t d ss with
      | Some (Ok ss) => session_after reads ss
      | r => r
      end
  end.
End Sessions.
End HttpSession.
