(* ===== verification/HttpSessionSpec.v ===== *)
(** * What a connection of the HTTP server does with what it reads

    [http_session_refines]: the connection of the model computes [session_after], the function on the bytes read.  From that,
    what a client gets that waits for each answer, and what one gets that does not. *)
From stdpp Require Import base list gmap numbers strings.
From Stdlib Require Import ZArith Lia Init.Byte.
From S2P Require Import Prelude.
From S2P Require Import ByteBuffer.
From S2P Require Import HttpMessage.
From S2P Require Import HttpReply.
From S2P Require Import HttpParser.
From S2P Require Import HttpParserSpec.
From S2P Require Import HttpParserTyping.
From S2P Require Import Channel.
From S2P Require Import Poller.
From S2P Require Import EventLoop.
From S2P Require Import EventLoopSpec.
From S2P Require Import TcpConnection.
From S2P Require Import TcpConnectionSpec.
From S2P Require Import ConnectionTheorems.
From S2P Require Import ConnectionEvents.
From S2P Require Import ThreadPool.
From S2P Require Import HttpService.
From S2P Require Import HttpServiceSpec.
From S2P Require Import HttpSession.
Import EventLoop.EventLoop HttpParser.HttpContext TcpConnection.TcpConnection HttpService.HttpServer HttpSession.HttpSession.
#[local] Open Scope Z_scope.
#[local] Open Scope fm_scope.

Section Session.
Variable sys_write : nat → list byte → write_outcome.
Hypothesis write_bounded : ∀ n d k, sys_write n d = Wrote k → 0 ≤ k ≤ zlen d.
Hypothesis peer_stays : ∀ n d e, sys_write n d = WriteErr e → e ≠ EPIPE ∧ e ≠ ECONNRESET.
Variable iteration : HeaderMap → list (list byte * list byte).
Variable httpCallback : HttpRequest → HttpResponse → result HttpResponse.
Variable moved_from : HttpRequest → list byte * list byte * HeaderMap.
Hypothesis callback_sendable : ∀ req resp, line_typed req →
  httpCallback req (HttpResponse.newResponse (wants_close req)) = Ok resp → sendable iteration resp.

(** ** One call of the message callback *)

(** What it leaves: the parser, the unread bytes, what has been sent, and the connection's state. *)
Record handled (c : HttpContext) (rest more : list byte) (st : StateE) (s s' : http) : Prop := {
  ha_cinv : cinv (net s');
  ha_idle : idle_queue (net s');
  ha_stream : stream (net s') = stream (net s) ++ more;
  ha_input : input (net s') = rest;
  ha_state : state_ (conn (net s')) = st;
  ha_context : user_context_ s' = Some c;
  ha_pool : threadPool_ s' = threadPool_ s
}.

(** On a connection that is not up any more a response goes nowhere. *)
Lemma response_dropped req resp w :
  state_ (conn w) ≠ kConnected → httpCallback req (HttpResponse.newResponse (wants_close req)) = Ok resp → sendable iteration resp →
  fine (λ w', w' = w) (onRequestInThreadPool sys_write iteration httpCallback true req w).
Proof using Type.
  intros Hs Hcb Hr. unfold onRequestInThreadPool. cbv zeta. fold (wants_close req).
  rewrite Hcb, bind_Ok. destruct (Buffer.new_spec Buffer.kInitialSize) as (b0 & -> & Hb0 & _ & _); [done..|].
  rewrite bind_Ok. eapply fine_bind; [by apply response_buffer|]. intros buf _.
  unfold send_buffer. rewrite decide_False by exact Hs. rewrite bind_Ok. unfold shutdown. cbn [conn set_buffers].
  rewrite decide_False by exact Hs.
  assert (Hd : delete (fresh (dom (buffers w))) (<[fresh (dom (buffers w)) := buf]> (buffers w)) = buffers w)
    by (rewrite delete_insert_id; [done|]; apply not_elem_of_dom, is_fresh).
  destruct (HttpResponse.isCloseConnection resp); rewrite bind_Ok; cbn [fine buffers set_buffers]; rewrite Hd; by destruct w.
Qed.

Lemma response_sent req resp w :
  cinv w → idle_queue w → state_ (conn w) = kConnected →
  httpCallback req (HttpResponse.newResponse (wants_close req)) = Ok resp → sendable iteration resp →
  fine (λ w', cinv w' ∧ idle_queue w' ∧ stream w' = stream w ++ wire iteration resp ∧
          input_buffer_ (conn w') = input_buffer_ (conn w) ∧
          state_ (conn w') = if HttpResponse.isCloseConnection resp then kDisconnecting else kConnected)
    (onRequestInThreadPool sys_write iteration httpCallback true req w).
Proof using All.
  intros Hi Hq Hs Hcb Hr.
  eapply fine_impl; [by apply (onRequestInThreadPool_ok sys_write write_bounded iteration httpCallback req resp)|].
  intros w' (H1 & H2 & H3 & H4 & _ & _ & _ & fs & Hp & Hf). split_and!; try done.
  - unfold idle_queue. rewrite Hp. by apply Forall_app.
  - destruct H2 as [|(_ & [Hx|Hx] & _)]; [done|..]; apply peer_stays in Hx; tauto.
Qed.

Lemma onMessage_takes t s c :
  cinv (net s) → idle_queue (net s) → user_context_ s = Some c → typed c → ThreadPool.threads_ (threadPool_ s) = [] →
  let l := input (net s) in
  let r := onMessage sys_write iteration httpCallback moved_from (enough l) t s in
  let up := bool_decide (state_ (conn (net s)) = kConnected) in
  match feed (enough l) t c l with
  | Stuck => r = None
  | Waiting c' rest => ∃ s', r = Some (Ok s') ∧ handled c' rest [] (state_ (conn (net s))) s s'
  | Complete req rest =>
      match httpCallback req (HttpResponse.newResponse (wants_close req)) with
      | Fault f => r = Some (Fault f)
      | Ok resp => ∃ s', r = Some s' ∧ fine (handled (mkContext kParseRequestLine (HttpRequest.clear req)) rest
          (if up then wire iteration resp else [])
          (if up then if HttpResponse.isCloseConnection resp then kDisconnecting else kConnected
           else state_ (conn (net s))) s) s'
      end
  end.
Proof using All.
  intros Hi Hq Hc Hty Hpool l r up. unfold r, onMessage. rewrite Hc.
  pose proof (parse_feed t c (input_buffer_ (conn (net s))) (ci_in _ Hi)) as H. fold (input (net s)) l in H.
  destruct (feed (enough l) t c l) as [c' rest|req rest|] eqn:Hf; [| |by rewrite H];
    destruct H as (b' & -> & Hb' & Hc'); cbn [ok ctx buf]; set (w1 := set_conn (set_input b' (conn (net s))) (net s));
    (assert (Hi1 : cinv w1) by (apply (set_input_good b' (net s) Hi Hb'))).
  - rewrite (resumable_not_done c').
    + eexists. split; [reflexivity|]. constructor; try done. by rewrite app_nil_r.
    + eapply feed_waiting_resumable; [|exact Hf]. unfold resumable. rewrite feed_unfold in Hf. destruct (HttpContext.state_ c); auto; done.
  - unfold isAllDone. rewrite bool_decide_eq_true_2 by done.
    destruct (HttpRequest.moveRequest (moved_from (request_ (mkContext kAllDone req))) (request_ (mkContext kAllDone req))) as [req' moved] eqn:Hmove.
    assert (req' = req ∧ HttpRequest.clear moved = HttpRequest.clear req) as [-> Hclear].
    { unfold HttpRequest.moveRequest in Hmove. destruct (moved_from _) as [[? ?] ?]. injection Hmove as <- <-. by destruct req. }
    unfold onRequest, ThreadPool.submit. cbn [threadPool_]. rewrite bool_decide_eq_true_2 by done. cbn [net]. fold w1.
    destruct (httpCallback req (HttpResponse.newResponse (wants_close req))) as [resp|f] eqn:Hcb.
    2:{ unfold onRequestInThreadPool. cbv zeta. fold (wants_close req). by rewrite Hcb. }
    assert (Hr : sendable iteration resp) by (eapply callback_sendable; [|done]; pose proof (feed_typed (enough l) t c l Hty) as Hx; rewrite Hf in Hx; by apply Hx).
    assert (Hf1 : fine (λ w', cinv w' ∧ idle_queue w' ∧ stream w' = stream w1 ++ (if up then wire iteration resp else []) ∧
          input_buffer_ (conn w') = input_buffer_ (conn w1) ∧
          state_ (conn w') = (if up then if HttpResponse.isCloseConnection resp then kDisconnecting else kConnected
            else state_ (conn (net s)))) (onRequestInThreadPool sys_write iteration httpCallback true req w1)).
    { unfold up. case_bool_decide as Hs; [by eapply response_sent|].
      eapply fine_impl; [by eapply response_dropped|]. intros w' ->. by rewrite app_nil_r. }
    destruct (onRequestInThreadPool _ _ _ true req w1) as [w2|f]; [|by exists (Fault f)].
    rewrite bind_Ok. destruct Hf1 as (H1 & H2 & H3 & H4 & H5). eexists. split; [reflexivity|].
    constructor; try done.
    + unfold input. cbn [net set_context set_net]. by rewrite H4.
    + cbn [user_context_ set_context reset request_]. unfold reset. cbn [request_]. by rewrite Hclear.
Qed.

(** ** Any event *)

(** A connection that has done what the function says. *)
Record follows (s : http) (ss : session) : Prop := {
  fo_cinv : cinv (net s);
  fo_idle : idle_queue (net s);
  fo_typed : typed (parser ss);
  fo_pool : ThreadPool.threads_ (threadPool_ s) = [];
  fo_stream : stream (net s) = answers ss;
  fo_input : input (net s) = unread ss;
  fo_state : match state_ (conn (net s)) with
             | kConnecting => ss = new_session
             | kConnected => user_context_ s = Some (parser ss) ∧ open ss = true
             | kDisconnecting => user_context_ s = Some (parser ss) ∧ open ss = false
             | kDisconnected => True
             end
}.

Lemma follows_read t d s s1 ss :
  follows s ss → state_ (conn (net s)) = kConnected ∨ state_ (conn (net s)) = kDisconnecting →
  lead d (net s) (net s1) → state_ (conn (net s1)) = state_ (conn (net s)) →
  user_context_ s1 = user_context_ s → threadPool_ s1 = threadPool_ s →
  match onMessage sys_write iteration httpCallback moved_from (enough (input (net s1))) t s1 with
  | None => take_in iteration httpCallback t d ss = None
  | Some (Fault f) => f = LengthError ∨ take_in iteration httpCallback t d ss = Some (Fault f)
  | Some (Ok s') => ∃ ss', take_in iteration httpCallback t d ss = Some (Ok ss') ∧ follows s' ss'
  end.
Proof using All.
  intros [Hi Hq Hty Hpool Hst Hin Hs] Hup [Hi1 Hst1 _ _ Hq1 Hin1] Hs1 Hctx Hp1.
  assert (Hc : user_context_ s1 = Some (parser ss)) by (rewrite Hctx; destruct Hup as [Hk|Hk]; rewrite Hk in Hs; apply Hs).
  assert (Ho : open ss = bool_decide (state_ (conn (net s1)) = kConnected)) by (rewrite Hs1; destruct Hup as [Hk|Hk]; rewrite Hk in *; apply Hs).
  pose proof (onMessage_takes t s1 (parser ss) Hi1 Hq1 Hc Hty ltac:(by rewrite Hp1)) as H. cbv zeta in H.
  unfold take_in. rewrite <- Hin, <- Hin1. pose proof (feed_typed (enough (input (net s1))) t (parser ss) (input (net s1)) Hty) as Hfty.
  destruct (feed _ t (parser ss) (input (net s1))) as [c' rest|req rest|]; [| |by rewrite H].
  - destruct H as (s' & -> & [H1 H2 H3 H4 H5 H6 H7]). eexists. split; [done|].
    constructor; try done; [by rewrite H7, Hp1 | cbn [answers]; by rewrite H3, app_nil_r, Hst1 |].
    rewrite H5, Hs1, H6. cbn [parser open]. rewrite Ho, Hs1. by destruct Hup as [-> | ->].
  - destruct (httpCallback req _) as [resp|f]; [|rewrite H; by right]. destruct H as (r & -> & Hh). rewrite bind_Ok.
    destruct r as [s'|f]; [|by left]. destruct Hh as [H1 H2 H3 H4 H5 H6 H7]. eexists. split; [done|].
    assert (Htyped : typed (mkContext kParseRequestLine (HttpRequest.clear req))) by apply (reset_typed (mkContext kAllDone req)).
    rewrite <- Ho in H3, H5. constructor; try done; cbn [answers parser open].
    + by rewrite H7, Hp1.
    + by rewrite H3, Hst1, Hst.
    + rewrite H5, H6. destruct (open ss); [by destruct (HttpResponse.isCloseConnection resp)|].
      rewrite Hs1. by destruct Hup as [Hk|Hk]; [rewrite Hs1, Hk in Ho | rewrite Hk].
Qed.

Lemma follows_step r e s ss :
  follows s ss → internal e → enabled (λ _, r) e (net s) →
  match http_event sys_write iteration httpCallback moved_from r e s with
  | None => session_after iteration httpCallback (arrivals r e) ss = None
  | Some (Fault f) => f = LengthError ∨ session_after iteration httpCallback (arrivals r e) ss = Some (Fault f)
  | Some (Ok s') => ∃ ss', session_after iteration httpCallback (arrivals r e) ss = Some (Ok ss') ∧ follows s' ss'
  end.
Proof using All.
  intros Hfo Hint He. pose proof Hfo as [Hi Hq Hty Hpool Hst Hin Hs]. unfold http_event.
  destruct (connection_event sys_write quiet r e (net s)) as [w'|f] eqn:Hev.
  2:{ pose proof (perform_ok sys_write write_bounded quiet ltac:(by intros ??? ?%elem_of_nil) (λ _, r) e (net s) Hi He) as Hf.
      unfold connection_event in Hev. left. by rewrite Hev in Hf. }
  destruct (event_splits sys_write write_bounded quiet ltac:(by intros []) r e (net s) w' Hi Hq Hint He Hev) as (w1 & Hl & Hc).
  assert (Hno : data r e = [] → arrivals r e = []) by (intros Hd; unfold arrivals; rewrite Hd; by destruct e as [|[]| |]).
  destruct Hc as [-> Hst1 Hd|self -> Hst0 Hst1 Hd Hu|t -> Hup Hst1 Hd Hu|w2 Hup Hst1 Hcl Hd Hu ->].
  - assert (Hsame : follows (set_net w1 s) ss).
    { constructor; try apply Hl; try done; cbn [net set_net user_context_ threadPool_]; [by rewrite (le_stream _ _ _ Hl) | |by rewrite Hst1].
      by rewrite (le_input _ _ _ Hl), Hd, app_nil_r. }
    rewrite Hno by done. destruct e as [self|[] t| |]; try (by exists ss); [|by rewrite decide_True by done; exists ss].
    exists ss. split; [done|]. unfold onConnection, isConnected. cbn [net set_net]. by rewrite bool_decide_eq_false_2 by (by rewrite Hst1, He).
  - injection Hu as <-. rewrite Hst0 in Hs. subst ss. rewrite Hno by done. exists new_session. split; [done|].
    unfold onConnection, isConnected. cbn [net set_net]. rewrite bool_decide_eq_true_2 by done.
    constructor; try apply Hl; try done; cbn [net set_net set_context]; [by rewrite (le_stream _ _ _ Hl) | | by rewrite Hst1].
    by rewrite (le_input _ _ _ Hl), Hd, app_nil_r.
  - injection Hu as <-. rewrite decide_False by done. unfold arrivals. rewrite decide_False by done. cbn [session_after].
    pose proof (follows_read t (data r (Report CbRead t)) s (set_net w1 s) ss Hfo Hup Hl Hst1 eq_refl eq_refl) as H. cbn [net set_net] in H.
    destruct (onMessage _ _ _ _ _ t _) as [[s'|f]|]; [|destruct H as [H|H]; [by left | right; by rewrite H]|by rewrite H].
    destruct H as (ss' & -> & Hf). by exists ss'.
  - injection Hu as <-. rewrite Hno by done.
    assert (Hdown : follows (set_net (close_callback w1) s) ss).
    { constructor; cbn [net set_net]; [by apply close_callback_cinv; [apply (le_cinv _ _ _ Hl)|..] | apply (le_idle _ _ _ Hl) | done | done | | |].
      - exact (eq_trans (le_stream _ _ _ Hl) Hst).
      - rewrite <- Hin. pose proof (le_input _ _ _ Hl) as Hx. rewrite Hd, app_nil_r in Hx. exact Hx.
      - cbn [conn close_callback]. by rewrite Hst1. }
    destruct e as [self|[] t| |]; try (by exists ss); [|by rewrite decide_True by done; exists ss].
    exists ss. split; [done|]. unfold onConnection, isConnected. cbn [net set_net conn close_callback]. by rewrite bool_decide_eq_false_2 by (by rewrite Hst1).
Qed.

(** ** A whole history *)

Lemma session_after_app reads1 reads2 ss :
  session_after iteration httpCallback (reads1 ++ reads2) ss =
  match session_after iteration httpCallback reads1 ss with Some (Ok ss') => session_after iteration httpCallback reads2 ss' | r => r end.
Proof using Type.
  revert ss. induction reads1 as [|[t d] reads1 IH]; intros ss; [done|]. cbn [app session_after].
  by destruct (take_in _ _ t d ss) as [[]|].
Qed.

Variables (name : list byte) (fd : Z) (l : loc) (wc hw : bool) (lp : EventLoop functor channel_cb) (w0 : world).
Hypothesis loop_clean : clean_loop l fd lp.
Hypothesis constructed : newConnection name fd l wc hw lp = Ok w0.
Variable pool : ThreadPool (T := HttpRequest).
Hypothesis no_workers : ThreadPool.threads_ pool = [].

Lemma hosts_follows reads s :
  hosts sys_write iteration httpCallback moved_from (mkHttp w0 None pool) reads s →
  ∃ ss, session_after iteration httpCallback reads new_session = Some (Ok ss) ∧ follows s ss.
Proof using All.
  induction 1 as [|r e reads s s' _ (ss & Hss & Hfo) Hint He Hp].
  - exists new_session. split; [done|]. destruct (start_cinv name fd l wc hw lp w0 loop_clean constructed) as (Hi & Hs & Hstr).
    destruct (new_idle name fd l wc hw lp w0 loop_clean constructed) as (Hq & Hin & _).
    constructor; try done; [apply new_typed | cbn [net]; by rewrite Hs].
  - pose proof (follows_step r e s ss Hfo Hint He) as H. rewrite Hp in H. destruct H as (ss' & Hss' & Hfo').
    exists ss'. split; [|done]. by rewrite session_after_app, Hss.
Qed.

(** One more event of a history. *)
Lemma hosts_next reads s ss :
  hosts sys_write iteration httpCallback moved_from (mkHttp w0 None pool) reads s →
  session_after iteration httpCallback reads new_session = Some (Ok ss) → follows s ss →
  ∀ r e, internal e → enabled (λ _, r) e (net s) →
    match http_event sys_write iteration httpCallback moved_from r e s with
    | Some (Ok s') => hosts sys_write iteration httpCallback moved_from (mkHttp w0 None pool) (reads ++ arrivals r e) s'
    | Some (Fault f) => f = LengthError ∨ session_after iteration httpCallback (reads ++ arrivals r e) new_session = Some (Fault f)
    | None => session_after iteration httpCallback (reads ++ arrivals r e) new_session = None
    end.
Proof using All.
  intros Hh Hss Hfo r e Hint He. pose proof (follows_step r e s ss Hfo Hint He) as H.
  destruct (http_event _ _ _ _ r e s) as [[s'|f]|] eqn:Hp; [|by rewrite session_after_app, Hss..].
  by apply (host_step _ _ _ _ _ _ _ _ s).
Qed.
End Session.

