(* ===== verification/HttpClients.v ===== *)
(** * What clients of the HTTP server get

    A client that sends a request, waits for the answer and goes on gets every answer, however its bytes are cut
    ([waiting_client_answered]); one that does not wait gets stuck ([pipelined_request_waits]). *)
From stdpp Require Import base list gmap numbers strings.
From Stdlib Require Import ZArith Lia Init.Byte.
From S2P Require Import Prelude.
From S2P Require Import ByteBuffer.
From S2P Require Import HttpMessage.
From S2P Require Import HttpReply.
From S2P Require Import HttpParser.
From S2P Require Import HttpParserSpec.
From S2P Require Import HttpParserTyping.
From S2P Require Import Channel.
From S2P Require Import Poller.
From S2P Require Import EventLoop.
From S2P Require Import EventLoopSpec.
From S2P Require Import TcpConnection.
From S2P Require Import TcpConnectionSpec.
From S2P Require Import ConnectionTheorems.
From S2P Require Import ConnectionEvents.
From S2P Require Import ThreadPool.
From S2P Require Import HttpService.
From S2P Require Import HttpServiceSpec.
From S2P Require Import HttpSession.
From S2P Require Import HttpSessionSpec.
Import EventLoop.EventLoop TcpConnection.TcpConnection HttpParser.HttpContext HttpMessage.HttpRequest HttpSession.HttpSession.
#[local] Open Scope Z_scope.
#[local] Open Scope fm_scope.

(** ** The receive time does not matter to the parser *)

Definition timeless (c : HttpContext) : HttpContext := mkContext (state_ c) (setReceivedTime 0 (request_ c)).

Lemma processRequestLine_timeless line r1 r2 :
  setReceivedTime 0 r1 = setReceivedTime 0 r2 →
  fst (processRequestLine line r1) = fst (processRequestLine line r2) ∧
  setReceivedTime 0 (snd (processRequestLine line r1)) = setReceivedTime 0 (snd (processRequestLine line r2)).
Proof.
  intros Hr. split; [apply processRequestLine_ok|]. revert Hr.
  destruct r1 as [m1 v1 p1 q1 t1 h1], r2 as [m2 v2 p2 q2 t2 h2]. cbn. intros [= -> -> -> -> ->].
  unfold processRequestLine, setMethod. cbn. destruct (_ =? _); [done|].
  destruct (negb _); [done|]. destruct (_ =? _); [done|].
  repeat (case_match; try done).
Qed.

Lemma header_line_timeless line r1 r2 :
  setReceivedTime 0 r1 = setReceivedTime 0 r2 →
  fst (header_line line r1) = fst (header_line line r2) ∧
  setReceivedTime 0 (snd (header_line line r1)) = setReceivedTime 0 (snd (header_line line r2)).
Proof.
  destruct r1 as [m1 v1 p1 q1 t1 h1], r2 as [m2 v2 p2 q2 t2 h2]. cbn. intros [= -> -> -> -> ->].
  unfold header_line. by destruct (negb _).
Qed.

(** Two verdicts that differ in the receive time only. *)
Definition same_verdict (v1 v2 : verdict) : Prop :=
  match v1, v2 with
  | Waiting c1 l1, Waiting c2 l2 => timeless c1 = timeless c2 ∧ l1 = l2
  | Complete r1 l1, Complete r2 l2 => setReceivedTime 0 r1 = setReceivedTime 0 r2 ∧ l1 = l2
  | Stuck, Stuck => True
  | _, _ => False
  end.

Lemma feed_timeless fuel t1 t2 c1 c2 l :
  timeless c1 = timeless c2 → same_verdict (feed fuel t1 c1 l) (feed fuel t2 c2 l).
Proof.
  revert c1 c2 l. induction fuel as [|fuel IH]; intros [st1 r1] [st2 r2] l Hc; [done|]. pose proof Hc as Hc0.
  injection Hc as -> Hr. assert (Hr0 : setReceivedTime 0 r1 = setReceivedTime 0 r2) by (unfold setReceivedTime; congruence).
  cbn [feed state_ request_]. destruct st2; try done.
  - destruct (find_line l) as [[line rest]|]; [|done]. destruct (processRequestLine_timeless line r1 r2 Hr0) as [Hok Hx].
    destruct (processRequestLine line r1) as [b1 x1], (processRequestLine line r2) as [b2 x2]. cbn [fst snd] in *. subst b2.
    destruct b1; [|done]. apply IH. unfold timeless. cbn [state_ request_]. f_equal. injection Hx as ?????. unfold setReceivedTime. cbn. congruence.
  - destruct (find_line l) as [[line rest]|]; [|done]. destruct (header_line_timeless line r1 r2 Hr0) as [Hok Hx].
    destruct (header_line line r1) as [b1 x1], (header_line line r2) as [b2 x2]. cbn [fst snd] in *. subst b2.
    destruct b1; try done. apply IH. unfold timeless. cbn [state_ request_]. by f_equal.
Qed.

(** ** Requests as clients print them *)
Record client_request := mkClientRequest {
  q_method : Method;
  q_path : list byte;
  q_query : list byte;
  q_version : Version;
  q_headers : list wire_header
}.

Definition version_name (v : Version) : list byte := default [] (version_text v).

Definition printable (q : client_request) : Prop :=
  q_method q ≠ kInvalidMethod ∧ path_ok (q_path q) (q_query q) ∧ q_version q ≠ kUnknownVersion ∧ Forall header_ok (q_headers q).

(** A path without a query. *)
Lemma plain_path p : SP ∉ p → QUESTION ∉ p → CR ∉ p → path_ok p [].
Proof. intros H1 H2 H3. unfold path_ok. split_and!; try done; [by apply not_elem_of_nil.. | by left]. Qed.

Definition printed (q : client_request) : list byte :=
  render (request_line (methodToString (set_method (q_method q) newRequest)) (q_path q) (q_query q) (version_name (q_version q))) (q_headers q).

(** The request that the server's callback sees, but for the time. *)
Definition asked (q : client_request) : HttpRequest :=
  mkRequest (q_method q) (q_version q) (q_path q) (q_query q) 0 (headers_of (q_headers q) ∅).

Lemma feed_printed t q rest :
  printable q → feed (enough (printed q ++ rest)) t newContext (printed q ++ rest) = Complete (setReceivedTime t (asked q)) rest.
Proof.
  intros (Hm & Hp & Hv & Hh). assert (Ht : version_text (q_version q) = Some (version_name (q_version q))).
  { unfold version_name. by destruct (q_version q). }
  exact (feed_render (q_method q) (q_path q) (q_query q) (q_version q) _ (q_headers q) rest t newRequest Hm Hp Ht Hh).
Qed.

(** The response of the callback to a request, whenever it comes. *)
Definition answered_by (httpCallback : HttpRequest → HttpResponse → result HttpResponse) (q : client_request) (resp : HttpResponse) : Prop :=
  ∀ t, httpCallback (setReceivedTime t (asked q)) (HttpResponse.newResponse (wants_close (asked q))) = Ok resp.

Lemma answered_same httpCallback q resp r :
  answered_by httpCallback q resp → setReceivedTime 0 r = asked q →
  httpCallback r (HttpResponse.newResponse (wants_close r)) = Ok resp.
Proof.
  intros Ha Hr. assert (r = setReceivedTime (receivedTime_ r) (asked q)) as -> by (rewrite <- Hr; by destruct r). apply Ha.
Qed.

Section Answers.
Variable iteration : HeaderMap → list (list byte * list byte).
Variable httpCallback : HttpRequest → HttpResponse → result HttpResponse.

(** What is sent when one response after the other is given. *)
Fixpoint answered_all (rs : list HttpResponse) : list byte :=
  match rs with
  | [] => []
  | resp :: rs => wire iteration resp ++ if HttpResponse.isCloseConnection resp then [] else answered_all rs
  end.

(** A parser between two requests. *)
Definition fresh_parser (c : HttpContext) : Prop := timeless c = timeless newContext.

(** One request, read in pieces. *)
Lemma one_request t0 req resp segs ss :
  Forall (λ s, s.2 ≠ []) segs → segs ≠ [] →
  (∀ r, setReceivedTime 0 r = setReceivedTime 0 req → httpCallback r (HttpResponse.newResponse (wants_close r)) = Ok resp) →
  (let l := unread ss ++ concat segs.*2 in feed (enough l) t0 (parser ss) l = Complete req []) →
  ∃ c, session_after iteration httpCallback segs ss =
    Some (Ok (mkSession c [] (answers ss ++ if open ss then wire iteration resp else [])
            (open ss && negb (HttpResponse.isCloseConnection resp)))) ∧ fresh_parser c.
Proof using Type.
  revert ss req. induction segs as [|[t d] segs IH]; intros ss req Hne Hnil Hcb Hfeed; [done|]. clear Hnil. cbv zeta in Hfeed.
  inversion_clear Hne as [|?? Hd Hsegs]. cbn [session_after]. rewrite fmap_cons in Hfeed. cbn [concat snd] in Hfeed.
  rewrite app_assoc, feed_app in Hfeed. unfold take_in.
  pose proof (feed_timeless (enough (unread ss ++ d)) t t0 (parser ss) (parser ss) (unread ss ++ d) eq_refl) as Hsame.
  destruct (feed _ t0 (parser ss) (unread ss ++ d)) as [c' rest'|req' rest'|] eqn:Hf; [| |done].
  - destruct (feed _ t (parser ss) (unread ss ++ d)) as [c1 rest1|?|]; [|done..]. destruct Hsame as [Hc ->].
    destruct segs as [|s segs].
    + exfalso. cbn [fmap list_fmap concat] in Hfeed. rewrite app_nil_r in Hfeed.
      pose proof (feed_app t0 (parser ss) (unread ss ++ d) []) as Hagain. rewrite !app_nil_r, Hf, app_nil_r, Hfeed in Hagain. done.
    + set (ss1 := mkSession c1 rest' (answers ss) (open ss)).
      pose proof (feed_timeless (enough (rest' ++ concat (s :: segs).*2)) t0 t0 c1 c' (rest' ++ concat (s :: segs).*2) Hc) as Hsame2.
      rewrite Hfeed in Hsame2. destruct (feed _ t0 c1 _) as [|req1 rest1|] eqn:Hf1; [done| |done]. destruct Hsame2 as [Hreq ->].
      destruct (IH ss1 req1 Hsegs ltac:(done)) as (c & Hs & Hfr); [|exact Hf1|by exists c].
      intros r Hr. apply Hcb. by rewrite Hr.
  - destruct (feed _ t (parser ss) (unread ss ++ d)) as [|req1 rest1|]; [done| |done]. destruct Hsame as [Hreq ->].
    injection Hfeed as -> Happ. apply app_eq_nil in Happ as [-> Hrest].
    assert (segs = []) as ->.
    { destruct segs as [|[t2 d2] segs]; [done|]. inversion_clear Hsegs as [|?? Hd2 _]. csimpl in Hrest. cbn [concat snd] in Hrest.
      by apply app_eq_nil in Hrest as [-> _]. }
    rewrite (Hcb req1 Hreq), bind_Ok. by exists (mkContext kParseRequestLine (clear req1)).
Qed.

(** A client that waits: its requests, the responses, and the reads that bring each request. *)
Record exchange := mkExchange {
  ex_request : client_request;
  ex_response : HttpResponse;
  ex_reads : list (Z * list byte)
}.

Definition waits (script : list exchange) : Prop :=
  Forall (λ x, printable (ex_request x) ∧ answered_by httpCallback (ex_request x) (ex_response x) ∧
               Forall (λ s, s.2 ≠ []) (ex_reads x) ∧ concat (ex_reads x).*2 = printed (ex_request x)) script.

Lemma printed_nonempty q : printed q ≠ [].
Proof using Type. unfold printed, render. intros Hn. apply (f_equal length) in Hn. rewrite !length_app in Hn. cbn in Hn. lia. Qed.

Lemma fresh_feed c t q rest :
  fresh_parser c → printable q → ∃ req, feed (enough (printed q ++ rest)) t c (printed q ++ rest) = Complete req rest ∧
    setReceivedTime 0 req = asked q.
Proof using Type.
  intros Hc Hq. pose proof (feed_timeless (enough (printed q ++ rest)) t t c newContext (printed q ++ rest) Hc) as Hs.
  rewrite feed_printed in Hs by done. destruct (feed _ t c _) as [|req rest'|]; [done| |done].
  destruct Hs as [Hr ->]. by exists req.
Qed.

Lemma script_answered script ss :
  waits script → fresh_parser (parser ss) → unread ss = [] →
  ∃ c up, session_after iteration httpCallback (concat (ex_reads <$> script)) ss =
    Some (Ok (mkSession c [] (answers ss ++ if open ss then answered_all (ex_response <$> script) else []) up)) ∧ fresh_parser c.
Proof using Type.
  intros Hw. revert ss. induction Hw as [|[q resp segs] script (Hq & Hcb & Hne & Hcat) _ IH]; intros ss Hc Hu; cbn [ex_request ex_response ex_reads] in *.
  - exists (parser ss), (open ss). split; [|done]. cbn. destruct ss as [c u a o]. cbn in *. subst u. by destruct o; rewrite app_nil_r.
  - rewrite !fmap_cons. cbn [ex_response ex_reads concat answered_all]. rewrite session_after_app.
    destruct (fresh_feed (parser ss) 0 q [] Hc Hq) as (req & Hf & Hr). rewrite app_nil_r in Hf.
    destruct (one_request 0 req resp segs ss Hne) as (c & -> & Hfr).
    { intros ->. by apply (printed_nonempty q). }
    { intros r Hreq. eapply answered_same; [exact Hcb | by rewrite Hreq]. }
    { cbv zeta. by rewrite Hu, Hcat. }
    destruct (IH (mkSession c [] (answers ss ++ if open ss then wire iteration resp else [])
            (open ss && negb (HttpResponse.isCloseConnection resp))) Hfr eq_refl) as (c' & up & -> & Hfr').
    exists c', up. split; [|done]. cbn [answers open]. rewrite <- app_assoc.
    destruct (open ss); cbn [andb]; [|done]. by destruct (HttpResponse.isCloseConnection resp).
Qed.
End Answers.

(** ** The connection *)
Section Served.
Variable sys_write : nat → list byte → write_outcome.
Hypothesis write_bounded : ∀ n d k, sys_write n d = Wrote k → 0 ≤ k ≤ zlen d.
Hypothesis peer_stays : ∀ n d e, sys_write n d = WriteErr e → e ≠ EPIPE ∧ e ≠ ECONNRESET.
Variable iteration : HeaderMap → list (list byte * list byte).
Variable httpCallback : HttpRequest → HttpResponse → result HttpResponse.
Variable moved_from : HttpRequest → list byte * list byte * HeaderMap.
Hypothesis callback_sendable : ∀ req resp, line_typed req →
  httpCallback req (HttpResponse.newResponse (wants_close req)) = Ok resp → sendable iteration resp.
Variables (name : list byte) (fd : Z) (l : loc) (wc hw : bool) (lp : EventLoop functor channel_cb) (w0 : world).
Hypothesis loop_clean : clean_loop l fd lp.
Hypothesis constructed : newConnection name fd l wc hw lp = Ok w0.
Variable pool : ThreadPool (T := HttpRequest).
Hypothesis no_workers : ThreadPool.threads_ pool = [].

#[local] Notation history := (hosts sys_write iteration httpCallback moved_from (HttpService.HttpServer.mkHttp w0 None pool)).
#[local] Notation net := HttpService.HttpServer.net.

(** Where the server is when the client has sent its script. *)
Lemma waiting_follows script s :
  waits httpCallback script → history (concat (ex_reads <$> script)) s →
  ∃ c up, follows s (mkSession c [] (answered_all iteration (ex_response <$> script)) up).
Proof using All.
  intros Hw Hh. destruct (hosts_follows sys_write write_bounded peer_stays iteration httpCallback moved_from callback_sendable
    name fd l wc hw lp w0 loop_clean constructed pool no_workers _ s Hh) as (ss & Hss & Hfo).
  destruct (script_answered iteration httpCallback script new_session Hw eq_refl eq_refl) as (c & up & Hsa & _).
  cbn [answers open new_session app] in Hsa. exists c, up. by assert (ss = mkSession c [] (answered_all iteration (ex_response <$> script)) up) as <- by congruence.
Qed.
End Served.

#[local] Notation net := HttpService.HttpServer.net.



(** ** A server with one page *)

Definition page (request : HttpRequest) (response : HttpResponse) : result HttpResponse :=
  Ok (HttpResponse.mkResponse kHttp11 HttpResponse.k200OK (bytes "OK") ∅ (HttpResponse.closeConnection_ response) (bytes "hi")).
Definition page_for (request : HttpRequest) : HttpResponse :=
  HttpResponse.mkResponse kHttp11 HttpResponse.k200OK (bytes "OK") ∅ (wants_close request) (bytes "hi").

Lemma page_sendable req resp : line_typed req → page req (HttpResponse.newResponse (wants_close req)) = Ok resp → sendable map_to_list resp.
Proof.
  intros _ [= <-]. constructor; [done | by vm_compute | by vm_compute |]. intros h. cbn [HttpResponse.headers_].
  rewrite map_to_list_empty. by intros ?%elem_of_nil.
Qed.

Lemma page_answers q : answered_by page q (page_for (asked q)).
Proof. done. Qed.

(** The kernel takes up to three bytes of each write. *)
Lemma three_bytes_patient n d e : three_bytes n d = WriteErr e → e ≠ EPIPE ∧ e ≠ ECONNRESET.
Proof. done. Qed.

Definition page_pool : ThreadPool (T := HttpRequest) := ThreadPool.newPool 10240.

#[local] Notation page_event := (http_event three_bytes map_to_list page nothing_left).
#[local] Notation page_history w0 := (hosts three_bytes map_to_list page nothing_left (HttpService.HttpServer.mkHttp w0 None page_pool)).

(** Events one after the other, each possible when it happens. *)
Section Demo.
Variable httpCallback : HttpRequest → HttpResponse → result HttpResponse.
Variable pool : ThreadPool (T := HttpRequest).

#[local] Notation demo_history w0 :=
  (hosts three_bytes map_to_list httpCallback nothing_left (HttpService.HttpServer.mkHttp w0 None pool)).

Fixpoint host (evs : list (Buffer.readv_outcome * event)) (reads : list (Z * list byte)) (s : HttpService.HttpServer.http)
    (reads' : list (Z * list byte)) (s' : HttpService.HttpServer.http) : Prop :=
  match evs with
  | [] => reads = reads' ∧ s = s'
  | (r, e) :: evs => internal e ∧ enabled (λ _, r) e (HttpService.HttpServer.net s) ∧
      ∃ s1, http_event three_bytes map_to_list httpCallback nothing_left r e s = Some (Ok s1) ∧ host evs (reads ++ arrivals r e) s1 reads' s'
  end.

Lemma host_hosts w0 evs reads s reads' s' : demo_history w0 reads s → host evs reads s reads' s' → demo_history w0 reads' s'.
Proof.
  revert reads s. induction evs as [|[r e] evs IH]; intros reads s Hh; simpl; [by intros [<- <-]|].
  intros (Hint & He & s1 & Hp & Ht). eapply IH; [|exact Ht]. by eapply host_step.
Qed.

(** A new connection, and what a run of events makes of it. *)
Lemma server_demo evs : ∃ lp w0, clean_loop 2 7 lp ∧ newConnection (bytes "c") 7 2 true true lp = Ok w0 ∧
  (∀ reads s, host evs [] (HttpService.HttpServer.mkHttp w0 None pool) reads s → demo_history w0 reads s) ∧ demo = Ok w0.
Proof.
  destruct demo_ok as (lp & w0 & _ & Hc & Hn & Hd). exists lp, w0. split_and!; try done.
  intros reads s Hh. eapply host_hosts; [constructor | exact Hh].
Qed.
End Demo.

Definition arrives (t : Z) (d : list byte) : Buffer.readv_outcome * event := (Buffer.ReadvData d, Report CbRead t).

Ltac compute_step :=
  split; [exact I|]; split;
    [first [ vm_compute; reflexivity | exact I
           | split; [left; vm_compute; reflexivity | intros ? [= <-]; vm_compute; discriminate] ]
    |eexists; split; [vm_compute; reflexivity|]].

(** A first request in two pieces, a second one of an old client, which wants the connection closed. *)
Definition first_request : client_request := mkClientRequest kGet (bytes "/a") [] kHttp11 [].
Definition second_request : client_request := mkClientRequest kGet (bytes "/b") [] kHttp10 [].
Definition patient_script : list exchange :=
  [mkExchange first_request (page_for (asked first_request))
     [(3, bytes "GET /a HT"); (4, bytes "TP/1.1" ++ Buffer.kCRLF ++ Buffer.kCRLF)];
   mkExchange second_request (page_for (asked second_request)) [(5, printed second_request)]].
Definition patient_reads : list (Z * list byte) := concat (ex_reads <$> patient_script).

Lemma requests_printable : printable first_request ∧ printable second_request.
Proof.
  split; (split_and!; [done | apply plain_path; by apply (bool_decide_unpack _) | done | constructor]).
Qed.

Lemma patient_waits : waits page patient_script.
Proof.
  destruct requests_printable as [H1 H2]. constructor; [|constructor; [|constructor]]; cbn [ex_request ex_response ex_reads]; split_and!; try done;
    repeat constructor; done.
Qed.

Lemma patient_demo : ∃ lp w0 s, clean_loop 2 7 lp ∧ newConnection (bytes "c") 7 2 true true lp = Ok w0 ∧
  page_history w0 patient_reads s ∧ TcpConnection.state_ (conn (HttpService.HttpServer.net s)) = kDisconnecting.
Proof.
  set (evs := (Buffer.ReadvErr 11, Establish 9) :: map (λ x, arrives x.1 x.2) patient_reads).
  destruct (server_demo page page_pool evs) as (lp & w0 & Hc & Hn & Hh & Hd).
  assert (Hr : ∃ s, host page evs [] (HttpService.HttpServer.mkHttp w0 None page_pool) patient_reads s ∧
    TcpConnection.state_ (conn (HttpService.HttpServer.net s)) = kDisconnecting).
  { clear Hc Hn Hh. vm_compute in Hd. injection Hd as <-. eexists. split; [|].
    - unfold evs, patient_reads. cbn [map concat patient_script fmap list_fmap ex_reads app host]. do 4 compute_step. split; vm_compute; reflexivity.
    - vm_compute. reflexivity. }
  destruct Hr as (s & Hr & Hs). exists lp, w0, s. split_and!; [done | done | by apply Hh | done].
Qed.



