(* ===== verification/ExampleSpec.v ===== *)
(** * What the example server serves

    From [main] to the bytes on the wire: the server starts, and a client that waits gets the files of the directory
    ([example_site_served]). *)
From stdpp Require Import base list gmap numbers strings.
From Stdlib Require Import ZArith Lia Init.Byte.
From S2P Require Import Prelude.
From S2P Require Import ByteBuffer.
From S2P Require Import HttpMessage.
From S2P Require Import HttpReply.
From S2P Require Import HttpParser.
From S2P Require Import HttpParserSpec.
From S2P Require Import HttpParserTyping.
From S2P Require Import Time.
From S2P Require Import EventLoop.
From S2P Require Import EventLoopSpec.
From S2P Require Import TcpConnection.
From S2P Require Import TcpConnectionSpec.
From S2P Require Import ConnectionTheorems.
From S2P Require Import ConnectionEvents.
From S2P Require Import ThreadPool.
From S2P Require Import EventLoopThread.
From S2P Require Import TcpServer.
From S2P Require Import HttpService.
From S2P Require Import HttpServiceSpec.
From S2P Require Import ExampleServer.
From S2P Require Import ReadSmallFile.
From S2P Require Import HttpServerStart.
From S2P Require Import HttpSession.
From S2P Require Import HttpSessionSpec.
From S2P Require Import HttpClients.
Import EventLoop.EventLoop TcpConnection.TcpConnection HttpMessage.HttpRequest HttpSession.HttpSession HttpServerStart.HttpServerStart ExampleMain.
#[local] Open Scope Z_scope.
#[local] Open Scope fm_scope.

(** ** Starting a server *)

(** A new server with [n] loops for its connections and [m] workers starts listening; every worker and loop is there. *)
Theorem http_server_starts ip name option max cb n m :
  0 ≤ n → 0 ≤ m →
  ∃ h, (h ← setThreadNum n m (setHttpCallback cb (newHttpServer ip name option max)); start h) = Ok h ∧
    TcpServer.listening (server_ h) = true ∧ TcpServer.start_ (server_ h) = true ∧
    EventLoopThreadPool.loops_ (TcpServer.thread_pool_ (server_ h)) = seq 1 (Z.to_nat n) ∧
    ThreadPool.threads_ (threadPool_ h) = replicate (Z.to_nat m) ThreadPool.AtLoop ∧
    ThreadPool.running_ (threadPool_ h) = true ∧ httpCallback_ h = cb.
Proof.
  intros Hn Hm. unfold setThreadNum, setHttpCallback, newHttpServer. cbn [server_ threadPool_ httpCallback_].
  unfold TcpServer.setThreadNum. rewrite (proj2 (Z.leb_le 0 n)), (proj2 (Z.leb_le 0 m)) by done. cbn [ensure]. rewrite !bind_Ok.
  unfold ThreadPool.setThreadNum. cbn [ThreadPool.threads_ ThreadPool.newPool]. rewrite drop_nil. cbn [forallb ensure].
  rewrite take_nil, !bind_Ok. unfold start. cbn [server_ threadPool_ httpCallback_].
  unfold TcpServer.start. cbn [TcpServer.start_ TcpServer.set_pool TcpServer.newServer TcpServer.set_start TcpServer.thread_pool_].
  destruct (EventLoopThreadPool.start_ready (Z.to_nat n)) as (p & Hp & [_ Hl _]). rewrite Hp, bind_Ok.
  eexists. split; [done|]. cbn. split_and!; try done. rewrite Nat.sub_0_r. by induction (Z.to_nat m) as [|k IH]; cbn; [|rewrite IH].
Qed.

(** ** The file cache *)
Section Files.
Variable fs : list byte → file.
Variable errno : Z.
Variable disk : list byte → option (list byte).

(** What the system says of a file that is there, and of one that is not. *)
Definition readable (path : list byte) : Prop :=
  match disk path with
  | Some d => contents (fs path) = d ∧ (∀ k, ∃ q, reads (fs path) k = inl q ∧ 1 ≤ q) ∧
      (∃ fd, opened (fs path) = inl fd ∧ 0 ≤ fd) ∧
      ∃ st, status (fs path) = inl st ∧ ReadSmallFile.st_kind st = ReadSmallFile.Regular ∧ ReadSmallFile.st_size st = zlen d
  | None => (∃ e, opened (fs path) = inr e) ∧ ∃ e, status (fs path) = inr e
  end.

(** What the server keeps of a file. *)
Definition kept (path : list byte) : list byte := ztake ReadSmallFile.k128KB (default [] (disk path)).

Lemma read_kept path :
  readable path →
  ∃ r e, ReadSmallFile.readFile (contents (fs path)) (reads (fs path)) (opened (fs path)) (status (fs path)) errno ReadSmallFile.k128KB [] =
    Some (r, (e, kept path)).
Proof.
  unfold readable, kept, ReadSmallFile.readFile. destruct (disk path) as [d|].
  - intros (-> & Hr & (fd & -> & Hfd) & st & -> & Hk & Hs). unfold ReadSmallFile.newReader. rewrite Hk.
    set (r := ReadSmallFile.mkReader _ _ _ _ _). pose proof (zlen_nonneg d).
    rewrite (readToString_content d _ r) by (try done; cbn; lia).
    cbn [ReadSmallFile.file_size_ r mbind option_bind default]. eexists r, _. do 3 f_equal. rewrite Hs.
    replace (Z.to_nat _) with O by lia. rewrite app_nil_r. unfold ReadSmallFile.k128KB.
    change (id d) with d. destruct (Z.le_gt_cases (zlen d) (1024 * 128)); [by rewrite !ztake_all by lia|]. f_equal. lia.
  - intros ((e & ->) & e' & ->). cbn. by eexists _, _.
Qed.

Lemma load_files_ok root :
  (∀ name, name ∈ names → readable (root ++ name)) →
  ∃ files, load_files fs errno root = Some files ∧
    ∀ name, files !! name = if decide (name ∈ names) then Some (kept (root ++ name)) else None.
Proof.
  unfold load_files. induction names as [|n l IH]; intros Hr; [by exists ∅|]. cbn [foldr].
  destruct IH as (files & -> & Hf); [intros x Hx; apply Hr; set_solver|]. cbn [mbind option_bind].
  destruct (read_kept (root ++ n)) as (r & e & ->); [apply Hr; set_solver|]. cbn [mbind option_bind]. eexists. split; [done|]. intros name.
  destruct (decide (n = name)) as [->|Hne]; [by rewrite lookup_insert_eq, decide_True by set_solver|].
  rewrite lookup_insert_ne, Hf by done. destruct (decide (name ∈ l)); [by rewrite decide_True by set_solver|].
  by rewrite decide_False by set_solver.
Qed.

End Files.

(** ** What is answered *)
Section Replies.
Variable disk : list byte → option (list byte).
#[local] Notation kept := (kept disk).

Definition page_name (path : list byte) : list byte := if decide (last path = Some x2f) then path ++ bytes "index.html" else path.

Definition served_headers : HeaderMap := {[ bytes "Server" := bytes "Libfm" ]}.

(** The reply to a request: one of the three files, if it is asked for with [GET]. *)
Definition reply (root : list byte) (q : client_request) : HttpResponse :=
  if decide (q_method q = kGet ∧ page_name (q_path q) ∈ names)
  then HttpResponse.mkResponse (q_version q) HttpResponse.k200OK (bytes "OK") served_headers (wants_close (asked q))
         (kept (root ++ page_name (q_path q)))
  else HttpResponse.mkResponse (q_version q) HttpResponse.k404NotFound (bytes "Not Found") served_headers true [].

(** A client that waits, with the requests it sends and the reads that bring each. *)
Definition visit : Type := client_request * list (Z * list byte).
Definition asks (v : visit) : Prop :=
  printable v.1 ∧ q_path v.1 ≠ [] ∧ Forall (λ s, s.2 ≠ []) v.2 ∧ concat v.2.*2 = printed v.1.
Definition answered_visit (root : list byte) (v : visit) : exchange := mkExchange v.1 (reply root v.1) v.2.

Variable files : gmap (list byte) (list byte).
Variable root : list byte.
Hypothesis loaded : ∀ name, files !! name = if decide (name ∈ names) then Some (kept (root ++ name)) else None.

Lemma site_answers q : q_path q ≠ [] → answered_by (Example.onRequest files) q (reply root q).
Proof using All.
  intros Hq t. rewrite example_answers. cbv zeta. cbn [path_ setReceivedTime asked]. rewrite decide_False by done.
  f_equal. fold (page_name (q_path q)). rewrite loaded. unfold reply. cbn [method_ version_ setReceivedTime asked].
  destruct (decide (page_name (q_path q) ∈ names)) as [Hin|Hin].
  - destruct (q_method q) eqn:Hm; try by rewrite decide_False by (intros [? _]; done). by rewrite decide_True by done.
  - rewrite decide_False by tauto. by destruct (q_method q).
Qed.

Lemma site_waits visits : Forall asks visits → waits (Example.onRequest files) (answered_visit root <$> visits).
Proof using All.
  intros Hv. unfold waits. rewrite Forall_fmap. eapply Forall_impl; [exact Hv|]. intros [q segs] (Hp & Hne & Hs & Hc). by split_and!; try apply site_answers.
Qed.

Variable iteration : HeaderMap → list (list byte * list byte).
Hypothesis visits_all : ∀ m, iteration m ≡ₚ map_to_list m.

Lemma kept_small path : zlen (kept path) ≤ ReadSmallFile.k128KB.
Proof. unfold kept, ztake, zlen. rewrite length_take. unfold ReadSmallFile.k128KB. lia. Qed.

Lemma site_sendable req resp :
  line_typed req → Example.onRequest files req (HttpResponse.newResponse (wants_close req)) = Ok resp → sendable iteration resp.
Proof using All.
  intros [_ Hv _]. rewrite example_answers. cbv zeta. destruct (decide _); [done|].
  set (h := <[_ := _]> _). intros [= <-].
  assert (Hh : ∀ x, x ∈ iteration h → zlen x.1 ≤ Buffer.max_size ∧ zlen x.2 ≤ Buffer.max_size).
  { intros x. rewrite visits_all. unfold h. cbn [HttpResponse.headers_ HttpResponse.newResponse].
    rewrite insert_empty, map_to_list_singleton, list_elem_of_singleton. intros ->. by vm_compute. }
  destruct (method_ req); try (by constructor).
  rewrite loaded. destruct (decide _); [|by constructor]. constructor; try done. cbn [HttpResponse.body_].
  pose proof (kept_small (root ++ (if decide (last (path_ req) = Some x2f) then path_ req ++ bytes "index.html" else path_ req))). unfold ReadSmallFile.k128KB in *. lia.
Qed.
End Replies.

(** ** The server from its start *)
#[local] Notation net := HttpService.HttpServer.net.


(** ** A site with an index page and nothing else *)

Definition index_html : list byte := bytes "<p>hi</p>".
Definition www_disk (path : list byte) : option (list byte) :=
  if decide (path = bytes "www/index.html") then Some index_html else None.
Definition www (path : list byte) : file :=
  match www_disk path with
  | Some d => mkFile (inl 5) (inl (ReadSmallFile.mkStat ReadSmallFile.Regular (zlen d) (SystemClock.mkTime 0 0) (SystemClock.mkTime 0 0))) d (λ _, inl 4)
  | None => mkFile (inr 2) (inr 9) [] (λ _, inr 9)
  end.

Lemma www_readable path : readable www www_disk path.
Proof.
  unfold readable, www. destruct (www_disk path) as [d|]; [|eauto]. cbn. split_and!; [done | by exists 4 | by exists 5 |]. by eexists.
Qed.

(** The index page, and behind it a picture that is not there. *)
Definition index_request : client_request := mkClientRequest kGet (bytes "/") [] kHttp11 [].
Definition picture_request : client_request := mkClientRequest kGet (bytes "/xxx.png") [] kHttp11 [].
Definition www_visits : list visit :=
  [(index_request, [(3, bytes "GET / HT"); (4, bytes "TP/1.1" ++ Buffer.kCRLF ++ Buffer.kCRLF)]);
   (picture_request, [(5, printed picture_request)])].

Lemma www_asks : Forall asks www_visits.
Proof.
  repeat constructor; cbn; try done; apply plain_path; by apply (bool_decide_unpack _).
Qed.

Lemma www_main : ∃ h lp w0 s, main www 0 (bytes "0.0.0.0") [bytes "HttpServer"; bytes "www"] = Some (Ok h) ∧
  clean_loop 2 7 lp ∧ newConnection (bytes "c") 7 2 true true lp = Ok w0 ∧
  hosts three_bytes map_to_list (httpCallback_ h) nothing_left (HttpService.HttpServer.mkHttp w0 None (threadPool_ h)) (concat www_visits.*2) s ∧
  TcpConnection.state_ (conn (HttpService.HttpServer.net s)) = kDisconnecting.
Proof.
  destruct (load_files_ok www 0 www_disk (bytes "www") (λ _ _, www_readable _)) as (files & Hl & _).
  set (evs := (Buffer.ReadvErr 11, Establish 9) :: map (λ x, arrives x.1 x.2) (concat www_visits.*2)).
  destruct (server_demo (Example.onRequest files) (ThreadPool.start (ThreadPool.newPool 10240)) evs) as (lp & w0 & Hc & Hn & Hh & Hd).
  eexists _, lp, w0. unfold main. rewrite Hl. cbn [mbind option_bind].
  assert (Hr : ∃ s, host (Example.onRequest files) evs [] (HttpService.HttpServer.mkHttp w0 None (ThreadPool.start (ThreadPool.newPool 10240)))
      (concat www_visits.*2) s ∧ TcpConnection.state_ (conn (HttpService.HttpServer.net s)) = kDisconnecting).
  { clear Hc Hn Hh. assert (files = default ∅ (load_files www 0 (bytes "www"))) as -> by (by rewrite Hl). clear Hl. vm_compute in Hd. injection Hd as <-. eexists. split; [|].
    - unfold evs, www_visits. cbn [map concat fmap list_fmap app host snd fst]. do 4 compute_step. split; vm_compute; reflexivity.
    - vm_compute. reflexivity. }
  destruct Hr as (s & Hr & Hs). exists s. split; [reflexivity|]. split_and!; [done | done | exact (Hh _ _ Hr) | done].
Qed.

