(* ===== verification/TcpService.v ===== *)
(** * A server together with its connections

    [TcpServer] knows of a connection only how far it has come.  Here every connection is the object of [TcpConnection], in its
    loop, with the references that are held to it ([ConnectionRefs]): the functors that the server posts call its [connectEstablished] and
    [connectDestroyed], its close callback calls the server's [removeConnection], as the constructor calls of net/TcpServer.cpp wire them, and the
    object goes with the last reference - not with [connectDestroyed], when a user or a functor still has one - its functors that hold only
    [this] staying behind in the loop's queue.  Everything a connection shares with others on its loop - the functors of the server, the
    poller - is here split up: a connection has its own channel and functors, the server's functors stand in [posted]. *)
From stdpp Require Import base list gmap numbers strings.
From Stdlib Require Import ZArith Lia Init.Byte.
From S2P Require Import Prelude.
From S2P Require Import ByteBuffer.
From S2P Require Import Channel.
From S2P Require Import EventLoop.
From S2P Require Import EventLoopThread.
From S2P Require Import TcpConnection.
From S2P Require Import TcpConnectionSpec.
From S2P Require Import ConnectionTheorems.
From S2P Require Import ConnectionFrame.
From S2P Require Import ConnectionLife.
From S2P Require Import ConnectionRefs.
From S2P Require Import ConnectionOwner.
From S2P Require Import TcpServer.
#[local] Open Scope Z_scope.
#[local] Open Scope fm_scope.

Module TcpService.
Abbreviation server := TcpServer.server.
Abbreviation world := TcpConnection.world.
Abbreviation loop := (EventLoop.EventLoop.EventLoop TcpConnection.functor TcpConnection.channel_cb).

Record service := mkService {
  srv : server;
  objects : gmap loc held
}.

Definition set_object (c : loc) (h : held) (k : service) : service := mkService (srv k) (<[c := h]> (objects k)).
Definition set_srv (s : server) (k : service) : service := mkService s (objects k).

Section Service.
(** What the kernel answers on each connection's socket, and what the user's callbacks do. *)
Variable sys_write : loc → nat → list byte → TcpConnection.write_outcome.
Variable sys_readv : loc → nat → Buffer.readv_outcome.
Variable behaviour : TcpConnection.user_event → world → list TcpConnection.user_call.

Definition with_object (c : loc) (f : held → result held) (k : service) : result service :=
  match objects k !! c with Some h => h ← f h; Ok (set_object c h k) | None => Fault UseAfterFree end.

#[local] Notation ref_step c := (ref_step (sys_write c) (sys_readv c) behaviour).

(** A functor of the server, run by its loop.  [removeConnectionInLoop] takes the connection out of the map and puts its reference in the functor
    that it posts; the object goes when the last reference to it does. *)
Definition run_task (t : TcpServer.task) (k : service) : result service :=
  s ← TcpServer.run_task t (srv k);
  let k := set_srv s k in
  match t with
  | TcpServer.TListen => Ok k
  | TcpServer.TEstablished c =>
      with_object c (fun h => w ← TcpConnection.connectEstablished (sys_write c) behaviour true c (it h); Ok (mkHeld w (at_ h) (holders h))) k
  | TcpServer.TRemove c => with_object c (ref_step c OwnerLets) k
  | TcpServer.TDestroyed c => with_object c (ref_step c DestroyedRuns) k
  end.

Definition runInLoop (here lp : nat) (t : TcpServer.task) (k : service) : result service :=
  if decide (here = lp) then run_task t k else Ok (set_srv (TcpServer.post lp t (srv k)) k).

(** [src/net/TcpServer.cpp:59-86 TcpServer::newConnection] with the object: [sockfd], its channel's address, and its loop, in which it
    is alone. *)
Definition newConnection (sockfd : Z) (l : loc) (hasWriteComplete : bool) (lp : loop) (k : service) : result service :=
  '(ioLoop, conn, s) ← TcpServer.addConnection true (srv k);
  match TcpServer.conns s !! conn with
  | Some x =>
      w ← TcpConnection.newConnection (TcpServer.cname x) sockfd l hasWriteComplete false lp;
      runInLoop 0 ioLoop (TcpServer.TEstablished conn) (set_object conn (mkHeld w Owned 0) (set_srv s k))
  | None => Fault UseAfterFree
  end.

Inductive event :=
  | Accepted (sockfd : Z) (l : loc) (hasWriteComplete : bool) (lp : loop)
  | Run (lp : nat)                                    (** a loop takes its next functor of the server's *)
  | At (c : loc) (e : ref_event).                     (** something happens on a connection, or with the references to it *)

(** [removeConnection] runs [removeConnectionInLoop] at once when the connection lives in the server's own loop. *)
Definition closed (c : loc) (k : service) : result service :=
  s ← TcpServer.perform (TcpServer.Close c) (srv k);
  let k := set_srv s k in
  match TcpServer.conns s !! c with
  | Some x => if decide (TcpServer.getLoop x = 0%nat) then with_object c (ref_step c OwnerLets) k else Ok k
  | None => Fault UseAfterFree
  end.

(** An event on a connection; the close callback, which is the last that a handler does, calls the server. *)
Definition connection_step (c : loc) (e : ref_event) (k : service) : result (list TcpServer.event * service) :=
  match objects k !! c with
  | Some h =>
      h' ← ref_step c e h;
      let k := set_object c h' k in
      if decide (TcpConnection.closed_calls (it h') = TcpConnection.closed_calls (it h)) then Ok ([], k)
      else k ← closed c k; Ok ([TcpServer.Close c], k)
  | None => Fault UseAfterFree
  end.

(** A step of the whole, with the event of [TcpServer] that it is. *)
Definition step (e : event) (k : service) : result (list TcpServer.event * service) :=
  match e with
  | Accepted fd l wc lp => k ← newConnection fd l wc lp k; Ok ([TcpServer.Accept], k)
  | Run lp =>
      match TcpServer.take_first lp (TcpServer.posted (srv k)) with
      | Some (t, rest) => k ← run_task t (set_srv (TcpServer.set_posted rest (srv k)) k); Ok ([TcpServer.Run lp], k)
      | None => Ok ([TcpServer.Run lp], k)
      end
  | At c e => connection_step c e k
  end.

(** A new connection finds its loop at rest and its descriptor and channel unknown there; connections are accepted while their number is an
    [int].  When [connectDestroyed] is next in its loop's queue, the connection's own functors in front of it have run (it is one queue), and
    no [stopRead] is queued behind.  What happens on a connection, or is done with it, is what [ref_enabled] lets its users do, from the
    moment they know of it: when it is established. *)
Definition enabled (e : event) (k : service) : Prop :=
  match e with
  | Accepted fd l _ lp => TcpServer.enabled TcpServer.Accept (srv k) ∧ clean_loop l fd lp ∧ at_rest lp
  | Run lp =>
      match TcpServer.take_first lp (TcpServer.posted (srv k)) with
      | Some (TcpServer.TDestroyed c, _) => ∀ h, objects k !! c = Some h → ref_enabled (sys_readv c) DestroyedRuns h
      | _ => True
      end
  | At c e => of_user e ∧ ∃ h, objects k !! c = Some h ∧ life (TcpConnection.state_ (TcpConnection.conn (it h))) ≠ Starting ∧ ref_enabled (sys_readv c) e h
  end.

(** Histories, with those of the server that they are. *)
Inductive serves (k0 : service) : list TcpServer.event → service → Prop :=
  | serve_start : serves k0 [] k0
  | serve_step e seen done k k' : serves k0 seen k → enabled e k → step e k = Ok (done, k') → serves k0 (seen ++ done) k'.
End Service.
End TcpService.
