(* ===== verification/TcpServiceSpec.v ===== *)
(** * A server with its connections keeps the promises of both

    Every history of a server with its connections is one of [TcpServer]'s ([service_refines]): what that model assumes of a connection
    - established once, reported closed once, then destroyed - is what [TcpConnection] does, and the references to it keep it as long as it is used. *)
From stdpp Require Import base list gmap numbers strings.
From Stdlib Require Import ZArith Lia Init.Byte.
From S2P Require Import Prelude.
From S2P Require Import ByteBuffer.
From S2P Require Import Channel.
From S2P Require Import Poller.
From S2P Require Import EventLoop.
From S2P Require Import EventLoopSpec.
From S2P Require Import EventLoopThread.
From S2P Require Import TcpConnection.
From S2P Require Import TcpConnectionSpec.
From S2P Require Import ConnectionTheorems.
From S2P Require Import ConnectionFrame.
From S2P Require Import ConnectionLife.
From S2P Require Import ConnectionRefs.
From S2P Require Import ConnectionOwner.
From S2P Require Import TcpServer.
From S2P Require Import TcpServerSpec.
From S2P Require Import TcpService.
Import TcpConnection.TcpConnection.
#[local] Open Scope Z_scope.
#[local] Open Scope fm_scope.

(** What the server believes of a connection; of one that is down, whether its map still has it. *)
Definition standing_of (s : TcpServer.server) (x : TcpServer.connection) : standing :=
  match TcpServer.at_stage x with
  | TcpServer.Created => Fresh
  | TcpServer.Up => InUse
  | TcpServer.Down => if TcpServer.connections_ s !! TcpServer.cname x then Closed else Posted
  | TcpServer.Destroyed => Dead
  end.

Definition view (s : TcpServer.server) (c : loc) : option standing := standing_of s <$> TcpServer.conns s !! c.

Lemma view_frame s s' c :
  (∀ c', c' ≠ c → TcpServer.conns s' !! c' = TcpServer.conns s !! c') →
  (∀ c' x, c' ≠ c → TcpServer.conns s !! c' = Some x → TcpServer.connections_ s' !! TcpServer.cname x = TcpServer.connections_ s !! TcpServer.cname x) →
  ∀ c', c' ≠ c → view s' c' = view s c'.
Proof.
  intros Hc Hn c' Hne. unfold view. rewrite Hc by done. destruct (TcpServer.conns s !! c') as [x|] eqn:Hx; [|done]. cbn.
  unfold standing_of. by rewrite (Hn c' x).
Qed.

(** ** The server's own steps, seen from its connections *)

Definition at_stage_of (x : TcpServer.connection) (st : TcpServer.stage) : TcpServer.connection :=
  TcpServer.mkConnection (TcpServer.cname x) (TcpServer.getLoop x) st.

(** A server whose connection [c] has come to a stage, its map as before. *)
Lemma view_stage s s' c x st :
  TcpServer.conns s !! c = Some x → TcpServer.conns s' = <[c := at_stage_of x st]> (TcpServer.conns s) →
  TcpServer.connections_ s' = TcpServer.connections_ s →
  (∀ c', c' ≠ c → view s' c' = view s c') ∧ view s' c = Some (standing_of s (at_stage_of x st)).
Proof.
  intros Hx Hc Hn. split.
  - apply view_frame; [intros c' ?; by rewrite Hc, lookup_insert_ne | intros; by rewrite Hn].
  - unfold view. rewrite Hc, lookup_insert_eq. cbn. unfold standing_of. by rewrite Hn.
Qed.

(** A functor of the server's: what it does to what the server believes. *)
Lemma run_task_view s0 s' lp t s l1 l2 :
  TcpServerSpec.inv s → TcpServer.posted s = l1 ++ (lp, t) :: l2 → s0 = TcpServer.set_posted (l1 ++ l2) s → TcpServer.run_task t s0 = Ok s' →
  match t with
  | TcpServer.TListen => ∀ c, view s' c = view s c
  | TcpServer.TEstablished c => view s c = Some Fresh ∧ view s' c = Some InUse ∧ ∀ c', c' ≠ c → view s' c' = view s c'
  | TcpServer.TRemove c => view s c = Some Closed ∧ view s' c = Some Posted ∧ ∀ c', c' ≠ c → view s' c' = view s c'
  | TcpServer.TDestroyed c => view s c = Some Posted ∧ view s' c = Some Dead ∧ ∀ c', c' ≠ c → view s' c' = view s c'
  end.
Proof.
  intros Hi Hp -> Hs. destruct (TcpServer.task_eq_dec t TcpServer.TListen) as [->|Hlis].
  { cbn [TcpServer.run_task] in Hs. apply bind_Ok_inv in Hs as (_ & _ & Hs). by injection Hs as <-. }
  assert (∃ c, TcpServerSpec.concerns t c) as [c Hc] by (destruct t as [|c|c|c]; [done|exists c; unfold TcpServerSpec.concerns; auto..]).
  destruct (TcpServerSpec.taken_conn s lp t l1 l2 c Hi Hp Hc) as [x Hx].
  destruct (TcpServerSpec.taken_one s lp t l1 l2 c x Hi Hp Hc Hx) as (Hat & _ & _).
  destruct (TcpServerSpec.task_stage s c x _ Hi Hx Hat) as [(Hst & Ht & Hmap)|[(Hst & Ht & Hmap)|(Hst & Ht & Hmap)]]; injection Ht as _ ->;
    cbn [TcpServer.run_task] in Hs.
  - unfold TcpServer.connectEstablished, TcpServer.with_conn in Hs. change (TcpServer.conns (TcpServer.set_posted _ s)) with (TcpServer.conns s) in Hs.
    rewrite Hx in Hs. apply bind_Ok_inv in Hs as (_ & _ & Hs). injection Hs as <-.
    match goal with |- context [view ?s1 c = Some InUse] => destruct (view_stage s s1 c x TcpServer.Up Hx) as [H1 H2]; [done..|] end.
    split; [unfold view; rewrite Hx; cbn; unfold standing_of; by rewrite Hst|]. by split.
  - unfold TcpServer.removeConnectionInLoop, TcpServer.with_conn in Hs. apply bind_Ok_inv in Hs as (_ & _ & Hs). apply bind_Ok_inv in Hs as (_ & _ & Hs).
    change (TcpServer.conns (TcpServer.set_posted _ s)) with (TcpServer.conns s) in Hs. rewrite Hx in Hs.
    apply bind_Ok_inv in Hs as (_ & _ & Hs). injection Hs as <-.
    split; [unfold view; rewrite Hx; cbn; unfold standing_of; by rewrite Hst, Hmap|]. split.
    + unfold view. cbn. rewrite Hx. cbn. unfold standing_of. rewrite Hst. cbn. by rewrite lookup_delete_eq.
    + apply view_frame; [done|]. intros c' x' Hne Hx'. cbn. rewrite lookup_delete_ne; [done|].
      intros Heq. apply Hne. by apply (TcpServerSpec.iv_distinct _ Hi c' c x' x Hx' Hx).
  - unfold TcpServer.connectDestroyed, TcpServer.with_conn in Hs. change (TcpServer.conns (TcpServer.set_posted _ s)) with (TcpServer.conns s) in Hs.
    rewrite Hx in Hs. apply bind_Ok_inv in Hs as (_ & _ & Hs). injection Hs as <-.
    match goal with |- context [view ?s1 c = Some Dead] => destruct (view_stage s s1 c x TcpServer.Destroyed Hx) as [H1 H2]; [done..|] end.
    split; [unfold view; rewrite Hx; cbn; unfold standing_of; by rewrite Hst, Hmap|]. by split.
Qed.

(** The close callback of a connection that is up; when the connection lives in the server's own loop, [removeConnectionInLoop] runs at once. *)
Lemma close_view c x s s' :
  TcpServerSpec.inv s → TcpServer.conns s !! c = Some x → TcpServer.at_stage x = TcpServer.Up → TcpServer.perform (TcpServer.Close c) s = Ok s' →
  TcpServer.conns s' !! c = Some (at_stage_of x TcpServer.Down) ∧
  view s' c = Some (if decide (TcpServer.getLoop x = 0%nat) then Posted else Closed) ∧
  ∀ c', c' ≠ c → view s' c' = view s c'.
Proof.
  intros Hi Hx Hst Hs. cbn [TcpServer.perform] in Hs. unfold TcpServer.with_conn in Hs. rewrite Hx in Hs.
  unfold TcpServer.removeConnection in Hs. apply bind_Ok_inv in Hs as (_ & _ & Hs).
  pose proof (TcpServerSpec.iv_conns _ Hi c x Hx) as Hok. unfold TcpServerSpec.conn_ok in Hok. rewrite Hst in Hok. destruct Hok as [_ Hmap].
  unfold TcpServer.runInLoop in Hs. case_decide as Hl.
  - cbn [TcpServer.run_task] in Hs. unfold TcpServer.removeConnectionInLoop, TcpServer.with_conn in Hs.
    apply bind_Ok_inv in Hs as (_ & _ & Hs). apply bind_Ok_inv in Hs as (_ & _ & Hs). cbn [TcpServer.conns TcpServer.set_stage TcpServer.set_conns] in Hs.
    rewrite lookup_insert_eq in Hs. apply bind_Ok_inv in Hs as (_ & _ & Hs). injection Hs as <-. split_and!.
    + apply lookup_insert_eq.
    + unfold view. cbn. rewrite lookup_insert_eq. cbn. unfold standing_of. cbn. by rewrite lookup_delete_eq.
    + apply view_frame; [intros c' ?; cbn; by rewrite lookup_insert_ne|]. intros c' x' Hne Hx'. cbn. rewrite lookup_delete_ne; [done|].
      intros Heq. apply Hne. by apply (TcpServerSpec.iv_distinct _ Hi c' c x' x Hx' Hx).
  - injection Hs as <-. split_and!.
    + apply lookup_insert_eq.
    + unfold view. cbn. rewrite lookup_insert_eq. cbn. unfold standing_of. cbn. by rewrite Hmap.
    + apply view_frame; [intros c' ?; cbn; by rewrite lookup_insert_ne | done].
Qed.

(** ** The whole *)

Record kinv (k : TcpService.service) : Prop := {
  ki_server : TcpServerSpec.inv (TcpService.srv k);
  ki_objects : all_stand (view (TcpService.srv k)) (TcpService.objects k)
}.

Lemma history_app l1 l2 s s1 :
  TcpServerSpec.history l1 s → foldM TcpServer.perform l1 s = Ok s1 → TcpServerSpec.history l2 s1 → TcpServerSpec.history (l1 ++ l2) s.
Proof.
  revert s. induction l1 as [|e l1 IH]; intros s Hh Hf Hl; [cbn [foldM] in Hf; by injection Hf as ->|]. destruct Hh as [He Hh]. cbn [foldM] in Hf.
  apply bind_Ok_inv in Hf as (s' & Hs & Hf). split; [done|]. intros s2 Hs2. assert (s2 = s') as -> by congruence. by apply IH; [apply Hh| |].
Qed.

(** What a step has to do: it keeps the invariant and is a step of [TcpServer]'s. *)
Definition follows (k : TcpService.service) (r : list TcpServer.event * TcpService.service) : Prop :=
  kinv r.2 ∧ TcpServerSpec.history r.1 (TcpService.srv k) ∧ foldM TcpServer.perform r.1 (TcpService.srv k) = Ok (TcpService.srv r.2).

Lemma follows_one e k k' :
  kinv k' → TcpServer.enabled e (TcpService.srv k) → TcpServer.perform e (TcpService.srv k) = Ok (TcpService.srv k') → follows k ([e], k').
Proof. intros Hk He Hp. split; [done|]. split; [by split|]. cbn [fst snd foldM]. by rewrite Hp, bind_Ok. Qed.

(** A step at one connection. *)
Lemma object_step c f k s sd sd' :
  all_stand (view (TcpService.srv k)) (TcpService.objects k) → TcpServerSpec.inv s →
  view (TcpService.srv k) c = Some sd → view s c = Some sd' → (∀ c', c' ≠ c → view s c' = view (TcpService.srv k) c') →
  (∀ h, TcpService.objects k !! c = Some h → stands sd h → fine (stands sd') (f h)) →
  fine (λ k', kinv k' ∧ TcpService.srv k' = s) (TcpService.with_object c f (TcpService.set_srv s k)).
Proof.
  intros Hall Hi Hsd Hsd' Hfr Hf. destruct (view_object _ _ c sd Hall Hsd) as (h & Hh & Hst). unfold TcpService.with_object.
  cbn [TcpService.objects TcpService.set_srv]. rewrite Hh. eapply fine_bind; [by apply Hf|]. intros h' Hst'. cbn [fine]. split; [|done].
  constructor; [done|]. cbn. by eapply all_stand_set.
Qed.

Section Service.
Variable sys_write : loc → nat → list byte → write_outcome.
Hypothesis write_bounded : ∀ c n d k, sys_write c n d = Wrote k → 0 ≤ k ≤ zlen d.
Variable sys_readv : loc → nat → Buffer.readv_outcome.
Variable behaviour : user_event → world → list user_call.
Hypothesis behaviour_allowed : ∀ e w a, a ∈ behaviour e w → allowed a w.
Hypothesis behaviour_late : ∀ e w a, state_ (conn w) = kDisconnected → a ∈ behaviour e w → late_call a.

#[local] Notation run_task := (TcpService.run_task sys_write sys_readv behaviour).
#[local] Notation step := (TcpService.step sys_write sys_readv behaviour).
#[local] Notation serves := (TcpService.serves sys_write sys_readv behaviour).
#[local] Notation enabled := (TcpService.enabled sys_readv).

(** Its owner lets go of a connection. *)
Lemma lets_go c h : stands Closed h → fine (stands Posted) (ref_step (sys_write c) (sys_readv c) behaviour OwnerLets h).
Proof using All.
  intros Hst. destruct (let_go_stands (sys_write c) (write_bounded c) (sys_readv c) behaviour behaviour_allowed behaviour_late h Hst) as (h' & -> & ?). done.
Qed.

(** Running a functor of the server's that stands in a queue. *)
Lemma run_order_ok k lp t l1 l2 :
  kinv k → TcpServer.posted (TcpService.srv k) = l1 ++ (lp, t) :: l2 →
  match t with
  | TcpServer.TDestroyed c => ∀ h, TcpService.objects k !! c = Some h → ref_enabled (sys_readv c) DestroyedRuns h
  | _ => True
  end →
  let s0 := TcpServer.set_posted (l1 ++ l2) (TcpService.srv k) in
  fine (λ k', kinv k' ∧ TcpServer.run_task t s0 = Ok (TcpService.srv k')) (run_task t (TcpService.set_srv s0 k)).
Proof using All.
  intros Hk Hp Hen. cbv zeta. set (s0 := TcpServer.set_posted _ _).
  destruct (TcpServerSpec.run_task_ok (TcpService.srv k) lp t _ l1 l2 (ki_server _ Hk) Hp eq_refl) as (s' & Hs & Hi'). fold s0 in Hs.
  unfold TcpService.run_task. cbn [TcpService.srv TcpService.set_srv]. rewrite Hs, bind_Ok. cbv zeta.
  change (TcpService.set_srv s' (TcpService.mkService s0 (TcpService.objects k))) with (TcpService.set_srv s' k).
  pose proof (run_task_view s0 s' lp t _ l1 l2 (ki_server _ Hk) Hp eq_refl Hs) as Hv.
  assert (Hw : ∀ r, fine (λ k', kinv k' ∧ TcpService.srv k' = s') r → fine (λ k', kinv k' ∧ Ok s' = Ok (TcpService.srv k')) r)
    by (intros r Hr; eapply fine_impl; [exact Hr|]; intros k' [? ->]; done).
  destruct t as [|c|c|c].
  - cbn [fine]. split; [|done]. constructor; [done|]. cbn. eapply all_stand_frame; [apply Hk | done].
  - destruct Hv as (H1 & H2 & H3). apply Hw. eapply object_step; [apply Hk | done..|]. intros h _ Hst.
    pose proof (established_stands (sys_write c) (write_bounded c) behaviour behaviour_allowed c h Hst) as He.
    eapply fine_bind; [exact He|]. intros w Hw'. exact Hw'.
  - destruct Hv as (H1 & H2 & H3). apply Hw. eapply object_step; [apply Hk | done..|]. intros h _ Hst. by apply lets_go.
  - destruct Hv as (H1 & H2 & H3). apply Hw. eapply object_step; [apply Hk | done..|]. intros h Hh Hst.
    apply (destroyed_stands (sys_write c) (write_bounded c) (sys_readv c) behaviour behaviour_allowed behaviour_late); [done | by apply Hen].
Qed.

(** A connection reports its end. *)
Lemma closed_ok c h' k x :
  kinv k → TcpServer.conns (TcpService.srv k) !! c = Some x → TcpServer.at_stage x = TcpServer.Up → stands Closed h' →
  fine (follows k) (k' ← TcpService.closed sys_write sys_readv behaviour c (TcpService.set_object c h' k); Ok ([TcpServer.Close c], k')).
Proof using All.
  intros Hk Hx Hup Hst. assert (Hen : TcpServer.enabled (TcpServer.Close c) (TcpService.srv k)) by by exists x.
  destruct (TcpServerSpec.perform_inv _ _ (ki_server _ Hk) Hen) as (s' & Hs & Hi'). unfold TcpService.closed. cbn [TcpService.srv TcpService.set_object].
  rewrite Hs, bind_Ok. cbv zeta. destruct (close_view c x _ s' (ki_server _ Hk) Hx Hup Hs) as (Hc & Hv & Hfr). rewrite Hc. cbn [TcpServer.getLoop at_stage_of].
  case_decide as Hl.
  - unfold TcpService.with_object. cbn [TcpService.objects TcpService.set_srv TcpService.set_object]. rewrite lookup_insert_eq.
    pose proof (lets_go c h' Hst) as Hg. destruct (ref_step _ _ _ OwnerLets h') as [h2|]; [|exact Hg]. rewrite !bind_Ok. cbn [fine].
    apply follows_one; [|done | done]. constructor; [done|]. cbn. rewrite insert_insert_eq. eapply all_stand_set; [apply Hk | done | exact Hv | done].
  - rewrite bind_Ok. cbn [fine]. apply follows_one; [|done | done]. constructor; [done|]. cbn. eapply all_stand_set; [apply Hk | done | exact Hv | done].
Qed.

Lemma connection_step_ok c e k :
  kinv k → enabled (TcpService.At c e) k → fine (follows k) (TcpService.connection_step sys_write sys_readv behaviour c e k).
Proof using All.
  intros Hk (Hu & h & Hh & Hns & He). unfold TcpService.connection_step. rewrite Hh.
  destruct (object_view _ _ c h (ki_objects _ Hk) Hh) as (sd & Hv & Hst).
  assert (Hnf : sd ≠ Fresh) by (intros ->; by destruct Hst as (_ & _ & _ & ?)).
  eapply fine_bind; [by eapply (user_stands (sys_write c) (write_bounded c) (sys_readv c) behaviour behaviour_allowed behaviour_late)|].
  intros h' [[Hc Hst']|(Hc & -> & Hst')]; cbv zeta.
  - rewrite decide_True by done. cbn [fine]. split; [|done]. constructor; [apply Hk|]. cbn. eapply all_stand_set; [apply Hk | done | exact Hv | done].
  - rewrite decide_False by done. unfold view in Hv. destruct (TcpServer.conns (TcpService.srv k) !! c) as [x|] eqn:Hx; [|done].
    apply (closed_ok c h' k x); [done | done | | done]. cbn in Hv. injection Hv as Hv. unfold standing_of in Hv.
    destruct (TcpServer.at_stage x); try done. by case_match.
Qed.

Lemma accepted_ok fd l wc lp k :
  kinv k → enabled (TcpService.Accepted fd l wc lp) k →
  fine (λ k', kinv k' ∧ TcpServer.newConnection true (TcpService.srv k) = Ok (TcpService.srv k'))
    (TcpService.newConnection sys_write sys_readv behaviour fd l wc lp k).
Proof using All.
  intros Hk (Hnum & Hclean & Hrest). set (s := TcpService.srv k) in *. pose proof (ki_server _ Hk) as Hi. fold s in Hi.
  destruct (TcpServerSpec.addConnection_accepted s Hi) as (io & p & Hp & Ha). set (c := fresh (dom (TcpServer.conns s))) in *.
  pose proof (TcpServerSpec.accepted_inv s io p c Hi Hnum Hp eq_refl) as Hpost.
  unfold TcpService.newConnection, TcpServer.newConnection. fold s. rewrite Ha, !bind_Ok. set (s1 := TcpServerSpec.accepted io p s) in *.
  assert (Hx : TcpServer.conns s1 !! c = Some (TcpServer.mkConnection (TcpServerSpec.conn_name s (TcpServer.next_conn_id_ s)) io TcpServer.Created))
    by apply lookup_insert_eq. rewrite Hx. cbn [TcpServer.cname].
  destruct (born_stands (TcpServerSpec.conn_name s (TcpServer.next_conn_id_ s)) fd l wc lp Hclean Hrest) as (w & -> & Hst). rewrite bind_Ok.
  set (k1 := TcpService.set_srv (TcpServer.post io (TcpServer.TEstablished c) s1) (TcpService.set_object c (mkHeld w Owned 0) k)).
  assert (Hk1 : kinv k1).
  { constructor; [exact Hpost|]. eapply all_stand_set; [apply Hk | | | exact Hst].
    - apply view_frame; [intros c' ?; cbn; by rewrite lookup_insert_ne|]. intros c' x' Hne Hx'. cbn. rewrite lookup_insert_ne; [done|].
      intros Heq. by apply (TcpServerSpec.new_name_unused s c' x' Hi Hx').
    - unfold view. change (TcpServer.conns (TcpService.srv k1)) with (TcpServer.conns s1). by rewrite Hx. }
  unfold TcpService.runInLoop, TcpServer.runInLoop. destruct (decide (0%nat = io)) as [<-|Hne]; [|by split].
  pose proof (run_order_ok k1 0 (TcpServer.TEstablished c) (TcpServer.posted s1) [] Hk1 eq_refl I) as Hr.
  rewrite app_nil_r in Hr.
  assert (Hback : TcpServer.set_posted (TcpServer.posted s1) (TcpService.srv k1) = s1) by by destruct s1.
  rewrite Hback in Hr. exact Hr.
Qed.

Lemma step_ok e k : kinv k → enabled e k → fine (follows k) (step e k).
Proof using All.
  intros Hk He. destruct e as [fd l wc lp|lp|c e]; cbn [TcpService.step].
  - eapply fine_bind; [by apply accepted_ok|]. intros k' [Hk' Hp]. cbn [fine]. apply follows_one; [done | apply He | done].
  - cbn [TcpService.enabled] in He. destruct (TcpServer.take_first lp (TcpServer.posted (TcpService.srv k))) as [[t rest]|] eqn:Ht.
    + pose proof Ht as Htake. apply TcpServerSpec.take_first_split in Ht as (l1 & l2 & Hp & -> & _).
      eapply fine_bind; [apply (run_order_ok k lp t l1 l2); [done | done | by destruct t]|]. intros k' [Hk' Hs]. cbn [fine]. apply follows_one; [done | done|].
      cbn [TcpServer.perform]. by rewrite Htake.
    + cbn [fine]. apply follows_one; [done | done|]. cbn [TcpServer.perform]. by rewrite Ht.
  - by apply connection_step_ok.
Qed.

Lemma serves_follows k0 seen k : kinv k0 → serves k0 seen k → follows k0 (seen, k).
Proof using All.
  intros Hk0. induction 1 as [|e seen done k k' _ IH He Hs]; [by split_and!|]. destruct IH as (Hk & Hh & Hf). cbn [fst snd] in *.
  pose proof (step_ok e k Hk He) as Hok. rewrite Hs in Hok.
  destruct Hok as (Hk' & Hh' & Hf'). cbn [fst snd] in *. split; [done|]. cbn [fst snd]. split; [by eapply history_app|].
  rewrite foldM_app, Hf, bind_Ok. exact Hf'.
Qed.
End Service.

(** ** Every history *)

Lemma started_kinv ip name option n s :
  zlen ip ≤ 45 → 0 ≤ n → TcpServerSpec.started ip name option n = Ok s → kinv (TcpService.mkService s ∅).
Proof.
  intros Hip Hn Hs. destruct (TcpServerSpec.started_inv ip name option n Hip Hn) as (s1 & Hs1 & Hi & _). assert (s1 = s) as -> by congruence.
  constructor; [done|]. cbn [TcpService.srv TcpService.objects].
  assert (Hc : TcpServer.conns s = ∅); [|intros c; unfold view; by rewrite Hc, !lookup_empty].
  unfold TcpServerSpec.started, TcpServer.setThreadNum, TcpServer.start in Hs. apply bind_Ok_inv in Hs as (s2 & H2 & Hs).
  apply bind_Ok_inv in H2 as (_ & _ & H2). injection H2 as <-. apply bind_Ok_inv in Hs as (s3 & H3 & Hs). injection Hs as <-.
  cbn [TcpServer.start_ TcpServer.set_pool TcpServer.newServer] in H3. apply bind_Ok_inv in H3 as (p & _ & H3). apply bind_Ok_inv in H3 as (_ & _ & H3).
  unfold TcpServer.runInLoop in H3. rewrite decide_True in H3 by done. cbn [TcpServer.run_task] in H3. apply bind_Ok_inv in H3 as (_ & _ & H3).
  by injection H3 as <-.
Qed.


(** ** A server with one connection *)

#[local] Notation demo_step := (TcpService.step (λ _, three_bytes) (λ _, hello) echo).
#[local] Notation demo_serves := (TcpService.serves (λ _, three_bytes) (λ _, hello) echo).

(** Steps one after the other, each possible when it happens. *)
Fixpoint play (evs : list TcpService.event) (seen : list TcpServer.event) (k : TcpService.service)
    (seen' : list TcpServer.event) (k' : TcpService.service) : Prop :=
  match evs with
  | [] => seen = seen' ∧ k = k'
  | e :: evs => TcpService.enabled (λ _, hello) e k ∧ ∃ r, demo_step e k = Ok r ∧ play evs (seen ++ r.1) r.2 seen' k'
  end.

Lemma play_serves k0 evs seen k seen' k' : demo_serves k0 seen k → play evs seen k seen' k' → demo_serves k0 seen' k'.
Proof.
  revert seen k. induction evs as [|e evs IH]; intros seen k Hk; simpl; [by intros [<- <-]|]. intros (He & [done k1] & Hs & Hp).
  eapply IH; [|exact Hp]. by eapply TcpService.serve_step.
Qed.

(** One step of such a run, computed. *)
#[local] Ltac served := eexists; split; [vm_compute; reflexivity|]; cbn [fst snd].
#[local] Ltac used :=
  split; [split; [exact I|]; eexists; split; [vm_compute; reflexivity|]; split; [vm_compute; discriminate|]; vm_compute;
          repeat split; try done; try lia; try (by left); try (by eexists); try (intros ? [= <-]; vm_compute; discriminate)|]; served.

(** It is accepted, established by its loop, echoes what it reads, is hung up by the peer while a thread shares it, removed, kept for the send that
    the thread has under way, and freed when the thread lets go. *)
Lemma service_demo : ∃ s k, TcpServerSpec.started demo_ip (bytes "srv") TcpServer.kNoReusePort 2 = Ok s ∧
  demo_serves (TcpService.mkService s ∅) [TcpServer.Accept; TcpServer.Run 1; TcpServer.Close 1%positive; TcpServer.Run 0; TcpServer.Run 1] k ∧
  at_ <$> TcpService.objects k !! 1%positive = Some Freed.
Proof.
  destruct demo_loop_clean as (lp & Hl & Hc). pose proof (demo_loop_rest lp Hl) as Hr.
  destruct (TcpServerSpec.started demo_ip (bytes "srv") TcpServer.kNoReusePort 2) as [s|] eqn:Hs; [|by vm_compute in Hs].
  exists s. vm_compute in Hs. injection Hs as <-. vm_compute in Hl. injection Hl as <-.
  eexists. split; [done|]. split.
  - eapply (play_serves _ [TcpService.Accepted 7 2 true _; TcpService.Run 1; TcpService.At 1%positive Shares;
      TcpService.At 1%positive (Happens (Report CbRead 0)); TcpService.At 1%positive (Happens (Report CbClose 0)); TcpService.Run 0;
      TcpService.Run 1; TcpService.At 1%positive (Posts (FSendBuffer InputBuffer)); TcpService.At 1%positive (Happens Functor);
      TcpService.At 1%positive (Releases false)]); [constructor|].
    cbn [play]. split; [split; [done | by split; [exact Hc|]]|]. served. split; [exact I|]. served. used. used. used.
    split; [exact I|]. served. split.
    { intros h [= <-]. vm_compute. split; [reflexivity|]. intros H. by inversion H. }
    served. used. used. used. split; reflexivity.
  - reflexivity.
Qed.

