(* ===== verification/TcpClientService.v ===== *)
(** * A client together with its connections

    [TcpClient] knows of a connection only how far it has come.  Here every connection is the object of [TcpConnection], in its
    loop, with the references that are held to it ([ConnectionRefs]): the client makes and establishes it when its connector hands over a
    socket, its close callback calls the client's [removeConnection], which puts the client's reference in the functor that runs
    [connectDestroyed], as in net/TcpClient.cpp; the object goes with the last reference, and a functor that holds only [this] stays in
    the queue.  [disconnect] is called in any thread.  The destructor of the client, whose faults [TcpClientSpec] shows, is not among the events. *)
From stdpp Require Import base list gmap numbers strings.
From Stdlib Require Import ZArith Lia Init.Byte.
From S2P Require Import Prelude.
From S2P Require Import ByteBuffer.
From S2P Require Import Channel.
From S2P Require Import EventLoop.
From S2P Require Import TcpConnection.
From S2P Require Import TcpConnectionSpec.
From S2P Require Import ConnectionTheorems.
From S2P Require Import ConnectionFrame.
From S2P Require Import ConnectionLife.
From S2P Require Import ConnectionRefs.
From S2P Require Import ConnectionOwner.
From S2P Require Import Connector.
From S2P Require Import ConnectorSpec.
From S2P Require Import TcpClient.
From S2P Require Import TcpClientSpec.
#[local] Open Scope Z_scope.
#[local] Open Scope fm_scope.

Module TcpClientService.
Abbreviation client := TcpClient.client.
Abbreviation world := TcpConnection.world.
Abbreviation loop := (EventLoop.EventLoop.EventLoop TcpConnection.functor TcpConnection.channel_cb).

Record service := mkService {
  cl : client;
  objects : gmap loc held
}.

Definition set_object (c : loc) (h : held) (k : service) : service := mkService (cl k) (<[c := h]> (objects k)).
Definition set_cl (s : client) (k : service) : service := mkService s (objects k).

Section Service.
(** The system calls of the connector and of the connections, and what the user's callbacks do. *)
Variable sys_socket : nat → gmap Z loc → Z.
Variable sys_connect : nat → Z.
Variable so_error : nat → Z.
Variable self_connect : nat → bool.
Variable peer_text : Z → list byte.
Variable sys_write : loc → nat → list byte → TcpConnection.write_outcome.
Variable sys_readv : loc → nat → Buffer.readv_outcome.
Variable behaviour : TcpConnection.user_event → world → list TcpConnection.user_call.

#[local] Notation c_perform := (Connector.perform sys_socket sys_connect so_error self_connect).

#[local] Notation ref_step c := (ref_step (sys_write c) (sys_readv c) behaviour).

Definition with_object (c : loc) (f : held → result held) (k : service) : result service :=
  match objects k !! c with Some h => h ← f h; Ok (set_object c h k) | None => Fault UseAfterFree end.

(** [src/net/TcpClient.cpp:80-103 TcpClient::newConnection] with the object: its channel's address, and its loop, in which it is alone. *)
Definition newConnection (l : loc) (hasWriteComplete : bool) (lp : loop) (sockfd : Z) (k : service) : result service :=
  s ← TcpClient.newConnection peer_text true sockfd (cl k);
  match TcpClient.connection_ s with
  | None => Fault NullDeref
  | Some conn =>
      match TcpClient.conns s !! conn with
      | None => Fault UseAfterFree
      | Some x =>
          w ← TcpConnection.newConnection (TcpClient.cname x) sockfd l hasWriteComplete false lp;
          w ← TcpConnection.connectEstablished (sys_write conn) behaviour true conn w;
          Ok (set_object conn (mkHeld w Owned 0) (set_cl s k))
      end
  end.

(** Behind a handler of connection [c], which was [h]: if it has called the close callback, the client's turn has come, and with
    [removeConnection] its reference goes into the functor that it posts. *)
Definition reported (c : loc) (h h' : held) (k : service) : result (bool * service) :=
  let k := set_object c h' k in
  if decide (TcpConnection.closed_calls (it h') = TcpConnection.closed_calls (it h)) then Ok (false, k)
  else
    s ← TcpClient.close_conn sys_socket sys_connect c (cl k);
    let k := set_cl s k in
    match TcpClient.conns s !! c with
    | Some x =>
        match TcpClient.on_close x with
        | TcpClient.ByClient => k ← with_object c (ref_step c OwnerLets) k; Ok (true, k)
        | TcpClient.Detached => Ok (true, k)
        end
    | None => Fault UseAfterFree
    end.

(** [src/net/TcpClient.cpp:61-68 TcpClient::disconnect] with the connection's [shutdown], in the loop's thread or another. *)
Definition disconnect (inLoop : bool) (k : service) : result service :=
  s ← TcpClient.disconnect (cl k);
  match TcpClient.connection_ s with
  | Some c => with_object c (fun h => w ← TcpConnection.shutdown inLoop (it h); Ok (mkHeld w (at_ h) (holders h))) (set_cl s k)
  | None => Ok (set_cl s k)
  end.

(** A functor that concerns a connection. *)
Definition run_task (t : TcpClient.task) (k : service) : result service :=
  match t with
  | TcpClient.TForceClose c =>
      match objects k !! c with
      | Some h =>
          w ← TcpConnection.forceCloseInLoop (sys_write c) behaviour true (it h);
          r ← reported c h (mkHeld w (at_ h) (holders h)) k;
          Ok (snd r)
      | None => Fault UseAfterFree
      end
  | TcpClient.TDestroyed c =>
      s ← TcpClient.run_task sys_socket sys_connect t (cl k);
      with_object c (ref_step c DestroyedRuns) (set_cl s k)
  | TcpClient.TSetCloseCallback _ | TcpClient.TDangling =>
      s ← TcpClient.run_task sys_socket sys_connect t (cl k); Ok (set_cl s k)
  end.

Inductive event :=
  | Net (e : Connector.event) (l : loc) (hasWriteComplete : bool) (lp : loop)
      (** an event of the connector, and where a connection that it hands over comes to live *)
  | Connect | Disconnect (inLoop : bool) | Stop (inLoop : bool)
  | Task                                           (** the loop runs the next functor of a connection *)
  | At (c : loc) (e : ref_event).                  (** something happens on a connection, or with the references to it *)

(** A step of the whole, with the event of [TcpClient] that it is. *)
Definition step (e : event) (k : service) : result (list TcpClient.event * service) :=
  match e with
  | Net e l wc lp =>
      check! UseAfterFree (TcpClient.connector_alive (cl k));
      w ← c_perform e (TcpClient.connector_ (cl k));
      k ← foldM (newConnection l wc lp) (drop (length (Connector.handed (TcpClient.connector_ (cl k)))) (Connector.handed w))
            (set_cl (TcpClient.set_connector w (cl k)) k);
      Ok ([TcpClient.Net e], k)
  | Connect => s ← TcpClient.connect sys_socket sys_connect true (cl k); Ok ([TcpClient.Connect], set_cl s k)
  | Disconnect inLoop => k ← disconnect inLoop k; Ok ([TcpClient.Disconnect], k)
  | Stop inLoop => s ← TcpClient.stop inLoop (cl k); Ok ([TcpClient.Stop inLoop], set_cl s k)
  | Task =>
      match TcpClient.tasks (cl k) with
      | [] => Ok ([TcpClient.Task], k)
      | t :: ts => k ← run_task t (set_cl (TcpClient.set_tasks ts (cl k)) k); Ok ([TcpClient.Task], k)
      end
  | At c e =>
      match objects k !! c with
      | Some h =>
          h' ← ref_step c e h;
          r ← reported c h h' k;
          Ok (if r.1 : bool then [TcpClient.Close] else [], r.2)
      | None => Fault UseAfterFree
      end
  end.

(** The client is used as [TcpClientSpec] has it: [connect] only while the connector is disconnected and at rest.  A socket that is handed over
    finds a loop at rest that does not know it.  When [connectDestroyed] is next in the queue, the connection's own functors in front of it have
    run (it is one queue), and no [stopRead] is queued behind.  What happens on a connection, or is done with it, is what [ref_enabled]
    lets its users do; when that is its end and the client is to reconnect, its connector has nothing else to do. *)
Definition enabled (e : event) (k : service) : Prop :=
  match e with
  | Net e l wc lp =>
      TcpClientSpec.enabled (TcpClient.Net e) (cl k) ∧ at_rest lp ∧
      ∀ w fd, c_perform e (TcpClient.connector_ (cl k)) = Ok w →
        fd ∈ drop (length (Connector.handed (TcpClient.connector_ (cl k)))) (Connector.handed w) → clean_loop l fd lp
  | Connect => TcpClientSpec.enabled TcpClient.Connect (cl k)
  | Disconnect _ | Stop _ => True
  | Task =>
      match TcpClient.tasks (cl k) with
      | TcpClient.TDestroyed c :: _ => ∀ h, objects k !! c = Some h → ref_enabled (sys_readv c) DestroyedRuns h
      | _ => True
      end
  | At c e =>
      of_user e ∧ (∃ h, objects k !! c = Some h ∧ ref_enabled (sys_readv c) e h) ∧
      (TcpClient.retry_ (cl k) && TcpClient.connect_ (cl k) = true → TcpClient.connection_ (cl k) = Some c →
       ConnectorSpec.enabled Connector.Restart (TcpClient.connector_ (cl k)))
  end.

(** Histories, with those of the client that they are. *)
Inductive serves (k0 : service) : list TcpClient.event → service → Prop :=
  | serve_start : serves k0 [] k0
  | serve_step e seen done k k' : serves k0 seen k → enabled e k → step e k = Ok (done, k') → serves k0 (seen ++ done) k'.
End Service.
End TcpClientService.
