(* ===== verification/TcpClientServiceSpec.v ===== *)
(** * A client with its connections keeps the promises of both

    Every history of a client with its connections is one of [TcpClient]'s ([client_service_refines]), by the same lemmas on the life of a
    connection as for the server. *)
From stdpp Require Import base list gmap numbers strings.
From Stdlib Require Import ZArith Lia Init.Byte.
From S2P Require Import Prelude.
From S2P Require Import ByteBuffer.
From S2P Require Import Channel.
From S2P Require Import Poller.
From S2P Require Import EventLoop.
From S2P Require Import EventLoopSpec.
From S2P Require Import TcpConnection.
From S2P Require Import TcpConnectionSpec.
From S2P Require Import ConnectionTheorems.
From S2P Require Import ConnectionFrame.
From S2P Require Import ConnectionLife.
From S2P Require Import ConnectionRefs.
From S2P Require Import ConnectionOwner.
From S2P Require Import Connector.
From S2P Require Import ConnectorSpec.
From S2P Require Import TcpClient.
From S2P Require Import TcpClientSpec.
From S2P Require Import TcpClientService.
Import TcpConnection.TcpConnection.
#[local] Open Scope Z_scope.
#[local] Open Scope fm_scope.

(** What the client believes of a connection: it lets go of it when it is closed. *)
Definition client_standing (x : TcpClient.connection) : standing :=
  match TcpClient.at_stage x with
  | TcpClient.Up => InUse
  | TcpClient.Down => Posted
  | TcpClient.Destroyed => Dead
  end.

Definition client_view (s : TcpClient.client) (c : loc) : option standing := client_standing <$> TcpClient.conns s !! c.

(** A change at one connection. *)
Lemma client_view_insert s s' c x :
  TcpClient.conns s' = <[c := x]> (TcpClient.conns s) →
  (∀ c', c' ≠ c → client_view s' c' = client_view s c') ∧ client_view s' c = Some (client_standing x).
Proof. intros Hc. unfold client_view. rewrite Hc. split; [intros c' ?; by rewrite lookup_insert_ne | by rewrite lookup_insert_eq]. Qed.

Record kclinv (k : TcpClientService.service) : Prop := {
  kc_client : clinv (TcpClientService.cl k);
  kc_objects : all_stand (client_view (TcpClientService.cl k)) (TcpClientService.objects k)
}.

(** A connection has been changed, in the client and in its object. *)
Lemma kclinv_insert k s c x h :
  kclinv k → clinv s → TcpClient.conns s = <[c := x]> (TcpClient.conns (TcpClientService.cl k)) → stands (client_standing x) h →
  kclinv (TcpClientService.mkService s (<[c := h]> (TcpClientService.objects k))).
Proof.
  intros Hk Hs Hc Hst. destruct (client_view_insert (TcpClientService.cl k) s c x Hc) as [H1 H2]. constructor; [done|]. cbn.
  eapply all_stand_set; [apply Hk | done..].
Qed.

Section Service.
Variable sys_socket : nat → gmap Z loc → Z.
Hypothesis socket_fresh : ∀ n m, 0 ≤ sys_socket n m ∧ m !! sys_socket n m = None.
Variable sys_connect : nat → Z.
Variable so_error : nat → Z.
Variable self_connect : nat → bool.
Variable peer_text : Z → list byte.
Variable sys_write : loc → nat → list byte → write_outcome.
Hypothesis write_bounded : ∀ c n d k, sys_write c n d = Wrote k → 0 ≤ k ≤ zlen d.
Variable sys_readv : loc → nat → Buffer.readv_outcome.
Variable behaviour : user_event → world → list user_call.
Hypothesis behaviour_allowed : ∀ e w a, a ∈ behaviour e w → allowed a w.
Hypothesis behaviour_late : ∀ e w a, state_ (conn w) = kDisconnected → a ∈ behaviour e w → late_call a.

#[local] Notation perform := (TcpClient.perform sys_socket sys_connect so_error self_connect peer_text).
#[local] Notation newConnection := (TcpClientService.newConnection peer_text sys_write behaviour).
#[local] Notation step := (TcpClientService.step sys_socket sys_connect so_error self_connect peer_text sys_write sys_readv behaviour).
#[local] Notation enabled := (TcpClientService.enabled sys_socket sys_connect so_error self_connect sys_readv).

(** What a step has to do: it keeps the invariant and is a step of [TcpClient]'s. *)
Definition keeps_to (k : TcpClientService.service) (r : list TcpClient.event * TcpClientService.service) : Prop :=
  kclinv r.2 ∧ TcpClientSpec.all_enabled sys_socket sys_connect so_error self_connect peer_text r.1 (TcpClientService.cl k) ∧
  foldM perform r.1 (TcpClientService.cl k) = Ok (TcpClientService.cl r.2).

Lemma keeps_to_one e k k' :
  kclinv k' → TcpClientSpec.enabled e (TcpClientService.cl k) → perform e (TcpClientService.cl k) = Ok (TcpClientService.cl k') →
  keeps_to k ([e], k').
Proof using Type. intros Hk He Hp. split; [done|]. split; [by split|]. cbn [fst snd foldM]. by rewrite Hp, bind_Ok. Qed.

(** A step that concerns none of the connections. *)
Lemma keeps_to_client e k s :
  kclinv k → TcpClientSpec.enabled e (TcpClientService.cl k) → perform e (TcpClientService.cl k) = Ok s →
  TcpClient.conns s = TcpClient.conns (TcpClientService.cl k) → keeps_to k ([e], TcpClientService.set_cl s k).
Proof using socket_fresh.
  intros Hk He Hs Hc. destruct (perform_clinv sys_socket socket_fresh sys_connect so_error self_connect peer_text e _ (kc_client _ Hk) He)
    as (s' & Hs' & Hi'). assert (s' = s) as -> by congruence. apply keeps_to_one; [|done..]. constructor; [done|]. cbn.
  eapply all_stand_frame; [apply Hk|]. intros c. unfold client_view. by rewrite Hc.
Qed.

(** A socket that has been handed over becomes a connection. *)
Lemma handed_over_ok fd l wc lp k s' :
  all_stand (client_view (TcpClientService.cl k)) (TcpClientService.objects k) →
  clean_loop l fd lp → at_rest lp → TcpClient.newConnection peer_text true fd (TcpClientService.cl k) = Ok s' → clinv s' →
  fine (λ k', kclinv k' ∧ TcpClientService.cl k' = s') (newConnection l wc lp fd k).
Proof using write_bounded behaviour_allowed.
  intros Hk Hclean Hrest Hs Hi. unfold TcpClientService.newConnection. rewrite Hs, bind_Ok.
  unfold TcpClient.newConnection in Hs. apply bind_Ok_inv in Hs as (_ & _ & Hs). apply bind_Ok_inv in Hs as (_ & _ & Hs). cbv zeta in Hs.
  set (c := fresh _) in Hs. set (x := TcpClient.mkConnection _ _ _ _) in Hs. 
  assert (Hcur : TcpClient.connection_ s' = Some c) by by injection Hs as <-.
  assert (Hcs : TcpClient.conns s' = <[c := x]> (TcpClient.conns (TcpClientService.cl k))) by by injection Hs as <-.
  rewrite Hcur, Hcs, lookup_insert_eq. destruct (born_stands (TcpClient.cname x) fd l wc lp Hclean Hrest) as (w & -> & Hst). rewrite bind_Ok.
  eapply fine_bind; [exact (established_stands (sys_write c) (write_bounded c) behaviour behaviour_allowed c _ Hst)|]. intros w' Hst'. cbn [fine].
  split; [|done]. destruct (client_view_insert (TcpClientService.cl k) s' c x Hcs) as [H1 H2]. constructor; [done|]. cbn.
  by eapply all_stand_set; [exact Hk| | |exact Hst'].
Qed.

Lemma net_step_ok e l wc lp k :
  kclinv k → enabled (TcpClientService.Net e l wc lp) k → fine (keeps_to k) (step (TcpClientService.Net e l wc lp) k).
Proof using All.
  intros Hk (He & Hrest & Hclean). destruct (net_ok sys_socket socket_fresh sys_connect so_error self_connect peer_text e _ (kc_client _ Hk) He) as (s' & Hs & Hi').
  pose proof Hs as Hperf. cbn [TcpClientService.step]. cbn [TcpClient.perform] in Hs. rewrite (proj2 (cl_alive _ (kc_client _ Hk))) in *.
  cbn [ensure] in Hs |- *. rewrite !bind_Ok in *. apply bind_Ok_inv in Hs as (w & Hw & Hs). specialize (Hclean w). rewrite Hw, bind_Ok.
  destruct (perform_handed _ _ _ _ _ _ _ Hw) as [Hh | (fd & Hh & _)]; rewrite Hh in Hs, Hclean |- *.
  - rewrite drop_all in Hs |- *. cbn [foldM] in Hs |- *. rewrite bind_Ok. cbn [fine]. injection Hs as <-.
    apply keeps_to_client; [done | done | exact Hperf | done].
  - rewrite drop_app_length in Hs, Hclean |- *. cbn [foldM] in Hs |- *. apply bind_Ok_inv in Hs as (s1 & Hs & Hs1). injection Hs1 as ->.
    assert (Hok : fine (λ k', kclinv k' ∧ TcpClientService.cl k' = s')
      (newConnection l wc lp fd (TcpClientService.set_cl (TcpClient.set_connector w (TcpClientService.cl k)) k))).
    { apply handed_over_ok; [apply (kc_objects _ Hk) | | done | exact Hs | done]. apply Hclean; [done | set_solver]. }
    destruct (newConnection _ _ _ _ _) as [k'|f]; [|exact Hok]. destruct Hok as [Hk' <-]. rewrite !bind_Ok. cbn [fine]. by apply keeps_to_one.
Qed.

(** [disconnect] finds the connection up. *)
Lemma disconnect_stands (c : loc) b h : stands InUse h → fine (λ w, stands InUse (mkHeld w (at_ h) (holders h))) (shutdown b (it h)).
Proof using All.
  intros Hst. pose proof (proj1 (proj2 Hst)) as Ha.
  assert (Hen : ref_enabled (sys_readv c) (Happens (Call b UShutdown)) h) by (split; [done|]; rewrite Ha; by destruct b).
  pose proof (user_stands (sys_write c) (write_bounded c) (sys_readv c) behaviour behaviour_allowed behaviour_late InUse (Happens (Call b UShutdown)) h Hst ltac:(done) I Hen) as Hok.
  assert (Hstep : ref_step (sys_write c) (sys_readv c) behaviour (Happens (Call b UShutdown)) h = (w ← shutdown b (it h); Ok (mkHeld w (at_ h) (holders h))))
    by (cbn [ref_step]; by rewrite Ha).
  rewrite Hstep in Hok. destruct (shutdown b (it h)) as [w|f] eqn:Hw; [|exact Hok]. rewrite bind_Ok in Hok. cbn [fine it] in *.
  destruct Hok as [[_ ?]|(Hc & _)]; [done|]. destruct Hc. apply shutdown_leaves in Hw. exact (un_closed _ _ Hw).
Qed.

Lemma disconnect_step_ok b k : kclinv k → fine (keeps_to k) (step (TcpClientService.Disconnect b) k).
Proof using All.
  intros Hk. destruct (disconnect_ok sys_socket sys_connect so_error self_connect peer_text _ (kc_client _ Hk)) as (s' & Hs & Hi').
  pose proof Hs as Hperf. cbn [TcpClientService.step]. cbn [TcpClient.perform] in Hs. unfold TcpClientService.disconnect. rewrite Hs, bind_Ok.
  unfold TcpClient.disconnect, TcpClient.with_conn in Hs. cbn [TcpClient.connection_ TcpClient.set_connect] in Hs.
  destruct (TcpClient.connection_ (TcpClientService.cl k)) as [c|] eqn:Hc.
  - destruct (cl_current _ (kc_client _ Hk) c Hc) as (x & Hx & Hup). cbn [TcpClient.conns TcpClient.set_connect] in Hs. rewrite Hx in Hs.
    set (x' := TcpClient.mkConnection _ _ _ _) in Hs.
    assert (Hcur : TcpClient.connection_ s' = Some c) by by injection Hs as <-.
    assert (Hcs : TcpClient.conns s' = <[c := x']> (TcpClient.conns (TcpClientService.cl k))) by by injection Hs as <-.
    rewrite Hcur. destruct (view_object _ _ c InUse (kc_objects _ Hk)) as (h & Hh & Hst); [unfold client_view, client_standing; by rewrite Hx; cbn; rewrite Hup|].
    unfold TcpClientService.with_object. cbn [TcpClientService.objects TcpClientService.set_cl]. rewrite Hh.
    pose proof (disconnect_stands c b h Hst) as Hok. destruct (shutdown b (it h)) as [w'|f]; [|exact Hok].
    rewrite !bind_Ok. cbn [fine] in Hok |- *. apply keeps_to_one; [|done|exact Hperf].
    eapply (kclinv_insert k s' c x'); [done..|]. unfold client_standing. cbn. by rewrite Hup.
  - assert (Hcs : TcpClient.conns s' = TcpClient.conns (TcpClientService.cl k)) by by injection Hs as <-.
    assert (Hcur : TcpClient.connection_ s' = None) by by injection Hs as <-. rewrite Hcur, bind_Ok. cbn [fine].
    apply keeps_to_one; [constructor; [done|]; cbn; eapply all_stand_frame; [apply Hk | intros c; unfold client_view; by rewrite Hcs] | done | exact Hperf].
Qed.

Lemma task_step_ok k : kclinv k → enabled TcpClientService.Task k → fine (keeps_to k) (step TcpClientService.Task k).
Proof using All.
  intros Hk Hen. destruct (task_ok sys_socket socket_fresh sys_connect so_error self_connect peer_text _ (kc_client _ Hk)) as (s' & Hs & Hi').
  pose proof Hs as Hperf. cbn [TcpClientService.step]. cbn [TcpClient.perform] in Hs.
  destruct (TcpClient.tasks (TcpClientService.cl k)) as [|t ts] eqn:Hts.
  - injection Hs as <-. cbn [fine]. by apply keeps_to_one.
  - destruct (cl_tasks _ (kc_client _ Hk) t) as (c & x & -> & Hx); [rewrite Hts; set_solver|].
    assert (Hst : TcpClient.at_stage x = TcpClient.Down).
    { destruct (cl_conns _ (kc_client _ Hk) _ _ Hx) as [_ Hst]. rewrite Hts in Hst. unfold due in Hst. rewrite filter_cons, decide_True in Hst by done.
      destruct (TcpClient.at_stage x); [by destruct Hst | done | by destruct Hst]. }
    destruct (view_object _ _ c Posted (kc_objects _ Hk)) as (h & Hh & Hstd); [unfold client_view, client_standing; by rewrite Hx; cbn; rewrite Hst|].
    cbn [TcpClientService.run_task]. cbn [TcpClientService.cl TcpClientService.set_cl]. rewrite Hs, bind_Ok.
    unfold TcpClientService.with_object. cbn [TcpClientService.objects TcpClientService.set_cl]. rewrite Hh.
    pose proof (destroyed_stands (sys_write c) (write_bounded c) (sys_readv c) behaviour behaviour_allowed behaviour_late h Hstd) as Hok.
    cbn [TcpClientService.enabled] in Hen. rewrite Hts in Hen. specialize (Hok (Hen h Hh)).
    destruct (ref_step _ _ _ DestroyedRuns h) as [h'|f]; [|exact Hok]. rewrite !bind_Ok. cbn [fine] in Hok |- *. apply keeps_to_one; [|done|exact Hperf].
    cbn [TcpClient.run_task] in Hs. unfold TcpClient.with_conn in Hs.
    change (TcpClient.conns (TcpClient.set_tasks ts (TcpClientService.cl k))) with (TcpClient.conns (TcpClientService.cl k)) in Hs. rewrite Hx, Hst in Hs. cbn in Hs.
    injection Hs as <-. by eapply (kclinv_insert k _ c).
Qed.

Lemma at_step_ok c e k :
  kclinv k → enabled (TcpClientService.At c e) k → fine (keeps_to k) (step (TcpClientService.At c e) k).
Proof using All.
  intros Hk (Hu & (h & Hh & He) & Hretry). cbn [TcpClientService.step]. rewrite Hh.
  destruct (object_view _ _ c h (kc_objects _ Hk) Hh) as (sd & Hv & Hst). unfold client_view in Hv.
  destruct (TcpClient.conns (TcpClientService.cl k) !! c) as [x|] eqn:Hx; [|done]. cbn in Hv. injection Hv as Hv.
  assert (Hnf : sd ≠ Fresh) by (subst sd; unfold client_standing; by destruct (TcpClient.at_stage x)).
  eapply fine_bind; [by eapply (user_stands (sys_write c) (write_bounded c) (sys_readv c) behaviour behaviour_allowed behaviour_late)|].
  intros h' Hcl. unfold TcpClientService.reported. cbv zeta. destruct Hcl as [[Hc Hst']|(Hc & -> & Hst')].
  - rewrite decide_True, bind_Ok by done. cbn [fine fst snd]. split; [|done]. cbn [fst snd].
    eapply (kclinv_insert k _ c x); [done | apply Hk | by rewrite insert_id | by rewrite Hv].
  - rewrite decide_False by done.
    assert (Hxup : TcpClient.at_stage x = TcpClient.Up) by (unfold client_standing in Hv; by destruct (TcpClient.at_stage x)).
    destruct (cl_conns _ (kc_client _ Hk) _ _ Hx) as [Hby Hcur]. rewrite Hxup in Hcur. destruct Hcur as [Hcur _].
    assert (Hen : TcpClientSpec.enabled TcpClient.Close (TcpClientService.cl k)) by (split; [by eexists | intros Hr; by apply Hretry]).
    destruct (close_ok sys_socket socket_fresh sys_connect so_error self_connect peer_text _ (kc_client _ Hk) Hen) as (s' & Hs & Hi').
    pose proof Hs as Hperf. rewrite (close_unfold _ _ _ _ _ _ c x) in Hs by (apply Hk || done).
    set (x' := TcpClient.mkConnection (TcpClient.cname x) TcpClient.Down (TcpClient.on_close x) (TcpClient.shut x)).
    assert (Hcs : TcpClient.conns s' = <[c := x']> (TcpClient.conns (TcpClientService.cl k))).
    { destruct (_ && _); [apply bind_Ok_inv in Hs as (? & _ & Hs)|]; by injection Hs as <-. }
    pose proof Hperf as Hclose. cbn [TcpClient.perform] in Hclose. rewrite Hcur in Hclose.
    cbn [TcpClientService.cl TcpClientService.set_object]. rewrite Hclose, bind_Ok, Hcs, lookup_insert_eq. cbn [TcpClient.on_close x']. rewrite Hby.
    unfold TcpClientService.with_object. cbn [TcpClientService.objects TcpClientService.set_cl TcpClientService.set_object]. rewrite lookup_insert_eq.
    destruct (let_go_stands (sys_write c) (write_bounded c) (sys_readv c) behaviour behaviour_allowed behaviour_late h' Hst') as (h2 & -> & Hst2).
    rewrite !bind_Ok. cbn [fine fst snd]. apply keeps_to_one; [|done | exact Hperf].
    unfold TcpClientService.set_object, TcpClientService.set_cl. cbn [TcpClientService.objects TcpClientService.cl]. rewrite insert_insert_eq.
    by eapply (kclinv_insert k s' c x').
Qed.

Lemma service_step_ok e k : kclinv k → enabled e k → fine (keeps_to k) (step e k).
Proof using All.
  intros Hk He. destruct e as [e l wc lp| |b|b| |c e].
  - by apply net_step_ok.
  - destruct (perform_clinv sys_socket socket_fresh sys_connect so_error self_connect peer_text TcpClient.Connect _ (kc_client _ Hk) He) as (s' & Hs & _).
    pose proof Hs as Hp. cbn [TcpClient.perform] in Hp. cbn [TcpClientService.step]. rewrite Hp, bind_Ok. cbn [fine].
    apply keeps_to_client; [done..|]. unfold TcpClient.connect in Hp. apply bind_Ok_inv in Hp as (? & _ & Hp). by injection Hp as <-.
  - by apply disconnect_step_ok.
  - cbn [TcpClientService.step]. unfold TcpClient.stop, Connector.stop. rewrite !bind_Ok. cbn [fine]. by apply keeps_to_client.
  - by apply task_step_ok.
  - by apply at_step_ok.
Qed.

Lemma all_enabled_app l1 l2 s s1 :
  let all := TcpClientSpec.all_enabled sys_socket sys_connect so_error self_connect peer_text in
  all l1 s → foldM perform l1 s = Ok s1 → all l2 s1 → all (l1 ++ l2) s.
Proof using Type.
  cbv zeta. revert s. induction l1 as [|e l1 IH]; intros s Hh Hf Hl; [cbn [foldM] in Hf; by injection Hf as ->|]. destruct Hh as [He Hh].
  cbn [foldM] in Hf. apply bind_Ok_inv in Hf as (s' & Hs & Hf). split; [done|]. intros s2 Hs2. assert (s2 = s') as -> by congruence.
  by apply IH; [apply Hh| |].
Qed.

Lemma serves_keeps_to k0 seen k :
  kclinv k0 → TcpClientService.serves sys_socket sys_connect so_error self_connect peer_text sys_write sys_readv behaviour k0 seen k →
  keeps_to k0 (seen, k).
Proof using All.
  intros Hk0. induction 1 as [|e seen done k k' _ IH He Hs]; [by split_and!|]. destruct IH as (Hk & Hh & Hf). cbn [fst snd] in *.
  pose proof (service_step_ok e k Hk He) as Hok. rewrite Hs in Hok. destruct Hok as (Hk' & Hh' & Hf'). cbn [fst snd] in *.
  split; [done|]. cbn [fst snd]. split; [by eapply all_enabled_app|]. rewrite foldM_app, Hf, bind_Ok. exact Hf'.
Qed.

End Service.


(** ** A client with one connection *)

#[local] Notation demo_step := (TcpClientService.step free_fd in_progress no_error not_self demo_peer (λ _, three_bytes) (λ _, hello) echo).
#[local] Notation demo_enabled := (TcpClientService.enabled free_fd in_progress no_error not_self (λ _, hello)).
#[local] Notation demo_serves :=
  (TcpClientService.serves free_fd in_progress no_error not_self demo_peer (λ _, three_bytes) (λ _, hello) echo).

(** Steps one after the other, each possible when it happens. *)
Fixpoint client_play (evs : list TcpClientService.event) (seen : list TcpClient.event) (k : TcpClientService.service)
    (seen' : list TcpClient.event) (k' : TcpClientService.service) : Prop :=
  match evs with
  | [] => seen = seen' ∧ k = k'
  | e :: evs => demo_enabled e k ∧ ∃ r, demo_step e k = Ok r ∧ client_play evs (seen ++ r.1) r.2 seen' k'
  end.

Lemma client_play_serves k0 evs seen k seen' k' : demo_serves k0 seen k → client_play evs seen k seen' k' → demo_serves k0 seen' k'.
Proof.
  revert seen k. induction evs as [|e evs IH]; intros seen k Hk; simpl; [by intros [<- <-]|]. intros (He & [done k1] & Hs & Hp).
  eapply IH; [|exact Hp]. by eapply TcpClientService.serve_step.
Qed.

Definition client_history : list TcpClient.event :=
  [TcpClient.Connect; TcpClient.Net (Connector.Report Connector.CbWrite); TcpClient.Net Connector.Functor;
   TcpClient.Disconnect; TcpClient.Close; TcpClient.Task].

(** One step of such a run, computed. *)
#[local] Ltac served := eexists; split; [vm_compute; reflexivity|]; cbn [fst snd].
#[local] Ltac used :=
  split; [split; [exact I|]; split; [|by vm_compute]; eexists; split; [vm_compute; reflexivity|]; vm_compute;
          repeat split; try done; try lia; try (by left); try (by right); try (intros ? [= <-]; vm_compute; discriminate)|]; served.

(** It connects, echoes what it reads, is told to disconnect by another thread, is hung up by the peer, has its functor run, and its connection is
    destroyed and freed. *)
Lemma client_service_demo lp :
  EventLoop.EventLoop.newLoop (F := Connector.functor) 3 4 1 Connector.CbError false = Ok lp →
  ∃ k, demo_serves (TcpClientService.mkService (TcpClient.set_retry false (TcpClient.newClient lp (bytes "cl"))) ∅) client_history k ∧
    at_ <$> TcpClientService.objects k !! 1%positive = Some Freed.
Proof.
  intros Hn. destruct demo_loop_clean as (cl & Hl & Hc). pose proof (demo_loop_rest cl Hl) as Hr.
  vm_compute in Hn. injection Hn as <-. vm_compute in Hl. injection Hl as <-.
  eexists. split.
  - eapply (client_play_serves _ [TcpClientService.Connect; TcpClientService.Net (Connector.Report Connector.CbWrite) 2 true _;
      TcpClientService.Net Connector.Functor 2 true _; TcpClientService.At 1%positive (Happens (Report CbRead 0)); TcpClientService.Disconnect false;
      TcpClientService.At 1%positive (Happens (Report CbClose 0)); TcpClientService.At 1%positive (Happens Functor);
      TcpClientService.Task]); [constructor|].
    cbn [client_play]. split; [vm_compute; repeat split|]. served.
    split. { split; [vm_compute; done|]. split; [exact Hr|]. intros w fd Hw Hfd. vm_compute in Hw. injection Hw as <-. vm_compute in Hfd.
      apply list_elem_of_singleton in Hfd as ->. split; [apply Hc | apply Hc | vm_compute; reflexivity | apply Hc]. }
    served.
    split. { split; [vm_compute; done|]. split; [exact Hr|]. intros w fd Hw Hfd. vm_compute in Hw. injection Hw as <-. vm_compute in Hfd.
      by apply elem_of_nil in Hfd. }
    served. used. split; [exact I|]. served. used. used.
    split. { intros h [= <-]. vm_compute. split; [reflexivity|]. intros H. by inversion H. }
    served. split; reflexivity.
  - reflexivity.
Qed.

