(* ===== verification/EchoServer.v ===== *)
(** * The echo server: examples/EchoServer.cpp

    A behaviour of the connection model: what is in the input buffer is sent back. *)
From stdpp Require Import base list gmap numbers.
From Stdlib Require Import ZArith Lia Init.Byte.
From S2P Require Import Prelude.
From S2P Require Import EventLoop.
From S2P Require Import TcpConnection.
Import EventLoop.EventLoop TcpConnection.TcpConnection.
#[local] Open Scope Z_scope.

Module EchoServer.

(** [src/examples/EchoServer.cpp:25-28 EchoServer::onMessage] *)
Definition onMessage : list user_call := [USendBuffer InputBuffer].

(** [src/examples/EchoServer.cpp:14-20 EchoServer::EchoServer] The message callback is the only one set; the
    default connection callback writes to the log. *)
Definition behaviour (e : user_event) (w : world) : list user_call :=
  match e with OnMessage _ => onMessage | _ => [] end.

End EchoServer.
