(* ===== verification/EchoClient.v ===== *)
(** * The echo client: examples/EchoClient.cpp

    Its callbacks on the connection model, with the timers that it sets. *)
From stdpp Require Import base list gmap numbers.
From Stdlib Require Import ZArith Lia Init.Byte.
From S2P Require Import Prelude.
From S2P Require Import ByteBuffer.
From S2P Require Import EventLoop.
From S2P Require Import TcpConnection.
Import EventLoop.EventLoop TcpConnection.TcpConnection.
#[local] Open Scope Z_scope.
#[local] Open Scope fm_scope.

Module EchoClient.

(** [src/examples/EchoClient.cpp:56-58 EchoClient data members] The connection that its TcpClient has, with the
    loop; the string [msg_] lives at an address of the connection's world; [timers] holds
    the messages captured by the timers that have not fired. *)
Record EchoClient := mkClient {
  net : world;
  msg_ : positive;
  timers : list (list byte)
}.

Definition set_net (w : world) (c : EchoClient) : EchoClient := mkClient w (msg_ c) (timers c).

(** [src/examples/EchoClient.cpp:38-46 EchoClient::onConnection] [setTcpNoDelay] sets an option of the socket
    and is left out. *)
Definition onConnection (msg : positive) (w : world) : list user_call :=
  if isConnected (conn w) then [USendString msg] else [UQuit].

(** [src/examples/EchoClient.cpp:20-33 EchoClient::EchoClient] The callbacks it installs; the message callback
    is [onMessage] below. *)
Definition behaviour (msg : positive) (e : user_event) (w : world) : list user_call :=
  match e with OnConnection => onConnection msg w | _ => [] end.

(** [src/examples/EchoClient.cpp:48-53 EchoClient::onMessage] *)
Definition onMessage (c : EchoClient) : result EchoClient :=
  '(msg, buffer) ← Buffer.retrieveAllAsString (input_buffer_ (conn (net c)));
  Ok (mkClient (set_conn (set_input buffer (conn (net c))) (net c)) (msg_ c) (timers c ++ [msg])).

(** [src/examples/EchoClient.cpp:52-52 timer callback] The string captured by the lambda is gone with the timer. *)
Definition onTimer (sys_write : nat → list byte → write_outcome) (msg : list byte) (w : world) : result world :=
  let captured := fresh (dom (strings w)) in
  w ← send sys_write true captured (set_strings (<[captured := msg]> (strings w)) w);
  Ok (set_strings (delete captured (strings w)) w).

End EchoClient.
