(* ===== verification/Echo.v ===== *)
(** * The echo examples, connected to each other

    Each side reads what the other has written, in pieces that fit its input buffer ([enabled]), and the client's timers fire in the order
    in which they were set (they all have the same delay). *)
From stdpp Require Import base list gmap numbers.
From Stdlib Require Import ZArith Lia Init.Byte.
From S2P Require Import Prelude.
From S2P Require Import ByteBuffer.
From S2P Require Import EventLoop.
From S2P Require Import TcpConnection.
From S2P Require Import TcpConnectionSpec.
From S2P Require Import ConnectionEvents.
From S2P Require Import EchoServer.
From S2P Require Import EchoClient.
Import EventLoop.EventLoop TcpConnection.TcpConnection.
#[local] Open Scope Z_scope.
#[local] Open Scope fm_scope.

Module Echo.
Import EchoClient.

(** The client: after input its message callback runs. *)
Definition client_event (sys_write : nat → list byte → write_outcome) (r : Buffer.readv_outcome) (e : event)
    (c : EchoClient) : result EchoClient :=
  w ← connection_event sys_write (EchoClient.behaviour (msg_ c)) r e (net c);
  let c := set_net w c in
  if decide (data r e = []) then Ok c else EchoClient.onMessage c.

(** Both ends, and what each has read so far. *)
Record pair := mkPair {
  client : EchoClient;
  server : world;
  client_got : list byte;
  server_got : list byte
}.

Inductive pair_event :=
  | AtClient (r : Buffer.readv_outcome) (e : event)
  | AtServer (r : Buffer.readv_outcome) (e : event)
  | TimerFires.

(** Two new connections, the client's with its message at the address [m]. *)
Definition meet (wc ws : world) (m : positive) (msg : list byte) : pair :=
  mkPair (mkClient (set_strings (<[m := msg]> (strings wc)) wc) m []) ws [] [].

(** What the other side has written and this one has not read. *)
Definition in_flight (sent : world) (got : list byte) : list byte := drop (length got) (written sent).

Definition enabled_pair (ev : pair_event) (p : pair) : Prop :=
  match ev with
  | AtClient r e => internal e ∧ enabled (λ _, r) e (net (client p)) ∧
                    data r e `prefix_of` in_flight (server p) (client_got p)
  | AtServer r e => internal e ∧ enabled (λ _, r) e (server p) ∧
                    data r e `prefix_of` in_flight (net (client p)) (server_got p)
  | TimerFires => timers (client p) ≠ []
  end.

Section Pair.
Variables client_write server_write : nat → list byte → write_outcome.

Definition perform_pair (ev : pair_event) (p : pair) : result pair :=
  match ev with
  | AtClient r e =>
      c ← client_event client_write r e (client p);
      Ok (mkPair c (server p) (client_got p ++ data r e) (server_got p))
  | AtServer r e =>
      w ← connection_event server_write EchoServer.behaviour r e (server p);
      Ok (mkPair (client p) w (client_got p) (server_got p ++ data r e))
  | TimerFires =>
      match timers (client p) with
      | [] => Ok p
      | msg :: rest =>
          w ← onTimer client_write msg (net (client p));
          Ok (mkPair (mkClient w (msg_ (client p)) rest) (server p) (client_got p) (server_got p))
      end
  end.

(** What happens to a connection of the server alone, with what it reads. *)
Inductive serves (w0 : world) : list byte → world → Prop :=
  | serve_start : serves w0 [] w0
  | serve_step r e got w w' : serves w0 got w → internal e → enabled (λ _, r) e w →
      connection_event server_write EchoServer.behaviour r e w = Ok w' → serves w0 (got ++ data r e) w'.

Inductive conversation (p0 : pair) : pair → Prop :=
  | talk_start : conversation p0 p0
  | talk_step ev p p' : conversation p0 p → enabled_pair ev p → perform_pair ev p = Ok p' → conversation p0 p'.
End Pair.
End Echo.
