(* ===== verification/EchoSpec.v ===== *)
(** * The echo examples: what goes round

    What each of the two programs sends is a function of what it has read (by [event_splits] of
    ConnectionEvents.v); and a client connected to a server keeps repeating its message. *)
From stdpp Require Import base list gmap numbers strings.
From Stdlib Require Import ZArith Lia Init.Byte.
From S2P Require Import Prelude.
From S2P Require Import ByteBuffer.
From S2P Require Import Channel.
From S2P Require Import Poller.
From S2P Require Import EventLoop.
From S2P Require Import EventLoopSpec.
From S2P Require Import TcpConnection.
From S2P Require Import TcpConnectionSpec.
From S2P Require Import ConnectionTheorems.
From S2P Require Import ConnectionEvents.
From S2P Require Import EchoServer.
From S2P Require Import EchoClient.
From S2P Require Import Echo.
Import EventLoop.EventLoop TcpConnection.TcpConnection EchoClient Echo.Echo.
#[local] Open Scope Z_scope.
#[local] Open Scope fm_scope.

(** ** What the programs send *)
Section Programs.
Variable sys_write : nat → list byte → write_outcome.
Hypothesis write_bounded : ∀ n d k, sys_write n d = Wrote k → 0 ≤ k ≤ zlen d.
(** The peer is there: a write may fail, but not because the other end is gone. *)
Hypothesis peer_stays : ∀ n d e, sys_write n d = WriteErr e → e ≠ EPIPE ∧ e ≠ ECONNRESET.

(** *** The server *)

Lemma server_silent e w :
  match e with OnWriteComplete | OnHighWaterMark _ => EchoServer.behaviour e w = [] | _ => True end.
Proof. by destruct e. Qed.

(** Everything read has been sent back. *)
Record serving (got : list byte) (w : world) : Prop := {
  sv_cinv : cinv w;
  sv_idle : idle_queue w;
  sv_stream : stream w = got;
  sv_input : input w = [];
  sv_state : state_ (conn w) ≠ kDisconnecting
}.

Lemma onMessage_echoes t d w w' :
  cinv w → idle_queue w → state_ (conn w) = kConnected → input w = d →
  user sys_write EchoServer.behaviour (OnMessage t) w = Ok w' →
  serving (stream w ++ d) w' ∧ written w `prefix_of` written w'.
Proof using write_bounded peer_stays.
  intros Hi Hq Hs Hd Hu. unfold user in Hu. cbn [EchoServer.behaviour EchoServer.onMessage foldM exec_call] in Hu.
  unfold send_buffer in Hu. rewrite decide_True in Hu by done. cbn [get_buffer] in Hu.
  rewrite Buffer.toString_content, !bind_Ok in Hu by apply Hi. fold (input w) in Hu.
  apply bind_Ok_inv in Hu as (w2 & Hu & Heq). injection Heq as <-. apply bind_Ok_inv in Hu as (w1 & Hr & Heq). injection Heq as <-.
  destruct (sendInLoop_whole sys_write write_bounded peer_stays (input w) w w1 Hi Hs Hq (input_small w Hi) Hr) as [Hi1 Hst Hwr Hstg Hq1 Hin Hs1].
  destruct (Buffer.retrieveAll_spec (input_buffer_ (conn w)) (ci_in _ Hi)) as (Hwf & Hempty & _).
  split; [|exact Hwr]. constructor.
  - by apply (set_input_good _ w1).
  - done.
  - rewrite <- Hd. exact Hst.
  - exact Hempty.
  - cbn [put_buffer conn set_conn set_input state_]. by rewrite Hs1.
Qed.

(** Of a program it is only used that its message callback sends everything back. *)
Lemma echoing_step (B : user_event → world → list user_call) r e got w w' :
  (∀ e w, match e with OnWriteComplete | OnHighWaterMark _ => B e w = [] | _ => True end) →
  (∀ w, B OnConnection w = []) →
  (∀ t d w w', cinv w → idle_queue w → state_ (conn w) = kConnected → input w = d →
     user sys_write B (OnMessage t) w = Ok w' → serving (stream w ++ d) w' ∧ written w `prefix_of` written w') →
  serving got w → internal e → enabled (λ _, r) e w → connection_event sys_write B r e w = Ok w' →
  serving (got ++ data r e) w' ∧ written w `prefix_of` written w'.
Proof using write_bounded.
  intros Hsilent Hconn Hecho [Hi Hq Hstr Hin Hs] Hint He Hp.
  destruct (event_splits sys_write write_bounded B Hsilent r e w w' Hi Hq Hint He Hp)
    as (w1 & [Hi1 Hstr1 Hwr1 _ Hq1 Hin1] & Hc). rewrite Hin in Hin1. cbn [app] in Hin1.
  destruct Hc as [-> Hst Hd|self _ Hst0 Hst Hd Hu|t _ Hup Hst Hd Hu|w2 Hup Hst Hcl Hd Hu ->];
    try (unfold user in Hu; rewrite Hconn in Hu; injection Hu as <-).
  - rewrite Hd, app_nil_r in *. split; [|done]. constructor; try done; congruence.
  - rewrite Hd, app_nil_r in *. split; [|done]. constructor; try done; congruence.
  - rewrite <- Hstr, <- Hstr1. destruct (Hecho t (data r e) w1 w') as [Hsv Hwr]; try done; [destruct Hup; congruence|].
    split; [done | by etrans].
  - rewrite Hd, app_nil_r in *. split; [|exact Hwr1].
    constructor; [by apply close_callback_cinv | exact Hq1 | exact (eq_trans Hstr1 Hstr) | exact Hin1 | simpl; by rewrite Hst].
Qed.

Lemma serving_step r e got w w' :
  serving got w → internal e → enabled (λ _, r) e w →
  connection_event sys_write EchoServer.behaviour r e w = Ok w' →
  serving (got ++ data r e) w' ∧ written w `prefix_of` written w'.
Proof using write_bounded peer_stays. apply echoing_step; [exact server_silent | done | exact onMessage_echoes]. Qed.

(** *** The client *)

Lemma client_silent msg e w :
  match e with OnWriteComplete | OnHighWaterMark _ => EchoClient.behaviour msg e w = [] | _ => True end.
Proof. by destruct e. Qed.

(** What the client has sent and read: its message, then what came back and was sent again; the
    rest of what came back is with the timers, and is dropped when the connection is closed. *)
Definition account (msg got : list byte) (c : EchoClient) : Prop :=
  match state_ (conn (net c)) with
  | kConnecting => stream (net c) = [] ∧ got = [] ∧ timers c = []
  | kConnected => ∃ again, stream (net c) = msg ++ again ∧ got = again ++ concat (timers c)
  | kDisconnecting => False
  | kDisconnected => ∃ again rest, stream (net c) = msg ++ again ∧ got = again ++ rest
  end.

Record talking (msg got : list byte) (c : EchoClient) : Prop := {
  tk_cinv : cinv (net c);
  tk_idle : idle_queue (net c);
  tk_msg : strings (net c) !! msg_ c = Some msg;
  tk_input : input (net c) = [];
  tk_small : Forall (λ m, zlen m ≤ Buffer.max_size) (timers c);
  tk_account : account msg got c
}.

Lemma talking_up msg got c : talking msg got c → state_ (conn (net c)) ≠ kDisconnecting.
Proof. intros [_ _ _ _ _ Ha] Hs. unfold account in Ha. by rewrite Hs in Ha. Qed.

(** The callback of a new connection sends the message. *)
Lemma onConnection_sends msg m w w' :
  cinv w → idle_queue w → state_ (conn w) = kConnected → strings w !! m = Some msg →
  user sys_write (EchoClient.behaviour m) OnConnection w = Ok w' → whole msg w w'.
Proof using write_bounded peer_stays.
  intros Hi Hq Hs Hm Hu. unfold user in Hu. cbn [EchoClient.behaviour] in Hu. unfold onConnection, isConnected in Hu.
  rewrite bool_decide_eq_true_2 in Hu by done. cbn [foldM exec_call] in Hu.
  apply bind_Ok_inv in Hu as (w1 & Hr & Heq). injection Heq as <-. unfold send in Hr.
  rewrite decide_True, Hm in Hr by done. eapply (sendInLoop_whole sys_write write_bounded peer_stays); try done. by eapply ci_strings.
Qed.

(** That of a closed one ends the loop. *)
Lemma onConnection_quits m w w' :
  cinv w → idle_queue w → state_ (conn w) = kDisconnected →
  user sys_write (EchoClient.behaviour m) OnConnection w = Ok w' → w' = on_loop (quit true) w.
Proof using.
  intros Hi Hq Hs Hu. unfold user in Hu. cbn [EchoClient.behaviour] in Hu. unfold onConnection, isConnected in Hu.
  rewrite bool_decide_eq_false_2 in Hu by (by rewrite Hs). cbn [foldM exec_call] in Hu. rewrite bind_Ok in Hu. by injection Hu.
Qed.

(** The message callback keeps what was read for a timer. *)
Lemma onMessage_keeps msg got d c c' :
  cinv (net c) → idle_queue (net c) → strings (net c) !! msg_ c = Some msg → input (net c) = d →
  Forall (λ m, zlen m ≤ Buffer.max_size) (timers c) → state_ (conn (net c)) = kConnected → account msg got c →
  EchoClient.onMessage c = Ok c' → talking msg (got ++ d) c' ∧ written (net c') = written (net c).
Proof using.
  intros Hi Hq Hm Hd Ht Hs Ha Hr. unfold EchoClient.onMessage in Hr.
  destruct (Buffer.retrieveAllAsString_spec (input_buffer_ (conn (net c))) (ci_in _ Hi)) as (b & Hb & Hwf & Hempty).
  rewrite Hb, bind_Ok in Hr. injection Hr as <-. split; [|done]. constructor; try done.
  - by apply (set_input_good b (net c)).
  - cbn [timers]. apply Forall_app. split; [done|]. constructor; [|done]. by apply input_small.
  - unfold account in *. cbn [net conn set_conn set_input state_ timers]. rewrite Hs in *.
    destruct Ha as (again & Hst & ->). exists again. split; [exact Hst|].
    rewrite concat_app. cbn [concat]. rewrite app_nil_r, <- app_assoc. by rewrite <- Hd.
Qed.
Lemma client_step r e msg got c c' :
  talking msg got c → internal e → enabled (λ _, r) e (net c) →
  client_event sys_write r e c = Ok c' →
  talking msg (got ++ data r e) c' ∧ written (net c) `prefix_of` written (net c').
Proof using write_bounded peer_stays.
  intros Htk Hint He Hp. pose proof (talking_up _ _ _ Htk) as Hnd. destruct Htk as [Hi Hq Hm Hin Ht Ha].
  unfold client_event in Hp. apply bind_Ok_inv in Hp as (w' & Hp & Hr). cbv zeta in Hr.
  destruct (event_splits sys_write write_bounded _ (client_silent (msg_ c)) r e (net c) w' Hi Hq Hint He Hp)
    as (w1 & [Hi1 Hstr1 Hwr1 Hstg1 Hq1 Hin1] & Hc). rewrite Hin in Hin1. cbn [app] in Hin1. rewrite <- Hstg1 in Hm.
  unfold account in Ha. destruct Hc as [-> Hst Hd|self _ Hst0 Hst Hd Hu|t _ Hup Hst Hd Hu|w2 Hup Hst Hcl Hd Hu ->].
  - rewrite decide_True in Hr by done. injection Hr as <-. rewrite Hd, app_nil_r in *.
    split; [|done]. constructor; try done. unfold account. cbn [set_net net timers]. by rewrite Hst, Hstr1.
  - rewrite decide_True in Hr by done. injection Hr as <-. rewrite Hd, app_nil_r in *.
    destruct (onConnection_sends msg (msg_ c) w1 w' Hi1 Hq1 Hst Hm Hu) as [Hi' Hstr' Hwr' Hstg' Hq' Hin' Hs'].
    rewrite Hst0 in Ha. destruct Ha as (Hnil & -> & Hnt). split; [|by etrans].
    constructor; try done; [cbn; by rewrite Hstg' | unfold input in *; cbn; by rewrite Hin' |].
    unfold account. cbn [set_net net timers]. rewrite Hs', Hnt. exists []. by rewrite Hstr', Hstr1, Hnil, app_nil_r.
  - rewrite decide_False in Hr by done. assert (Hs : state_ (conn (net c)) = kConnected) by (destruct Hup; congruence).
    unfold user in Hu. cbn in Hu. injection Hu as <-.
    destruct (onMessage_keeps msg got (data r e) (set_net w1 c) c') as [Htk Hwr]; try done.
    + cbn. congruence.
    + unfold account. cbn [set_net net timers]. by rewrite Hst, Hstr1.
    + split; [done|]. by rewrite Hwr.
  - rewrite decide_True in Hr by done. injection Hr as <-. rewrite Hd, app_nil_r in *.
    rewrite (onConnection_quits (msg_ c) w1 w2 Hi1 Hq1 Hst Hu). pose proof (quit_good true w1 Hi1) as (Hi2 & _ & _).
    split; [|exact Hwr1]. constructor; try done.
    + cbn [set_net net]. by apply close_callback_cinv.
    + unfold account. cbn [set_net net timers conn close_callback on_loop with_loop world_HasLoop]. rewrite Hst.
      assert (Hk : state_ (conn (net c)) = kConnected) by (by destruct Hup). rewrite Hk in Ha.
      destruct Ha as (again & Hstr & Hgot). exists again, (concat (timers c)). split; [|done].
      rewrite <- Hstr. exact Hstr1.
Qed.

(** A timer sends its message, if the connection is still there. *)
Lemma onTimer_sends m w w' :
  cinv w → idle_queue w → zlen m ≤ Buffer.max_size → EchoClient.onTimer sys_write m w = Ok w' →
  (state_ (conn w) = kConnected ∧ whole m w w') ∨ (state_ (conn w) ≠ kConnected ∧ w' = w).
Proof using write_bounded peer_stays.
  intros Hi Hq Hm Hr. unfold EchoClient.onTimer, send in Hr. cbn [conn set_strings] in Hr.
  set (l := fresh (dom (strings w))) in Hr. assert (Hl : strings w !! l = None) by (apply not_elem_of_dom, is_fresh).
  case_decide as Hs; [left | right]; (split; [done|]).
  - cbn [strings set_strings] in Hr. rewrite lookup_insert_eq in Hr. apply bind_Ok_inv in Hr as (w1 & Hr & Heq).
    injection Heq as <-. apply (sent_whole sys_write write_bounded peer_stays); try done. set (w0 := set_strings (<[l:=m]> (strings w)) w) in Hr.
    assert (Hf : fine (sent sys_write m w0) (sendInLoop sys_write true m w0)).
    { apply (sendInLoop_sent sys_write write_bounded); [apply Hi | apply Hi | | by cbn; rewrite Hs | done].
      apply (registered_cinv w Hi). by left. }
    rewrite Hr in Hf. destruct (se_rest _ _ _ _ Hf) as (Hs2 & _). rewrite Hs2. unfold w0 in Hf |- *.
    cbn [strings set_strings]. rewrite delete_insert_id by done. by eapply sent_tmp.
  - rewrite bind_Ok in Hr. injection Hr as <-. cbn [strings set_strings]. rewrite delete_insert_id by done.
    by destruct w.
Qed.

Lemma timer_step msg got c m rest w' :
  talking msg got c → timers c = m :: rest → EchoClient.onTimer sys_write m (net c) = Ok w' →
  talking msg got (mkClient w' (msg_ c) rest) ∧ written (net c) `prefix_of` written w'.
Proof using write_bounded peer_stays.
  intros Htk Htm Hr. pose proof (talking_up _ _ _ Htk) as Hnd. destruct Htk as [Hi Hq Hm Hin Ht Ha].
  rewrite Htm in Ht. inversion_clear Ht as [|?? Hsmall Hrest]. unfold account in Ha.
  destruct (onTimer_sends m (net c) w' Hi Hq Hsmall Hr) as [[Hs [Hi' Hstr Hwr Hstg Hq' Hin' Hs']]|[Hs ->]].
  - split; [|done]. constructor; try done; cbn [net msg_ timers]; [by rewrite Hstg | unfold input in *; by rewrite Hin' |].
    unfold account. cbn [net timers]. rewrite Hs'. rewrite Hs, Htm in Ha. destruct Ha as (again & Hst & Hgot).
    exists (again ++ m). rewrite Hstr, Hst, <- app_assoc. split; [done|]. rewrite Hgot. cbn [concat]. by rewrite <- app_assoc.
  - split; [|done]. constructor; try done. unfold account. cbn [net timers].
    destruct (state_ (conn (net c))); try done. destruct Ha as (_ & _ & Hx). by rewrite Hx in Htm.
Qed.
End Programs.

(** ** The two together *)

Lemma prefix_take_more {A} (got all d : list A) :
  got `prefix_of` all → d `prefix_of` drop (length got) all → got ++ d `prefix_of` all.
Proof. intros [rest ->] Hd. rewrite drop_app_length in Hd. destruct Hd as [k ->]. exists k. by rewrite app_assoc. Qed.

(** A list that, behind its beginning [msg], repeats itself. *)
Lemma periodic {A} (msg again : list A) :
  msg ≠ [] → again `prefix_of` msg ++ again → ∃ n, again `prefix_of` concat (replicate n msg).
Proof.
  intros Hm. remember (length again) as k eqn:Hk. revert again Hk.
  induction k as [k IH] using lt_wf_ind. intros again -> Hp.
  destruct (prefix_weak_total again msg (msg ++ again) Hp) as [Hs|[back ->]]; [by eexists| |].
  - exists 1%nat. cbn [replicate concat]. by rewrite app_nil_r.
  - assert (Hlt : (length back < length (msg ++ back))%nat) by (destruct msg; [done|]; rewrite length_app; simpl; lia).
    destruct (IH _ Hlt back eq_refl) as [n Hn]; [by apply prefix_app_inv in Hp|].
    exists (S n). cbn [replicate concat]. by apply prefix_app.
Qed.

(** ** A new connection *)
Section New.
Variables (name : list byte) (fd : Z) (l : loc) (wc hw : bool) (lp : EventLoop functor channel_cb) (w0 : world).
Hypothesis loop_clean : clean_loop l fd lp.
Hypothesis constructed : newConnection name fd l wc hw lp = Ok w0.

Lemma new_serving : serving [] w0.
Proof using loop_clean constructed.
  destruct (start_cinv name fd l wc hw lp w0 loop_clean constructed) as (Hi & Hs & Hstr).
  destruct (new_idle name fd l wc hw lp w0 loop_clean constructed) as (Hq & Hin & _). constructor; try done. by rewrite Hs.
Qed.

Lemma new_talking m msg :
  zlen msg ≤ Buffer.max_size → talking msg [] (mkClient (set_strings (<[m := msg]> (strings w0)) w0) m []).
Proof using loop_clean constructed.
  intros Hm. destruct (start_cinv name fd l wc hw lp w0 loop_clean constructed) as (Hi & Hs & Hstr).
  destruct (new_idle name fd l wc hw lp w0 loop_clean constructed) as (Hq & Hin & Hno). constructor; try done.
  - destruct Hi as [Hl Hi Ho Hst Hbs Hp (c & Hc & Hf) Hsh Hcl]. constructor; try done.
    + intros p s. cbn [net strings set_strings]. rewrite Hno, insert_empty. by intros [_ <-]%lookup_singleton_Some.
    + eapply List.Forall_impl; [|exact Hq]. by intros [].
    + by exists c.
  - cbn [net strings set_strings msg_]. apply lookup_insert_eq.
  - unfold account. cbn [net conn set_strings timers]. by rewrite Hs.
Qed.
End New.

(** ** The server alone *)
Section Serve.
Variable server_write : nat → list byte → write_outcome.
Hypothesis server_bounded : ∀ n d k, server_write n d = Wrote k → 0 ≤ k ≤ zlen d.
Hypothesis server_stays : ∀ n d e, server_write n d = WriteErr e → e ≠ EPIPE ∧ e ≠ ECONNRESET.
Variables (name : list byte) (fd : Z) (l : loc) (wc hw : bool) (lp : EventLoop functor channel_cb) (w0 : world).
Hypothesis loop_clean : clean_loop l fd lp.
Hypothesis constructed : newConnection name fd l wc hw lp = Ok w0.

Lemma serves_serving got w : serves server_write w0 got w → serving got w.
Proof using All.
  induction 1 as [|r e got w w' _ IH Hint He Hp]; [by eapply new_serving|]. by eapply serving_step.
Qed.

(** An echo connection sends back what it reads, all of it, in order and nothing else - as long as each read fits the input buffer ([read_fits]) and no
    write fails with EPIPE or ECONNRESET: at any time what it has
    accepted for sending is what it has read so far, of which the kernel has taken an
    initial part; and once the kernel keeps taking bytes, all of it is written after at most as many reports that
    the socket is writable as bytes are waiting. *)
Theorem echo_server_echoes got w :
  serves server_write w0 got w →
  written w ++ out w = got ∧ input w = [] ∧
  (state_ (conn w) = kConnected → (∀ n d, d ≠ [] → ∃ k, server_write n d = Wrote k ∧ 0 < k) →
   ∃ n w', (n ≤ length (out w))%nat ∧ writable_times server_write n w = Ok w' ∧ written w' = got).
Proof using All.
  intros Hsv. destruct (serves_serving got w Hsv) as [Hi _ Hstr Hin _]. split; [exact Hstr|]. split; [done|].
  intros Hs Hsome. destruct (drains server_write server_bounded Hsome w Hi (or_introl Hs)) as (n & w' & Hn & Hr & _ & Hw & _).
  exists n, w'. split; [done|]. split; [done|]. rewrite Hw. exact Hstr.
Qed.
End Serve.

Section Pair.
Variables client_write server_write : nat → list byte → write_outcome.
Hypothesis client_bounded : ∀ n d k, client_write n d = Wrote k → 0 ≤ k ≤ zlen d.
Hypothesis server_bounded : ∀ n d k, server_write n d = Wrote k → 0 ≤ k ≤ zlen d.
Hypothesis client_stays : ∀ n d e, client_write n d = WriteErr e → e ≠ EPIPE ∧ e ≠ ECONNRESET.
Hypothesis server_stays : ∀ n d e, server_write n d = WriteErr e → e ≠ EPIPE ∧ e ≠ ECONNRESET.

Record paired (msg : list byte) (p : pair) : Prop := {
  pa_client : talking msg (client_got p) (client p);
  pa_server : serving (server_got p) (server p);
  pa_to_server : server_got p `prefix_of` written (net (client p));
  pa_to_client : client_got p `prefix_of` written (server p)
}.

Lemma paired_step msg ev p p' :
  paired msg p → enabled_pair ev p → perform_pair client_write server_write ev p = Ok p' → paired msg p'.
Proof using All.
  intros [Hc Hs Hts Htc] He Hp. destruct ev as [r e|r e|]; cbn [perform_pair enabled_pair] in Hp, He.
  - destruct He as (Hint & He & Hd). apply bind_Ok_inv in Hp as (c & Hp & Heq). injection Heq as <-.
    destruct (client_step client_write client_bounded client_stays r e msg _ _ c Hc Hint He Hp) as [Hc' Hwr].
    constructor; cbn [client server client_got server_got]; try done; [by etrans | by apply prefix_take_more].
  - destruct He as (Hint & He & Hd). apply bind_Ok_inv in Hp as (w & Hp & Heq). injection Heq as <-.
    destruct (serving_step server_write server_bounded server_stays r e _ _ w Hs Hint He Hp) as [Hs' Hwr].
    constructor; cbn [client server client_got server_got]; try done; [by apply prefix_take_more | by etrans].
  - destruct (timers (client p)) as [|m rest] eqn:Ht; [done|]. apply bind_Ok_inv in Hp as (w & Hp & Heq). injection Heq as <-.
    destruct (timer_step client_write client_bounded client_stays msg _ _ m rest w Hc Ht Hp) as [Hc' Hwr].
    constructor; cbn [client server client_got server_got]; try done. by etrans.
Qed.

(** Two new connections on loops of their own, the client's with a message to send. *)
Variables (name name' : list byte) (fd fd' : Z) (l l' : loc) (wc wc' hw hw' : bool).
Variables (lp lp' : EventLoop functor channel_cb) (cw sw : world) (m : positive) (msg : list byte).
Hypothesis client_clean : clean_loop l fd lp.
Hypothesis client_constructed : newConnection name fd l wc hw lp = Ok cw.
Hypothesis server_clean : clean_loop l' fd' lp'.
Hypothesis server_constructed : newConnection name' fd' l' wc' hw' lp' = Ok sw.
Hypothesis message : msg ≠ [] ∧ zlen msg ≤ Buffer.max_size.

Local Notation conversation := (conversation client_write server_write (meet cw sw m msg)).

Lemma conversation_paired p : conversation p → paired msg p.
Proof using All.
  induction 1 as [|ev p p' _ IH He Hp]; [|by eapply paired_step].
  constructor; [|by eapply new_serving | apply prefix_nil..].
  apply (new_talking name fd l wc hw lp cw client_clean client_constructed m msg), message.
Qed.
End Pair.


(** ** An example

    Both ends write three bytes at a time; the message is ["hello"]. *)

Lemma three_bytes_stays n d e : three_bytes n d = WriteErr e → e ≠ EPIPE ∧ e ≠ ECONNRESET.
Proof. done. Qed.

Definition establish : event := Establish 9.
Definition reads (s : String.string) : Buffer.readv_outcome * event := (Buffer.ReadvData (bytes s), Report CbRead 0).
Definition no_input : Buffer.readv_outcome := Buffer.ReadvErr 11.

(** Events one after the other, each possible when it happens. *)
Fixpoint talk (evs : list pair_event) (p p' : pair) : Prop :=
  match evs with
  | [] => p = p'
  | ev :: evs => enabled_pair ev p ∧ ∃ p1, perform_pair three_bytes three_bytes ev p = Ok p1 ∧ talk evs p1 p'
  end.

Lemma talk_conversation p0 evs p p' :
  conversation three_bytes three_bytes p0 p → talk evs p p' → conversation three_bytes three_bytes p0 p'.
Proof.
  revert p. induction evs as [|ev evs IH]; intros p Hc; simpl; [by intros <-|].
  intros (He & p1 & Hp & Ht). eapply IH; [|exact Ht]. by eapply talk_step.
Qed.

Fixpoint serve (evs : list (Buffer.readv_outcome * event)) (got : list byte) (w : world) (got' : list byte) (w' : world) : Prop :=
  match evs with
  | [] => got = got' ∧ w = w'
  | (r, e) :: evs => internal e ∧ enabled (λ _, r) e w ∧
      ∃ w1, connection_event three_bytes EchoServer.behaviour r e w = Ok w1 ∧ serve evs (got ++ data r e) w1 got' w'
  end.

Lemma serve_serves w0 evs got w got' w' :
  serves three_bytes w0 got w → serve evs got w got' w' → serves three_bytes w0 got' w'.
Proof.
  revert got w. induction evs as [|[r e] evs IH]; intros got w Hc; simpl; [by intros [<- <-]|].
  intros (Hin & He & p1 & Hp & Ht). eapply IH; [|exact Ht]. by eapply serve_step.
Qed.

Ltac compute_event :=
  first [ vm_compute; reflexivity | exact I | left; vm_compute; reflexivity
        | split; [left; vm_compute; reflexivity | intros ? [= <-]; vm_compute; discriminate] ].

(** Two pieces read: three bytes written, the others wait. *)
Lemma served_demo : ∃ lp w0 w, clean_loop 2 7 lp ∧ newConnection (bytes "c") 7 2 true true lp = Ok w0 ∧
  serve [(no_input, establish); reads "hello"; reads "!"] [] w0 (bytes "hello!") w ∧
  state_ (conn w) = kConnected ∧ written w = bytes "hel" ∧ out w = bytes "lo!".
Proof.
  destruct demo_ok as (lp & w0 & _ & Hc & Hn & Hd). exists lp, w0. vm_compute in Hd. injection Hd as <-.
  eexists. split; [done|]. split; [exact Hn|]. clear Hn Hc. cbn [serve reads]. split.
  - do 3 (split; [exact I|]; split; [compute_event|]; eexists; split; [vm_compute; reflexivity|]). split; vm_compute; reflexivity.
  - split_and!; vm_compute; reflexivity.
Qed.

Lemma echo_server_echoes_witness :
  ∃ w, written w = bytes "hel" ∧ written w ++ out w = bytes "hello!" ∧ input w = [] ∧
  (state_ (conn w) = kConnected → (∀ n d, d ≠ [] → ∃ k, three_bytes n d = Wrote k ∧ 0 < k) →
   ∃ n w', (n ≤ length (out w))%nat ∧ writable_times three_bytes n w = Ok w' ∧ written w' = bytes "hello!").
Proof.
  destruct served_demo as (lp & w0 & w & Hc & Hn & Hs & _ & Hw & _). exists w. split; [exact Hw|].
  apply (echo_server_echoes three_bytes three_bytes_bounded three_bytes_stays _ _ _ _ _ lp w0 Hc Hn (bytes "hello!") w).
  exact (serve_serves w0 _ [] w0 _ w (serve_start _ _) Hs).
Defined.

Definition two_rounds : list pair_event :=
  [AtClient no_input establish; AtServer no_input establish; AtServer (reads "he").1 (reads "he").2;
   AtClient (reads "he").1 (reads "he").2; TimerFires; AtClient no_input (Report CbWrite 0)].

Lemma conversation_demo : ∃ lp w0 p, clean_loop 2 7 lp ∧ newConnection (bytes "c") 7 2 true true lp = Ok w0 ∧
  talk two_rounds (meet w0 w0 1 (bytes "hello")) p ∧
  stream (net (client p)) = bytes "hellohe" ∧ state_ (conn (net (client p))) = kConnected.
Proof.
  destruct demo_ok as (lp & w0 & _ & Hc & Hn & Hd). exists lp, w0. vm_compute in Hd. injection Hd as <-.
  eexists. split; [done|]. split; [exact Hn|]. clear Hn Hc. cbn [talk two_rounds reads fst snd]. split.
  - do 4 (split; [split; [exact I|]; split; [compute_event|]; eexists; vm_compute; reflexivity|];
      eexists; split; [vm_compute; reflexivity|]).
    split; [vm_compute; discriminate|]. eexists. split; [vm_compute; reflexivity|].
    split; [split; [exact I|]; split; [compute_event|]; eexists; vm_compute; reflexivity|].
    eexists. split; [vm_compute; reflexivity|]. reflexivity.
  - split; vm_compute; reflexivity.
Qed.

