(* ===== verification/FormerTime.v ===== *)
(** * The former time stamps: docs/oldfiles/base/{Timestamp,SystemClock}.h, docs/oldfiles/base/Timestamp.cpp

    The classes of the former version and where they differ from those of [Time]: in the microseconds that are printed. *)
From stdpp Require Import base list numbers strings.
From Stdlib Require Import ZArith Lia Init.Byte.
From S2P Require Import Prelude.
From S2P Require Import Time.
#[local] Open Scope Z_scope.

(** ** The class *)
Module Timestamp.

(** [src/docs/oldfiles/base/Timestamp.h:44-44 Timestamp data members] *)
Definition Timestamp := Z.

(** [src/docs/oldfiles/base/Timestamp.h:31-31 Timestamp::isZero] *)
Definition isZero (t : Timestamp) : bool := t =? 0.
(** [src/docs/oldfiles/base/Timestamp.h:33-36 Timestamp::operator+=] *)
Definition plus_assign (t d : Z) : Timestamp := t + d.
(** [src/docs/oldfiles/base/Timestamp.h:38-41 Timestamp::operator-=] *)
Definition minus_assign (t d : Z) : Timestamp := t - d.
(** [src/docs/oldfiles/base/Timestamp.h:47-57 operator+] *)
Definition plus (lhs : Timestamp) (rhs : Z) : Timestamp := lhs + rhs.
(** [src/docs/oldfiles/base/Timestamp.h:59-63 operator-] *)
Definition minus_duration (lhs : Timestamp) (rhs : Z) : Timestamp := lhs - rhs.
(** [src/docs/oldfiles/base/Timestamp.h:65-68 operator-] *)
Definition minus (lhs rhs : Timestamp) : Z := lhs - rhs.
(** [src/docs/oldfiles/base/Timestamp.h:70-72 operator<] *)
Definition lt (lhs rhs : Timestamp) : bool := lhs <? rhs.
(** [src/docs/oldfiles/base/Timestamp.h:74-76 operator>] *)
Definition gt (lhs rhs : Timestamp) : bool := rhs <? lhs.
(** [src/docs/oldfiles/base/Timestamp.h:78-80 operator==] *)
Definition eq (lhs rhs : Timestamp) : bool := lhs =? rhs.
(** [src/docs/oldfiles/base/Timestamp.h:82-84 operator!=] *)
Definition ne (lhs rhs : Timestamp) : bool := negb (eq lhs rhs).

(** [%06d]. *)
Definition int06 (z : Z) : list byte :=
  if z <? 0 then x2d :: replicate (5 - length (dec (- z))) x30 ++ dec (- z) else TimeStamp.dec06 z.

Section Format.
(** [localtime_r] and [strftime] of the C library. *)
Variable local_format : list byte → Z → list byte.

(** [src/docs/oldfiles/base/Timestamp.cpp:10-19 Timestamp::toFormattedString] *)
Definition toFormattedString (fmt : list byte) (t : Timestamp) : list byte :=
  let text := local_format fmt (Z.quot t 1000000) in
  if zlen text <? 64 then text else [].

(** [src/docs/oldfiles/base/Timestamp.cpp:21-31 Timestamp::toString] The remainder of the 64-bit count goes into a [uint32_t], which [%d] reads
    as an [int]. *)
Definition toString (microsecond : bool) (t : Timestamp) : list byte :=
  if microsecond then
    let rest := to_unsigned 32 (Z.rem t 1000000) in
    toFormattedString (bytes "%F %T") t ++ snprintf 12 (bytes "." ++ int06 (to_signed 32 rest))
  else toFormattedString (bytes "%F %T") t.
End Format.
End Timestamp.

(** The former clock. *)
Module FormerClock.
(** [src/docs/oldfiles/base/SystemClock.h:16-16 SystemClock::kSecondToMicroseconds] *)
Definition kSecondToMicroseconds : Z := 1000000.
(** [src/docs/oldfiles/base/SystemClock.h:20-23 SystemClock::now] *)
Definition now (system_clock_ns : Z) : Z := Z.quot system_clock_ns 1000.
(** [src/docs/oldfiles/base/SystemClock.h:25-27 SystemClock::zero] *)
Definition zero : Z := 0.
(** [src/docs/oldfiles/base/SystemClock.h:29-32 SystemClock::to_time_t] *)
Definition to_time_t (t : Z) : Z := Z.quot t 1000000.
(** [src/docs/oldfiles/base/SystemClock.h:34-36 SystemClock::from_time_t] *)
Definition from_time_t (t : Z) : Z := t * 1000000.
(** [src/docs/oldfiles/base/SystemClock.h:38-43 SystemClock::to_timeval] *)
Definition to_timeval (t : Z) : SystemClock.timepair := SystemClock.mkTime (Z.quot t 1000000) (Z.rem t kSecondToMicroseconds).
(** [src/docs/oldfiles/base/SystemClock.h:45-47 SystemClock::from_timeval] *)
Definition from_timeval (tv : SystemClock.timepair) : Z := SystemClock.tv_sec tv * kSecondToMicroseconds + SystemClock.tv_frac tv.
(** [src/docs/oldfiles/base/SystemClock.h:49-54 SystemClock::to_timespec] *)
Definition to_timespec (t : Z) : SystemClock.timepair := SystemClock.mkTime (Z.quot t 1000000) (Z.rem t kSecondToMicroseconds * 1000).
(** [src/docs/oldfiles/base/SystemClock.h:56-58 SystemClock::from_timespec] *)
Definition from_timespec (ts : SystemClock.timepair) : Z :=
  SystemClock.tv_sec ts * kSecondToMicroseconds + Z.quot (SystemClock.tv_frac ts) 1000.
End FormerClock.

(** ** What is printed *)

Lemma dec_val_zeros n l : dec_val (replicate n x30 ++ l) = dec_val l.
Proof. unfold dec_val. induction n as [|n IH]; [done|]. exact IH. Qed.

Lemma dec06_val z : 0 ≤ z → dec_val (TimeStamp.dec06 z) = z.
Proof. intros. unfold TimeStamp.dec06. by rewrite dec_val_zeros, dec_val_dec. Qed.

Lemma dec06_length z : 0 ≤ z < 1000000 → zlen (TimeStamp.dec06 z) = 6.
Proof.
  intros. unfold TimeStamp.dec06, zlen. rewrite length_app, length_replicate.
  pose proof (dec_length z 6 ltac:(lia) ltac:(lia)) as Hl. unfold zlen in Hl. lia.
Qed.

(** The fraction fits into its array. *)
Lemma fraction_fits z : 0 ≤ z < 1000000 → snprintf 12 (bytes "." ++ TimeStamp.dec06 z) = bytes "." ++ TimeStamp.dec06 z.
Proof. intros. apply snprintf_fits. rewrite zlen_app, dec06_length by done. by vm_compute. Qed.

Lemma former_rest t : 0 ≤ t → to_signed 32 (to_unsigned 32 (Z.rem t 1000000)) = t mod 1000000.
Proof.
  intros. rewrite Z.rem_mod_nonneg by lia. pose proof (Z.mod_pos_bound t 1000000 ltac:(lia)).
  unfold to_unsigned. rewrite to_signed_mod by lia. apply to_signed_id; [done|]. lia.
Qed.

(** Since the former version took the remainder of all 64 bits, it printed the six digits of the microsecond, for every time since 1970. *)
Theorem former_fraction_right lf t :
  0 ≤ t → Timestamp.toString lf true t = Timestamp.toFormattedString lf (bytes "%F %T") t ++ bytes "." ++ TimeStamp.dec06 (t mod 1000000).
Proof.
  intros Ht. unfold Timestamp.toString. rewrite former_rest by done. pose proof (Z.mod_pos_bound t 1000000 ltac:(lia)).
  unfold Timestamp.int06. destruct (Z.ltb_spec (t mod 1000000) 0); [lia|]. by rewrite fraction_fits.
Qed.

(** What was rewritten: [toString] prints today what it printed then exactly for the times whose count of microseconds has outrun 32 bits a multiple
    of 15625 times (the first 71 minutes of 1970, and as many every 2.1 years); everything else in the two classes is the same. *)
Theorem former_time_printed lf t :
  0 ≤ t → Timestamp.toString lf true t = TimeStamp.toString lf true t ↔ (t / 2 ^ 32) mod 15625 = 0.
Proof.
  intros Ht. rewrite <- (toString_fraction t Ht). rewrite former_fraction_right by done.
  unfold TimeStamp.toString, printed_fraction. pose proof (Z.mod_pos_bound t 1000000 ltac:(lia)).
  pose proof (Z.mod_pos_bound (to_unsigned 32 t) 1000000 ltac:(lia)).
  rewrite fraction_fits by done. split.
  - intros Heq. apply app_inv_head in Heq. apply app_inv_head in Heq. apply (f_equal dec_val) in Heq. rewrite !dec06_val in Heq by lia. done.
  - intros ->. done.
Qed.

Lemma former_time_printed_witness :
  (1628500000123456 / 2 ^ 32) mod 15625 ≠ 0 ∧
  Timestamp.toString (fun _ _ => bytes "2021-08-09 09:06:40") true 1628500000123456 = bytes "2021-08-09 09:06:40.123456" ∧
  (Timestamp.toString (fun _ _ => bytes "2021-08-09 09:06:40") true 1628500000123456 =
   TimeStamp.toString (fun _ _ => bytes "2021-08-09 09:06:40") true 1628500000123456 ↔ (1628500000123456 / 2 ^ 32) mod 15625 = 0).
Proof.
  split; [by vm_compute|]. split; [vm_compute; reflexivity|]. apply (former_time_printed _ 1628500000123456). lia.
Defined.
