(* ===== verification/FormerLog.v ===== *)
(** * The former log statements: docs/oldfiles/base/LogStream.h, docs/oldfiles/base/Logging.{h,cpp}

    The library once formatted a line at once, in an array of 4096 bytes inside a [Logger] object that lives for the statement.  What does
    not fit is left out piece by piece ([former_line]); the lines of today grow (see [LogLineSpec]).  The printing of a double, the local
    time, the thread's number and [strerror_r] are parameters. *)
From stdpp Require Import base list numbers strings.
From Stdlib Require Import ZArith Lia Init.Byte.
From S2P Require Import Prelude.
From S2P Require Import Time.
From S2P Require Import LogLine.
From S2P Require Import FormerTime.
#[local] Open Scope Z_scope.
#[local] Open Scope fm_scope.

Module FixedBuffer.

(** [src/docs/oldfiles/base/LogStream.h:40-41 FixedBuffer data members] The array, and how far [curr_] is from its start. *)
Record FixedBuffer := mkFixed {
  data_ : list byte;
  curr_ : Z
}.

(** [src/docs/oldfiles/base/LogStream.h:17-17 FixedBuffer::FixedBuffer] *)
Definition newFixed (SIZE : Z) : FixedBuffer := mkFixed (replicate (Z.to_nat SIZE) x00) 0.

(** [src/docs/oldfiles/base/LogStream.h:32-32 FixedBuffer::length] *)
Definition length (b : FixedBuffer) : Z := to_signed 32 (curr_ b).
(** [src/docs/oldfiles/base/LogStream.h:33-33 FixedBuffer::avail] *)
Definition avail (b : FixedBuffer) : Z := to_signed 32 (zlen (data_ b) - curr_ b).

(** [src/docs/oldfiles/base/LogStream.h:19-24 FixedBuffer::append] of [buf]; its length is given as an [int]. *)
Definition append (buf : list byte) (b : FixedBuffer) : result FixedBuffer :=
  let len := to_signed 32 (zlen buf) in
  if len <? avail b then
    check! OutOfBounds (0 <=? len);
    Ok (mkFixed (zwrite (curr_ b) (ztake len buf) (data_ b)) (curr_ b + len))
  else Ok b.

(** [src/docs/oldfiles/base/LogStream.h:26-26 FixedBuffer::reset] *)
Definition reset (b : FixedBuffer) : FixedBuffer := mkFixed (data_ b) 0.
(** [src/docs/oldfiles/base/LogStream.h:27-27 FixedBuffer::bzero] *)
Definition bzero (b : FixedBuffer) : FixedBuffer := mkFixed (replicate (Z.to_nat (zlen (data_ b))) x00) (curr_ b).
(** [src/docs/oldfiles/base/LogStream.h:35-35 FixedBuffer::toString] *)
Definition toString (b : FixedBuffer) : list byte := ztake (length b) (data_ b).
End FixedBuffer.
Import FixedBuffer (FixedBuffer).

(** Hexadecimal digits. *)
Definition hex_digit (d : Z) : byte := byte_of (if d <? 10 then 48 + d else 87 + d).
Fixpoint hex_digits (fuel : nat) (z : Z) (acc : list byte) : list byte :=
  match fuel with
  | O => acc
  | S fuel =>
      let acc := hex_digit (z mod 16) :: acc in
      if z <? 16 then acc else hex_digits fuel (z / 16) acc
  end.
(** [%lx] *)
Definition hex (z : Z) : list byte := hex_digits (S (Z.to_nat (Z.log2 z))) z [].

Module LogStream.

(** [src/docs/oldfiles/base/LogStream.h:46-46 LogStream::kSmallBuffer] *)
Definition kSmallBuffer : Z := 4096.

(** [src/docs/oldfiles/base/LogStream.h:106-106 LogStream data members] *)
Definition LogStream : Type := FixedBuffer.
Definition newStream : LogStream := FixedBuffer.newFixed kSmallBuffer.

(** [src/docs/oldfiles/base/LogStream.h:98-103 LogStream::numericConvertToStr] of an integer of any type. *)
Definition insert_integer (z : Z) (s : LogStream) : result LogStream := FixedBuffer.append (dec z) s.
(** [src/docs/oldfiles/base/LogStream.h:65-68 LogStream::operator<<(bool)] *)
Definition insert_bool (v : bool) (s : LogStream) : result LogStream := FixedBuffer.append (if v then bytes "1" else bytes "0") s.
(** [src/docs/oldfiles/base/LogStream.h:70-73 LogStream::operator<<(char)] *)
Definition insert_char (c : byte) (s : LogStream) : result LogStream := FixedBuffer.append [c] s.
(** [src/docs/oldfiles/base/LogStream.h:75-79 LogStream::operator<<] of the characters in front of the NUL, or of a null pointer. *)
Definition insert_cstr (str : option (list byte)) (s : LogStream) : result LogStream :=
  match str with Some t => FixedBuffer.append t s | None => FixedBuffer.append (bytes "(null)") s end.
(** [src/docs/oldfiles/base/LogStream.h:81-87 LogStream::operator<<] *)
Definition insert_pointer (ptr : Z) (s : LogStream) : result LogStream := FixedBuffer.append (snprintf 32 (bytes "0x" ++ hex ptr)) s.
(** [src/docs/oldfiles/base/LogStream.h:89-92 LogStream::operator<<(std::string_view)] *)
Definition insert_view (str : list byte) (s : LogStream) : result LogStream := FixedBuffer.append str s.

(** What a statement inserts; of a double its representation. *)
Inductive value :=
  | VInteger (z : Z) | VDouble (d : Z) | VBool (v : bool) | VChar (c : byte)
  | VCstr (str : option (list byte)) | VPointer (ptr : Z) | VView (str : list byte).

Section Printing.
(** What [std::to_string] makes of a double. *)
Variable show_double : Z → list byte.

(** [src/docs/oldfiles/base/LogStream.h:55-63 LogStream::operator<<] by the type of what is inserted. *)
Definition insert (v : value) (s : LogStream) : result LogStream :=
  match v with
  | VInteger z => insert_integer z s
  | VDouble d => FixedBuffer.append (show_double d) s
  | VBool b => insert_bool b s
  | VChar c => insert_char c s
  | VCstr t => insert_cstr t s
  | VPointer p => insert_pointer p s
  | VView t => insert_view t s
  end.

(** Its text. *)
Definition text (v : value) : list byte :=
  match v with
  | VInteger z => dec z
  | VDouble d => show_double d
  | VBool b => if b then bytes "1" else bytes "0"
  | VChar c => [c]
  | VCstr t => default (bytes "(null)") t
  | VPointer p => snprintf 32 (bytes "0x" ++ hex p)
  | VView t => t
  end.
End Printing.
End LogStream.
Import LogStream (LogStream).

Module Logger.

(** [src/docs/oldfiles/base/Logging.h:43-43 Logger::LogLevel] *)
Inductive LogLevel := TRACE | DEBUG | INFO | WARN | ERROR | FATAL.
#[export] Instance LogLevel_eq_dec : EqDecision LogLevel.
Proof. solve_decision. Defined.

Definition level_val (l : LogLevel) : Z :=
  match l with TRACE => 0 | DEBUG => 1 | INFO => 2 | WARN => 3 | ERROR => 4 | FATAL => 5 end.

(** [src/docs/oldfiles/base/Logging.cpp:30-33 LogLevelName] *)
Definition LogLevelName (l : LogLevel) : list byte :=
  match l with
  | TRACE => bytes "[TRACE] " | DEBUG => bytes "[DEBUG] " | INFO => bytes "[INFO] "
  | WARN => bytes "[WARN] " | ERROR => bytes "[ERROR] " | FATAL => bytes "[FATAL] "
  end.

(** [src/docs/oldfiles/base/Logging.cpp:22-28 initLogLevel] from what the environment defines. *)
Definition initLogLevel (log_trace log_debug : bool) : LogLevel :=
  if log_trace then TRACE else if log_debug then DEBUG else INFO.

(** [strrchr] *)
Definition strrchr (c : byte) (l : list byte) : option Z :=
  let i := std_find c (reverse l) in if i =? zlen l then None else Some (zlen l - 1 - i).

(** [src/docs/oldfiles/base/Logging.h:38-39 Logger::SourceFile data members] *)
Record SourceFile := mkSource { data_ : list byte; size_ : Z }.

(** [src/docs/oldfiles/base/Logging.h:20-28 Logger::SourceFile::SourceFile] of a literal, its NUL left out. *)
Definition newSourceFile (arr : list byte) : SourceFile :=
  match strrchr x2f arr with
  | Some slash => mkSource (zdrop (slash + 1) arr) (zlen arr - (slash + 1))
  | None => mkSource arr (zlen arr)
  end.
(** [src/docs/oldfiles/base/Logging.h:30-36 Logger::SourceFile::SourceFile] of a name. *)
Definition sourceFile_of_name (filename : list byte) : SourceFile :=
  let data := match strrchr x2f filename with Some slash => zdrop (slash + 1) filename | None => filename end in
  mkSource data (to_signed 32 (zlen data)).

(** [src/docs/oldfiles/base/Logging.h:71-75 Logger::Impl data members] *)
Record Impl := mkImpl {
  time_ : Z;
  stream_ : LogStream;
  level_ : LogLevel;
  line_ : Z;
  basename_ : SourceFile
}.
Definition with_stream (s : LogStream) (i : Impl) : Impl := mkImpl (time_ i) s (level_ i) (line_ i) (basename_ i).

Section Statements.
Variable local_format : list byte → Z → list byte.
Variable show_double : Z → list byte.
(** [strerror_r] into the thread's array. *)
Variable strerror_ts : Z → list byte.
Variable gettid : Z.

(** [src/docs/oldfiles/base/Logging.cpp:35-38 operator<<] of a [SourceFile]. *)
Definition insert_source (sf : SourceFile) (s : LogStream) : result LogStream :=
  FixedBuffer.append (ztake (size_ sf) (data_ sf)) s.

(** [src/docs/oldfiles/base/Logging.cpp:71-73 Logger::Impl::formatTime] *)
Definition formatTime (i : Impl) : result Impl :=
  s ← LogStream.insert_view (FormerTime.Timestamp.toString local_format true (time_ i)) (stream_ i); Ok (with_stream s i).

(** [src/docs/oldfiles/base/Logging.cpp:75-77 Logger::Impl::finish] *)
Definition finish (i : Impl) : result Impl :=
  s ← LogStream.insert_cstr (Some (bytes " - ")) (stream_ i);
  s ← insert_source (basename_ i) s;
  s ← LogStream.insert_char x3a s;
  s ← LogStream.insert_integer (line_ i) s;
  s ← LogStream.insert_char x0a s;
  Ok (with_stream s i).

(** [src/docs/oldfiles/base/Logging.cpp:56-69 Logger::Impl::Impl] [now] is the clock's time; also what becomes of [errno]. *)
Definition newImpl (level : LogLevel) (old_errno : Z) (file : SourceFile) (line now errno : Z) : result (Impl * Z) :=
  i ← formatTime (mkImpl now LogStream.newStream level line file);
  s ← LogStream.insert_char x20 (stream_ i);
  s ← LogStream.insert_integer gettid s;
  s ← LogStream.insert_char x20 s;
  s ← LogStream.insert_cstr (Some (LogLevelName level)) s;
  if negb (old_errno =? 0) then
    s ← LogStream.insert_cstr (Some (strerror_ts old_errno)) s;
    s ← LogStream.insert_cstr (Some (bytes " (errno = ")) s;
    s ← LogStream.insert_integer old_errno s;
    s ← LogStream.insert_cstr (Some (bytes ") ")) s;
    Ok (with_stream s i, 0)
  else Ok (with_stream s i, errno).

(** [src/docs/oldfiles/base/Logging.cpp:79-80 Logger::Logger] *)
Definition newLogger (file : SourceFile) (line now errno : Z) : result (Impl * Z) := newImpl INFO errno file line now errno.
(** [src/docs/oldfiles/base/Logging.cpp:82-83 Logger::Logger] *)
Definition newLogger_level (file : SourceFile) (line : Z) (level : LogLevel) (now errno : Z) : result (Impl * Z) :=
  newImpl level errno file line now errno.
(** [src/docs/oldfiles/base/Logging.cpp:85-88 Logger::Logger] *)
Definition newLogger_func (file : SourceFile) (line : Z) (level : LogLevel) (func : list byte) (now errno : Z) : result (Impl * Z) :=
  '(i, errno) ← newImpl level errno file line now errno;
  s ← LogStream.insert_cstr (Some func) (stream_ i);
  s ← LogStream.insert_char x20 s;
  Ok (with_stream s i, errno).
(** [src/docs/oldfiles/base/Logging.cpp:90-91 Logger::Logger] *)
Definition newLogger_abort (file : SourceFile) (line : Z) (toAbort : bool) (now errno : Z) : result (Impl * Z) :=
  newImpl (if toAbort then FATAL else ERROR) errno file line now errno.

(** Where the lines go. *)
Section Sinks.
Context {Sink : Type}.

(** [src/docs/oldfiles/base/Logging.h:79-81 Logger static members] *)
Record statics := mkStatics {
  log_level_ : LogLevel;
  output_func_ : list byte → Sink → Sink;
  flush_func_ : Sink → Sink
}.

(** [src/docs/oldfiles/base/Logging.h:48-48 Logger::setOutput] *)
Definition setOutput (f : list byte → Sink → Sink) (st : statics) : statics := mkStatics (log_level_ st) f (flush_func_ st).
(** [src/docs/oldfiles/base/Logging.h:49-49 Logger::setFlush] *)
Definition setFlush (f : Sink → Sink) (st : statics) : statics := mkStatics (log_level_ st) (output_func_ st) f.
(** [src/docs/oldfiles/base/Logging.h:50-50 Logger::setLogLevel] *)
Definition setLogLevel (l : LogLevel) (st : statics) : statics := mkStatics l (output_func_ st) (flush_func_ st).

(** The program goes on, or it has aborted. *)
Inductive outcome := Goes (s : Sink) | Aborted (s : Sink).

(** [src/docs/oldfiles/base/Logging.cpp:98-106 Logger::~Logger] *)
Definition destroyLogger (st : statics) (i : Impl) (sink : Sink) : result outcome :=
  i ← finish i;
  let sink := output_func_ st (FixedBuffer.toString (stream_ i)) sink in
  if decide (level_ i = FATAL) then Ok (Aborted (flush_func_ st sink)) else Ok (Goes sink).

(** The statements. *)
Inductive macro := LOG_TRACE | LOG_DEBUG | LOG_INFO | LOG_WARN | LOG_ERROR | LOG_FATAL | LOG_SYSERR | LOG_SYSFATAL.

(** [src/docs/oldfiles/base/Logging.h:89-95 LOG_TRACE, LOG_DEBUG, LOG_INFO] Whether a statement is skipped. *)
Definition skipped (st : statics) (m : macro) : bool :=
  match m with
  | LOG_TRACE => negb (level_val (log_level_ st) <=? level_val TRACE)
  | LOG_DEBUG => negb (level_val (log_level_ st) <=? level_val DEBUG)
  | LOG_INFO => negb (level_val (log_level_ st) <=? level_val INFO)
  | _ => false
  end.

(** [src/docs/oldfiles/base/Logging.h:90-100 LOG_TRACE, ..., LOG_SYSFATAL] The object each creates. *)
Definition construct (m : macro) (file : SourceFile) (line : Z) (func : list byte) (now errno : Z) : result (Impl * Z) :=
  match m with
  | LOG_TRACE => newLogger_func file line TRACE func now errno
  | LOG_DEBUG => newLogger_func file line DEBUG func now errno
  | LOG_INFO => newLogger file line now errno
  | LOG_WARN => newLogger_level file line WARN now errno
  | LOG_ERROR => newLogger_level file line ERROR now errno
  | LOG_FATAL => newLogger_level file line FATAL now errno
  | LOG_SYSERR => newLogger_abort file line false now errno
  | LOG_SYSFATAL => newLogger_abort file line true now errno
  end.

(** A whole statement, and [errno] behind it. *)
Definition log (st : statics) (m : macro) (path : list byte) (line : Z) (func : list byte) (values : list LogStream.value)
    (now errno : Z) (sink : Sink) : result (outcome * Z) :=
  if skipped st m then Ok (Goes sink, errno)
  else
    '(i, errno) ← construct m (newSourceFile path) line func now errno;
    s ← foldM (LogStream.insert show_double) values (stream_ i);
    o ← destroyLogger st (with_stream s i) sink;
    Ok (o, errno).
End Sinks.
End Statements.
#[global] Arguments statics : clear implicits.
#[global] Arguments outcome : clear implicits.

(** The standard output: what has been written, and what its buffer holds. *)
Record stdio := mkStdio { written : list byte; pending : list byte }.

(** [src/docs/oldfiles/base/Logging.cpp:40-42 defaultOutput] *)
Definition defaultOutput (msg : list byte) (s : stdio) : stdio := mkStdio (written s) (pending s ++ msg).
(** [src/docs/oldfiles/base/Logging.cpp:44-46 defaultFlush] *)
Definition defaultFlush (s : stdio) : stdio := mkStdio (written s ++ pending s) [].

(** [src/docs/oldfiles/base/Logging.cpp:52-54 Logger::log_level_, Logger::output_func_, Logger::flush_func_] *)
Definition initial (log_trace log_debug : bool) : statics stdio :=
  mkStatics (initLogLevel log_trace log_debug) defaultOutput defaultFlush.
End Logger.
Import Logger.

(** ** What is kept of a line *)

(** A piece goes into the array as a whole, with a byte to spare, or not at all. *)
Definition keep (line p : list byte) : list byte := if zlen line + zlen p <? 4096 then line ++ p else line.
Definition kept (ps : list (list byte)) : list byte := foldl keep [] ps.

(** A length that an [int] can give. *)
Definition int_sized (p : list byte) : Prop := zlen p < 2 ^ 31.

(** The stream holds what is kept of these pieces. *)
Definition holds (ps : list (list byte)) (s : LogStream) : Prop :=
  zlen (FixedBuffer.data_ s) = 4096 ∧ 0 ≤ FixedBuffer.curr_ s < 4096 ∧ FixedBuffer.toString s = kept ps.

Lemma stream_text s : 0 ≤ FixedBuffer.curr_ s < 4096 → FixedBuffer.toString s = zslice 0 (FixedBuffer.curr_ s) (FixedBuffer.data_ s).
Proof.
  intros. unfold FixedBuffer.toString, FixedBuffer.length, zslice. rewrite to_signed_id by (done || lia).
  by rewrite Z.sub_0_r, zdrop_0 by lia.
Qed.

Lemma newStream_holds : holds [] LogStream.newStream.
Proof. split_and!; [by vm_compute | by vm_compute | by vm_compute | done]. Qed.

Lemma append_holds p ps s : holds ps s → int_sized p → ∃ s', FixedBuffer.append p s = Ok s' ∧ holds (ps ++ [p]) s'.
Proof.
  intros (Hd & Hc & Ht) Hp. unfold int_sized in Hp. pose proof (zlen_nonneg p).
  assert (Hl : zlen (kept ps) = FixedBuffer.curr_ s) by (rewrite <- Ht, stream_text, zlen_zslice by lia; lia).
  unfold FixedBuffer.append, FixedBuffer.avail. rewrite Hd, !to_signed_id by (done || lia).
  unfold holds, kept. rewrite foldl_app. cbn [foldl]. fold (kept ps). unfold keep. rewrite Hl.
  destruct (Z.ltb_spec (zlen p) (4096 - FixedBuffer.curr_ s)), (Z.ltb_spec (FixedBuffer.curr_ s + zlen p) 4096); try lia.
  - rewrite (ensure_true _ (0 <=? zlen p)) by (apply Z.leb_le; lia). rewrite bind_Ok. eexists. split; [done|].
    cbn [FixedBuffer.data_ FixedBuffer.curr_]. rewrite (ztake_all (zlen p)) by lia. split_and!; [rewrite zlen_zwrite; lia | lia | lia |].
    rewrite stream_text by (cbn [FixedBuffer.curr_]; lia). cbn [FixedBuffer.data_ FixedBuffer.curr_].
    rewrite zslice_zwrite_app by lia. by rewrite <- stream_text, Ht by lia.
  - exists s. split; [done|]. split_and!; (done || lia).
Qed.

Lemma insert_append show_double v s : LogStream.insert show_double v s = FixedBuffer.append (LogStream.text show_double v) s.
Proof. by destruct v as [| | | |[]| |]. Qed.

Lemma inserts_hold show_double vs ps s : holds ps s → Forall (fun v => int_sized (LogStream.text show_double v)) vs →
  ∃ s', foldM (LogStream.insert show_double) vs s = Ok s' ∧ holds (ps ++ map (LogStream.text show_double) vs) s'.
Proof.
  intros Hs Hv. revert ps s Hs. induction Hv as [|v vs Hv _ IH]; intros ps s Hs; cbn [foldM map]; [exists s; by rewrite app_nil_r|].
  rewrite insert_append. destruct (append_holds _ ps s Hs Hv) as (s1 & -> & H1). rewrite bind_Ok.
  destruct (IH _ _ H1) as (s2 & -> & H2). exists s2. by rewrite <- app_assoc in H2.
Qed.

(** The file's name in a line is that of today's lines. *)
Lemma source_basename path : ztake (size_ (newSourceFile path)) (data_ (newSourceFile path)) = LogLine.basename path.
Proof.
  unfold newSourceFile, strrchr, LogLine.basename. set (r := reverse path). set (i := std_find x2f r).
  assert (Hr : zlen r = zlen path) by (unfold zlen, r; by rewrite length_reverse).
  pose proof (std_find_range x2f r) as Hi. fold i in Hi. destruct (Z.eqb_spec i (zlen path)) as [He|Hn]; cbn [size_ data_].
  - rewrite !ztake_all by lia. unfold r. by rewrite reverse_involutive.
  - replace (zlen path - 1 - i + 1) with (zlen path - i) by lia. replace (zlen path - (zlen path - i)) with i by lia.
    assert (Hp : path = reverse (zdrop i r) ++ reverse (ztake i r)).
    { rewrite <- reverse_app, ztake_zdrop. unfold r. by rewrite reverse_involutive. }
    assert (Hlen : zlen (reverse (zdrop i r)) = zlen path - i).
    { unfold zlen at 1. rewrite length_reverse. change (Z.of_nat (length (zdrop i r))) with (zlen (zdrop i r)). rewrite zlen_zdrop; lia. }
    rewrite Hp at 2. rewrite zdrop_app_ge by lia. rewrite Hlen, zdrop_0 by lia. apply ztake_all.
    unfold zlen. rewrite length_reverse. fold (zlen (ztake i r)). rewrite zlen_ztake; lia.
Qed.

Lemma kept_length ps : zlen (kept ps) < 4096.
Proof.
  unfold kept. induction ps as [|p ps IH] using rev_ind; [by vm_compute|]. rewrite foldl_app. cbn [foldl]. unfold keep at 1.
  destruct (Z.ltb_spec (zlen (foldl keep [] ps) + zlen p) 4096); [rewrite zlen_app; lia | done].
Qed.

(** Nothing is left out of what fits, and something of what does not. *)
Lemma kept_all ps : kept ps = concat ps ↔ zlen (concat ps) < 4096.
Proof.
  split; [intros <-; apply kept_length|]. unfold kept. induction ps as [|p ps IH] using rev_ind; [done|].
  rewrite concat_app. cbn [concat]. rewrite app_nil_r, zlen_app. intros Hl. rewrite foldl_app. cbn [foldl].
  pose proof (zlen_nonneg p). rewrite IH by lia. unfold keep. destruct (Z.ltb_spec (zlen (concat ps) + zlen p) 4096); [done | lia].
Qed.

(** ** Whole statements *)

Definition level_of (m : macro) : LogLevel :=
  match m with
  | LOG_TRACE => TRACE | LOG_DEBUG => DEBUG | LOG_INFO => INFO | LOG_WARN => WARN
  | LOG_ERROR | LOG_SYSERR => ERROR | LOG_FATAL | LOG_SYSFATAL => FATAL
  end.

Section Lines.
Variable local_format : list byte → Z → list byte.
Variable show_double : Z → list byte.
Variable strerror_ts : Z → list byte.
Variable gettid : Z.

(** What a line says: the time, the thread, the level; what went wrong last, if anything has; for the two lowest levels the function. *)
Definition head_texts (l : LogLevel) (now errno : Z) : list (list byte) :=
  [FormerTime.Timestamp.toString local_format true now; [x20]; dec gettid; [x20]; LogLevelName l] ++
  (if errno =? 0 then [] else [strerror_ts errno; bytes " (errno = "; dec errno; bytes ") "]).
Definition func_texts (m : macro) (func : list byte) : list (list byte) :=
  match m with LOG_TRACE | LOG_DEBUG => [func; [x20]] | _ => [] end.
(** Where the statement is. *)
Definition tail_texts (path : list byte) (line : Z) : list (list byte) :=
  [bytes " - "; LogLine.basename path; [x3a]; dec line; [x0a]].
Definition texts (m : macro) (path : list byte) (line : Z) (func : list byte) (values : list LogStream.value) (now errno : Z) : list (list byte) :=
  head_texts (level_of m) now errno ++ func_texts m func ++ map (LogStream.text show_double) values ++ tail_texts path line.

Ltac piece H :=
  match type of H with holds ?ps ?s =>
    match goal with |- context [FixedBuffer.append ?p s] =>
      let s' := fresh "s" in let E := fresh "E" in let H' := fresh "H" in
      let Hp := fresh "Hp" in
      assert (Hp : int_sized p) by (first [assumption | by vm_compute]);
      destruct (append_holds p ps s H Hp) as (s' & E & H'); rewrite E, bind_Ok; clear H E Hp; rename H' into H
    end end.

Lemma newImpl_holds level file line now errno :
  Forall int_sized (head_texts level now errno) →
  ∃ s, newImpl local_format strerror_ts gettid level errno file line now errno = Ok (mkImpl now s level line file, 0) ∧
    holds (head_texts level now errno) s.
Proof.
  unfold head_texts. intros [Hh He]%Forall_app. rewrite !Forall_cons in Hh. destruct Hh as (Ht & _ & Hg & _ & Hn & _).
  unfold newImpl, formatTime, LogStream.insert_view, LogStream.insert_char, LogStream.insert_integer, LogStream.insert_cstr.
  cbn [stream_ time_]. pose proof newStream_holds as H. piece H. rewrite bind_Ok. cbn [stream_ with_stream].
  do 4 piece H. destruct (Z.eqb_spec errno 0) as [->|Hne]; cbn [negb].
  - eexists. split; [done|]. exact H.
  - rewrite !Forall_cons in He. destruct He as (He1 & _ & He2 & _). do 4 piece H. eexists. split; [done|]. exact H.
Qed.

Lemma construct_holds m file line func now errno :
  Forall int_sized (head_texts (level_of m) now errno) → Forall int_sized (func_texts m func) →
  ∃ s, construct local_format strerror_ts gettid m file line func now errno = Ok (mkImpl now s (level_of m) line file, 0) ∧
    holds (head_texts (level_of m) now errno ++ func_texts m func) s.
Proof.
  intros Hh Hf. destruct (newImpl_holds (level_of m) file line now errno Hh) as (s & Hs & H).
  destruct m; cbn [construct level_of func_texts] in *; unfold newLogger_func, newLogger, newLogger_level, newLogger_abort;
    rewrite Hs, ?app_nil_r; try (exists s; by split);
    rewrite bind_Ok; cbn [stream_]; unfold LogStream.insert_cstr, LogStream.insert_char; rewrite !Forall_cons in Hf; destruct Hf as (Hf & _);
    do 2 piece H; (eexists; split; [done|]); by rewrite <- app_assoc in H.
Qed.

Lemma finish_holds ps now s level line path :
  holds ps s → Forall int_sized (tail_texts path line) →
  ∃ s', finish (mkImpl now s level line (newSourceFile path)) = Ok (mkImpl now s' level line (newSourceFile path)) ∧ holds (ps ++ tail_texts path line) s'.
Proof.
  intros H Ht. unfold tail_texts in Ht. rewrite !Forall_cons in Ht. destruct Ht as (_ & Hb & _ & Hl & _).
  unfold finish, insert_source, LogStream.insert_cstr, LogStream.insert_char, LogStream.insert_integer. cbn [stream_ basename_ line_].
  rewrite source_basename. do 5 piece H. eexists. split; [done|]. by rewrite <- !app_assoc in H.
Qed.

(** A former log statement whose level is not filtered out puts out, in one call, the pieces of its line - time, thread, level, last error, function, what was
    inserted, place - except those that do not fit in the 4095 bytes that are left for them, each as a whole; so all of the line goes out
    exactly if it is shorter than 4096 bytes.  It clears [errno], and a fatal one aborts once everything is flushed.  A filtered statement does nothing. *)
Theorem former_line {Sink} (st : statics Sink) m path line func values now errno sink :
  Forall int_sized (texts m path line func values now errno) →
  let ps := texts m path line func values now errno in
  let put := output_func_ st (kept ps) sink in
  log local_format show_double strerror_ts gettid st m path line func values now errno sink =
    (if skipped st m then Ok (Goes sink, errno)
     else Ok (if decide (level_of m = FATAL) then Aborted (flush_func_ st put) else Goes put, 0)) ∧
  zlen (kept ps) < 4096 ∧ (kept ps = concat ps ↔ zlen (concat ps) < 4096).
Proof.
  intros Hall. cbv zeta. split; [|split; [apply kept_length | apply kept_all]].
  unfold log. destruct (skipped st m); [done|]. unfold texts in *. rewrite !Forall_app in Hall. destruct Hall as (Hh & Hf & Hv & Ht).
  destruct (construct_holds m (newSourceFile path) line func now errno Hh Hf) as (s & Hs & H). rewrite Hs, bind_Ok. cbn [stream_ with_stream].
  rewrite Forall_map in Hv. destruct (inserts_hold show_double values _ s H Hv) as (s1 & Hs1 & H1). rewrite Hs1, bind_Ok.
  unfold destroyLogger, with_stream. cbn [time_ level_ line_ basename_].
  destruct (finish_holds _ now s1 (level_of m) line path H1 Ht) as (s2 & Hs2 & _ & _ & H2). rewrite Hs2, bind_Ok. cbn [stream_ level_].
  rewrite H2, <- !app_assoc. by destruct (decide _).
Qed.

(** The end of the line is a piece like every other: a line of exactly 4096 bytes goes out without its newline, and the next one is printed behind it. *)
Theorem line_runs_on m path line func values now errno :
  let ps := texts m path line func values now errno in
  zlen (concat ps) = 4096 → kept ps ++ [x0a] = concat ps.
Proof.
  cbv zeta. unfold texts, tail_texts. set (qs := map _ values). intros Hl.
  set (ps := head_texts (level_of m) now errno ++ func_texts m func ++ qs ++ [bytes " - "; LogLine.basename path; [x3a]; dec line]).
  assert (Hps : head_texts (level_of m) now errno ++ func_texts m func ++ qs ++ [bytes " - "; LogLine.basename path; [x3a]; dec line; [x0a]] =
    ps ++ [[x0a]]) by (unfold ps; by rewrite <- !app_assoc).
  rewrite Hps in Hl |- *. rewrite concat_app in Hl |- *. cbn [concat] in Hl |- *. rewrite app_nil_r in Hl |- *. rewrite zlen_app in Hl. change (zlen [x0a]) with 1 in Hl.
  unfold kept. rewrite foldl_app. cbn [foldl]. fold (kept ps). rewrite (proj2 (kept_all ps)) by lia. unfold keep.
  change (zlen [x0a]) with 1. destruct (Z.ltb_spec (zlen (concat ps) + 1) 4096); [lia | done].
Qed.
End Lines.

(** ** Two statements of a server *)
Definition noon (_ : list byte) (_ : Z) : list byte := bytes "2021-08-09 12:00:00".
Definition demo_log := log (Sink := stdio) noon (fun _ => bytes "0.5") (fun _ => bytes "Broken pipe") 7.

(** A warning after a failed write, at the level INFO. *)
Lemma former_line_witness :
  demo_log (initial false false) LOG_WARN (bytes "/src/net/a.cpp") 12 (bytes "f") [LogStream.VCstr (Some (bytes "sent ")); LogStream.VInteger (-3)]
    1628500000123456 32 (mkStdio [] []) =
  Ok (Goes (mkStdio [] (bytes "2021-08-09 12:00:00.123456 7 [WARN] Broken pipe (errno = 32) sent -3 - a.cpp:12" ++ [x0a])), 0).
Proof.
  assert (Hall : Forall int_sized (texts noon (fun _ => bytes "0.5") (fun _ => bytes "Broken pipe") 7 LOG_WARN (bytes "/src/net/a.cpp") 12 (bytes "f")
    [LogStream.VCstr (Some (bytes "sent ")); LogStream.VInteger (-3)] 1628500000123456 32)).
  { repeat constructor; by vm_compute. }
  destruct (former_line noon (fun _ => bytes "0.5") (fun _ => bytes "Broken pipe") 7 (initial false false) LOG_WARN (bytes "/src/net/a.cpp") 12 (bytes "f")
    [LogStream.VCstr (Some (bytes "sent ")); LogStream.VInteger (-3)] 1628500000123456 32 (mkStdio [] []) Hall) as [Hl _].
  unfold demo_log. rewrite Hl. vm_compute. reflexivity.
Defined.

(** A message of 4049 bytes. *)
Lemma line_runs_on_witness :
  kept (texts noon (fun _ => bytes "0.5") (fun _ => bytes "Broken pipe") 7 LOG_INFO (bytes "a.cpp") 1 [] [LogStream.VView (replicate 4049 x2a)] 1628500000123456 0) ++ [x0a] =
  concat (texts noon (fun _ => bytes "0.5") (fun _ => bytes "Broken pipe") 7 LOG_INFO (bytes "a.cpp") 1 [] [LogStream.VView (replicate 4049 x2a)] 1628500000123456 0).
Proof. apply (line_runs_on noon (fun _ => bytes "0.5") (fun _ => bytes "Broken pipe") 7 LOG_INFO). vm_compute. reflexivity. Defined.
