(* ===== verification/FormerLogFile.v ===== *)
(** * The former log files: docs/oldfiles/base/FileUtil.{h,cpp} (AppendFile), docs/oldfiles/base/LogFile.{h,cpp}

    A [LogFile] of the former version writes through a C stream opened for appending.  The files are named as today, by the second, but a roll
    within the second goes on with the file there is: no line is lost ([former_file_complete], against [roll_keeps_or_loses] of
    [LogFile]).  What was lost is the end of a line that the stream does not take at once ([short_write_repeats]).  The stream, local
    times and the host's name are parameters. *)
From stdpp Require Import base list gmap numbers strings.
From Stdlib Require Import ZArith Lia Init.Byte.
From S2P Require Import Prelude.
#[local] Open Scope Z_scope.
#[local] Open Scope fm_scope.

(** The contents of the files. *)
Notation files := (gmap (list byte) (list byte)).
Definition file_text (path : list byte) (d : files) : list byte := default [] (d !! path).

Module AppendFile.

(** [src/docs/oldfiles/base/FileUtil.h:30-32 AppendFile data members] The stream's file, what the stream holds back, the count; and how often
    [fwrite] has been called. *)
Record AppendFile := mkAppend {
  fp_ : list byte;
  buffer_ : list byte;
  writen_bytes_ : Z;
  writes : nat
}.

(** [src/docs/oldfiles/base/FileUtil.cpp:15-21 AppendFile::AppendFile] [opens]: whether [fopen] succeeds; a file that exists is continued. *)
Definition newAppendFile (opens : bool) (filename : list byte) (d : files) : result (AppendFile * files) :=
  check! NullDeref opens;
  let path := c_str filename in
  Ok (mkAppend path [] 0 0, <[path := file_text path d]> d).

(** [src/docs/oldfiles/base/FileUtil.cpp:44-46 AppendFile::flush] *)
Definition flush_stream (f : AppendFile) (d : files) : AppendFile * files :=
  (mkAppend (fp_ f) [] (writen_bytes_ f) (writes f), <[fp_ f := file_text (fp_ f) d ++ buffer_ f]> d).

(** [src/docs/oldfiles/base/FileUtil.cpp:23-25 AppendFile::~AppendFile] *)
Definition destroy (f : AppendFile) (d : files) : files := snd (flush_stream f d).

Section Stream.
(** How many bytes [fwrite_unlocked] takes. *)
Variable fwrite : nat → list byte → Z.

(** [src/docs/oldfiles/base/FileUtil.cpp:48-50 AppendFile::write] *)
Definition write (logline : list byte) (f : AppendFile) : AppendFile * Z :=
  let n := fwrite (writes f) logline in
  (mkAppend (fp_ f) (buffer_ f ++ ztake n logline) (writen_bytes_ f) (S (writes f)), n).

(** The loop of [append]: each round starts at the beginning of [logline]. *)
Fixpoint append_loop (fuel : nat) (logline : list byte) (remain : Z) (f : AppendFile) : option AppendFile :=
  if remain <=? 0 then Some f
  else match fuel with
  | O => None
  | S fuel =>
      let '(f, x) := write (ztake remain logline) f in
      if x =? 0 then Some f else append_loop fuel logline (remain - x) f
  end.

(** [src/docs/oldfiles/base/FileUtil.cpp:27-42 AppendFile::append] *)
Definition append_line (logline : list byte) (f : AppendFile) : option AppendFile :=
  let len := zlen logline in
  let '(f, n) := write logline f in
  let remain := len - n in
  match append_loop (Z.to_nat remain) logline remain f with
  | Some f => Some (mkAppend (fp_ f) (buffer_ f) (writen_bytes_ f + len) (writes f))
  | None => None
  end.
End Stream.
End AppendFile.
Import AppendFile (AppendFile).

Module LogFile.

(** [src/docs/oldfiles/base/LogFile.h:36-36 LogFile::kRollPerSeconds_] *)
Definition kRollPerSeconds_ : Z := 60 * 60 * 24.

(** [src/docs/oldfiles/base/LogFile.h:38-48 LogFile data members] and the files; of the mutex whether there is one. *)
Record LogFile := mkFile {
  basename_ : list byte;
  roll_file_size_max_ : Z;
  flush_interval_ : Z;
  check_of_n_lines_ : Z;
  mutex_ : bool;
  file_ : option AppendFile;
  start_of_log_ : Z;
  last_roll_ : Z;
  last_flush_ : Z;
  count_ : Z;
  disk : files
}.

Definition set_file (a : option AppendFile) (d : files) (f : LogFile) : LogFile :=
  mkFile (basename_ f) (roll_file_size_max_ f) (flush_interval_ f) (check_of_n_lines_ f) (mutex_ f) a (start_of_log_ f) (last_roll_ f)
    (last_flush_ f) (count_ f) d.
Definition set_times (start roll flush : Z) (f : LogFile) : LogFile :=
  mkFile (basename_ f) (roll_file_size_max_ f) (flush_interval_ f) (check_of_n_lines_ f) (mutex_ f) (file_ f) start roll flush (count_ f) (disk f).
Definition set_count (n : Z) (f : LogFile) : LogFile :=
  mkFile (basename_ f) (roll_file_size_max_ f) (flush_interval_ f) (check_of_n_lines_ f) (mutex_ f) (file_ f) (start_of_log_ f) (last_roll_ f)
    (last_flush_ f) n (disk f).

Section Environment.
Variable local_format : list byte → Z → list byte.
Variable hostname : list byte.
Variable opens : bool.
Variable fwrite : nat → list byte → Z.

(** [src/docs/oldfiles/base/LogFile.cpp:78-99 LogFile::getLogFileName] at the time [now].  Neither array is initialised: a text that does not
    fit leaves it without an end. *)
Definition getLogFileName (now : Z) (basename : list byte) : result (list byte) :=
  let time_text := local_format (bytes ".%Y%m%d-%H%M%S.") now in
  check! OutOfBounds (zlen time_text <? 32);
  check! OutOfBounds (zlen hostname <? 32);
  Ok (basename ++ time_text ++ hostname ++ bytes ".log").

(** [src/docs/oldfiles/base/LogFile.cpp:67-76 LogFile::rollFile] The new stream is opened before the former one is closed. *)
Definition rollFile (now : Z) (f : LogFile) : result LogFile :=
  filename ← getLogFileName now (basename_ f);
  let start := Z.quot now kRollPerSeconds_ * kRollPerSeconds_ in
  let f := set_times start now now f in
  '(a, d) ← AppendFile.newAppendFile opens filename (disk f);
  Ok (set_file (Some a) (match file_ f with Some old => AppendFile.destroy old d | None => d end) f).

(** [src/docs/oldfiles/base/LogFile.cpp:10-26 LogFile::LogFile] *)
Definition newLogFile (basename : list byte) (rollFileSizeMax : Z) (threadSafe : bool) (flushInterval logLineMax : Z) (d : files) (now : Z) :
    result LogFile :=
  rollFile now (mkFile basename rollFileSizeMax flushInterval logLineMax threadSafe None 0 0 0 0 d).

(** [*file_] *)
Definition current (f : LogFile) : result AppendFile := match file_ f with Some a => Ok a | None => Fault NullDeref end.

(** The stream is flushed. *)
Definition flush_file (f : LogFile) : result LogFile :=
  a ← current f; let '(a, d) := AppendFile.flush_stream a (disk f) in Ok (set_file (Some a) d f).

(** [src/docs/oldfiles/base/LogFile.cpp:46-65 LogFile::append_unlocked] [now] is what [time] returns here, [now'] what it returns in [rollFile]. *)
Definition append_unlocked (logline : list byte) (now now' : Z) (f : LogFile) : option (result LogFile) :=
  match current f with
  | Fault e => Some (Fault e)
  | Ok a =>
      a ← AppendFile.append_line fwrite logline a;
      let f := set_file (Some a) (disk f) f in
      Some (if roll_file_size_max_ f <? AppendFile.writen_bytes_ a then rollFile now' f
      else
        let f := set_count (count_ f + 1) f in
        if check_of_n_lines_ f <=? count_ f then
          let f := set_count 0 f in
          let currentPeriod := Z.quot now kRollPerSeconds_ * kRollPerSeconds_ in
          if negb (currentPeriod =? start_of_log_ f) then rollFile now' f
          else if flush_interval_ f <? now - last_flush_ f then flush_file (set_times (start_of_log_ f) (last_roll_ f) now f)
          else Ok f
        else Ok f)
  end.

(** [src/docs/oldfiles/base/LogFile.cpp:28-35 LogFile::append] With or without the lock. *)
Definition append (logline : list byte) (now now' : Z) (f : LogFile) : option (result LogFile) :=
  if mutex_ f then append_unlocked logline now now' f else append_unlocked logline now now' f.

(** [src/docs/oldfiles/base/LogFile.cpp:37-44 LogFile::flush] *)
Definition flush (f : LogFile) : result LogFile := if mutex_ f then flush_file f else flush_file f.
End Environment.

(** What a file holds, with what its stream holds back. *)
Definition text (path : list byte) (f : LogFile) : list byte :=
  file_text path (disk f) ++ match file_ f with Some a => if decide (AppendFile.fp_ a = path) then AppendFile.buffer_ a else [] | None => [] end.
(** The file in use. *)
Definition in_use (f : LogFile) : option (list byte) := AppendFile.fp_ <$> file_ f.
End LogFile.
Import LogFile.

(** ** A stream that takes part of a line *)

(** [append] returns, whatever the stream takes. *)
Lemma append_loop_returns fwrite fuel logline remain a :
  (∀ k l, 0 ≤ fwrite k l ≤ zlen l) → remain ≤ Z.of_nat fuel → ∃ a', AppendFile.append_loop fwrite fuel logline remain a = Some a'.
Proof.
  intros Hw. revert remain a. induction fuel as [|fuel IH]; intros remain a Hr; cbn [AppendFile.append_loop].
  - destruct (Z.leb_spec remain 0); [by eexists | lia].
  - destruct (Z.leb_spec remain 0); [by eexists|]. unfold AppendFile.write. pose proof (Hw (AppendFile.writes a) (ztake remain logline)) as Hn.
    destruct (Z.eqb_spec (fwrite (AppendFile.writes a) (ztake remain logline)) 0); [by eexists|]. apply IH. lia.
Qed.

Lemma append_returns fwrite logline a : (∀ k l, 0 ≤ fwrite k l ≤ zlen l) → ∃ a', AppendFile.append_line fwrite logline a = Some a'.
Proof.
  intros Hw. unfold AppendFile.append_line, AppendFile.write. pose proof (Hw (AppendFile.writes a) logline).
  destruct (append_loop_returns fwrite (Z.to_nat (zlen logline - fwrite (AppendFile.writes a) logline)) logline
    (zlen logline - fwrite (AppendFile.writes a) logline)
    (AppendFile.mkAppend (AppendFile.fp_ a) (AppendFile.buffer_ a ++ ztake (fwrite (AppendFile.writes a) logline) logline) (AppendFile.writen_bytes_ a)
      (S (AppendFile.writes a))) Hw ltac:(lia)) as (a' & ->). by eexists.
Qed.

(** When the stream takes only [n] bytes of a line and all of what it is given then, the line's beginning is written again in the place of its end:
    [write(logline, remain)] ought to be [write(logline + n, remain)].  The count says that all was well. *)
Theorem short_write_repeats fwrite logline n a :
  0 < n < zlen logline → fwrite (AppendFile.writes a) logline = n → (∀ l, fwrite (S (AppendFile.writes a)) l = zlen l) →
  ∃ a', AppendFile.append_line fwrite logline a = Some a' ∧
    AppendFile.buffer_ a' = AppendFile.buffer_ a ++ ztake n logline ++ ztake (zlen logline - n) logline ∧
    AppendFile.writen_bytes_ a' = AppendFile.writen_bytes_ a + zlen logline.
Proof.
  intros Hn Hw Hrest. unfold AppendFile.append_line, AppendFile.write. rewrite Hw. set (r := zlen logline - n).
  assert (Hr : 0 < r) by (unfold r; lia). destruct (Z.to_nat r) as [|fuel] eqn:Hf; [lia|]. cbn [AppendFile.append_loop].
  destruct (Z.leb_spec r 0); [lia|]. unfold AppendFile.write. cbn [AppendFile.writes AppendFile.fp_ AppendFile.buffer_ AppendFile.writen_bytes_].
  rewrite Hrest, zlen_ztake by (unfold r; lia). destruct (Z.eqb_spec r 0); [lia|]. rewrite Z.sub_diag.
  destruct fuel; cbn [AppendFile.append_loop Z.leb]; (eexists; split; [done|]; cbn; split; [|done]);
    rewrite (ztake_all r (ztake r logline)), <- app_assoc by (rewrite zlen_ztake; unfold r; lia); done.
Qed.

Lemma short_write_repeats_witness :
  ∃ a', AppendFile.append_line (fun k l => if (k =? 0)%nat then 8 else zlen l) (bytes "user 12: ok") (AppendFile.mkAppend (bytes "log") [] 0 0) = Some a' ∧
    AppendFile.buffer_ a' = bytes "user 12:use" ∧ AppendFile.writen_bytes_ a' = 11.
Proof.
  destruct (short_write_repeats (fun k l => if (k =? 0)%nat then 8 else zlen l) (bytes "user 12: ok") 8 (AppendFile.mkAppend (bytes "log") [] 0 0))
    as (a' & Ha & Hb & Hc); [by vm_compute | done | done |].
  exists a'. split; [exact Ha|]. rewrite Hb, Hc. by split.
Defined.

(** ** Every line is kept *)

(** A run of lines, each with the readings of the clock. *)
Fixpoint appends (lf : list byte → Z → list byte) (host : list byte) (opens : bool) (fwrite : nat → list byte → Z)
    (calls : list (list byte * Z * Z)) (f : LogFile) : option (result LogFile) :=
  match calls with
  | [] => Some (Ok f)
  | (line, now, now') :: calls =>
      match LogFile.append lf host opens fwrite line now now' f with
      | Some (Ok f) => appends lf host opens fwrite calls f
      | r => r
      end
  end.

(** What goes to a file of lines marked with theirs. *)
Definition lines_of (path : list byte) (marked : list (list byte * list byte)) : list byte :=
  concat (map snd (filter (fun pl => pl.1 = path) marked)).

Section Complete.
Variable local_format : list byte → Z → list byte.
Variable hostname : list byte.
Variable fwrite : nat → list byte → Z.
Hypothesis time_fits : ∀ fmt t, zlen (local_format fmt t) < 32.
Hypothesis host_fits : zlen hostname < 32.
Hypothesis fwrite_all : ∀ k l, fwrite k l = zlen l.

(** The file of a moment. *)
Definition path_at (t : Z) (basename : list byte) : list byte :=
  c_str (basename ++ local_format (bytes ".%Y%m%d-%H%M%S.") t ++ hostname ++ bytes ".log").

(** It writes to a file named by some second. *)
Definition opened (f : LogFile) : Prop := ∃ a t, file_ f = Some a ∧ AppendFile.fp_ a = path_at t (basename_ f).

Lemma file_text_insert p q c d : file_text p (<[q := c]> d) = if decide (q = p) then c else file_text p d.
Proof.
  unfold file_text. destruct (decide (q = p)) as [->|Hne]; [by rewrite lookup_insert_eq|]. by rewrite lookup_insert_ne.
Qed.

Lemma roll_keeps now f :
  ∃ f', rollFile local_format hostname true now f = Ok f' ∧ opened f' ∧ basename_ f' = basename_ f ∧ ∀ p, text p f' = text p f.
Proof.
  unfold rollFile, getLogFileName. rewrite !ensure_true by (apply Z.ltb_lt; [exact host_fits || apply time_fits]). rewrite !bind_Ok.
  unfold AppendFile.newAppendFile. cbn [ensure]. rewrite !bind_Ok. eexists. split; [done|]. split; [|split; [done|]].
  { eexists _, now. split; [done|]. done. }
  intros p. unfold text. cbn [set_file set_times disk file_ basename_ AppendFile.fp_ AppendFile.buffer_].
  destruct (decide (c_str _ = p)) as [Hp|Hp]; rewrite app_nil_r;
    (destruct (file_ f) as [a|]; [unfold AppendFile.destroy, AppendFile.flush_stream; cbn [snd]; rewrite file_text_insert; case_decide as Ha; [subst p|]|]);
    rewrite ?file_text_insert, ?app_nil_r; repeat case_decide; congruence.
Qed.

Lemma append_all logline a :
  AppendFile.append_line fwrite logline a =
  Some (AppendFile.mkAppend (AppendFile.fp_ a) (AppendFile.buffer_ a ++ logline) (AppendFile.writen_bytes_ a + zlen logline) (S (AppendFile.writes a))).
Proof.
  unfold AppendFile.append_line, AppendFile.write. rewrite fwrite_all, Z.sub_diag. cbn [Z.to_nat AppendFile.append_loop Z.leb].
  cbn. by rewrite ztake_all.
Qed.

(** A result in which the line stands behind what the file of [t] had, every other file being as it was. *)
Definition adds (t : Z) (line : list byte) (f : LogFile) (r : result LogFile) : Prop :=
  ∃ f', r = Ok f' ∧ opened f' ∧ basename_ f' = basename_ f ∧ ∀ p, text p f' = text p f ++ (if decide (path_at t (basename_ f) = p) then line else []).

Lemma roll_adds t line f g now : adds t line f (Ok g) → adds t line f (rollFile local_format hostname true now g).
Proof.
  intros (f' & [= <-] & _ & Hb & Ht). destruct (roll_keeps now g) as (h & Hr & Ho & Hb' & Ht'). exists h.
  split_and!; [done | done | congruence|]. intros p. by rewrite Ht', Ht.
Qed.

Lemma flush_adds t line f g : adds t line f (Ok g) → adds t line f (flush_file g).
Proof.
  intros (f' & [= <-] & (a & u & Ha & Hp) & Hb & Ht). unfold flush_file, current. rewrite Ha, bind_Ok. cbn [AppendFile.flush_stream].
  eexists. split; [done|]. split; [|split; [done|]].
  - by eexists _, u.
  - intros p. rewrite <- Ht. unfold text. cbn [set_file disk file_ AppendFile.fp_ AppendFile.buffer_]. rewrite Ha, file_text_insert.
    case_decide as Hd; [by rewrite Hd, app_nil_r | done].
Qed.

(** One line. *)
Lemma append_adds line now now' f :
  opened f → ∃ t r, LogFile.append local_format hostname true fwrite line now now' f = Some r ∧ adds t line f r.
Proof.
  intros (a & t & Hf & Ha). exists t. unfold LogFile.append, append_unlocked, current. rewrite Hf, append_all. cbn [mbind option_bind].
  set (a' := AppendFile.mkAppend _ _ _ _).
  assert (Hg : ∀ g, basename_ g = basename_ f → disk g = disk f → file_ g = Some a' → adds t line f (Ok g)).
  { intros g Hb Hd Hg. exists g. split_and!; [done | exists a', t; by rewrite Hb | done |]. intros p. unfold text.
    rewrite Hd, Hg, Hf. cbn [a' AppendFile.fp_ AppendFile.buffer_]. rewrite Ha. case_decide; by rewrite <- ?app_assoc, ?app_nil_r. }
  destruct (mutex_ f); (eexists; split; [reflexivity|]);
    (destruct (_ <? _); [apply roll_adds; by apply Hg|]); (destruct (_ <=? _); [|by apply Hg]);
    (destruct (negb _); [apply roll_adds; by apply Hg|]); (destruct (_ <? _); [apply flush_adds|]; by apply Hg).
Qed.

Lemma appends_keep calls f :
  opened f →
  ∃ f' times, appends local_format hostname true fwrite calls f = Some (Ok f') ∧ opened f' ∧ length times = length calls ∧
    ∀ p, text p f' = text p f ++ lines_of p (zip (map (fun t => path_at t (basename_ f)) times) (map (fun c => c.1.1) calls)).
Proof.
  revert f. induction calls as [|[[line now] now'] calls IH]; intros f Ho; cbn [appends map].
  { exists f, []. split_and!; try done. intros p. by rewrite app_nil_r. }
  destruct (append_adds line now now' f Ho) as (t & r & -> & f1 & -> & Ho1 & Hb1 & Ht1).
  destruct (IH f1 Ho1) as (f2 & times & Hr & Ho2 & Hl & Ht2). exists f2, (t :: times).
  split_and!; [done | done | by rewrite length_cons, Hl|]. intros p. rewrite Ht2, Ht1, Hb1, <- app_assoc. f_equal.
  unfold lines_of. cbn [map zip_with fst snd]. rewrite filter_cons. cbn [fst]. by case_decide.
Qed.

(** No line is lost, not even when the file is changed several times within a second and so goes by the same name: whatever the times, no call faults, and
    when the log file is closed each line is in a file named by some second, behind those that went there before it and behind what the file held
    from the start.  (Of [fwrite] it is asked that it takes what it is given; see [short_write_repeats].) *)
Theorem former_file_complete basename max safe interval check d t0 calls :
  ∃ f0 f a times, newLogFile local_format hostname true basename max safe interval check d t0 = Ok f0 ∧
    appends local_format hostname true fwrite calls f0 = Some (Ok f) ∧ file_ f = Some a ∧ length times = length calls ∧
    ∀ p, file_text p (AppendFile.destroy a (disk f)) =
         file_text p d ++ lines_of p (zip (map (fun t => path_at t basename) times) (map (fun c => c.1.1) calls)).
Proof.
  destruct (roll_keeps t0 (mkFile basename max interval check safe None 0 0 0 0 d)) as (f0 & Hr & Ho & Hb & Ht).
  destruct (appends_keep calls f0 Ho) as (f & times & Hf & (a & u & Ha & _) & Hl & Htf). exists f0, f, a, times.
  split_and!; [done | done | done | done |]. intros p. specialize (Htf p). rewrite Ht, Hb in Htf. unfold text in Htf at 2.
  cbn [disk file_ basename_] in Htf. rewrite app_nil_r in Htf. rewrite <- Htf. unfold text. rewrite Ha.
  unfold AppendFile.destroy, AppendFile.flush_stream. cbn [snd]. rewrite file_text_insert. case_decide as Hd; [by rewrite Hd | by rewrite app_nil_r].
Qed.
End Complete.

(** Three lines of one second, each of which fills its file. *)
Lemma former_file_complete_witness :
  ∃ f0 f a (times : list Z), newLogFile (fun _ t => ztake 31 (dec t)) (bytes "host") true (bytes "app") 2 true 3 1024 ∅ 5 = Ok f0 ∧
    appends (fun _ t => ztake 31 (dec t)) (bytes "host") true (fun _ l => zlen l) [(bytes "one", 5, 5); (bytes "two", 5, 5); (bytes "six", 5, 5)] f0 = Some (Ok f) ∧
    file_ f = Some a ∧ length times = 3%nat ∧ file_text (bytes "app5host.log") (AppendFile.destroy a (disk f)) = bytes "onetwosix".
Proof.
  destruct (former_file_complete (fun _ t => ztake 31 (dec t)) (bytes "host") (fun _ l => zlen l)) with (basename := bytes "app") (max := 2) (safe := true)
    (interval := 3) (check := 1024) (d := (∅ : files)) (t0 := 5) (calls := [(bytes "one", 5, 5); (bytes "two", 5, 5); (bytes "six", 5, 5)])
    as (f0 & f & a & times & H0 & Hf & Ha & Hl & Ht).
  - intros _ t. unfold ztake, zlen. rewrite length_take. lia.
  - by vm_compute.
  - done.
  - exists f0, f, a, times. vm_compute in H0. injection H0 as <-. split; [vm_compute; reflexivity|]. split; [exact Hf|]. split; [exact Ha|]. split; [exact Hl|].
    vm_compute in Hf. injection Hf as <-. cbn in Ha. injection Ha as <-. vm_compute. reflexivity.
Defined.
