(* ===== verification/SmallServers.v ===== *)
(** * Servers of one callback: net/tests/TcpServer_test.cpp, docs/oldfiles/examples/{EchoServer,DatetimeServer}.cpp

    The echo server of the tests, which is also that of the former examples, retrieves its input as a string and sends the string, where the
    example of today sends the buffer: clients cannot tell ([string_echo_echoes]).  The former date server tells the time to whoever
    connects, and nothing else ([datetime_told]). *)
From stdpp Require Import base list gmap numbers strings.
From Stdlib Require Import ZArith Lia Init.Byte.
From S2P Require Import Prelude.
From S2P Require Import ByteBuffer.
From S2P Require Import Channel.
From S2P Require Import Poller.
From S2P Require Import EventLoop.
From S2P Require Import EventLoopSpec.
From S2P Require Import TcpConnection.
From S2P Require Import TcpConnectionSpec.
From S2P Require Import ConnectionTheorems.
From S2P Require Import ConnectionEvents.
From S2P Require Import EchoSpec.
From S2P Require Import FormerTime.
Import EventLoop.EventLoop TcpConnection.TcpConnection.
#[local] Open Scope Z_scope.
#[local] Open Scope fm_scope.

(** A local variable's string is at an address where none is yet. *)
Definition send_local (text : list byte) (w : world) : user_call := USend (fresh (dom (strings w))) text.

Module StringEcho.

(** [src/net/tests/TcpServer_test.cpp:30-34 EchoServer::onMessage] *)
Definition onMessage (w : world) : list user_call :=
  let msg := Buffer.content (input_buffer_ (conn w)) in [URetrieveAll; send_local msg w].

(** [src/net/tests/TcpServer_test.cpp:36-41 EchoServer::onConnection] It writes to the log. *)
Definition onConnection : list user_call := [].

(** [src/net/tests/TcpServer_test.cpp:12-24 EchoServer::EchoServer] The two callbacks it sets. *)
Definition behaviour (e : user_event) (w : world) : list user_call :=
  match e with OnConnection => onConnection | OnMessage _ => onMessage w | _ => [] end.
End StringEcho.

(** The server of the former examples, word for word. *)
Module FormerEcho.
(** [src/docs/oldfiles/examples/EchoServer.cpp:25-28 EchoServer::onMessage] *)
Definition former_onMessage : world → list user_call := StringEcho.onMessage.
(** [src/docs/oldfiles/examples/EchoServer.cpp:30-36 EchoServer::onConnection] *)
Definition former_onConnection : list user_call := StringEcho.onConnection.
(** [src/docs/oldfiles/examples/EchoServer.cpp:13-19 EchoServer::EchoServer] *)
Definition former_behaviour (e : user_event) (w : world) : list user_call :=
  match e with OnConnection => former_onConnection | OnMessage _ => former_onMessage w | _ => [] end.
End FormerEcho.

Module DatetimeServer.
Section Clock.
Variable local_format : list byte → Z → list byte.
(** The time when the connection is made. *)
Variable now : Z.

(** [src/docs/oldfiles/examples/DatetimeServer.cpp:28-31 DatetimeServer::onMessage] *)
Definition date_onMessage : list user_call := [URetrieveAll].

Definition telling : list byte := Timestamp.toString local_format false now.

(** [src/docs/oldfiles/examples/DatetimeServer.cpp:33-37 DatetimeServer::onConnection] *)
Definition date_onConnection (w : world) : list user_call := if isConnected (conn w) then [send_local telling w] else [].

(** [src/docs/oldfiles/examples/DatetimeServer.cpp:13-22 DatetimeServer::DatetimeServer] The two callbacks it sets. *)
Definition date_behaviour (e : user_event) (w : world) : list user_call :=
  match e with OnConnection => date_onConnection w | OnMessage _ => date_onMessage | _ => [] end.
End Clock.
End DatetimeServer.

(** What happens to a connection of a server with these callbacks, with what it reads. *)
Inductive attends (sys_write : nat → list byte → write_outcome) (B : user_event → world → list user_call) (w0 : world) : list byte → world → Prop :=
  | attend_start : attends sys_write B w0 [] w0
  | attend_step r e got w w' : attends sys_write B w0 got w → internal e → enabled (λ _, r) e w →
      connection_event sys_write B r e w = Ok w' → attends sys_write B w0 (got ++ data r e) w'.

Section Calls.
Variable sys_write : nat → list byte → write_outcome.
Hypothesis write_bounded : ∀ n d k, sys_write n d = Wrote k → 0 ≤ k ≤ zlen d.
(** The peer is there. *)
Hypothesis peer_stays : ∀ n d e, sys_write n d = WriteErr e → e ≠ EPIPE ∧ e ≠ ECONNRESET.

Lemma send_local_whole text tmp w w' :
  cinv w → state_ (conn w) = kConnected → idle_queue w → strings w !! tmp = None →
  send_bytes sys_write true tmp text w = Ok w' → whole text w w'.
Proof using write_bounded peer_stays.
  intros Hi Hs Hq Htmp Hr. unfold send_bytes in Hr. apply bind_Ok_inv in Hr as (u & Hlen & Hr). apply ensure_Ok_inv, Z.leb_le in Hlen.
  apply bind_Ok_inv in Hr as (w2 & Hr & Heq). injection Heq as <-. unfold send in Hr. cbn [conn set_strings] in Hr.
  rewrite decide_True in Hr by done. cbn [strings set_strings] in Hr. rewrite lookup_insert_eq in Hr.
  set (w1 := set_strings (<[tmp:=text]> (strings w)) w) in *.
  assert (Hf : fine (sent sys_write text w1) (sendInLoop sys_write true text w1)).
  { apply sendInLoop_sent; [exact write_bounded | apply Hi | apply Hi | | unfold w1; simpl; by rewrite Hs | done].
    apply (registered_cinv w Hi). auto. }
  rewrite Hr in Hf. cbn [fine] in Hf. pose proof (se_rest _ _ _ _ Hf) as (Hs2 & _). rewrite Hs2. cbn [w1 strings set_strings].
  rewrite delete_insert_id by done. apply (sent_whole sys_write write_bounded peer_stays); try done. by eapply sent_tmp.
Qed.

(** ** The echo *)

Lemma string_echo_echoes_once t d w w' :
  cinv w → idle_queue w → state_ (conn w) = kConnected → input w = d →
  user sys_write StringEcho.behaviour (OnMessage t) w = Ok w' →
  serving (stream w ++ d) w' ∧ written w `prefix_of` written w'.
Proof using write_bounded peer_stays.
  intros Hi Hq Hs Hd Hu. unfold user in Hu. cbn [StringEcho.behaviour StringEcho.onMessage foldM exec_call send_local] in Hu. rewrite bind_Ok in Hu.
  apply bind_Ok_inv in Hu as (w2 & Hu & Heq). injection Heq as <-.
  destruct (Buffer.retrieveAll_spec (input_buffer_ (conn w)) (ci_in _ Hi)) as (Hwf & Hempty & _).
  set (w1 := set_conn (set_input (Buffer.retrieveAll (input_buffer_ (conn w))) (conn w)) w) in *.
  destruct (set_input_good (Buffer.retrieveAll (input_buffer_ (conn w))) w Hi Hwf) as (Hi1 & _ & _). fold w1 in Hi1.
  assert (Htmp : strings w1 !! fresh (dom (strings w)) = None) by (apply not_elem_of_dom, is_fresh).
  destruct (send_local_whole _ _ w1 w2 Hi1 Hs Hq Htmp Hu) as [Hi2 Hst Hwr _ Hq2 Hin Hs2].
  split; [|exact Hwr]. constructor; try done; [by rewrite Hst, <- Hd | unfold input; by rewrite Hin | by rewrite Hs2].
Qed.
End Calls.

Section NewConnection.
Variable sys_write : nat → list byte → write_outcome.
Hypothesis write_bounded : ∀ n d k, sys_write n d = Wrote k → 0 ≤ k ≤ zlen d.
Hypothesis peer_stays : ∀ n d e, sys_write n d = WriteErr e → e ≠ EPIPE ∧ e ≠ ECONNRESET.
Variables (name : list byte) (fd : Z) (l : loc) (wc hw : bool) (lp : EventLoop functor channel_cb) (w0 : world).
Hypothesis loop_clean : clean_loop l fd lp.
Hypothesis constructed : newConnection name fd l wc hw lp = Ok w0.

(** The echo server of the tests sends back what it reads, all of it, in order and nothing else, as long as each piece fits its input buffer ([read_fits]) and
    no write fails with EPIPE or ECONNRESET; so did that of the former examples. *)
Theorem string_echo_echoes got w :
  attends sys_write StringEcho.behaviour w0 got w ∨ attends sys_write FormerEcho.former_behaviour w0 got w →
  written w ++ out w = got ∧ input w = [].
Proof using All.
  intros Ha. assert (H : attends sys_write StringEcho.behaviour w0 got w) by (destruct Ha as [Ha|Ha]; [done|]; by induction Ha; econstructor).
  clear Ha. enough (Hsv : serving got w) by (split; apply Hsv). induction H as [|r e got w w' _ IH Hint He Hp]; [by eapply new_serving|].
  eapply (echoing_step sys_write write_bounded StringEcho.behaviour r e got w w'); try done; [by intros [] | by apply string_echo_echoes_once].
Qed.

(** ** The time *)
Variable local_format : list byte → Z → list byte.
Variable now : Z.
#[local] Notation B := (DatetimeServer.date_behaviour local_format now).
#[local] Notation told := (DatetimeServer.telling local_format now).

(** Nothing is sent before the connection is established, the time from then on. *)
Record telling_state (w : world) : Prop := {
  tl_cinv : cinv w;
  tl_idle : idle_queue w;
  tl_stream : stream w = if decide (state_ (conn w) = kConnecting) then [] else told;
  tl_input : input w = []
}.

Lemma telling_step r e w w' :
  telling_state w → internal e → enabled (λ _, r) e w → connection_event sys_write B r e w = Ok w' →
  telling_state w'.
Proof using write_bounded peer_stays.
  intros [Hi Hq Hstr Hin] Hint He Hp.
  destruct (event_splits sys_write write_bounded B ltac:(by intros []) r e w w' Hi Hq Hint He Hp) as (w1 & [Hi1 Hstr1 Hwr1 _ Hq1 Hin1] & Hc).
  rewrite Hin in Hin1. cbn [app] in Hin1.
  destruct Hc as [-> Hst Hd|self _ Hst0 Hst Hd Hu|t _ Hup Hst Hd Hu|w2 Hup Hst Hcl Hd Hu ->].
  - constructor; [done.. | by rewrite Hstr1, Hst | by rewrite Hin1].
  - unfold user in Hu. cbn [DatetimeServer.date_behaviour] in Hu. unfold DatetimeServer.date_onConnection, isConnected in Hu.
    rewrite bool_decide_eq_true_2 in Hu by done. cbn [foldM exec_call send_local] in Hu.
    apply bind_Ok_inv in Hu as (w2 & Hu & Heq). injection Heq as <-.
    destruct (send_local_whole sys_write write_bounded peer_stays told (fresh (dom (strings w1))) w1 w2 Hi1 Hst Hq1) as [Hi2 Hst2 _ _ Hq2 Hin2 Hs2];
      [apply not_elem_of_dom, is_fresh | exact Hu |].
    constructor; try done.
    + rewrite Hst2, Hstr1, Hstr, Hst0, Hs2. done.
    + unfold input. rewrite Hin2. by rewrite Hd in Hin1.
  - unfold user in Hu. cbn [DatetimeServer.date_behaviour DatetimeServer.date_onMessage foldM exec_call] in Hu. rewrite bind_Ok in Hu. injection Hu as <-.
    destruct (Buffer.retrieveAll_spec (input_buffer_ (conn w1)) (ci_in _ Hi1)) as (Hwf & Hempty & _).
    constructor; [by apply set_input_good | done | | done].
    change (stream w1 = if decide (state_ (conn w1) = kConnecting) then [] else told). by rewrite Hstr1, Hst.
  - unfold user in Hu. cbn [DatetimeServer.date_behaviour] in Hu. unfold DatetimeServer.date_onConnection, isConnected in Hu.
    rewrite bool_decide_eq_false_2 in Hu by (by rewrite Hst). injection Hu as <-.
    constructor; [by apply close_callback_cinv | exact Hq1 | | by rewrite Hd in Hin1].
    change (stream w1 = if decide (state_ (conn w1) = kConnecting) then [] else told).
    rewrite Hstr1, Hstr, Hst. destruct Hup as [-> | ->]; done.
Qed.

(** A client of the former date server is told the time of its connection, once, whatever it sends itself, in pieces that fit the server's input
    buffer ([read_fits]), while no write fails with EPIPE or ECONNRESET. *)
Theorem datetime_told got w :
  attends sys_write B w0 got w →
  written w ++ out w = (if decide (state_ (conn w) = kConnecting) then [] else told) ∧ input w = [].
Proof using All.
  intros Ha. enough (H : telling_state w) by (split; apply H). induction Ha as [|r e got w w' _ IH Hint He Hp].
  - destruct (start_cinv name fd l wc hw lp w0 loop_clean constructed) as (Hi & Hs & Hstr).
    destruct (new_idle name fd l wc hw lp w0 loop_clean constructed) as (Hq & Hin & _). constructor; try done. by rewrite Hs.
  - by eapply telling_step.
Qed.
End NewConnection.

(** ** Examples *)

(** Events one after the other, each possible when it happens. *)
Fixpoint attend (B : user_event → world → list user_call) (evs : list (Buffer.readv_outcome * event)) (w w' : world) : Prop :=
  match evs with
  | [] => w = w'
  | (r, e) :: evs => internal e ∧ enabled (λ _, r) e w ∧ ∃ w1, connection_event three_bytes B r e w = Ok w1 ∧ attend B evs w1 w'
  end.

Lemma attend_attends B w0 evs got w w' :
  attends three_bytes B w0 got w → attend B evs w w' → attends three_bytes B w0 (got ++ concat (map (λ p, data p.1 p.2) evs)) w'.
Proof.
  revert got w. induction evs as [|[r e] evs IH]; intros got w Hc; simpl; [intros <-; by rewrite app_nil_r|].
  intros (Hin & He & p1 & Hp & Ht). rewrite app_assoc. eapply IH; [|exact Ht]. by eapply attend_step.
Qed.

Definition date (_ : list byte) (_ : Z) : list byte := bytes "2021-06-07 12:00:00".

(** Somebody connects and talks; three bytes of the time go out at once. *)
Lemma datetime_told_witness :
  ∃ w, written w = bytes "202" ∧ written w ++ out w = bytes "2021-06-07 12:00:00" ∧ input w = [].
Proof.
  destruct demo_ok as (lp & w0 & _ & Hc & Hn & Hd).
  assert (Hplay : ∃ w, attend (DatetimeServer.date_behaviour date 1623067200000000) [(no_input, establish); reads "hello"] w0 w ∧
    written w = bytes "202" ∧ state_ (conn w) = kConnected).
  { clear Hn Hc. vm_compute in Hd. injection Hd as <-. eexists. split; [|split].
    - cbn [attend reads]. do 2 (split; [exact I|]; split; [compute_event|]; eexists; split; [vm_compute; reflexivity|]). reflexivity.
    - vm_compute. reflexivity.
    - reflexivity. }
  destruct Hplay as (w & Hplay & Hw & Hs). exists w. split; [exact Hw|].
  destruct (datetime_told three_bytes three_bytes_bounded three_bytes_stays _ _ _ _ _ lp w0 Hc Hn date 1623067200000000 _ w
    (attend_attends _ w0 _ [] w0 w (attend_start _ _ _) Hplay)) as [Hst Hin].
  split; [|exact Hin]. rewrite Hst, Hs. reflexivity.
Defined.

Lemma string_echo_echoes_witness :
  ∃ w, written w = bytes "hel" ∧ written w ++ out w = bytes "hello!" ∧ input w = [].
Proof.
  destruct demo_ok as (lp & w0 & _ & Hc & Hn & Hd).
  assert (Hplay : ∃ w, attend StringEcho.behaviour [(no_input, establish); reads "hello"; reads "!"] w0 w ∧ written w = bytes "hel").
  { clear Hn Hc. vm_compute in Hd. injection Hd as <-. eexists. split.
    - cbn [attend reads]. do 3 (split; [exact I|]; split; [compute_event|]; eexists; split; [vm_compute; reflexivity|]). reflexivity.
    - vm_compute. reflexivity. }
  destruct Hplay as (w & Hplay & Hw). exists w. split; [exact Hw|].
  exact (string_echo_echoes three_bytes three_bytes_bounded three_bytes_stays _ _ _ _ _ lp w0 Hc Hn _ w
    (or_introl (attend_attends _ w0 _ [] w0 w (attend_start _ _ _) Hplay))).
Defined.
