(* ===== verification/TestPrograms.v ===== *)
(** * The tests of the logging library: util/tests/{StdLogger,AsyncLogger,LogLine_thread,LogFile}_test.cpp

    What these programs print, for every interleaving of their threads.  They look at nothing themselves, so that it is only seen here that in two
    of them the errors and warnings they log never come out ([stdlogger_test_prints], [asynclogger_test_prints]). *)
From stdpp Require Import base list gmap numbers strings.
From Stdlib Require Import ZArith Lia Init.Byte.
From S2P Require Import Prelude.
From S2P Require Import LogLine.
From S2P Require Import LogFile.
From S2P Require Import SpinLock.
From S2P Require Import Logger.
Import LogLine.LogLine.
#[local] Open Scope fm_scope.

(** The number of rounds of every loop. *)
Definition many : nat := N.to_nat 10000.
Lemma many_val : Z.of_nat many = 10000%Z.
Proof. unfold many. by rewrite N_nat_Z. Qed.
#[global] Opaque many.

(** The statements of a loop of [n] rounds: its lines are told apart by their number. *)
Definition rounds {A} (n : nat) (statement : nat → A) : list A := map statement (seq 0 n).

(** ** The standard logger *)
Module StdLogger_test.
Import SpinLock.SpinLock SpinLock.StdLogger.

(** A statement: its level, and its line as it is printed. *)
Definition statement : Type := LogLevel * line.

(** The lines of a thread: those of the statements whose level passes. *)
Definition issued (g : Log.globals) (sts : list statement) : list line :=
  map snd (List.filter (fun s => Log.isLowerThanOrEqualToCurr (fst s) g) sts).

Section Lines.
(** What thread [i] logs in round [k]. *)
Variable text : nat → nat → line.

(** [src/util/tests/StdLogger_test.cpp:14-29 main (its threads)] *)
Definition threads_of : list (list statement) :=
  [rounds many (fun k => (kINFO, text 0 k)); rounds many (fun k => (kINFO, text 1 k));
   rounds many (fun k => (kERROR, text 2 k)); rounds many (fun k => (kERROR, text 3 k))].

(** [src/util/tests/StdLogger_test.cpp:12-29 main] Once [initialize] has been called, the threads run with their steps in some order. *)
Definition main (schedule : list nat) : state (L := list line) (P := list byte) (U := unit) :=
  let g := Log.initialize Log.Std Log.initial in
  run add schedule (start [] tt (map (issued g) threads_of)).
End Lines.

(** [src/util/tests/StdLogger_test.cpp:30-33 main (its joins)] All threads have come to their end. *)
Definition joined (st : state (L := list line) (P := list byte) (U := unit)) : Prop :=
  ∀ i t, threads st !! i = Some t → inside t = false ∧ local t = [].
End StdLogger_test.

(** ** Lines printed under a lock of the test's own *)
Module LogLine_thread_test.
Import SpinLock.SpinLock SpinLock.StdLogger.
Section Lines.
Variable text : nat → nat → line.

(** [src/util/tests/LogLine_thread_test.cpp:13-48 main] Three threads and [main] itself; a line is built before the lock is taken. *)
Definition thread_main (schedule : list nat) : state (L := list line) (P := list byte) (U := unit) :=
  run add schedule (start [] tt [rounds many (text 0); rounds many (text 1); rounds many (text 2); rounds many (text 3)]).
End Lines.
End LogLine_thread_test.

Section Joined.
Import SpinLock.SpinLock SpinLock.StdLogger.

(** What has been printed when all threads have ended. *)
Lemma joined_lines logs schedule :
  StdLogger_test.joined (run add schedule (start [] tt logs)) →
  ∃ who, protected (run add schedule (start [] tt logs)) = printed who ∧ ∀ i lines, logs !! i = Some lines → lines_of i who = lines.
Proof.
  intros Hj. destruct (idle_lines logs schedule) as (who & Hp & Hlen & Hloc); [intros i t Ht; by apply (Hj i t)|].
  exists who. split; [done|]. intros i lines Hl. destruct (lookup_lt_is_Some_2 (threads (run add schedule (start [] tt logs))) i) as [t Ht].
  { rewrite Hlen. by eapply lookup_lt_Some. }
  rewrite (Hloc i lines t Hl Ht). destruct (Hj i t Ht) as [_ ->]. by rewrite app_nil_r.
Qed.

Lemma issued_all g l n text :
  StdLogger_test.issued g (rounds n (fun k => (l, text k))) = if Log.isLowerThanOrEqualToCurr l g then rounds n text else [].
Proof.
  unfold StdLogger_test.issued, rounds. induction (seq 0 n) as [|k ks IH]; [by case_match|]. cbn [map List.filter fst].
  case_match; cbn [map snd]; [by rewrite IH | done].
Qed.

(** The test of the standard logger prints the 10000 lines of each of its first two threads, whole and each thread's in its order, and nothing of the
    20000 errors that the other two log: the level is INFO when it is not set, and errors are behind it. *)
Theorem stdlogger_test_prints text schedule :
  StdLogger_test.joined (StdLogger_test.main text schedule) →
  ∃ who, protected (StdLogger_test.main text schedule) = printed who ∧
    lines_of 0 who = rounds many (text 0%nat) ∧ lines_of 1 who = rounds many (text 1%nat) ∧ lines_of 2 who = [] ∧ lines_of 3 who = [].
Proof.
  unfold StdLogger_test.main. cbv zeta. intros Hj. destruct (joined_lines _ _ Hj) as (who & Hp & Hl). exists who. split; [exact Hp|].
  unfold StdLogger_test.threads_of in Hl. cbn [map] in Hl. rewrite !issued_all in Hl.
  split_and!; apply Hl; done.
Qed.

(** Its counterpart without a logger prints all 40000. *)
Theorem thread_test_prints text schedule :
  StdLogger_test.joined (LogLine_thread_test.thread_main text schedule) →
  ∃ who, protected (LogLine_thread_test.thread_main text schedule) = printed who ∧ ∀ i, (i < 4)%nat → lines_of i who = rounds many (text i).
Proof.
  unfold LogLine_thread_test.thread_main. intros Hj. destruct (joined_lines _ _ Hj) as (who & Hp & Hl). exists who. split; [exact Hp|].
  intros i Hi. apply Hl. do 4 (destruct i as [|i]; [done|]). lia.
Qed.
End Joined.

(** ** The asynchronous logger *)
Module AsyncLogger_test.

(** A statement: its level and what builds its line. *)
Definition statement : Type := LogLevel * result LogLine.

Section Lines.
(** The line of thread [i] in round [k]; [main] itself is thread 0. *)
Variable text : nat → nat → LogLine.

(** [src/util/tests/AsyncLogger_test.cpp:16-29 main (its threads)] *)
Definition async_threads_of : list (list statement) :=
  [rounds many (fun k => (kINFO, Ok (text 0%nat k))); rounds many (fun k => (kDEBUG, Ok (text 1%nat k)));
   rounds many (fun k => (kERROR, Ok (text 2%nat k))); rounds many (fun k => (kWARN, Ok (text 3%nat k)))].

(** [src/util/tests/AsyncLogger_test.cpp:12-14 main (its beginning)] *)
Definition globals : Log.globals := Log.setLogLevel kINFO (Log.initialize Log.Async Log.initial).

(** Thread [i] makes its next statement. *)
Definition step (i : nat) (s : list (list statement) * Log.globals) : result (list (list statement) * Log.globals) :=
  let '(ts, g) := s in
  match ts !! i with
  | Some ((l, build) :: rest) => g ← Log.LOG (fun _ => Fault NullDeref) l build g; Ok (<[i := rest]> ts, g)
  | _ => Ok s
  end.

(** [src/util/tests/AsyncLogger_test.cpp:10-29 main] with the statements of the threads in some order. *)
Definition async_main (schedule : list nat) : result (list (list statement) * Log.globals) := foldM step schedule (async_threads_of, globals).
End Lines.
End AsyncLogger_test.

Section Async.
Import AsyncLogger_test.
Variable text : nat → nat → LogLine.

(** Threads 1 to 3 add nothing; what thread 0 has added and what it has still to log are its lines. *)
Definition only_main (s : list (list statement) * Log.globals) : Prop :=
  ∃ ts rest, s.1 = rest :: ts ∧ Forall (Forall (fun st => Log.isLowerThanOrEqualToCurr (fst st) globals = false)) ts ∧
    (∃ more, rest = map (fun l => (kINFO, Ok l)) more ∧ Log.added s.2 ++ more = rounds many (text 0%nat)) ∧
    Log.atomic_logger s.2 = Some Log.Async ∧ Log.atomic_log_level s.2 = kINFO ∧ Log.std_out s.2 = [].

Lemma only_main_step i s : only_main s → ∃ s', step i s = Ok s' ∧ only_main s'.
Proof.
  destruct s as [all g]. intros (ts & rest & Heq & Hts & (more & Hrest & Hadd) & Hlog & Hlev & Hout). cbn [fst snd] in *. subst all rest.
  assert (Hsame : only_main (map (fun l => (kINFO, Ok l)) more :: ts, g)) by (eexists ts, _; split_and!; [done | done | by exists more | done..]).
  unfold step. destruct i as [|i]; cbn [lookup list_lookup].
  - destruct more as [|l more]; cbn [map]; [by eexists|].
    unfold Log.LOG, Log.isLowerThanOrEqualToCurr, Log.FmLog_eq. rewrite Hlev, Hlog. change (level_val kINFO <=? level_val kINFO)%Z with true. cbv iota.
    rewrite !bind_Ok. eexists. split; [done|]. exists ts, (map (fun l => (kINFO, Ok l)) more). split_and!; try done.
    exists more. split; [done|]. cbn [snd Log.added]. by rewrite <- app_assoc.
  - destruct (ts !! i) as [[|[l build] sts]|] eqn:Hi; [by eexists | |by eexists].
    pose proof (Forall_lookup_1 _ _ _ _ Hts Hi) as Hf. apply Forall_cons in Hf as [Hl Hf]. cbn [fst] in Hl.
    unfold Log.LOG. replace (Log.isLowerThanOrEqualToCurr l g) with (Log.isLowerThanOrEqualToCurr l globals)
      by (unfold Log.isLowerThanOrEqualToCurr; by rewrite Hlev). rewrite Hl, bind_Ok. eexists. split; [done|].
    exists (<[i := sts]> ts), (map (fun l => (kINFO, Ok l)) more). split_and!; try done; [by apply Forall_insert | by exists more].
Qed.

(** The test of the asynchronous logger hands it the 10000 lines of [main], in their order, and nothing of what its three threads log: not the errors
    and warnings either. *)
Theorem asynclogger_test_prints schedule :
  ∃ ts g, AsyncLogger_test.async_main text schedule = Ok (ts, g) ∧ (ts = [[]; []; []; []] → Log.added g = rounds many (text 0%nat)) ∧ Log.std_out g = [].
Proof.
  assert (H0 : only_main (async_threads_of text, globals)).
  { exists [rounds many (fun k => (kDEBUG, Ok (text 1%nat k))); rounds many (fun k => (kERROR, Ok (text 2%nat k))); rounds many (fun k => (kWARN, Ok (text 3%nat k)))],
      (rounds many (fun k => (kINFO, Ok (text 0%nat k)))). split; [done|]. split.
    - assert (Hlow : ∀ l i, Log.isLowerThanOrEqualToCurr l globals = false →
        Forall (fun st => Log.isLowerThanOrEqualToCurr (fst st) globals = false) (rounds many (fun k => (l, Ok (text i k)) : statement)))
        by (intros l i Hl; unfold rounds; apply Forall_map, Forall_true; by intros).
      apply Forall_cons; split; [by apply Hlow|]. apply Forall_cons; split; [by apply Hlow|]. apply Forall_cons; split; [by apply Hlow | constructor].
    - split; [|done]. exists (rounds many (text 0%nat)). split; [|done]. unfold rounds. by rewrite map_map. }
  destruct (foldM_inv only_main step schedule _ H0) as ([ts g] & Hr & Hf); [intros i s _; apply only_main_step|].
  unfold async_main. exists ts, g. split; [exact Hr|].
  destruct Hf as (ts' & rest & Heq & _ & (more & Hrest & Hadd) & _ & _ & Hout). cbn [fst snd] in *. split; [|done].
  intros ->. injection Heq as Hr0 _. rewrite Hrest in Hr0. destruct more; [by rewrite app_nil_r in Hadd | done].
Qed.
End Async.

(** ** A log file *)
Module LogFile_test.
Import LogFile.LogFile.
#[local] Open Scope Z_scope.
Section Environment.
Variable local_format : list byte → Z → list byte.
Variable hostname : list byte.

(** [src/util/tests/LogFile_test.cpp:10-20 main] The line prints [text]; [t0] and [clock] are the readings of the clock. *)
Definition logfile_main (text : list byte) (d : gmap (list byte) (list byte)) (t0 : Z) (clock : list (Z * Z)) : result LogFile :=
  let mb := 1024 * 1024 in
  let log_file := newLogFile local_format hostname (bytes "./") (bytes "LogFile_test") (32 * mb) 1000 3 d t0 in
  foldM (fun '(now, now') f => LogFile.write local_format hostname text now now' f) clock log_file.
End Environment.
End LogFile_test.

Section OneFile.
Import LogFile.LogFile.
#[local] Open Scope Z_scope.
Variable local_format : list byte → Z → list byte.
Variable hostname : list byte.

(** Within the day on which the file was opened, and below its limit, a line goes behind the others. *)
Lemma write_same_file text now now' f :
  inv f → zlen (content f) + zlen text < log_file_max_size_ f → Z.quot now kRollPerSeconds * kRollPerSeconds = start_log_time_ f →
  ∃ f', LogFile.write local_format hostname text now now' f = Ok f' ∧ inv f' ∧ content f' = content f ++ text ∧
    log_file_ f' = log_file_ f ∧ log_file_max_size_ f' = log_file_max_size_ f ∧ start_log_time_ f' = start_log_time_ f.
Proof.
  intros Hi Hlt Hday. destruct (write_inv local_format hostname text now now' f Hi) as (f' & Hw & Hi'). exists f'.
  split; [done|]. split; [done|]. unfold LogFile.write in Hw. destruct (output_succeeds text f Hi) as (f1 & Ho). rewrite Ho, bind_Ok in Hw.
  destruct (output_content text f f1 Ho Hi) as (Hc & Hp & Hwr & Hd & Hn & Hm & Hfl & Hck & Hlc & Hst).
  rewrite (proj2 (Z.leb_gt _ _)) in Hw.
  2:{ cbn. unfold tellp. rewrite Hm, Hwr, Hc, zlen_app, (lf_bytes f Hi). lia. }
  destruct (_ <=? _); [|injection Hw as <-; by split_and!].
  cbn [start_log_time_ set_counts] in Hw. rewrite Hst, Hday, Z.eqb_refl in Hw. cbn [negb] in Hw.
  destruct (_ <? _); injection Hw as <-; by split_and!.
Qed.

Lemma writes_same_file text clock f :
  inv f → zlen (content f) + Z.of_nat (length clock) * zlen text < log_file_max_size_ f →
  Forall (fun p => Z.quot p.1 kRollPerSeconds * kRollPerSeconds = start_log_time_ f) clock →
  ∃ f', foldM (fun '(now, now') f => LogFile.write local_format hostname text now now' f) clock f = Ok f' ∧
    content f' = content f ++ concat (replicate (length clock) text) ∧ log_file_ f' = log_file_ f.
Proof.
  revert f. induction clock as [|[now now'] clock IH]; intros f Hi Hlt Hday; cbn [foldM length replicate concat].
  { exists f. by rewrite app_nil_r. }
  apply Forall_cons in Hday as [Hd Hday]. cbn [length] in Hlt. pose proof (zlen_nonneg text).
  destruct (write_same_file text now now' f Hi) as (f1 & -> & Hi1 & Hc1 & Hp1 & Hm1 & Hs1); [nia | done |]. rewrite bind_Ok.
  destruct (IH f1) as (f2 & -> & Hc2 & Hp2); [done | rewrite Hc1, zlen_app, Hm1; lia | by rewrite Hs1 |].
  exists f2. split; [done|]. split; [by rewrite Hc2, Hc1, <- app_assoc | congruence].
Qed.

(** The test of the log file writes its line 10000 times into one file, unless the line is longer than 3355 bytes or it is midnight before the test is over. *)
Theorem logfile_test_prints text d t0 clock :
  length clock = many → zlen text <= 3355 →
  Forall (fun p => Z.quot p.1 kRollPerSeconds = Z.quot t0 kRollPerSeconds) clock →
  ∃ f, LogFile_test.logfile_main local_format hostname text d t0 clock = Ok f ∧ content f = concat (replicate many text) ∧
    log_file_ f = Some (bytes "./LogFile_test" ++ timeToString local_format t0 ++ thisHostName hostname ++ bytes ".log").
Proof.
  intros Hlen Hsize Hday. unfold LogFile_test.logfile_main. cbv zeta.
  set (f0 := newLogFile local_format hostname (bytes "./") (bytes "LogFile_test") (32 * (1024 * 1024)) 1000 3 d t0).
  assert (Hc0 : content f0 = []) by (unfold content; cbn; by rewrite lookup_insert_eq).
  destruct (writes_same_file text clock f0) as (f & Hr & Hc & Hp).
  - apply rollFile_inv.
  - rewrite Hc0, Hlen. change (zlen (@nil byte)) with 0. change (log_file_max_size_ f0) with 33554432.
    rewrite many_val. lia.
  - eapply Forall_impl; [exact Hday|]. intros [now now'] Hn. cbn [fst] in *. by rewrite Hn.
  - exists f. split; [exact Hr|]. split; [by rewrite Hc, Hc0, Hlen | exact Hp].
Qed.
End OneFile.
