(* ===== verification/LineTests.v ===== *)
(** * The tests of log lines and of time stamps: util/tests/{LogLine,TimeStamp}_test.cpp

    Three lines with values of every type, printed.  The doubles are the two numbers the compiler makes of the literals; the memory has the literals and
    the array [buf].  And a time stamp, printed, moved, and read back from its bytes. *)
From stdpp Require Import base list sets numbers strings.
From Stdlib Require Import ZArith Lia Init.Byte.
From S2P Require Import Prelude.
From S2P Require Import Endian.
From S2P Require Import Time.
From S2P Require Import LogLine.
From S2P Require Import LogLineSpec.
Import LogLine.LogLine.
#[local] Open Scope Z_scope.
#[local] Open Scope fm_scope.

Module LogLine_test.

(** Where things are. *)
Definition p_file := 100.
Definition p_func := 200.
Definition p_hello := 300.
Definition p_cheap := 400.
Definition p_at := 500.
Definition p_in := 600.
Definition p_buf := 700.

(** [src/util/tests/LogLine_test.cpp:14-14 main (buf)] *)
Definition buf : list byte := bytes "tests my log code" ++ replicate 15 x00.

(** [src/util/tests/LogLine_test.cpp:29-44 main (its literals)] The characters from an address to the end of the object it points into. *)
Definition memory (p : Z) : option (list byte) :=
  if p =? p_file then Some (bytes "/src/util/tests/LogLine_test.cpp" ++ [x00])
  else if p =? p_func then Some (bytes "main" ++ [x00])
  else if p =? p_hello then Some (bytes "hello world" ++ [x00])
  else if p =? p_cheap then Some (bytes " talk is cheap" ++ [x00])
  else if p =? p_at then Some (bytes "something happens at time(" ++ [x00])
  else if p =? p_in then Some (bytes ") in main thread" ++ [x00])
  else if p =? p_buf then Some buf
  else if p =? p_buf + 5 then Some (zdrop 5 buf)
  else None.

(** [src/util/tests/LogLine_test.cpp:34-40 main (its long string)] *)
Definition long_string : list byte :=
  bytes "fasdjklk;l;l;l;l;l;l;l;kkkkkkl;kl;kkl;kl;kl;lk;lk;" ++
  bytes "lk;lk;kl;kl;kl;kl;lk;kl;kl;l;l;l;l;fjkflsda;sdsdsdsdsd" ++
  bytes "sdsdsdsdsdsd;sd;sd;sd;sd;sd;sd;sd;sd;sd;sd;sd;sd;sd;sd" ++
  bytes ";sd;sd;sdfjsdkjklsdfjklsdjfsdhfsdajkhajkajkhajkhajkhaj" ++
  bytes "khahjkajkhajkhajkhajkhajkhajkhajkhajkhfdjsfjsfhjdsk;;;;" ++
  bytes ";;;;;jfdklsssssssssssssssssssssssssssssssssssssssssssss" ++
  bytes "ssssssssssssssssdfjjfdlong string".

(** What is inserted: a value, or a [const char *] or array. *)
Inductive item := Val (v : value) | Cstr (p : Z).

Section Test.
Context `{HostOrder}.
Variable show_double : Z → list byte.
Variable strerror : Z → list byte.
Variable local_format : list byte → Z → list byte.
(** The thread, the representations of 473.32 and -324.32, and the readings of the clock: one for each line, and one for the third's text. *)
Variables (tid d1 d2 : Z) (now1 now2 now3 now : Z).

Definition put (it : item) (l : LogLine) : result LogLine :=
  match it with Val v => insert v l | Cstr p => insert_cstr memory p l end.

Definition space : item := Val (VChar x20).

(** [src/util/tests/LogLine_test.cpp:18-26 main (log_line_error)] *)
Definition error_items : list item :=
  [Val (VInt32 32); space; Val (VUInt32 43); space; Val (VInt32 (-47284)); space; Val (VInt64 9223372036854775807); space;
   Val (VInt32 (-2147483648)); space; Val (VInt32 2147483647); space; Val (VInt64 (-9223372036854775808)); space;
   Val (VDouble d1); space; Val (VDouble d2); space].

(** [src/util/tests/LogLine_test.cpp:29-40 main (log_line_info)] *)
Definition info_items : list item :=
  [Cstr p_hello; space; Val (VString (bytes " show me the code")); space; Val (VView p_cheap 14); space;
   Cstr p_buf; space; Cstr (p_buf + 5); space; Val (VString long_string)].

(** [src/util/tests/LogLine_test.cpp:43-44 main (log_line_warn)] *)
Definition warn_items : list item := [Cstr p_at; Val (VString (TimeStamp.toString local_format false now)); Cstr p_in].

(** A line of the test. *)
Definition build (level : LogLevel) (err line now : Z) (items : list item) : result LogLine :=
  l ← newLine now tid level err (p_file, 32) (p_func, 4) line;
  foldM put items l.

(** [src/util/tests/LogLine_test.cpp:13-51 main] What it prints. *)
Definition main : result (list byte) :=
  log_line_error ← build kERROR 1 17 now1 error_items;
  log_line_info ← build kDEBUG 0 28 now2 info_items;
  log_line_warn ← build kWARN 0 42 now3 warn_items;
  '(t1, _) ← stringify memory show_double strerror local_format log_line_error;
  '(t2, _) ← stringify memory show_double strerror local_format log_line_info;
  '(t3, _) ← stringify memory show_double strerror local_format log_line_warn;
  Ok (t1 ++ t2 ++ t3).
End Test.
End LogLine_test.
Import LogLine_test.

Section Printed.
Context `{HostOrder}.
Variable show_double : Z → list byte.
Variable strerror : Z → list byte.
Variable local_format : list byte → Z → list byte.

(** The value an item is: of a C string a view of it. *)
Definition item_value (it : item) : value :=
  match it with Val v => v | Cstr p => VView p (match text_at memory p with Ok s => zlen s | Fault _ => 0 end) end.

Lemma put_value it l : match it with Val _ => True | Cstr p => ∃ s, text_at memory p = Ok s end → put it l = insert (item_value it) l.
Proof. destruct it as [v|p]; [done|]. intros (s & Hs). cbn [put item_value insert]. unfold insert_cstr. by rewrite Hs, bind_Ok. Qed.

Lemma puts_values items l :
  Forall (fun it => match it with Val _ => True | Cstr p => ∃ s, text_at memory p = Ok s end) items →
  foldM put items l = foldM insert (map item_value items) l.
Proof.
  intros Hi. revert l. induction Hi as [|it items Hit _ IH]; intros l; [done|]. cbn [foldM map]. rewrite put_value by done.
  destruct (insert (item_value it) l); [|done]. by rewrite !bind_Ok, IH.
Qed.

(** A line of the test is built, and prints what the description of lines says. *)
Lemma build_prints tid level err line now items :
  - 2 ^ 31 ≤ tid < 2 ^ 31 → - 2 ^ 63 ≤ now < 2 ^ 63 → - 2 ^ 31 ≤ err < 2 ^ 31 → 0 ≤ line < 2 ^ 32 →
  Forall (fun it => match it with Val _ => True | Cstr p => ∃ s, text_at memory p = Ok s end) items →
  Forall valid (map item_value items) →
  ∃ l, build tid level err line now items = Ok l ∧
    stringify memory show_double strerror local_format l =
    line_text memory show_double strerror local_format (mkHeader now tid level err (p_file, 32) (p_func, 4) line) (map item_value items).
Proof.
  intros Ht Hn He Hl Hc Hv. set (h := mkHeader _ _ _ _ _ _ _).
  destruct (line_of_ok h) as (l0 & Hl0 & Hh0). destruct (inserts_ok (map item_value items) l0 _ Hh0) as (l & Hr & Hh).
  exists l. split; [unfold build; change (newLine now tid level err (p_file, 32) (p_func, 4) line) with (line_of h); rewrite Hl0, bind_Ok; by rewrite puts_values|].
  apply stringify_holds; [|done|done]. unfold valid_header, valid_view, h, p_file, p_func. cbn [h_now h_thread h_errno h_file h_func h_line fst snd]. lia.
Qed.

Lemma values_text_ok vs ts os :
  Forall2 (fun v t => value_text memory show_double v = Ok t) vs ts → values_text memory show_double vs os = Ok (os ++ concat ts).
Proof.
  intros Hvs. revert os. unfold values_text. induction Hvs as [|v t vs ts Hv _ IH]; intros os; cbn [foldM concat]; [by rewrite app_nil_r|].
  rewrite Hv, !bind_Ok, IH. by rewrite <- app_assoc.
Qed.

(** A line of the test from the texts of its values. *)
Lemma test_line tid level err line now vs ts :
  Forall2 (fun v t => value_text memory show_double v = Ok t) vs ts → bool_decide (level = kFATAL) = false →
  line_text memory show_double strerror local_format (mkHeader now tid level err (p_file, 32) (p_func, 4) line) vs =
  Ok (front local_format (mkHeader now tid level err (p_file, 32) (p_func, 4) line) (bytes "main") ++
      (if err =? 0 then [] else bytes "(" ++ strerror err ++ bytes ") ") ++ concat ts ++ bytes " - LogLine_test.cpp:" ++ dec line ++ [LF], false).
Proof.
  intros Hts Hl. unfold line_text. cbn [h_func h_errno h_file h_level h_line fst snd]. rewrite Hl.
  change (view_text memory p_func 4) with (Ok (bytes "main")). rewrite bind_Ok, (values_text_ok vs ts _ Hts), bind_Ok.
  change (text_at memory p_file) with (Ok (bytes "/src/util/tests/LogLine_test.cpp")). rewrite bind_Ok.
  change (basename (bytes "/src/util/tests/LogLine_test.cpp")) with (bytes "LogLine_test.cpp").
  destruct (err =? 0); cbn [negb]; by rewrite <- ?app_assoc.
Qed.

(** What is in front of a line's values. *)
Definition head (lf : list byte → Z → list byte) (now tid : Z) (level : list byte) : list byte :=
  TimeStamp.toString lf true now ++ bytes " " ++ dec tid ++ bytes " [" ++ level ++ bytes "] <main> ".
Definition place (line : list byte) : list byte := bytes " - LogLine_test.cpp:" ++ line ++ [LF].

(** The test prints its three lines: every number in decimal up to the ends of its type, every string as far as it goes, also the one of 350 characters for
    which the line has to grow twice, the C string in the middle of an array, and the error number of the first line. *)
Theorem logline_test_prints tid d1 d2 now1 now2 now3 now :
  - 2 ^ 31 ≤ tid < 2 ^ 31 → 0 ≤ d1 < 2 ^ 64 → 0 ≤ d2 < 2 ^ 64 → Forall (fun t => - 2 ^ 63 ≤ t < 2 ^ 63) [now1; now2; now3] →
  x00 ∉ TimeStamp.toString local_format false now →
  main show_double strerror local_format tid d1 d2 now1 now2 now3 now =
  Ok (head local_format now1 tid (bytes "ERROR") ++ bytes "(" ++ strerror 1 ++
        bytes ") 32 43 -47284 9223372036854775807 -2147483648 2147483647 -9223372036854775808 " ++
        show_double d1 ++ bytes " " ++ show_double d2 ++ bytes " " ++ place (bytes "17") ++
      head local_format now2 tid (bytes "DEBUG") ++ bytes "hello world  show me the code  talk is cheap tests my log code  my log code " ++
        long_string ++ place (bytes "28") ++
      head local_format now3 tid (bytes "WARN") ++ bytes "something happens at time(" ++ TimeStamp.toString local_format false now ++
        bytes ") in main thread" ++ place (bytes "42")).
Proof.
  intros Ht H1 H2 Hn Hclean. apply Forall_cons in Hn as [Hn1 Hn]. apply Forall_cons in Hn as [Hn2 Hn]. apply Forall_cons in Hn as [Hn3 _].
  assert (Hcs : ∀ p, p ∈ [p_hello; p_at; p_in; p_buf; p_buf + 5] → ∃ s, text_at memory p = Ok s).
  { intros p Hp. repeat (apply elem_of_cons in Hp as [->|Hp]; [by eexists|]). by apply elem_of_nil in Hp. }
  unfold main.
  destruct (build_prints tid kERROR 1 17 now1 (error_items d1 d2)) as (l1 & -> & E1); try done;
    [repeat constructor | repeat constructor; cbn; lia |]. rewrite bind_Ok.
  destruct (build_prints tid kDEBUG 0 28 now2 info_items) as (l2 & -> & E2); try done;
    [repeat constructor; apply Hcs; set_solver | repeat constructor; vm_compute; done |]. rewrite bind_Ok.
  destruct (build_prints tid kWARN 0 42 now3 (warn_items local_format now)) as (l3 & -> & E3); try done;
    [repeat constructor; apply Hcs; set_solver | repeat constructor; vm_compute; done |]. rewrite bind_Ok.
  rewrite E1, E2, E3.
  rewrite (test_line tid kERROR 1 17 now1 _ [bytes "32"; [x20]; bytes "43"; [x20]; bytes "-47284"; [x20]; bytes "9223372036854775807"; [x20];
    bytes "-2147483648"; [x20]; bytes "2147483647"; [x20]; bytes "-9223372036854775808"; [x20]; show_double d1; [x20]; show_double d2; [x20]]);
    [|repeat (constructor; [vm_compute; reflexivity|]); constructor | done].
  rewrite (test_line tid kDEBUG 0 28 now2 _ [bytes "hello world"; [x20]; bytes " show me the code"; [x20]; bytes " talk is cheap"; [x20];
    bytes "tests my log code"; [x20]; bytes " my log code"; [x20]; long_string]);
    [|repeat (constructor; [vm_compute; reflexivity|]); constructor | done].
  rewrite (test_line tid kWARN 0 42 now3 _ [bytes "something happens at time("; TimeStamp.toString local_format false now; bytes ") in main thread"]); [| |done].
  2:{ constructor; [vm_compute; reflexivity|]. constructor; [cbn [item_value value_text]; by rewrite c_str_app|].
      constructor; [vm_compute; reflexivity | constructor]. }
  rewrite !bind_Ok. unfold front, head, place. change (1 =? 0) with false. cbn [h_now h_thread h_level concat]. cbv iota. rewrite <- !app_assoc.
  change (dec 17) with (bytes "17"). change (dec 28) with (bytes "28"). change (dec 42) with (bytes "42").
  generalize (TimeStamp.toString local_format true now1) (TimeStamp.toString local_format true now2) (TimeStamp.toString local_format true now3)
    (TimeStamp.toString local_format false now) (dec tid) (strerror 1) (show_double d1) (show_double d2). intros. vm_compute. reflexivity.
Qed.
End Printed.

(** ** Time stamps *)
Module TimeStamp_test.
Section Test.
Context `{HostOrder}.
Variable local_format : list byte → Z → list byte.
#[local] Notation toString := (TimeStamp.toString local_format).

(** [src/util/tests/TimeStamp_test.cpp:31-34 main (saved_timestamp)] The bytes of the object copied into an array, and read as an object. *)
Definition saved_timestamp (timestamp : Z) : Z :=
  let buf := store 8 timestamp in to_signed 64 (load buf).

(** [src/util/tests/TimeStamp_test.cpp:13-42 main] The lines it prints, given the reading of the clock; the object has eight bytes. *)
Definition stamp_main (timestamp : Z) : list (list byte) :=
  [toString false timestamp; toString true timestamp;
   toString true (TimeStamp.plus timestamp 2000000); toString true (TimeStamp.plus timestamp 50000);
   toString true (TimeStamp.plus timestamp 3600000000); toString true (TimeStamp.plus timestamp 86400000000);
   TimeStamp.toFormattedString local_format (bytes "%Y-%m-%d") timestamp;
   toString true SystemClock.zero;
   TimeStamp.toFormattedString local_format (bytes "%F %T") 3600000000;
   dec (zlen (store 8 timestamp));
   toString false (saved_timestamp timestamp);
   toString true (saved_timestamp timestamp) ++ bytes " " ++ dec 12324 ++ bytes " [INFO] " ++ basename (bytes "/src/util/tests/TimeStamp_test.cpp") ++
     bytes ":" ++ dec 38 ++ bytes ":" ++ bytes "main" ++ bytes " - " ++ bytes "hello world"].

(** A time stamp survives the way through its bytes: the test's last two lines show the time of its first two. *)
Theorem timestamp_test_prints timestamp :
  - 2 ^ 63 ≤ timestamp < 2 ^ 63 →
  ∃ moved, stamp_main timestamp = toString false timestamp :: toString true timestamp :: moved ++
    [toString false timestamp; toString true timestamp ++ bytes " 12324 [INFO] TimeStamp_test.cpp:38:main - hello world"] ∧ length moved = 8%nat.
Proof.
  intros Ht. assert (Hs : saved_timestamp timestamp = timestamp).
  { unfold saved_timestamp. by rewrite (signed_load_store 8) by (simpl; lia). }
  unfold stamp_main. rewrite Hs. eexists [_; _; _; _; _; _; _; _]. split; [|done]. reflexivity.
Qed.
End Test.
End TimeStamp_test.
