(* ===== verification/FormerSame.v ===== *)
(** * What has been taken over from the former version: docs/oldfiles/base/ThreadPool.{h,cpp}, the class ReadSmallFile of
    docs/oldfiles/base/FileUtil.{h,cpp}, docs/oldfiles/examples/WebServer.cpp

    The statements of these are those of today's files word for word, up to the names of namespaces and of the time stamp's class, and so are
    their definitions; what is proved of them holds of both. *)
From stdpp Require Import base list gmap numbers strings.
From Stdlib Require Import ZArith Lia Init.Byte.
From S2P Require Import Prelude.
From S2P Require Import HttpMessage.
From S2P Require Import HttpReply.
From S2P Require ThreadPool.
From S2P Require ReadSmallFile.
From S2P Require Import ExampleServer.
From S2P Require Import HttpServerStart.
#[local] Open Scope Z_scope.
#[local] Open Scope fm_scope.

Module FormerPool.
Section Pool.
Context {T : Type}.

(** [src/docs/oldfiles/base/ThreadPool.h:43-50 ThreadPool data members] *)
Definition Pool : Type := @ThreadPool.ThreadPool.ThreadPool T.
(** [src/docs/oldfiles/base/ThreadPool.cpp:11-19 ThreadPool::ThreadPool] *)
Definition newPool : Z → Pool := ThreadPool.ThreadPool.newPool.
(** [src/docs/oldfiles/base/ThreadPool.cpp:25-27 ThreadPool::setThreadNum] *)
Definition setThreadNum : nat → Pool → result Pool := ThreadPool.ThreadPool.setThreadNum.
(** [src/docs/oldfiles/base/ThreadPool.cpp:29-33 ThreadPool::start] *)
Definition start : Pool → Pool := ThreadPool.ThreadPool.start.
(** [src/docs/oldfiles/base/ThreadPool.cpp:35-43 ThreadPool::stop] Its section, and whether its joins return. *)
Definition stop (p : Pool) : Pool * bool := (ThreadPool.ThreadPool.request_stop p, ThreadPool.ThreadPool.stop_returns (ThreadPool.ThreadPool.request_stop p)).
(** [src/docs/oldfiles/base/ThreadPool.cpp:45-57 ThreadPool::submit] *)
Definition submit : T → Pool → @ThreadPool.ThreadPool.submit_result T := ThreadPool.ThreadPool.submit.
(** [src/docs/oldfiles/base/ThreadPool.cpp:59-70 ThreadPool::take] *)
Definition take : Pool → option (option T * Pool) := ThreadPool.ThreadPool.take.
(** [src/docs/oldfiles/base/ThreadPool.cpp:72-79 ThreadPool::runInThread] *)
Definition runInThread : nat → Pool → Pool := ThreadPool.ThreadPool.runInThread.
(** [src/docs/oldfiles/base/ThreadPool.cpp:81-84 ThreadPool::isEmptyQueue] *)
Definition isEmptyQueue : Pool → bool := ThreadPool.ThreadPool.isEmptyQueue.
End Pool.
End FormerPool.

Module FormerReader.
(** [src/docs/oldfiles/base/FileUtil.h:62-66 ReadSmallFile data members] *)
Definition Reader : Type := ReadSmallFile.ReadSmallFile.ReadSmallFile.
(** [src/docs/oldfiles/base/FileUtil.h:49-49 ReadSmallFile::k128KB] *)
Definition k128KB : Z := ReadSmallFile.ReadSmallFile.k128KB.
(** [src/docs/oldfiles/base/FileUtil.cpp:52-73 ReadSmallFile::ReadSmallFile] *)
Definition newReader : Z + Z → ReadSmallFile.ReadSmallFile.stat + Z → Z → Reader := ReadSmallFile.ReadSmallFile.newReader.
(** [src/docs/oldfiles/base/FileUtil.cpp:79-100 ReadSmallFile::readToString] *)
Definition readToString : list byte → (nat → Z + Z) → Reader → Z → list byte → option (Z * list byte) := ReadSmallFile.ReadSmallFile.readToString.
(** [src/docs/oldfiles/base/FileUtil.cpp:102-113 ReadSmallFile::readFile] *)
Definition readFile : list byte → (nat → Z + Z) → Z + Z → ReadSmallFile.ReadSmallFile.stat + Z → Z → Z → list byte → option (Reader * (Z * list byte)) := ReadSmallFile.ReadSmallFile.readFile.
End FormerReader.

Module WebServer.
(** [src/docs/oldfiles/examples/WebServer.cpp:18-40 onRequest] *)
Definition onRequest : gmap (list byte) (list byte) → HttpRequest → HttpResponse → result HttpResponse := Example.onRequest.
End WebServer.
