(* ===== verification/QueueTest.v ===== *)
(** * The test of the log queue: util/tests/LogBufferQueue_test.cpp

    A reader prints what it pops until it is told to stop by a signal, and then what is left; two writers push until they are told to stop.  All that
    is printed is right ([queue_test_prints]); but a writer in the middle of a round when the signal comes pushes its line all the same, and the
    reader may have seen the queue empty before ([queue_test_misses]). *)
From stdpp Require Import base list gmap numbers strings.
From Stdlib Require Import ZArith Lia Init.Byte.
From S2P Require Import Prelude.
From S2P Require Import LogLine.
From S2P Require Import LogBuffer.
From S2P Require Import LogBufferQueue.
From S2P Require Import LogQueueSpec.
#[local] Open Scope fm_scope.

Module LogBufferQueue_test.

(** Where the reader is: waiting for [g_flag], in front of the load of [g_run], in the [pop] of its first loop, in that of its last, at its end. *)
Inductive reader := Waiting | AtTest | InPop | InDrain | Finished.

(** Where a writer is: in front of the load of [g_run], in [push], at its end. *)
Inductive writer := WTest | WPush | WEnd.

(** [src/util/tests/LogBufferQueue_test.cpp:14-15 g_flag, g_run] with the queue, the threads, and what has been printed. *)
Record test := mkTest {
  g_flag : bool;
  g_run : bool;
  log_buffer_queue : LogBufferQueue.world;
  t1 : reader;
  writers : list writer;
  printed : list LogLine
}.

Section Capacity.
Variable K : nat.

(** The next access of the [pop] it is in, and what becomes of it. *)
Definition pop_print (next : option (option LogLine) → reader) (t : test) : result test :=
  '(o, w) ← LogBufferQueue.consume K (log_buffer_queue t);
  Ok (mkTest (g_flag t) (g_run t) w (next o) (writers t) (printed t ++ LogBufferQueue.returned o)).

Definition set_t1 (r : reader) (t : test) : test := mkTest (g_flag t) (g_run t) (log_buffer_queue t) r (writers t) (printed t).

(** [src/util/tests/LogBufferQueue_test.cpp:27-49 main (t1)] The next access of the reader; its count of lines only concerns what it writes
    to [cerr]. *)
Definition reader_step (t : test) : result test :=
  match t1 t with
  | Waiting => Ok (if g_flag t then set_t1 AtTest t else t)
  | AtTest => Ok (set_t1 (if g_run t then InPop else InDrain) t)
  | InPop => pop_print (fun o => match o with None => InPop | Some _ => AtTest end) t
  | InDrain => pop_print (fun o => match o with Some None => Finished | _ => InDrain end) t
  | Finished => Ok t
  end.

(** [src/util/tests/LogBufferQueue_test.cpp:51-64 main (t2 and itself)] The next access of writer [i]; [log_line] is the line of its round. *)
Definition writer_step (i : nat) (log_line : LogLine) (t : test) : result test :=
  let go act (next : LogBufferQueue.world → writer) :=
    w ← LogBufferQueue.step K act (log_buffer_queue t);
    Ok (mkTest (g_flag t) (g_run t) w (t1 t) (<[i := next w]> (writers t)) (printed t)) in
  match writers t !! i with
  | Some WTest =>
      if g_flag t then
        if g_run t then go (LogBufferQueue.Log i log_line) (fun _ => WPush)
        else Ok (mkTest (g_flag t) (g_run t) (log_buffer_queue t) (t1 t) (<[i := WEnd]> (writers t)) (printed t))
      else Ok t
  | Some WPush =>
      go (LogBufferQueue.Go i) (fun w => match LogBufferQueue.producers w !! i with Some LogBufferQueue.Idle => WTest | _ => WPush end)
  | _ => Ok t
  end.

Inductive action :=
  | StoreFlag                              (** [g_flag.store(true)] *)
  | Signal                                 (** [signal_handler] *)
  | Reader
  | Writer (i : nat) (log_line : LogLine).

(** [src/util/tests/LogBufferQueue_test.cpp:17-19 signal_handler] and the other steps. *)
Definition step (a : action) (t : test) : result test :=
  match a with
  | StoreFlag => Ok (mkTest true (g_run t) (log_buffer_queue t) (t1 t) (writers t) (printed t))
  | Signal => Ok (mkTest (g_flag t) false (log_buffer_queue t) (t1 t) (writers t) (printed t))
  | Reader => reader_step t
  | Writer i log_line => writer_step i log_line t
  end.

(** [src/util/tests/LogBufferQueue_test.cpp:21-64 main] with these steps. *)
Definition main (actions : list action) : result test :=
  w ← LogBufferQueue.start K 2;
  foldM step actions (mkTest false true w Waiting [WTest; WTest] []).
End Capacity.
End LogBufferQueue_test.
Import LogBufferQueue_test.

Section Promise.
Variable K : nat.
Hypothesis K_pos : 0 < K.
#[local] Notation the_queue t := (LogBufferQueue.the_queue (log_buffer_queue t)).

(** A step of the test is at most one of the queue's; what is popped is printed. *)
Lemma pop_print_queue next t t' :
  pop_print K next t = Ok t' →
  LogBufferQueue.step K LogBufferQueue.Pop (log_buffer_queue t) = Ok (log_buffer_queue t') ∧
  (printed t = LogBufferQueue.popped (log_buffer_queue t) → printed t' = LogBufferQueue.popped (log_buffer_queue t')).
Proof.
  intros ([o w] & Hc & Ht)%bind_Ok_inv. injection Ht as <-. cbn [log_buffer_queue printed LogBufferQueue.step]. rewrite Hc. split; [done|].
  intros ->. apply bind_Ok_inv in Hc as ([[c q] o'] & _ & Hc). by injection Hc as <- <-.
Qed.

Lemma step_popped act w w' :
  act ≠ LogBufferQueue.Pop → LogBufferQueue.step K act w = Ok w' → LogBufferQueue.popped w' = LogBufferQueue.popped w.
Proof.
  intros Hne Hs. destruct act as [i l|i|]; cbn [LogBufferQueue.step] in Hs; [| |done].
  - destruct (_ !! i) as [[]|]; by injection Hs as <-.
  - destruct (_ !! i); [|by injection Hs as <-]. by apply bind_Ok_inv in Hs as ([[] ?] & _ & [= <-]).
Qed.

Lemma test_step_queue a t t' :
  step K a t = Ok t' →
  (log_buffer_queue t' = log_buffer_queue t ∨ ∃ act, LogBufferQueue.step K act (log_buffer_queue t) = Ok (log_buffer_queue t')) ∧
  (printed t = LogBufferQueue.popped (log_buffer_queue t) → printed t' = LogBufferQueue.popped (log_buffer_queue t')).
Proof.
  assert (Hpop : ∀ next, pop_print K next t = Ok t' →
    (log_buffer_queue t' = log_buffer_queue t ∨ ∃ act, LogBufferQueue.step K act (log_buffer_queue t) = Ok (log_buffer_queue t')) ∧
    (printed t = LogBufferQueue.popped (log_buffer_queue t) → printed t' = LogBufferQueue.popped (log_buffer_queue t'))).
  { intros next Hp. destruct (pop_print_queue next t t' Hp) as [Hs Hq]. eauto. }
  destruct a as [| | |i l]; cbn [step].
  - intros [= <-]. auto.
  - intros [= <-]. auto.
  - unfold reader_step. destruct (t1 t); [destruct (g_flag t) | | | |]; try (by apply Hpop); intros Ht; injection Ht as <-; auto.
  - unfold writer_step. destruct (writers t !! i) as [[]|]; [|..|by intros [= <-]; auto].
    + destruct (g_flag t); [|by intros [= <-]; auto]. destruct (g_run t); [|by intros [= <-]; auto].
      intros (w & Hw & Ht)%bind_Ok_inv. injection Ht as <-. cbn [log_buffer_queue printed]. split; [eauto|].
      intros ->. symmetry. by eapply step_popped; [|exact Hw].
    + intros (w & Hw & Ht)%bind_Ok_inv. injection Ht as <-. cbn [log_buffer_queue printed]. split; [eauto|].
      intros ->. symmetry. by eapply step_popped; [|exact Hw].
    + intros [= <-]. auto.
Qed.

(** Whatever the order of the steps: as long as no block has been recycled or freed, the lines printed are the first of those that got a slot, in
    that order, each once. *)
Theorem queue_test_prints actions t :
  main K actions = Ok t → pristine (the_queue t) →
  printed t = take (length (printed t)) (LogBufferQueue.claims (log_buffer_queue t)).
Proof.
  intros (w0 & Hw0 & Hr)%bind_Ok_inv Hpr. set (t0 := mkTest false true w0 Waiting [WTest; WTest] []) in Hr.
  assert (Hacts : ∀ t0, foldM (step K) actions t0 = Ok t →
    (∃ acts, foldM (LogBufferQueue.step K) acts (log_buffer_queue t0) = Ok (log_buffer_queue t)) ∧
    (printed t0 = LogBufferQueue.popped (log_buffer_queue t0) → printed t = LogBufferQueue.popped (log_buffer_queue t))).
  { clear. induction actions as [|a actions IH]; intros t0 Hr; [injection Hr as <-; by split; [exists []|]|].
    cbn [foldM] in Hr. apply bind_Ok_inv in Hr as (t1 & H1 & Hr). destruct (test_step_queue a t0 t1 H1) as [Hq Hp].
    destruct (IH t1 Hr) as [(acts & Ha) Hp']. split; [|auto]. destruct Hq as [Hq|(act & Hq)]; [exists acts; by rewrite <- Hq|].
    exists (act :: acts). cbn [foldM]. by rewrite Hq. }
  destruct (Hacts t0 Hr) as [(acts & Ha) Hp]. rewrite Hp.
  - apply (popped_prefix K K_pos). apply (queue_history_inv K K_pos acts w0); [| exact Ha | done]. by apply (start_inv K K_pos 2).
  - unfold LogBufferQueue.start in Hw0. by apply bind_Ok_inv in Hw0 as (q & _ & [= <-]).
Qed.
End Promise.

(** The signal comes when the first writer has begun a round: the reader finds the queue empty and ends, the line is pushed, and everybody has
    ended. *)
Theorem queue_test_misses :
  ∃ t, main 4 [StoreFlag; Reader; Writer 0 (demo_line 1); Signal; Reader; Reader; Reader; Writer 0 (demo_line 0); Writer 0 (demo_line 0); Writer 0 (demo_line 0); Writer 0 (demo_line 0); Writer 1 (demo_line 0)] = Ok t ∧
    t1 t = Finished ∧ writers t = [WEnd; WEnd] ∧ LogBufferQueue.claims (log_buffer_queue t) = [demo_line 1] ∧ printed t = [].
Proof. eexists. split; [vm_compute; reflexivity|]. cbn. by split_and!. Qed.
