(* ===== verification/TimerTest.v ===== *)
(** * The test of timers: net/tests/TimerQueue_test.cpp

    A timer of every three seconds, one after five seconds, and one after ten that cancels the first and ends the loop; each time the loop runs some
    time after the timer is due.  How often and when they go off, in a run: [timer_test_prints]. *)
From stdpp Require Import base list gmap numbers.
From Stdlib Require Import ZArith Lia.
From S2P Require Import Prelude.
From S2P Require Import Time.
From S2P Require Import TimerQueue.
From S2P Require Import TimerQueueSpec.
Import TimerQueue.TimerQueue.
#[local] Open Scope Z_scope.
#[local] Open Scope fm_scope.

Module TimerQueue_test.

(** The callbacks: [printInfo], and the lambda with the identifier it has captured. *)
Inductive callback := PrintInfo | CancelAndQuit (timer_id : TimerId).

(** [src/net/tests/TimerQueue_test.cpp:31-37 main (its lambda)] What it does with the queue. *)
Definition behaviour (k : callback) (q : TimerQueue callback) : list (call callback) :=
  match k with PrintInfo => [] | CancelAndQuit timer_id => [CallDel timer_id] end.

(** The queue, what has been printed and when, and whether [quit] has been called. *)
Record program := mkProgram {
  queue : TimerQueue callback;
  printed : list (callback * Z);
  quit : bool
}.

(** [src/net/tests/TimerQueue_test.cpp:29-37 main (its timers)] made at these readings of the clock. *)
Definition make_timers (now1 now2 now3 : Z) : result (TimerQueue callback) :=
  '(timer_id, q) ← runEvery first_free true now1 3000000 PrintInfo newQueue;
  '(_, q) ← runAfter first_free true now2 5000000 PrintInfo q;
  '(_, q) ← runAfter first_free true now3 10000000 (CancelAndQuit timer_id) q;
  Ok q.

(** The callbacks of the timers that are due. *)
Definition due_callbacks (now : Z) (q : TimerQueue callback) : list callback :=
  omap (fun e => Timer.callback_ <$> timers q !! snd e) (fst (lower_bound (now, uintptr_max) (timer_tree_ q))).

Definition quits (k : callback) : bool := match k with CancelAndQuit _ => true | PrintInfo => false end.

(** [src/net/tests/TimerQueue_test.cpp:16-20 printInfo] and the other callback's line, with their times.  One round of the loop: the timerfd goes off, and [late] after
    that its callback runs. *)
Definition round (late : Z) (p : program) : result program :=
  if quit p then Ok p
  else match timerfd_ (queue p) with
  | Disarmed | Expired => Ok p
  | Armed x _ =>
      let now := x + late in
      let ks := due_callbacks now (queue p) in
      q ← handleRead first_free behaviour now now (expire (queue p));
      Ok (mkProgram q (printed p ++ map (fun k => (k, now)) ks) (existsb quits ks))
  end.

(** [src/net/tests/TimerQueue_test.cpp:22-41 main] [n] rounds of the loop. *)
Definition main (now1 now2 now3 late : Z) (n : nat) : result program :=
  q ← make_timers now1 now2 now3;
  foldM (fun _ p => round late p) (replicate n tt) (mkProgram q [] false).
End TimerQueue_test.
Import TimerQueue_test.

(** A run of the test, with the timers made within 25 microseconds and the loop 300 microseconds late each time: the periodic timer goes off three times before it
    is cancelled, each time later by what the loop was late before, since it is set again from the time of the turn and not from its own; the one
    after five seconds goes off in between; the last leaves no timer behind and ends the loop. *)
Theorem timer_test_prints :
  ∃ p, main 0 10 25 300 6 = Ok p ∧ quit p = true ∧ timers (queue p) = ∅ ∧ timer_tree_ (queue p) = [] ∧
    printed p = [(PrintInfo, 3000300); (PrintInfo, 5000310); (PrintInfo, 6000600); (PrintInfo, 9000900); (CancelAndQuit (1%positive, 0), 10000325)].
Proof. eexists. split; [vm_compute; reflexivity|]. split_and!; vm_compute; reflexivity. Qed.
